(* ===== verification/_CoqProject ===== *)
-Q . S2P
Prelude.v
JsNum.v
NumParse.v
ArraySort.v
D3Array.v
JsDate.v
Ticks.v
Time.v
TimeScale.v
Nest.v
Process.v
Csv.v
Scale.v
Color.v
Shape.v
Chart.v
Axis.v
Hover.v
Transition.v
