(* ===== verification/Prelude.v ===== *)
(** * A verification development for the ridgeline chart of src/main.js

    The program (src/main.js, one d3 v5 script) loads a CSV file of weekly
    traffic, turns every row into a record [{name, date, value}] (lines
    5-9), groups the records by name with [d3.nest], sorts each group by
    date, attaches the group's [d3.sum] and sorts the groups by decreasing
    sum (lines 11-17); from the result it derives the chart's sizes, the x
    (UTC time), y (linear) and colour scales (lines 22-62) and the axes
    (lines 64-84), builds the area and line generators with d3's basis
    spline (lines 86-95), draws one SVG group per series with its label,
    filled area, outline and edge lines (lines 98-164), and on hover fades
    the other series and moves the value axis to the hovered row (lines
    169-187).

    Files, in dependency order, and what they model:
    - [Prelude]   this header, the [ridge_scope] notation [l.[i]] for
                  JavaScript's [a[i]], the [ridge] hint database, the
                  tactic [inv] and the list lemmas the other files share.
    - [JsNum]     JavaScript numbers [num] (NaN, the infinities, finite
                  values as exact rationals) with the operators, comparisons,
                  truthiness, [Math.round/min/max] the script and d3 use,
                  and the numeric equivalence [≈] with [Proper] instances.
    - [NumParse]  ECMAScript [ToNumber] on strings ([StringToNumber]: the
                  [+s] and [s * 1000] of lines 7-8), the decimal string
                  of an integer and [toFixed] ([NumberToString]), with
                  their round trips.
    - [ArraySort] [Array.prototype.sort] as a stable insertion sort, the
                  abstract specification of a stable sort, the refinement
                  and uniqueness theorems, the key comparators of lines 14
                  and 17.
    - [D3Array]   [d3.sum], [d3.max], [d3.range] and [bisectRight]
                  (by well-founded recursion, with Equations), the latter
                  proved equal to a counting reference on sorted arrays.
    - [Nest]      [d3.nest().key().sortValues().entries()]: the one-pass
                  grouping into a [d3.map], proved equal to the declarative
                  grouping in first-occurrence order.
    - [Csv]       module [D3Dsv]: what [d3.csv] does with the fetched text
                  (line 1), d3-dsv's [csvParse]: [parseRows]' tokenizer
                  ([token], with the [lexer] record of its variables [I],
                  [eof], [eol]; [skip_quoted] and [scan] its two loops),
                  the row loops [read_row] and [read_rows], and
                  [objectConverter] ([object_converter]); [load] composes
                  it with [Process.data]. [D3DsvFacts]: termination,
                  round trip with [formatRows], the objects' cells.
    - [Process]   module [Process]: lines 5-17 ([transform],
                  [csvTransformed], [nested], [data]); [ProcessFacts]: the
                  properties of [data] of the specification's section 8.
    - [Scale]     module [Continuous]: d3-scale's [normalize], [bimap],
                  [polymap], [scaleLinear] and [scaleUtc] (with TimeClip).
    - [Color]     module [D3Color]: [d3.color] on hexadecimal strings, the
                  [rgb] interpolator and [Rgb.toString].
    - [JsDate]    module [JsDate]: ECMAScript's UTC date arithmetic on
                  time values in milliseconds ([Day], [DayFromYear],
                  [YearFromTime], [MonthFromTime], [DateFromTime],
                  [MakeDay], [MakeDate], the [setUTC*] methods);
                  [JsDateFacts]: the calendar's round trips and the
                  specification of [YearFromTime].
    - [Ticks]     module [D3Ticks]: d3-array's [tickIncrement] and
                  [ticks] over the rationals, the power of ten found by a
                  fuelled search, and [tickStep] on numbers; [D3TicksFacts]:
                  its termination, the ticks' bounds and first tick.
    - [Time]      module [D3Time]: d3-time's intervals as records of
                  [floori] and [offseti], with [ceil], [range], [filter],
                  [every] and the UTC intervals from milliseconds to years;
                  [D3TimeFacts]: the interval laws as a class
                  [IntervalLaws], instances for every interval the time
                  axis can use, [range] proved to list the boundaries.
    - [TimeScale] module [D3TimeFormat]: d3-time-format's [utcFormat]
                  (en-US); [D3ScaleTime]: [scaleUtc]'s [tickInterval],
                  [ticks] and multi-scale [tickFormat]; [D3ScaleTimeFacts]:
                  the ticks' refinement, the laws of the chosen interval,
                  the labels of month starts, no ticks for a count <= 0.
    - [Shape]     module [D3Path]: d3-path's [moveTo], [lineTo],
                  [bezierCurveTo], [closePath] on a list of commands;
                  [CurveBasis]: the state and the five methods of
                  [d3.curveBasis] ([areaStart] ... [point]); [D3Shape]: the
                  loops of d3-shape's [line] and [area] generators over
                  [defined], [x], [y0], [y1]; [ShapeFacts]: the runs,
                  bounds and first-command theorems.
    - [Chart]     module [Chart]: the constants, [setup] (lines 32-62),
                  the scales [x], [y], [color], the generators [area] and
                  [line] (lines 87-95) and [render] (lines 98-164);
                  [ChartFacts]: geometry, error, bounds and colour theorems;
                  [ChartExamples]: the chart of concrete inputs.
    - [Axis]      module [YAxis]: the value axis of lines 75-84, its tick
                  values, offsets and [",f"] labels with the first tick
                  removed; [YAxisFacts]: labels read back, ticks in band;
                  [XAxis]: the time axis of lines 65-73, its ticks
                  [x.ticks(width / 80)], offsets [x(t) + 0.5] and labels;
                  [XAxisFacts]: ticks within the chart, none on a chart no
                  wider than its margins.
    - [Hover]     module [Hover]: [mouseenter] and [mouseleave] on the
                  state they write, as handlers and as a step relation, with
                  an abstract mode (idle or focused on [i]), the refinement,
                  reachable-state and safety theorems.
    - [Transition] module [D3Transition]: d3-transition's tick
                  ([easeCubicInOut], [interpolateNumber], the 500 ms
                  duration) and the interruption of a running transition;
                  [HoverTransition]: the handlers' transitions on a timeline
                  of timed events, what the page shows at a time; the
                  facts: frames in range, no jump at an event, and the page
                  settling on [Hover]'s targets.

    The theorems, by group:
    - the CSV reader ([D3DsvFacts]): the tokenizer and the loops of
      [csvParseRows] end within their fuel on every text; [csvParseRows]
      reads back the rows d3-dsv's [formatRows] writes (quoting, doubled
      quotes, commas and line breaks inside quotes); for a header of
      distinct names every row becomes an object whose property [c] is the
      cell under [c]; a blank last line is one more object, with an empty
      first column, which reaches the chart as a series named by the empty
      string;
    - the data pipeline ([ProcessFacts]): the series are ordered by
      decreasing sum and their records by date, every record lands in
      exactly one series, the keys are the distinct names, each sum is the
      exact sum of its finite values, ties keep first-occurrence order;
    - the library models: the sort refines the stable-sort specification,
      which determines its result; the nest grouping refines the
      declarative grouping; [bisectRight] counts; [ToNumber] reads back
      printed integers; the scales are affine maps; hex colours double
      their digits; [Rgb.toString] prints channels in [0, 255];
    - the chart: group [k] sits at [15k + 75] and the x axis at the last
      baseline; the render fails exactly on an empty CSV; values are drawn
      within [[-75, 0]], and so are all the y coordinates of the area and
      line paths, spline control points and baseline included; the largest
      and smallest sums get the palette's ends, and equal sums get its
      middle; a chart whose largest value is 0 draws every point at
      [-37.5], and a date outside the first series' first and last dates
      is drawn outside [[0, width]];
    - the paths: the area has one [moveTo] and one [closePath] per maximal
      run of defined records and the line one [moveTo] per run, so NaN
      values cut the ridge; with no defined record both are [null], and
      otherwise both start at the first defined point; a run of one
      record is a closed point ([M x,y Z], and a zero-width area);
    - the value axis: d3's ticks lie in the domain and start at 0 (the
      tick the script removes); every tick is an integer multiple of
      [tickStep], which is 1, 2 or 5 times a power of ten; the remaining
      ticks are drawn within the hovered band; every one of them has a
      label, printed with [precisionFixed(step)] decimals, that reads back
      as its value;
    - the time axis: [YearFromTime] is ECMAScript's "largest year whose
      start is not after [t]", and day, year, month and date convert both
      ways; every interval [tickInterval] can choose satisfies the interval
      laws, so the ticks are exactly the chosen interval's boundaries in
      the domain, in increasing order; they are drawn within [[0, width]]
      (plus d3-axis's half pixel); a tick on the first of a month is
      labelled with the month's name, or with the year on January 1; a
      chart no wider than its margins asks for [width / 80 <= 0] ticks and
      gets none;
    - the interaction: every event sequence shows what its abstract mode
      prescribes, the axis always lies on a drawn group's baseline, the
      value axis is shown exactly while one group is emphasised (safety);
    - the animation: on any timeline of events every frame keeps the
      opacities in [[0.1, 1]] and [[0, 1]] and the axis between the first
      baseline and [height]; 500 ms after the last event the
      page shows exactly what [Hover]'s refinement theorem prescribes.

    Abstractions and bounds:
    - finite numbers are exact rationals: the model does not round to
      binary64, so it is exact on the integers below 2^53 the CSV holds and
      idealises the divisions of the scales; signed zero is not
      distinguished, which no operation of the script observes;
    - the d3 functions follow the d3 v5 releases the script loads
      (d3-array 1.2, d3-collection 1.0, d3-scale 2.2, d3-color 1.4,
      d3-interpolate 1.4, d3-time 1.0, d3-time-format 2.1, d3-axis 1.0,
      d3-transition 1.3, d3-ease 1.0, d3-dsv 1.1, whose [objectConverter]
      leaves a missing cell [undefined]; the theorems on files with full
      rows hold as well for later releases, which give an empty string);
      [mouseenter(d, i)] is the v5 listener signature;
    - [NumberToString.Z_digits] runs on fuel [digits_fuel n = 1 + log2 n],
      which is at least the number of decimal digits of [n], so the printed
      string is complete ([digits_fuel_enough]); [bisect_right] terminates
      by the measure [hi - lo]; the [#rgb] theorem is checked over all 4096
      values of 12 bits by evaluation;
    - [D3Ticks.floor_log10] stands for [Math.floor(Math.log(step) /
      Math.LN10)]: it is the exact floor of the decimal logarithm, an
      upward search that starts at [-a] and runs [a + b] steps, with
      [a = 1 + log2 den] and [b = 1 + log2 (ceil q)], so that
      [10^-a <= q < 10^b]; [floor_log10_spec] proves this fuel enough.
      Where binary64 rounds the logarithm of a power of ten down, d3 takes
      the power below with factor 10 and returns the same step.  The
      factor thresholds [error >= e10, e5, e2] are taken on the squared
      error, [error^2 >= 50, 10, 2], the same comparison without the
      square root;
    - the CSV text is a list of [ascii] characters, the code units of
      [charCodeAt] for an ASCII file; the delimiter, quote, CR and LF are
      ASCII, so the tokens of a UTF-8 file split at the same places.
      [parseRows]' loops run on fuel: [skip_quoted] and [scan] get
      [1 + length], the loops over tokens [2 * length + 5]; every token
      moves the cursor or clears a flag, which [parse_rows_total] turns
      into the proof that the fuel is enough;
    - paths are the list of d3-path commands, not the string the
      [toString] of d3-path prints;
    - dates are integer milliseconds; the x domain is TimeClip'd by
      [scaleUtc], but the [Date] setters inside d3-time's intervals do not
      clip again (the model's dates are not cut at [+-8.64e15] ms, where
      JavaScript would give an invalid date); a time tick is compared with
      the domain exactly;
    - d3-time's [while] loops run on fuel: [range] gets
      [1 + (stop - start) / spacing], where [spacing] (a field of the
      model's interval, not of d3's) is at most the distance between two
      boundaries (28 days for months, 365 k days for [utcYear.every(k)]),
      and [filter]'s loops get the filter's step [k], since one boundary in
      [k] passes the test; [range_spec] and the [filter_laws] instance
      prove these fuels enough.  Only the default [range] step 1 is used
      by [scale.ticks] and modelled.

    Not modelled: the fetch of the CSV file by [d3.csv] (network I/O and
    its promise; the parsing of the text is modelled), a column named
    [__proto__] (the object literal sets the prototype), the DOM
    ([d3.select], [append], the data join; the element's [clientWidth] is an
    input), the SVG elements of both axes (tick lines and text nodes, the
    [.domain] path the script removes), the d3-time-format directives the
    time axis never prints ([%c %f %j %Q %s %u %U %V %w %W %x %X %Z]),
    the value axis' labels of a negative tick or of one from [10^21] on,
    the printing of the path commands' numbers
    into the [d] attribute string and of a transition frame's fractional
    values into the [style] and [transform] strings, the discrete timing of
    [requestAnimationFrame] (a frame may come at any time; the model shows
    the frame at every time), and the non-hexadecimal branches of
    [d3.color], which the palette never uses.
*)

From Stdlib Require Import List Permutation Sorted Bool ZArith Lia.
Import ListNotations.

Declare Scope ridge_scope.
Delimit Scope ridge_scope with ridge.

(** JavaScript's [a[i]]: [undefined] (here [None]) out of range. *)
Notation "l .[ i ]" := (nth_error l i)
  (at level 1, format "l .[ i ]") : ridge_scope.

Create HintDb ridge.

Ltac inv H := inversion H; subst; clear H.

(** Case analysis on every boolean comparison of integers in the goal. *)
Ltac zcases :=
  repeat match goal with
         | |- context [Z.ltb ?a ?b] => destruct (Z.ltb_spec a b)
         | |- context [Z.leb ?a ?b] => destruct (Z.leb_spec a b)
         | |- context [Z.eqb ?a ?b] => destruct (Z.eqb_spec a b)
         end.

(** ** Lists *)

Section Lists.
Context {A : Type}.

Lemma filter_ext_In (f g : A -> bool) (l : list A) :
  (forall x, In x l -> f x = g x) -> filter f l = filter g l.
Proof.
  induction l as [|a l IH]; intros H; simpl; [reflexivity|].
  rewrite (H a (or_introl eq_refl)), IH by (intros; apply H; right; auto).
  reflexivity.
Qed.

Lemma filter_none (f : A -> bool) (l : list A) :
  (forall x, In x l -> f x = false) -> filter f l = [].
Proof.
  induction l as [|a l IH]; intros H; simpl; [reflexivity|].
  rewrite (H a (or_introl eq_refl)). apply IH. intros; apply H; right; auto.
Qed.

Lemma filter_all (f : A -> bool) (l : list A) :
  (forall x, In x l -> f x = true) -> filter f l = l.
Proof.
  induction l as [|a l IH]; intros H; simpl; [reflexivity|].
  rewrite (H a (or_introl eq_refl)), IH by (intros; apply H; right; auto).
  reflexivity.
Qed.

Lemma filter_filter_comm (f g : A -> bool) (l : list A) :
  filter f (filter g l) = filter g (filter f l).
Proof.
  induction l as [|a l IH]; simpl; [reflexivity|].
  destruct (g a) eqn:Hg, (f a) eqn:Hf; simpl; rewrite ?Hg, ?Hf, IH; reflexivity.
Qed.

Lemma Permutation_filter (f : A -> bool) (l l' : list A) :
  Permutation l l' -> Permutation (filter f l) (filter f l').
Proof.
  induction 1; simpl; try constructor.
  - destruct (f x); auto.
  - destruct (f x), (f y); auto using perm_swap, Permutation_refl.
  - eapply Permutation_trans; eauto.
Qed.

Lemma Permutation_filter_split (f : A -> bool) (l : list A) :
  Permutation l (filter f l ++ filter (fun x => negb (f x)) l).
Proof.
  induction l as [|a l IH]; simpl; [constructor|].
  destruct (f a); simpl.
  - constructor. exact IH.
  - eapply Permutation_trans; [apply perm_skip, IH|]. apply Permutation_middle.
Qed.

Lemma StronglySorted_app_inv (R : A -> A -> Prop) (l1 l2 : list A) :
  StronglySorted R (l1 ++ l2) ->
  StronglySorted R l1 /\ StronglySorted R l2 /\
  (forall x y, In x l1 -> In y l2 -> R x y).
Proof.
  induction l1 as [|a l1 IH]; simpl; intros H.
  - repeat split; auto using SSorted_nil. intros x y [].
  - apply StronglySorted_inv in H as [H1 H2].
    destruct (IH H1) as (S1 & S2 & HR).
    rewrite Forall_forall in H2.
    repeat split; auto.
    + constructor; auto. apply Forall_forall. intros; apply H2, in_or_app; auto.
    + intros x y [<-|Hx] Hy; auto using in_or_app.
Qed.
Lemma nth_error_repeat_Some (x o : A) (n j : nat) : nth_error (repeat x n) j = Some o -> o = x.
Proof. intros H. apply nth_error_In, repeat_spec in H. exact H. Qed.

Lemma nth_error_seq_Some (s n j k : nat) : nth_error (seq s n) j = Some k -> k = (s + j)%nat.
Proof.
  revert s j. induction n as [|n IH]; intros s j H; [destruct j; discriminate|].
  destruct j as [|j]; simpl in H; [injection H; lia|]. apply IH in H. lia.
Qed.

Lemma StronglySorted_nth (R : A -> A -> Prop) (l : list A) (d : A) i j :
  StronglySorted R l -> (i < j < length l)%nat -> R (nth i l d) (nth j l d).
Proof.
  revert i j. induction l as [|y l IH]; intros i j HS Hij; simpl in *; [lia|].
  inversion HS as [|? ? HS' HF]; subst. destruct i as [|i], j as [|j]; try lia.
  - rewrite Forall_forall in HF. apply HF, nth_In. lia.
  - apply IH; auto. lia.
Qed.

Lemma StronglySorted_impl_In (R R' : A -> A -> Prop) (l : list A) :
  (forall x y, In x l -> In y l -> R x y -> R' x y) ->
  StronglySorted R l -> StronglySorted R' l.
Proof.
  induction l as [|a l IH]; intros H HS; [constructor|].
  apply StronglySorted_inv in HS as [HS HF]. constructor.
  - apply IH; auto. intros; apply H; simpl; auto.
  - rewrite Forall_forall in HF |- *. intros y Hy. apply H; simpl; auto.
Qed.
End Lists.

#[export] Hint Resolve Permutation_filter Permutation_refl nth_error_In : ridge.

(** ** Grouping by a key *)

Section Grouping.
Context {A B : Type} (f : A -> B) (eqb : B -> B -> bool).
Hypothesis eqb_iff : forall x y, eqb x y = true <-> x = y.

Lemma eqb_refl_g x : eqb x x = true.
Proof. apply eqb_iff. reflexivity. Qed.

Lemma filter_eq_filter_neq (k k' : B) (l : list A) :
  k' <> k ->
  filter (fun x => eqb (f x) k') (filter (fun x => negb (eqb (f x) k)) l) =
  filter (fun x => eqb (f x) k') l.
Proof.
  intros Hne. induction l as [|x l IH]; simpl; [reflexivity|].
  destruct (eqb (f x) k) eqn:E1; simpl.
  - apply eqb_iff in E1. destruct (eqb (f x) k') eqn:E2; [|exact IH].
    apply eqb_iff in E2. congruence.
  - destruct (eqb (f x) k'); [f_equal|]; exact IH.
Qed.

(** Splitting a list into the classes of the keys [u] (each key once,
    every element's key among them) permutes it. *)
Lemma Permutation_concat_filter (u : list B) (l : list A) :
  NoDup u -> (forall x, In x l -> In (f x) u) ->
  Permutation l (concat (map (fun k => filter (fun x => eqb (f x) k) l) u)).
Proof.
  revert l. induction u as [|k u IH]; intros l Hu Hl; simpl.
  - destruct l as [|x l]; [constructor|]. destruct (Hl x (or_introl eq_refl)).
  - inversion Hu as [|? ? Hk Hu']; subst.
    eapply Permutation_trans; [apply (Permutation_filter_split (fun x => eqb (f x) k))|].
    apply Permutation_app_head.
    erewrite map_ext_in.
    + apply (IH _ Hu'). intros x Hx. apply filter_In in Hx as [Hx Hneg].
      destruct (Hl x Hx) as [E|E]; auto.
      rewrite <- E, eqb_refl_g in Hneg. discriminate.
    + intros k' Hk'. simpl. symmetry. apply filter_eq_filter_neq. congruence.
Qed.
End Grouping.

Lemma forallb_Forall {A} (f : A -> bool) (l : list A) :
  forallb f l = true -> Forall (fun x => f x = true) l.
Proof. intros H. apply Forall_forall. apply forallb_forall. exact H. Qed.
