(* ===== verification/JsNum.v ===== *)
(** JavaScript numbers as the script uses them: [NaN], the two infinities
    and finite values (exact rationals), with the operators [+ - * /], the
    relational operators (false on [NaN]), [isNaN], [ToBoolean] and the
    comparator normalisation of [Array.prototype.sort] (a [NaN] result counts
    as [+0]).  [num_eq] identifies finite numbers up to [Qeq]; every
    operation is a morphism for it, so [rewrite] works on [num_eq]. *)

From Stdlib Require Import QArith Qabs Qround Qminmax Lqa Lia Setoid Morphisms List.
From S2P Require Import Prelude.
Import ListNotations.

Inductive num : Type :=
| NaN
| PosInf
| NegInf
| Fin (q : Q).

Declare Scope num_scope.
Delimit Scope num_scope with num.
Bind Scope num_scope with num.

Definition num_eq (a b : num) : Prop :=
  match a, b with
  | NaN, NaN | PosInf, PosInf | NegInf, NegInf => True
  | Fin p, Fin q => (p == q)%Q
  | _, _ => False
  end.

Infix "≈" := num_eq (at level 70, no associativity) : num_scope.
Local Open Scope num_scope.

(** Number literals of the script ([15], [75], [1000], [0.1], ...). *)
Definition nz (z : Z) : num := Fin (inject_Z z).

(** ** Arithmetic (ECMAScript Number::add, ::unaryMinus, ::multiply, ::divide) *)

Definition neg (a : num) : num :=
  match a with
  | NaN => NaN
  | PosInf => NegInf
  | NegInf => PosInf
  | Fin q => Fin (- q)
  end.

Definition add (a b : num) : num :=
  match a, b with
  | NaN, _ | _, NaN => NaN
  | PosInf, NegInf | NegInf, PosInf => NaN
  | PosInf, _ | _, PosInf => PosInf
  | NegInf, _ | _, NegInf => NegInf
  | Fin p, Fin q => Fin (p + q)
  end.

Definition sub (a b : num) : num := add a (neg b).

(** The sign of a number that is not NaN; [None] for NaN and zero. *)
Definition sign_of (a : num) : option bool :=
  match a with
  | NaN => None
  | PosInf => Some true
  | NegInf => Some false
  | Fin q => match Qcompare q 0 with Gt => Some true | Lt => Some false | Eq => None end
  end.

Definition inf_of_sign (pos : bool) : num := if pos then PosInf else NegInf.

Definition mul (a b : num) : num :=
  match a, b with
  | NaN, _ | _, NaN => NaN
  | Fin p, Fin q => Fin (p * q)
  | _, _ =>
      match sign_of a, sign_of b with
      | Some sa, Some sb => inf_of_sign (Bool.eqb sa sb)
      | _, _ => NaN          (* an infinity times zero *)
      end
  end.

Definition div (a b : num) : num :=
  match a, b with
  | NaN, _ | _, NaN => NaN
  | Fin p, Fin q =>
      if Qeq_bool q 0 then
        match sign_of a with Some s => inf_of_sign s | None => NaN end
      else Fin (p / q)
  | Fin _, _ => Fin 0
  | _, Fin q =>
      match sign_of a, sign_of b with
      | Some sa, Some sb => inf_of_sign (Bool.eqb sa sb)
      | Some sa, None => inf_of_sign sa
      | _, _ => NaN
      end
  | _, _ => NaN              (* an infinity divided by an infinity *)
  end.

Infix "+" := add : num_scope.
Infix "-" := sub : num_scope.
Infix "*" := mul : num_scope.
Infix "/" := div : num_scope.

(** ** Relational operators, [isNaN], [ToBoolean] *)

(** The abstract relational comparison: [None] when either side is NaN
    (the [undefined] of the specification, which makes [<] false). *)
Definition num_compare (a b : num) : option comparison :=
  match a, b with
  | NaN, _ | _, NaN => None
  | PosInf, PosInf | NegInf, NegInf => Some Eq
  | PosInf, _ | _, NegInf => Some Gt
  | NegInf, _ | _, PosInf => Some Lt
  | Fin p, Fin q => Some (Qcompare p q)
  end.

Definition ltb (a b : num) : bool :=
  match num_compare a b with Some Lt => true | _ => false end.
Definition leb (a b : num) : bool :=
  match num_compare a b with Some Lt | Some Eq => true | _ => false end.
Definition eqb (a b : num) : bool :=
  match num_compare a b with Some Eq => true | _ => false end.

Definition isNaN (a : num) : bool := match a with NaN => true | _ => false end.

(** [ToBoolean]: [0] and [NaN] are falsy. *)
Definition truthy (a : num) : bool :=
  match a with
  | NaN => false
  | Fin q => negb (Qeq_bool q 0)
  | _ => true
  end.

Definition is_finite (a : num) : bool := match a with Fin _ => true | _ => false end.

(** [SortCompare] of [Array.prototype.sort]: the comparator's result, with
    NaN read as [+0]. *)
Definition sort_compare (v : num) : comparison :=
  match v with
  | NaN => Eq
  | PosInf => Gt
  | NegInf => Lt
  | Fin q => Qcompare q 0
  end.

(** [Math.round]: the nearest integer, halves rounded up. *)
Definition round (a : num) : num :=
  match a with
  | Fin q => Fin (inject_Z (Qfloor (q + (1 # 2))))
  | _ => a
  end.

(** [Math.min] and [Math.max] on two numbers (NaN wins). *)
Definition min (a b : num) : num :=
  if isNaN a || isNaN b then NaN else if ltb b a then b else a.
Definition max (a b : num) : num :=
  if isNaN a || isNaN b then NaN else if ltb a b then b else a.

(** [Math.abs] *)
Definition abs (a : num) : num :=
  match a with NaN => NaN | Fin q => Fin (Qabs q) | _ => PosInf end.

(** ** The numeric equivalence *)

#[export] Instance num_eq_Equivalence : Equivalence num_eq.
Proof.
  split.
  - intros []; simpl; auto. reflexivity.
  - intros [] []; simpl; auto. intros H; symmetry; exact H.
  - intros [] [] []; simpl; auto; try contradiction. intros H1 H2; rewrite H1; exact H2.
Qed.

Lemma num_eq_refl a : a ≈ a.
Proof. reflexivity. Qed.

#[export] Hint Resolve num_eq_refl : ridge.

(** Case analysis on numbers and on the [Qcompare]/[Qeq_bool] tests they
    generate, finishing with [lra]. *)
Ltac num_cases :=
  repeat match goal with
    | a : num |- _ => destruct a
    end;
  unfold nz, inject_Z in *; simpl in *;
  repeat match goal with
    | |- context [Qcompare ?p ?q] => destruct (Qcompare_spec p q)
    | H : context [Qcompare ?p ?q] |- _ => destruct (Qcompare_spec p q)
    | |- context [Qeq_bool ?p ?q] => destruct (Qeq_bool p q) eqn:?
    | H : Qeq_bool _ _ = true |- _ => apply Qeq_bool_iff in H
    | H : Qeq_bool _ _ = false |- _ => apply Qeq_bool_neq in H
    end;
  simpl in *; auto; try discriminate; try contradiction; try lra.

Lemma sign_of_proper a b : a ≈ b -> sign_of a = sign_of b.
Proof. destruct a, b; simpl; intros H; try contradiction; auto.
  rewrite H. reflexivity. Qed.

#[export] Instance neg_proper : Proper (num_eq ==> num_eq) neg.
Proof. intros a b H; destruct a, b; simpl in *; auto. rewrite H; reflexivity. Qed.

#[export] Instance add_proper : Proper (num_eq ==> num_eq ==> num_eq) add.
Proof.
  intros a a' Ha b b' Hb.
  destruct a, a', b, b'; simpl in *; auto; try contradiction.
  rewrite Ha, Hb; reflexivity.
Qed.

#[export] Instance sub_proper : Proper (num_eq ==> num_eq ==> num_eq) sub.
Proof. intros a a' Ha b b' Hb. unfold sub. rewrite Ha, Hb. reflexivity. Qed.

#[export] Instance mul_proper : Proper (num_eq ==> num_eq ==> num_eq) mul.
Proof.
  intros a a' Ha b b' Hb.
  pose proof (sign_of_proper _ _ Ha) as Sa; pose proof (sign_of_proper _ _ Hb) as Sb.
  destruct a, a', b, b'; simpl in *; auto; try contradiction;
    try (rewrite Sa; reflexivity); try (rewrite Sb; reflexivity).
  rewrite Ha, Hb; reflexivity.
Qed.

#[export] Instance div_proper : Proper (num_eq ==> num_eq ==> num_eq) div.
Proof.
  intros a a' Ha b b' Hb.
  pose proof (sign_of_proper _ _ Ha) as Sa; pose proof (sign_of_proper _ _ Hb) as Sb.
  destruct a, a', b, b'; simpl in Ha, Hb; try contradiction; try exact I;
    unfold div; rewrite ?Sa, ?Sb; try reflexivity.
  destruct (Qeq_bool q1 0) eqn:E1, (Qeq_bool q2 0) eqn:E2; try reflexivity.
  - apply Qeq_bool_iff in E1. apply Qeq_bool_neq in E2.
    exfalso. apply E2. rewrite <- Hb. exact E1.
  - apply Qeq_bool_iff in E2. apply Qeq_bool_neq in E1.
    exfalso. apply E1. rewrite Hb. exact E2.
  - simpl. rewrite Ha, Hb. reflexivity.
Qed.

#[export] Instance num_compare_proper : Proper (num_eq ==> num_eq ==> eq) num_compare.
Proof.
  intros a a' Ha b b' Hb.
  destruct a, a', b, b'; simpl in *; auto; try contradiction.
  rewrite Ha, Hb. reflexivity.
Qed.

#[export] Instance ltb_proper : Proper (num_eq ==> num_eq ==> eq) ltb.
Proof. intros a a' Ha b b' Hb. unfold ltb. rewrite Ha, Hb. reflexivity. Qed.

#[export] Instance leb_proper : Proper (num_eq ==> num_eq ==> eq) leb.
Proof. intros a a' Ha b b' Hb. unfold leb. rewrite Ha, Hb. reflexivity. Qed.

#[export] Instance isNaN_proper : Proper (num_eq ==> eq) isNaN.
Proof. intros [] [] H; simpl in *; auto; contradiction. Qed.

#[export] Instance truthy_proper : Proper (num_eq ==> eq) truthy.
Proof.
  intros [] [] H; simpl in *; auto; try contradiction.
  destruct (Qeq_bool q 0) eqn:E1, (Qeq_bool q0 0) eqn:E2; auto.
  - apply Qeq_bool_iff in E1. apply Qeq_bool_neq in E2. exfalso; apply E2. rewrite <- H. exact E1.
  - apply Qeq_bool_iff in E2. apply Qeq_bool_neq in E1. exfalso; apply E1. rewrite H. exact E2.
Qed.

#[export] Instance sort_compare_proper : Proper (num_eq ==> eq) sort_compare.
Proof. intros [] [] H; simpl in *; auto; try contradiction. rewrite H. reflexivity. Qed.

#[export] Instance Fin_proper : Proper (Qeq ==> num_eq) Fin.
Proof. intros p q H. exact H. Qed.

(** ** Arithmetic laws used by the components *)

Lemma add_Fin p q : Fin p + Fin q = Fin (p + q).
Proof. reflexivity. Qed.

Lemma sub_Fin p q : Fin p - Fin q = Fin (p - q).
Proof. reflexivity. Qed.

Lemma mul_Fin p q : Fin p * Fin q = Fin (p * q).
Proof. reflexivity. Qed.

Lemma add_comm a b : a + b ≈ b + a.
Proof. num_cases. Qed.

Lemma add_0_l a : nz 0 + a ≈ a.
Proof. num_cases. Qed.

Lemma add_assoc_fin p q r : Fin p + (Fin q + Fin r) ≈ (Fin p + Fin q) + Fin r.
Proof. simpl. lra. Qed.

(** Subtracting two numbers that are not NaN gives a number with the sign
    of their comparison (two equal infinities give NaN, which the sort
    reads as [+0]): the key comparators [(a, b) => a.k - b.k] of the script
    compare keys this way. *)
Lemma sort_compare_sub a b :
  isNaN a = false -> isNaN b = false -> Some (sort_compare (a - b)) = num_compare a b.
Proof.
  intros Ha Hb. destruct a, b; simpl in *; try discriminate; auto.
  unfold sub; simpl.
  destruct (Qcompare_spec q q0), (Qcompare_spec (q + - q0) 0); auto; exfalso; lra.
Qed.

Lemma sort_compare_sub_fin p q :
  sort_compare (Fin p - Fin q) = Qcompare p q.
Proof.
  unfold sub; simpl.
  destruct (Qcompare_spec p q), (Qcompare_spec (p + - q) 0); auto; exfalso; lra.
Qed.

Lemma truthy_Fin q : truthy (Fin q) = false <-> (q == 0)%Q.
Proof.
  simpl. destruct (Qeq_bool q 0) eqn:E; simpl; split; intros H; auto.
  - apply Qeq_bool_iff; exact E.
  - discriminate.
  - apply Qeq_bool_iff in H. congruence.
Qed.

Lemma num_compare_antisym a b : num_compare b a = option_map CompOpp (num_compare a b).
Proof. destruct a, b; simpl; auto. rewrite Qcompare_antisym. reflexivity. Qed.

Lemma num_compare_neg a b : num_compare (neg a) (neg b) = num_compare b a.
Proof. num_cases. Qed.

Lemma num_compare_le_trans a b c :
  isNaN a = false -> isNaN b = false -> isNaN c = false ->
  num_compare a b <> Some Gt -> num_compare b c <> Some Gt -> num_compare a c <> Some Gt.
Proof. num_cases; intros; congruence. Qed.

Lemma num_compare_not_NaN a b :
  isNaN a = false -> isNaN b = false -> exists c, num_compare a b = Some c.
Proof. destruct a, b; simpl; try discriminate; eauto. Qed.

Lemma leb_compare a b : leb a b = true <-> num_compare a b = Some Lt \/ num_compare a b = Some Eq.
Proof.
  unfold leb. destruct (num_compare a b) as [[]|]; split; intros H; auto;
    try discriminate; destruct H; discriminate.
Qed.

Lemma leb_refl_iff a : leb a a = negb (isNaN a).
Proof. destruct a; simpl; auto. unfold leb; simpl. destruct (Qcompare_spec q q); auto; lra. Qed.

Lemma ltb_false_leb a b :
  isNaN a = false -> isNaN b = false -> ltb a b = false -> leb b a = true.
Proof. unfold ltb, leb. num_cases. Qed.

Lemma leb_ltb_trans a b c : leb a b = true -> ltb b c = true -> leb a c = true.
Proof. unfold ltb, leb. num_cases. Qed.

Lemma leb_trans a b c : leb a b = true -> leb b c = true -> leb a c = true.
Proof. unfold leb. num_cases. Qed.

Lemma leb_not_NaN a b : leb a b = true -> isNaN a = false /\ isNaN b = false.
Proof. destruct a, b; simpl; auto; discriminate. Qed.

(** The rational a finite number denotes; [0] for the others. *)
Definition to_Q (a : num) : Q := match a with Fin q => q | _ => 0%Q end.

Lemma ltb_not_NaN a b : ltb a b = true -> isNaN a = false /\ isNaN b = false.
Proof. destruct a, b; simpl; auto; discriminate. Qed.

Definition is_infinite (a : num) : bool :=
  match a with PosInf | NegInf => true | _ => false end.

Lemma round_eq a b : a ≈ b -> round a = round b.
Proof.
  destruct a, b; intros H; try (simpl in H; contradiction); try reflexivity.
  unfold round. f_equal. f_equal. apply Qfloor_comp. simpl in H. rewrite H. reflexivity.
Qed.

#[export] Instance round_proper : Proper (num_eq ==> num_eq) round.
Proof. intros a b H. rewrite (round_eq a b H). reflexivity. Qed.

#[export] Instance eqb_proper : Proper (num_eq ==> num_eq ==> eq) eqb.
Proof. intros a a' Ha b b' Hb. unfold eqb. rewrite Ha, Hb. reflexivity. Qed.

#[export] Instance min_proper : Proper (num_eq ==> num_eq ==> num_eq) min.
Proof.
  intros a a' Ha b b' Hb. unfold min.
  rewrite (isNaN_proper _ _ Ha), (isNaN_proper _ _ Hb), (ltb_proper _ _ Hb _ _ Ha).
  destruct (isNaN a' || isNaN b'); [reflexivity|]. destruct (ltb b' a'); assumption.
Qed.

#[export] Instance max_proper : Proper (num_eq ==> num_eq ==> num_eq) max.
Proof.
  intros a a' Ha b b' Hb. unfold max.
  rewrite (isNaN_proper _ _ Ha), (isNaN_proper _ _ Hb), (ltb_proper _ _ Ha _ _ Hb).
  destruct (isNaN a' || isNaN b'); [reflexivity|]. destruct (ltb a' b'); assumption.
Qed.

#[export] Instance to_Q_proper : Proper (num_eq ==> Qeq) to_Q.
Proof. intros [] [] H; simpl in *; try contradiction; try reflexivity. exact H. Qed.

Lemma Qcompare_inject_Z a b : Qcompare (inject_Z a) (inject_Z b) = Z.compare a b.
Proof. unfold Qcompare, inject_Z. simpl. rewrite !Z.mul_1_r. reflexivity. Qed.

Lemma ltb_nz a b : ltb (nz a) (nz b) = (a <? b)%Z.
Proof. unfold ltb, nz. simpl. rewrite Qcompare_inject_Z. reflexivity. Qed.

Lemma truthy_nz a : truthy (nz a) = negb (a =? 0)%Z.
Proof.
  unfold truthy, nz. f_equal. destruct (Qeq_bool (inject_Z a) 0) eqn:E, (Z.eqb_spec a 0); auto.
  - apply Qeq_bool_iff in E. unfold Qeq, inject_Z in E. simpl in E. lia.
  - apply Qeq_bool_neq in E. exfalso. apply E. subst. reflexivity.
Qed.

Lemma min_nz a b : min (nz a) (nz b) = nz (Z.min a b).
Proof.
  unfold min. simpl. rewrite ltb_nz. destruct (Z.ltb_spec b a); f_equal; f_equal; lia.
Qed.

Lemma max_nz a b : max (nz a) (nz b) = nz (Z.max a b).
Proof.
  unfold max. simpl. rewrite ltb_nz. destruct (Z.ltb_spec a b); f_equal; f_equal; lia.
Qed.

Lemma leb_Fin p q : leb (Fin p) (Fin q) = Qle_bool p q.
Proof.
  unfold leb. simpl. destruct (Qle_bool p q) eqn:E.
  - apply Qle_bool_iff in E. destruct (Qcompare_spec p q); auto; lra.
  - destruct (Qcompare_spec p q); auto; exfalso;
      apply (proj2 (Bool.not_true_iff_false _) E), Qle_bool_iff; lra.
Qed.

Lemma ltb_Fin p q : ltb (Fin p) (Fin q) = negb (Qle_bool q p).
Proof.
  unfold ltb. simpl. destruct (Qle_bool q p) eqn:E; simpl.
  - apply Qle_bool_iff in E. destruct (Qcompare_spec p q); auto; lra.
  - destruct (Qcompare_spec p q); auto; exfalso;
      apply (proj2 (Bool.not_true_iff_false _) E), Qle_bool_iff; lra.
Qed.

Lemma eqb_Fin p q : eqb (Fin p) (Fin q) = Qeq_bool p q.
Proof.
  unfold eqb. simpl. destruct (Qeq_bool p q) eqn:E.
  - apply Qeq_bool_iff in E. destruct (Qcompare_spec p q); auto; lra.
  - apply Qeq_bool_neq in E. destruct (Qcompare_spec p q); auto; contradiction.
Qed.

Lemma min_Fin p q : min (Fin p) (Fin q) ≈ Fin (Qmin p q).
Proof.
  unfold min. simpl. rewrite ltb_Fin. destruct (Qle_bool p q) eqn:E; simpl.
  - apply Qle_bool_iff in E. rewrite Q.min_l by exact E. reflexivity.
  - rewrite Q.min_r; [reflexivity|]. destruct (Qlt_le_dec q p); [lra|].
    exfalso. apply (proj2 (Bool.not_true_iff_false _) E), Qle_bool_iff. exact q0.
Qed.

Lemma max_Fin p q : max (Fin p) (Fin q) ≈ Fin (Qmax p q).
Proof.
  unfold max. simpl. rewrite ltb_Fin. destruct (Qle_bool q p) eqn:E; simpl.
  - apply Qle_bool_iff in E. rewrite Q.max_l by exact E. reflexivity.
  - rewrite Q.max_r; [reflexivity|]. destruct (Qlt_le_dec p q); [lra|].
    exfalso. apply (proj2 (Bool.not_true_iff_false _) E), Qle_bool_iff. exact q0.
Qed.

Lemma add_nz a b : nz a + nz b ≈ nz (a + b).
Proof. unfold nz. rewrite add_Fin, inject_Z_plus. reflexivity. Qed.

Lemma mul_nz a b : nz a * nz b ≈ nz (a * b).
Proof. unfold nz. rewrite mul_Fin, inject_Z_mult. reflexivity. Qed.

Lemma sub_nz a b : nz a - nz b ≈ nz (a - b).
Proof.
  unfold nz, sub, neg. rewrite add_Fin, <- Z.add_opp_r, inject_Z_plus, inject_Z_opp. reflexivity.
Qed.

Lemma ltb_Fin_true p q : (p < q)%Q -> ltb (Fin p) (Fin q) = true.
Proof.
  intros H. rewrite ltb_Fin. destruct (Qle_bool q p) eqn:E; [|reflexivity].
  apply Qle_bool_iff in E. lra.
Qed.

Lemma ltb_Fin_false p q : (q <= p)%Q -> ltb (Fin p) (Fin q) = false.
Proof. intros H. rewrite ltb_Fin. apply Qle_bool_iff in H. rewrite H. reflexivity. Qed.

Lemma div_Fin p q : ~ (q == 0)%Q -> Fin p / Fin q = Fin (p / q).
Proof.
  intros H. unfold div. destruct (Qeq_bool q 0) eqn:E; [|reflexivity].
  apply Qeq_bool_eq in E. contradiction.
Qed.

Lemma ltb_leb_trans a b c : ltb a b = true -> leb b c = true -> ltb a c = true.
Proof. unfold ltb, leb. num_cases. Qed.
