(* ===== verification/NumParse.v ===== *)
(** String to number and back, as the script's coercions do them.
    [to_number] is ECMAScript's StringToNumber (the [+s] of
    [+d.total_1] and the [s * 1000] of [d.date * 1000], src/main.js lines
    7-8): surrounding white space is ignored, the empty string is [0],
    decimal literals take a sign, a fraction and an exponent, [Infinity]
    takes a sign, [0x]/[0o]/[0b] literals take none, anything else is NaN.
    [Z_to_string] is Number::toString on the integers the script prints
    into attributes ([translate(0,${...})], [rgb(r, g, b)]).  The main
    theorem is the round trip [to_number (Z_to_string z) = z]. *)

From Stdlib Require Import QArith Qround Qpower ZArith String Ascii List Lia Lqa.
From S2P Require Import Prelude JsNum.
Import ListNotations.
Local Open Scope Z_scope.

Module StringToNumber.

(** StrWhiteSpaceChar on 8-bit characters: TAB, LF, VT, FF, CR, SP, NBSP. *)
Definition is_str_whitespace (c : ascii) : bool :=
  let n := N_of_ascii c in
  ((n =? 9) || (n =? 10) || (n =? 11) || (n =? 12) || (n =? 13) || (n =? 32)
   || (n =? 160))%N.

Fixpoint trim_start (l : list ascii) : list ascii :=
  match l with
  | c :: r => if is_str_whitespace c then trim_start r else l
  | [] => []
  end.

Definition trim (l : list ascii) : list ascii := rev (trim_start (rev (trim_start l))).

(** The value of a digit in [radix] (2, 8, 10 or 16); letters of either
    case are the hexadecimal digits. *)
Definition digit_value (radix : Z) (c : ascii) : option Z :=
  let n := Z.of_N (N_of_ascii c) in
  let v := if (48 <=? n) && (n <=? 57) then Some (n - 48)
           else if (97 <=? n) && (n <=? 122) then Some (n - 87)
           else if (65 <=? n) && (n <=? 90) then Some (n - 55)
           else None in
  match v with
  | Some d => if d <? radix then Some d else None
  | None => None
  end.

(** The longest prefix of digits, as values, and the rest. *)
Fixpoint take_digits (radix : Z) (l : list ascii) : list Z * list ascii :=
  match l with
  | c :: r =>
      match digit_value radix c with
      | Some d => let '(ds, rest) := take_digits radix r in (d :: ds, rest)
      | None => ([], l)
      end
  | [] => ([], [])
  end.

Definition digits_value (radix : Z) (ds : list Z) : Z :=
  fold_left (fun acc d => acc * radix + d) ds 0.

(** [m * 10^k] as a rational. *)
Definition scale10 (m k : Z) : Q :=
  if 0 <=? k then inject_Z (m * 10 ^ k) else Qmake m (Z.to_pos (10 ^ (- k))).

Definition is_char (c : ascii) (s : string) : bool :=
  match s with String d EmptyString => Ascii.eqb c d | _ => false end.

(** SignedInteger of an ExponentPart, which must end the literal. *)
Definition parse_signed_integer (l : list ascii) : option Z :=
  let '(s, r) := match l with
                 | c :: t => if is_char c "+" then (1, t)
                             else if is_char c "-" then (-1, t) else (1, l)
                 | [] => (1, [])
                 end in
  match take_digits 10 r with
  | ((_ :: _) as ds, []) => Some (s * digits_value 10 ds)
  | _ => None
  end.

Definition parse_exponent_part (l : list ascii) : option Z :=
  match l with
  | [] => Some 0
  | c :: r => if is_char c "e" || is_char c "E" then parse_signed_integer r else None
  end.

(** StrUnsignedDecimalLiteral without [Infinity]: [ip], an optional
    [.fp], an optional exponent; [ip] and [fp] are not both empty. *)
Definition parse_decimal_digits (l : list ascii) : option Q :=
  let '(ip, r1) := take_digits 10 l in
  let '(fp, r2) := match r1 with
                   | c :: r => if is_char c "." then take_digits 10 r else ([], r1)
                   | [] => ([], [])
                   end in
  match ip, fp with
  | [], [] => None
  | _, _ =>
      match parse_exponent_part r2 with
      | Some e => Some (scale10 (digits_value 10 (ip ++ fp)) (e - Z.of_nat (length fp)))
      | None => None
      end
  end.

Definition infinity_chars : list ascii := list_ascii_of_string "Infinity".

Definition parse_unsigned (l : list ascii) : option num :=
  if list_eq_dec ascii_dec l infinity_chars then Some PosInf
  else option_map Fin (parse_decimal_digits l).

Definition parse_decimal (l : list ascii) : option num :=
  match l with
  | c :: r =>
      if is_char c "+" then parse_unsigned r
      else if is_char c "-" then option_map neg (parse_unsigned r)
      else parse_unsigned l
  | [] => None
  end.

(** NonDecimalIntegerLiteral: digits of [radix] up to the end. *)
Definition parse_non_decimal (radix : Z) (l : list ascii) : option num :=
  match take_digits radix l with
  | ((_ :: _) as ds, []) => Some (Fin (inject_Z (digits_value radix ds)))
  | _ => None
  end.

Definition parse_numeric_literal (l : list ascii) : option num :=
  match l with
  | c0 :: c1 :: r =>
      if is_char c0 "0" then
        if is_char c1 "x" || is_char c1 "X" then parse_non_decimal 16 r
        else if is_char c1 "o" || is_char c1 "O" then parse_non_decimal 8 r
        else if is_char c1 "b" || is_char c1 "B" then parse_non_decimal 2 r
        else parse_decimal l
      else parse_decimal l
  | _ => parse_decimal l
  end.

(** StringToNumber. *)
Definition to_number (s : string) : num :=
  match trim (list_ascii_of_string s) with
  | [] => nz 0
  | l => match parse_numeric_literal l with Some n => n | None => NaN end
  end.

End StringToNumber.

Module NumberToString.
Import StringToNumber.

Definition digit_char (d : Z) : ascii := ascii_of_N (Z.to_N (48 + d)).

(** Decimal digits of [n >= 0], most significant first; [fuel] bounds
    the number of divisions by 10. *)
Fixpoint Z_digits (fuel : nat) (n : Z) : list Z :=
  match fuel with
  | O => [n]
  | S f => if n <? 10 then [n] else Z_digits f (n / 10) ++ [n mod 10]
  end.

Definition digits_fuel (n : Z) : nat := S (Z.to_nat (Z.log2 n)).

Definition nat_chars (n : Z) : list ascii := map digit_char (Z_digits (digits_fuel n) n).

(** Number::toString on an integer below [10^21]: a minus sign and the
    decimal digits of the magnitude. *)
Definition Z_to_string (z : Z) : string :=
  string_of_list_ascii (if z <? 0 then "-"%char :: nat_chars (- z) else nat_chars z).

(** The [f] last decimal digits of [n >= 0], zeros included. *)
Fixpoint low_digits (f : nat) (n : Z) : list Z :=
  match f with
  | O => []
  | S g => low_digits g (n / 10) ++ [n mod 10]
  end.

(** [x.toFixed(f)] for [0 <= x < 10^21] (Number.prototype.toFixed, steps
    8-10): [n] is the integer for which [n / 10^f - x] is closest to 0, the
    larger of two; for [f > 0] its digits, with zeros in front so that one
    is left before the point, are split by a point before the last [f]. *)
Definition to_fixed (f : nat) (x : Q) : string :=
  let n := Qfloor (x * inject_Z (10 ^ Z.of_nat f) + (1 # 2)) in
  string_of_list_ascii
    match f with
    | O => nat_chars n
    | S _ => nat_chars (n / 10 ^ Z.of_nat f) ++ "."%char :: map digit_char (low_digits f n)
    end.

End NumberToString.

(** ** Properties *)

Module NumParseFacts.
Import StringToNumber NumberToString.

Lemma digit_value_digit_char d : 0 <= d <= 9 -> digit_value 10 (digit_char d) = Some d.
Proof.
  intros H. assert (d = 0 \/ d = 1 \/ d = 2 \/ d = 3 \/ d = 4 \/ d = 5 \/ d = 6 \/
                    d = 7 \/ d = 8 \/ d = 9) as Hd by lia.
  repeat destruct Hd as [-> | Hd]; try reflexivity. subst; reflexivity.
Qed.

(** The characters of the decimal digits. *)
Lemma digit_char_In d : 0 <= d <= 9 -> In (digit_char d) (list_ascii_of_string "0123456789").
Proof.
  intros H. assert (d = 0 \/ d = 1 \/ d = 2 \/ d = 3 \/ d = 4 \/ d = 5 \/ d = 6 \/
                    d = 7 \/ d = 8 \/ d = 9) as Hd by lia.
  repeat destruct Hd as [-> | Hd]; try subst d; simpl; repeat (solve [left; reflexivity] || right).
Qed.

Lemma digit_char_not_ws d : 0 <= d <= 9 -> is_str_whitespace (digit_char d) = false.
Proof.
  intros H. apply digit_char_In in H. simpl in H.
  repeat destruct H as [<- | H]; try reflexivity. destruct H.
Qed.

(** A digit is none of the one-character markers of the grammar. *)
Lemma is_char_digit_char d c :
  0 <= d <= 9 -> digit_value 10 c = None -> is_char (digit_char d) (String c EmptyString) = false.
Proof.
  intros Hd Hc. simpl. destruct (Ascii.eqb_spec (digit_char d) c) as [E|]; auto.
  rewrite <- E, digit_value_digit_char in Hc by exact Hd. discriminate.
Qed.

Ltac simpl_is_char :=
  repeat match goal with
    | |- context [is_char (digit_char ?d) (String ?c EmptyString)] =>
        rewrite (is_char_digit_char d c) by (reflexivity || lia)
    end.

Lemma trim_start_id l :
  Forall (fun c => is_str_whitespace c = false) l -> trim_start l = l.
Proof. intros [|c r Hc _]; simpl; [reflexivity|]. rewrite Hc. reflexivity. Qed.

Lemma trim_id l : Forall (fun c => is_str_whitespace c = false) l -> trim l = l.
Proof.
  intros H. unfold trim.
  rewrite (trim_start_id l H), (trim_start_id (rev l)), rev_involutive; auto.
  apply Forall_rev; exact H.
Qed.

Lemma take_digits_all ds :
  Forall (fun d => 0 <= d <= 9) ds -> take_digits 10 (map digit_char ds) = (ds, []).
Proof.
  induction 1 as [|d ds Hd _ IH]; simpl; [reflexivity|].
  rewrite digit_value_digit_char, IH by exact Hd. reflexivity.
Qed.

Lemma digits_value_snoc radix ds d :
  digits_value radix (ds ++ [d]) = digits_value radix ds * radix + d.
Proof. unfold digits_value. rewrite fold_left_app. reflexivity. Qed.

Lemma Z_digits_spec fuel n :
  0 <= n < 2 ^ Z.of_nat (S fuel) ->
  Forall (fun d => 0 <= d <= 9) (Z_digits fuel n) /\
  digits_value 10 (Z_digits fuel n) = n /\ Z_digits fuel n <> [].
Proof.
  revert n; induction fuel as [|f IH]; intros n Hn; simpl.
  - simpl in Hn. repeat split; [constructor; [lia|constructor] | discriminate].
  - destruct (Z.ltb_spec n 10).
    + repeat split; [constructor; [lia|constructor] | discriminate].
    + assert (2 ^ Z.of_nat (S (S f)) = 2 * 2 ^ Z.of_nat (S f)) as E.
      { rewrite Nat2Z.inj_succ, Z.pow_succ_r by lia. reflexivity. }
      pose proof (Z.pow_nonneg 2 (Z.of_nat (S f))) as P.
      destruct (IH (n / 10)) as (HF & HV & _).
      { split; [apply Z.div_pos; lia|]. apply Z.div_lt_upper_bound; lia. }
      pose proof (Z.mod_pos_bound n 10) as M. pose proof (Z.div_mod n 10) as D.
      repeat split.
      * apply Forall_app; split; [exact HF|]. constructor; [lia|constructor].
      * rewrite digits_value_snoc, HV. lia.
      * intros Hnil. apply app_eq_nil in Hnil as [_ Hnil]. discriminate.
Qed.

Lemma digits_fuel_enough n : 0 <= n -> n < 2 ^ Z.of_nat (S (digits_fuel n)).
Proof.
  intros Hn. unfold digits_fuel.
  rewrite !Nat2Z.inj_succ, Z2Nat.id by apply Z.log2_nonneg.
  destruct (Z.eq_dec n 0) as [->|Hn0]; [reflexivity|].
  pose proof (Z.log2_spec n ltac:(lia)) as [_ H].
  eapply Z.lt_le_trans; [exact H|]. apply Z.pow_le_mono_r; lia.
Qed.

(** The characters printed for [n >= 0] parse back to [n]. *)
(** No digit of [nat_chars n] satisfies [f] when no decimal digit does. *)
Lemma nat_chars_none (f : ascii -> bool) n :
  0 <= n -> forallb (fun c => negb (f c)) (list_ascii_of_string "0123456789") = true ->
  Forall (fun c => f c = false) (nat_chars n).
Proof.
  intros Hn Hf. unfold nat_chars.
  destruct (Z_digits_spec (digits_fuel n) n) as (HF & _ & _); [split; [exact Hn | apply digits_fuel_enough, Hn]|].
  rewrite forallb_forall in Hf. apply Forall_map. eapply Forall_impl; [|exact HF].
  intros d Hd. apply digit_char_In, Hf in Hd. destruct (f (digit_char d)); [discriminate|reflexivity].
Qed.

Lemma parse_nat_chars n :
  0 <= n ->
  Forall (fun c => is_str_whitespace c = false) (nat_chars n) /\ nat_chars n <> [] /\
  parse_unsigned (nat_chars n) = Some (Fin (inject_Z n)) /\
  parse_numeric_literal (nat_chars n) = Some (Fin (inject_Z n)).
Proof.
  intros Hn. unfold nat_chars.
  destruct (Z_digits_spec (digits_fuel n) n) as (HF & HV & HNE);
    [split; [exact Hn | apply digits_fuel_enough, Hn]|].
  set (ds := Z_digits (digits_fuel n) n) in *. clearbody ds.
  destruct ds as [|d ds]; [congruence|].
  inversion HF as [|? ? Hd Hds]; subst.
  split; [apply Forall_map; eapply Forall_impl; [|exact HF]; apply digit_char_not_ws|].
  split; [discriminate|].
  assert (parse_unsigned (map digit_char (d :: ds)) =
            Some (Fin (inject_Z (digits_value 10 (d :: ds))))) as PU.
  { unfold parse_unsigned.
    destruct (list_eq_dec ascii_dec _ infinity_chars) as [E|_].
    - injection E as Hc _. apply (f_equal (digit_value 10)) in Hc.
      rewrite digit_value_digit_char in Hc by exact Hd. discriminate.
    - unfold parse_decimal_digits. rewrite take_digits_all by (constructor; assumption).
      simpl. unfold scale10. simpl. rewrite app_nil_r, Z.mul_1_r. reflexivity. }
  split; [exact PU|]. rewrite <- PU.
  destruct ds as [|d1 ds1]; simpl map; unfold parse_numeric_literal, parse_decimal;
    simpl_is_char; [reflexivity|].
  inversion Hds; subst. simpl_is_char.
  destruct (is_char (digit_char d) "0"); reflexivity.
Qed.

Lemma parse_numeric_literal_minus l :
  l <> [] -> parse_numeric_literal ("-"%char :: l) = option_map neg (parse_unsigned l).
Proof. destruct l; [congruence|reflexivity]. Qed.

(** Reading back the digits [Z_to_string] prints. *)
Lemma Z_to_string_parses z : to_number (Z_to_string z) = nz z.
Proof.
  unfold to_number, Z_to_string. rewrite list_ascii_of_string_of_list_ascii.
  destruct (Z.ltb_spec z 0) as [Hz|Hz].
  - destruct (parse_nat_chars (- z) ltac:(lia)) as (Hws & Hne & HU & _).
    rewrite trim_id by (constructor; [reflexivity|exact Hws]).
    rewrite parse_numeric_literal_minus, HU by exact Hne.
    unfold nz, inject_Z; simpl option_map; unfold neg, Qopp; simpl Qnum; simpl Qden.
    rewrite Z.opp_involutive. reflexivity.
  - destruct (parse_nat_chars z Hz) as (Hws & Hne & _ & HP).
    rewrite trim_id by exact Hws.
    destruct (nat_chars z) as [|c r]; [congruence|]. rewrite HP. reflexivity.
Qed.

Lemma digits_value_app radix a b :
  digits_value radix (a ++ b) = digits_value radix a * radix ^ Z.of_nat (length b) + digits_value radix b.
Proof.
  induction b as [|d b IH] using rev_ind.
  { rewrite app_nil_r. cbn [length Z.of_nat]. change (digits_value radix []) with 0. rewrite Z.pow_0_r. ring. }
  rewrite app_assoc, !digits_value_snoc, IH, length_app, Nat2Z.inj_add.
  change (Z.of_nat (length [d])) with 1. rewrite Z.pow_add_r, Z.pow_1_r by lia. ring.
Qed.

Lemma take_digits_app ds c r :
  Forall (fun d => 0 <= d <= 9) ds -> digit_value 10 c = None ->
  take_digits 10 (map digit_char ds ++ c :: r) = (ds, c :: r).
Proof.
  intros Hds Hc. induction Hds as [|d ds Hd _ IH]; cbn; [rewrite Hc; reflexivity|].
  rewrite digit_value_digit_char, IH by exact Hd. reflexivity.
Qed.

Lemma low_digits_spec f n : 0 <= n ->
  Forall (fun d => 0 <= d <= 9) (low_digits f n) /\ length (low_digits f n) = f /\
  digits_value 10 (low_digits f n) = n mod 10 ^ Z.of_nat f.
Proof.
  revert n. induction f as [|f IH]; intros n Hn; cbn [low_digits].
  - repeat split; [constructor|]. rewrite Z.mod_1_r. reflexivity.
  - destruct (IH (n / 10) ltac:(apply Z.div_pos; lia)) as (HF & HL & HV).
    pose proof (Z.mod_pos_bound n 10 ltac:(lia)). repeat split.
    + apply Forall_app. split; [exact HF|]. constructor; [lia|constructor].
    + rewrite length_app, HL. cbn. lia.
    + rewrite digits_value_snoc, HV, Nat2Z.inj_succ, Z.pow_succ_r, Z.rem_mul_r by lia.
      pose proof (Z.pow_pos_nonneg 10 (Z.of_nat f)). lia.
Qed.

(** Only the literal's first two characters can make it a [0x], [0o] or
    [0b] literal. *)
Lemma parse_numeric_literal_plain c0 c1 r :
  (is_char c1 "x" || is_char c1 "X" || is_char c1 "o" || is_char c1 "O" || is_char c1 "b" || is_char c1 "B")%bool = false ->
  parse_numeric_literal (c0 :: c1 :: r) = parse_decimal (c0 :: c1 :: r).
Proof.
  intros H. cbn [parse_numeric_literal].
  destruct (is_char c1 "x"), (is_char c1 "X"), (is_char c1 "o"), (is_char c1 "O"), (is_char c1 "b"),
    (is_char c1 "B"); try discriminate. destruct (is_char c0 "0"); reflexivity.
Qed.

(** Digits, a point and digits read back as the rational they denote. *)
Lemma parse_point_digits ds L :
  Forall (fun d => 0 <= d <= 9) ds -> ds <> [] -> Forall (fun d => 0 <= d <= 9) L ->
  to_number (string_of_list_ascii (map digit_char ds ++ "."%char :: map digit_char L)) =
    Fin (scale10 (digits_value 10 (ds ++ L)) (- Z.of_nat (length L))).
Proof.
  intros Hds Hne HL. unfold to_number. rewrite list_ascii_of_string_of_list_ascii, trim_id.
  2:{ apply Forall_app. split; [apply Forall_map; eapply Forall_impl; [|exact Hds]; apply digit_char_not_ws|].
      constructor; [reflexivity|]. apply Forall_map. eapply Forall_impl; [|exact HL]. apply digit_char_not_ws. }
  destruct ds as [|d ds']; [congruence|]. inversion Hds as [|? ? Hd Hds']; subst.
  assert (PU : parse_unsigned (map digit_char (d :: ds') ++ "."%char :: map digit_char L) =
                 Some (Fin (scale10 (digits_value 10 ((d :: ds') ++ L)) (- Z.of_nat (length L))))).
  { unfold parse_unsigned. destruct (list_eq_dec ascii_dec _ infinity_chars) as [E|_].
    - injection E as Hc _. apply (f_equal (digit_value 10)) in Hc.
      rewrite digit_value_digit_char in Hc by exact Hd. discriminate.
    - unfold parse_decimal_digits. rewrite take_digits_app by (auto; reflexivity).
      replace (is_char "."%char ".") with true by reflexivity. rewrite take_digits_all by exact HL.
      cbn [parse_exponent_part option_map]. rewrite Z.sub_0_l. reflexivity. }
  cbn [map app] in *. destruct ds' as [|d1 ds''].
  - cbn [map app] in *. rewrite parse_numeric_literal_plain by reflexivity.
    cbn [parse_decimal]. simpl_is_char. rewrite PU. reflexivity.
  - inversion Hds'; subst. cbn [map app] in *.
    rewrite parse_numeric_literal_plain by (simpl_is_char; reflexivity).
    cbn [parse_decimal]. simpl_is_char. rewrite PU. reflexivity.
Qed.

Lemma to_fixed_round_nonneg f x : (0 <= x)%Q -> 0 <= Qfloor (x * inject_Z (10 ^ Z.of_nat f) + (1 # 2)).
Proof.
  intros Hx. assert (0 <= inject_Z (10 ^ Z.of_nat f))%Q
    by (change 0%Q with (inject_Z 0); rewrite <- Zle_Qle; apply Z.pow_nonneg; lia).
  change 0 with (Qfloor 0). apply Qfloor_resp_le.
  pose proof (Qmult_le_0_compat _ _ Hx H). lra.
Qed.

Lemma scale10_spec m k : (scale10 m k == inject_Z m * 10 ^ k)%Q.
Proof.
  unfold scale10. destruct (Z.leb_spec 0 k).
  - rewrite inject_Z_mult, Zpower_Qpower by exact H. reflexivity.
  - assert (E1 : (10 ^ k == / 10 ^ (- k))%Q) by (rewrite <- Qpower_opp, Z.opp_involutive; reflexivity).
    assert (E2 : (inject_Z (10 ^ (- k)) == 10 ^ (- k))%Q) by (apply Zpower_Qpower; lia).
    rewrite E1, <- E2. pose proof (Z.pow_pos_nonneg 10 (- k) ltac:(lia) ltac:(lia)).
    destruct (10 ^ (- k)) as [|d|d]; [lia| |lia]. unfold Qeq. cbn. lia.
Qed.

Lemma Qfloor_half m : Qfloor (inject_Z m + (1 # 2)) = m.
Proof.
  pose proof (Qfloor_le (inject_Z m + (1 # 2))) as H1. pose proof (Qlt_floor (inject_Z m + (1 # 2))) as H2.
  set (F := Qfloor _) in *. rewrite inject_Z_plus in H2.
  assert (inject_Z F < inject_Z (m + 1))%Q as L1 by (rewrite inject_Z_plus; unfold inject_Z at 3; lra).
  assert (inject_Z m < inject_Z (F + 1))%Q as L2 by (rewrite inject_Z_plus; lra).
  rewrite <- Zlt_Qlt in L1, L2. lia.
Qed.

(** [x.toFixed(f)] reads back as [n / 10^f], [n] the integer it rounds
    [x * 10^f] to. *)
Lemma to_fixed_parses f x : (0 <= x)%Q ->
  to_number (to_fixed f x) = Fin (scale10 (Qfloor (x * inject_Z (10 ^ Z.of_nat f) + (1 # 2))) (- Z.of_nat f)).
Proof.
  intros Hx. pose proof (to_fixed_round_nonneg f x Hx) as Hn.
  set (n := Qfloor (x * inject_Z (10 ^ Z.of_nat f) + (1 # 2))) in *.
  unfold to_fixed. fold n. clearbody n. destruct f as [|g].
  - assert (E : Z_to_string n = string_of_list_ascii (nat_chars n))
      by (unfold Z_to_string; destruct (Z.ltb_spec n 0); [lia|reflexivity]).
    rewrite <- E, Z_to_string_parses. unfold nz, scale10. cbn. rewrite Z.mul_1_r. reflexivity.
  - pose proof (Z.pow_pos_nonneg 10 (Z.of_nat (S g)) ltac:(lia) ltac:(lia)) as Hp.
    destruct (Z_digits_spec (digits_fuel (n / 10 ^ Z.of_nat (S g))) (n / 10 ^ Z.of_nat (S g))) as (HF & HV & HNE).
    { split; [apply Z.div_pos; lia|]. apply digits_fuel_enough. apply Z.div_pos; lia. }
    destruct (low_digits_spec (S g) n Hn) as (LF & LL & LV).
    unfold nat_chars. rewrite parse_point_digits by assumption.
    rewrite digits_value_app, HV, LV, LL. rewrite Z.mul_comm, <- Z.div_mod by lia. reflexivity.
Qed.

(** Round trip: [String(z)] of an integer, read back by [+s], gives [z]. *)
Theorem to_number_Z_to_string z : to_number (Z_to_string z) = nz z.
Proof. apply Z_to_string_parses. Qed.
End NumParseFacts.
