(* ===== verification/ArraySort.v ===== *)
(** [Array.prototype.sort(comparefn)] as the script calls it twice
    (src/main.js line 14, through [d3.nest().sortValues], and line 17).
    ECMAScript 2019 makes the sort stable and reads a NaN comparator result
    as [+0] ([SortCompare]); when [comparefn] is not a consistent
    comparator the order is implementation-defined.  [array_sort] is a
    stable insertion sort; the abstract specification [stable_sort_of]
    says what any conforming engine returns for a consistent comparator,
    [array_sort_refines] shows the model meets it and [stable_sort_unique]
    that the specification determines the result, so the model agrees with
    every engine on consistent comparators. *)

From Stdlib Require Import ZArith List Permutation Sorted Lia.
From S2P Require Import Prelude JsNum.
Import ListNotations.
Open Scope num_scope.

Section ArraySort.
Context {A : Type}.
Variable comparefn : A -> A -> num.

(** [SortCompare(x, y)]. *)
Definition sort_cmp (x y : A) : comparison := sort_compare (comparefn x y).

(** Insert [x], which comes after every element of [l] in the input,
    before the first element that is greater: stability. *)
Fixpoint insert (x : A) (l : list A) : list A :=
  match l with
  | [] => [x]
  | y :: r => match sort_cmp x y with
              | Lt => x :: y :: r
              | _ => y :: insert x r
              end
  end.

Definition array_sort (l : list A) : list A :=
  fold_left (fun acc x => insert x acc) l [].

Definition le_cmp (x y : A) : Prop := sort_cmp x y <> Gt.

Definition equiv_b (x y : A) : bool :=
  match sort_cmp x y with Eq => true | _ => false end.

(** A consistent comparator on the elements satisfying [S]: antisymmetric
    and transitive ([a <= b <= c] gives [a <= c]). *)
Record consistent (S : A -> Prop) : Prop := {
  cons_antisym : forall a b, S a -> S b -> sort_cmp b a = CompOpp (sort_cmp a b);
  cons_trans : forall a b c, S a -> S b -> S c -> le_cmp a b -> le_cmp b c -> le_cmp a c
}.

(** The abstract specification of a stable sort: a permutation, sorted,
    and every class of equivalent elements keeps its input order. *)
Definition stable_sort_of (l l' : list A) : Prop :=
  Permutation l l' /\ StronglySorted le_cmp l' /\
  forall a, In a l -> filter (equiv_b a) l' = filter (equiv_b a) l.

Section Consistent.
Variable S : A -> Prop.
Hypothesis HS : consistent S.

Lemma cmp_refl a : S a -> sort_cmp a a = Eq.
Proof.
  intros Ha. pose proof (cons_antisym S HS a a Ha Ha) as E.
  destruct (sort_cmp a a); simpl in E; congruence.
Qed.

Lemma equiv_b_refl a : S a -> equiv_b a a = true.
Proof. intros Ha. unfold equiv_b. rewrite cmp_refl; auto. Qed.

Lemma lt_not_le a b : S a -> S b -> sort_cmp a b = Lt -> ~ le_cmp b a.
Proof.
  intros Ha Hb H Hle. apply Hle. rewrite (cons_antisym S HS a b Ha Hb), H. reflexivity.
Qed.

Lemma not_lt_le a b : S a -> S b -> sort_cmp a b <> Lt -> le_cmp b a.
Proof.
  intros Ha Hb H. unfold le_cmp. rewrite (cons_antisym S HS a b Ha Hb).
  destruct (sort_cmp a b); simpl; congruence.
Qed.

Lemma le_lt_trans a b c :
  S a -> S b -> S c -> le_cmp a b -> sort_cmp b c = Lt -> sort_cmp a c = Lt.
Proof.
  intros Ha Hb Hc Hab Hbc.
  destruct (sort_cmp a c) eqn:E; auto; exfalso;
    apply (lt_not_le b c Hb Hc Hbc), (cons_trans S HS c a b Hc Ha Hb); auto;
    apply not_lt_le; auto; congruence.
Qed.

Lemma lt_le_trans a b c :
  S a -> S b -> S c -> sort_cmp a b = Lt -> le_cmp b c -> sort_cmp a c = Lt.
Proof.
  intros Ha Hb Hc Hab Hbc.
  destruct (sort_cmp a c) eqn:E; auto; exfalso;
    apply (lt_not_le a b Ha Hb Hab), (cons_trans S HS b c a Hb Hc Ha); auto;
    apply not_lt_le; auto; congruence.
Qed.

Lemma insert_perm x l : Permutation (insert x l) (x :: l).
Proof.
  induction l as [|y r IH]; simpl; [auto|].
  destruct (sort_cmp x y); auto.
  all: eapply Permutation_trans; [apply perm_skip, IH | apply perm_swap].
Qed.

Lemma insert_sorted x l :
  S x -> Forall S l -> StronglySorted le_cmp l -> StronglySorted le_cmp (insert x l).
Proof.
  intros Hx. induction l as [|y r IH]; intros HF HSo; simpl.
  { repeat constructor. }
  inversion HF as [|? ? Hy Hr]; subst.
  apply StronglySorted_inv in HSo as [HSr Hyr].
  destruct (sort_cmp x y) eqn:E.
  - constructor; [apply IH; auto|].
    apply Forall_forall. intros z Hz.
    apply (Permutation_in _ (insert_perm x r)) in Hz as [<-|Hz].
    + apply not_lt_le; auto. congruence.
    + rewrite Forall_forall in Hyr. auto.
  - constructor; [constructor; auto|]. constructor; [unfold le_cmp; congruence|].
    rewrite Forall_forall in Hyr |- *. intros z Hz.
    unfold le_cmp. rewrite (lt_le_trans x y z); auto; [discriminate|].
    rewrite Forall_forall in Hr. auto.
  - constructor; [apply IH; auto|].
    apply Forall_forall. intros z Hz.
    apply (Permutation_in _ (insert_perm x r)) in Hz as [<-|Hz].
    + apply not_lt_le; auto. congruence.
    + rewrite Forall_forall in Hyr. auto.
Qed.

(** Inserting [x] appends it to its class. *)
Lemma insert_filter a x l :
  S a -> S x -> Forall S l -> StronglySorted le_cmp l ->
  filter (equiv_b a) (insert x l) = filter (equiv_b a) l ++ filter (equiv_b a) [x].
Proof.
  intros Ha Hx. induction l as [|y r IH]; intros HF HSo; [reflexivity|].
  inversion HF as [|? ? Hy Hr]; subst.
  apply StronglySorted_inv in HSo as [HSr Hyr].
  cbn [insert]. destruct (sort_cmp x y) eqn:E;
    try (simpl; destruct (equiv_b a y); rewrite IH by auto; reflexivity).
  change (x :: y :: r) with ([x] ++ (y :: r)). rewrite filter_app.
  destruct (equiv_b a x) eqn:Eax.
  - rewrite (filter_none _ (y :: r)), app_nil_r; [reflexivity|].
    unfold equiv_b in Eax. destruct (sort_cmp a x) eqn:Eax'; try discriminate.
    intros z [<-|Hz]; unfold equiv_b.
    + rewrite (le_lt_trans a x y); auto; congruence.
    + rewrite Forall_forall in Hyr, Hr.
      rewrite (le_lt_trans a x z); auto; [congruence|].
      apply (lt_le_trans x y z); auto.
  - assert (filter (equiv_b a) [x] = []) as H1 by (simpl; rewrite Eax; reflexivity).
    rewrite H1, app_nil_r. reflexivity.
Qed.

Lemma fold_insert_spec l acc :
  Forall S l -> Forall S acc -> StronglySorted le_cmp acc ->
  let r := fold_left (fun acc x => insert x acc) l acc in
  Permutation r (rev l ++ acc) /\ Forall S r /\ StronglySorted le_cmp r /\
  (forall a, S a -> filter (equiv_b a) r = filter (equiv_b a) acc ++ filter (equiv_b a) l).
Proof.
  revert acc. induction l as [|x l IH]; intros acc Hl Hacc HSo; simpl.
  - repeat split; auto. intros; rewrite app_nil_r; reflexivity.
  - inversion Hl as [|? ? Hx Hl']; subst.
    assert (Forall S (insert x acc)) as Hins.
    { apply Forall_forall. intros z Hz.
      apply (Permutation_in _ (insert_perm x acc)) in Hz as [<-|Hz]; auto.
      rewrite Forall_forall in Hacc; auto. }
    destruct (IH (insert x acc) Hl' Hins (insert_sorted x acc Hx Hacc HSo))
      as (HP & HF & HSr & HFi).
    repeat split; auto.
    + eapply Permutation_trans; [exact HP|]. rewrite <- app_assoc.
      apply Permutation_app_head. simpl. apply insert_perm.
    + intros a Ha. rewrite HFi, insert_filter by auto.
      rewrite <- app_assoc. simpl. destruct (equiv_b a x); reflexivity.
Qed.

Lemma Forall_perm l l' : Permutation l l' -> Forall S l -> Forall S l'.
Proof.
  intros HP HF. apply Forall_forall. intros x Hx.
  rewrite Forall_forall in HF. apply HF. apply (Permutation_in x (Permutation_sym HP) Hx).
Qed.

(** Refinement: [array_sort] is a stable sort. *)
Lemma array_sort_stable l : Forall S l -> stable_sort_of l (array_sort l).
Proof.
  intros Hl. unfold array_sort.
  destruct (fold_insert_spec l [] Hl (Forall_nil _) (SSorted_nil _)) as (HP & _ & HSo & HFi).
  repeat split; auto.
  - rewrite app_nil_r in HP. symmetry. eapply Permutation_trans; [exact HP|].
    symmetry. apply Permutation_rev.
  - intros a Ha. apply HFi. rewrite Forall_forall in Hl. auto.
Qed.

(** No element of the class of [a] lies above an element greater than [a]. *)
Lemma filter_equiv_above a b l :
  S a -> S b -> Forall S l -> sort_cmp a b = Lt -> Forall (le_cmp b) l ->
  filter (equiv_b a) (b :: l) = [].
Proof.
  intros Ha Hb Hl Hab Hbl. apply filter_none. rewrite Forall_forall in Hl, Hbl.
  intros z [<-|Hz]; unfold equiv_b; [rewrite Hab; reflexivity|].
  rewrite (lt_le_trans a b z); auto.
Qed.

Lemma sorted_classes_unique l1 l2 :
  Forall S l1 -> Forall S l2 -> StronglySorted le_cmp l1 -> StronglySorted le_cmp l2 ->
  (forall a, In a l1 \/ In a l2 -> filter (equiv_b a) l1 = filter (equiv_b a) l2) ->
  l1 = l2.
Proof.
  revert l2. induction l1 as [|a l1 IH]; intros [|b l2] H1 H2 S1 S2 H; auto.
  - specialize (H b (or_intror (or_introl eq_refl))). inversion H2; subst.
    simpl in H. rewrite equiv_b_refl in H by auto. discriminate.
  - specialize (H a (or_introl (or_introl eq_refl))). inversion H1; subst.
    simpl in H. rewrite equiv_b_refl in H by auto. discriminate.
  - inversion H1 as [|? ? Ha H1']; inversion H2 as [|? ? Hb H2']; subst.
    apply StronglySorted_inv in S1 as [S1 F1]; apply StronglySorted_inv in S2 as [S2 F2].
    destruct (sort_cmp a b) eqn:E.
    + pose proof (H a (or_introl (or_introl eq_refl))) as Ha'. simpl in Ha'.
      rewrite equiv_b_refl in Ha' by auto. unfold equiv_b at 2 in Ha'. rewrite E in Ha'.
      injection Ha' as <- _. f_equal. apply IH; auto.
      intros c Hc. specialize (H c ltac:(simpl; tauto)). simpl in H.
      destruct (equiv_b c a); [injection H|]; auto.
    + exfalso. pose proof (H a (or_introl (or_introl eq_refl))) as Ha'.
      rewrite (filter_equiv_above a b l2) in Ha' by auto.
      simpl in Ha'. rewrite equiv_b_refl in Ha' by auto. discriminate.
    + exfalso. pose proof (H b (or_intror (or_introl eq_refl))) as Hb'.
      rewrite (filter_equiv_above b a l1) in Hb' by
        (auto; rewrite (cons_antisym S HS a b), E by auto; reflexivity).
      simpl in Hb'. rewrite equiv_b_refl in Hb' by auto. discriminate.
Qed.

(** The specification determines the result: every stable sort returns
    the same list on a consistent comparator. *)
Theorem stable_sort_unique l l1 l2 :
  Forall S l -> stable_sort_of l l1 -> stable_sort_of l l2 -> l1 = l2.
Proof.
  intros Hl (P1 & S1 & F1) (P2 & S2 & F2).
  apply sorted_classes_unique; eauto using Forall_perm.
  intros a Ha.
  assert (In a l) as Hal by (destruct Ha as [Ha|Ha];
    [apply (Permutation_in a (Permutation_sym P1))|
     apply (Permutation_in a (Permutation_sym P2))]; exact Ha).
  rewrite F1, F2 by exact Hal. reflexivity.
Qed.

(** the stable-sort specification determines the result: on a
    consistent comparator, every stable sort of [l] is [array_sort l], so
    the model agrees with any conforming engine. *)
Corollary stable_sort_is_array_sort l l' :
  Forall S l -> stable_sort_of l l' -> l' = array_sort l.
Proof. intros Hl H. eapply stable_sort_unique; eauto using array_sort_stable. Qed.

(** C32: Refinement: on a consistent comparator [array_sort] is a stable sort,
    a permutation of its input, sorted, that keeps the order of equal
    elements. *)
Theorem array_sort_refines l : Forall S l -> stable_sort_of l (array_sort l).
Proof. apply array_sort_stable. Qed.
End Consistent.
End ArraySort.

(** ** The key comparators of the script *)

Section KeyComparators.
Context {A : Type}.
Variable S : A -> Prop.

(** A comparator that compares the keys [f a] and [f b], which are never
    NaN, is consistent. *)
Lemma consistent_of_keys (cmpf : A -> A -> num) (f : A -> num) :
  (forall a, S a -> isNaN (f a) = false) ->
  (forall a b, S a -> S b -> Some (sort_cmp cmpf a b) = num_compare (f a) (f b)) ->
  consistent cmpf S.
Proof.
  intros Hf Hc. split.
  - intros a b Ha Hb. pose proof (Hc a b Ha Hb) as E1. pose proof (Hc b a Hb Ha) as E2.
    rewrite num_compare_antisym, <- E1 in E2. simpl in E2. congruence.
  - intros a b c Ha Hb Hc' Hab Hbc. unfold le_cmp in *.
    intros E. apply (num_compare_le_trans (f a) (f b) (f c)); auto.
    + rewrite <- Hc by auto. congruence.
    + rewrite <- Hc by auto. congruence.
    + rewrite <- Hc by auto. congruence.
Qed.

Variable key : A -> num.
Hypothesis key_not_NaN : forall a, S a -> isNaN (key a) = false.

(** [(a, b) => a.key - b.key] *)
Definition by_key : A -> A -> num := fun a b => key a - key b.
(** [(a, b) => b.key - a.key] *)
Definition by_key_desc : A -> A -> num := fun a b => key b - key a.

Lemma sort_cmp_by_key a b :
  S a -> S b -> Some (sort_cmp by_key a b) = num_compare (key a) (key b).
Proof. intros Ha Hb. apply sort_compare_sub; auto. Qed.

Lemma sort_cmp_by_key_desc a b :
  S a -> S b -> Some (sort_cmp by_key_desc a b) = num_compare (key b) (key a).
Proof. intros Ha Hb. apply sort_compare_sub; auto. Qed.

Lemma by_key_consistent : consistent by_key S.
Proof. apply (consistent_of_keys _ key key_not_NaN), sort_cmp_by_key. Qed.

Lemma by_key_desc_consistent : consistent by_key_desc S.
Proof.
  apply (consistent_of_keys _ (fun a => neg (key a))).
  - intros a Ha. specialize (key_not_NaN a Ha). destruct (key a); auto.
  - intros a b Ha Hb. rewrite num_compare_neg. apply sort_cmp_by_key_desc; auto.
Qed.

Lemma le_by_key a b :
  S a -> S b -> le_cmp by_key a b -> leb (key a) (key b) = true.
Proof.
  intros Ha Hb H. unfold le_cmp in H. apply leb_compare.
  rewrite <- sort_cmp_by_key by auto. destruct (sort_cmp by_key a b); auto. congruence.
Qed.

Lemma le_by_key_desc a b :
  S a -> S b -> le_cmp by_key_desc a b -> leb (key b) (key a) = true.
Proof.
  intros Ha Hb H. unfold le_cmp in H. apply leb_compare.
  rewrite <- sort_cmp_by_key_desc by auto. destruct (sort_cmp by_key_desc a b); auto. congruence.
Qed.
End KeyComparators.

(** The sort permutes its input, whatever the comparator. *)
Lemma array_sort_perm {A} (cmpf : A -> A -> num) (l : list A) : Permutation (array_sort cmpf l) l.
Proof.
  unfold array_sort.
  assert (forall acc, Permutation (fold_left (fun acc x => insert cmpf x acc) l acc) (rev l ++ acc))
    as H.
  { induction l as [|x l IH]; intros acc; simpl; [auto|].
    eapply Permutation_trans; [apply IH|]. rewrite <- app_assoc.
    apply Permutation_app_head. apply (insert_perm cmpf). }
  eapply Permutation_trans; [apply H|]. rewrite app_nil_r. symmetry. apply Permutation_rev.
Qed.

(** ** Examples *)

Lemma array_sort_refines_witness :
  stable_sort_of (by_key (fun a : num => a)) [nz 3%Z; nz 1%Z; nz 2%Z] (array_sort (by_key (fun a => a)) [nz 3%Z; nz 1%Z; nz 2%Z]).
Proof.
  apply (array_sort_refines (by_key (fun a : num => a)) (fun a => isNaN a = false)).
  - apply by_key_consistent. intros a Ha. exact Ha.
  - repeat constructor.
Defined.

Lemma stable_sort_is_array_sort_witness :
  array_sort (by_key (fun a : num => a)) [nz 3%Z; nz 1%Z; nz 1%Z] = array_sort (by_key (fun a => a)) [nz 3%Z; nz 1%Z; nz 1%Z].
Proof.
  apply (stable_sort_is_array_sort (by_key (fun a : num => a)) (fun a => isNaN a = false)).
  - apply by_key_consistent. intros a Ha. exact Ha.
  - repeat constructor.
  - apply (array_sort_stable _ (fun a => isNaN a = false)); [|repeat constructor].
    apply by_key_consistent. intros a Ha. exact Ha.
Defined.
