(* ===== verification/D3Array.v ===== *)
(** The d3-array 1.2 functions the script calls: [d3.sum] (line 16),
    [d3.max] (line 48), [d3.range] (line 52) and [bisectRight], which the
    colour scale's piecewise map uses to find its segment (lines 59-62).
    [d3.sum] skips the values that are falsy ([0] and [NaN]); [d3.max]
    skips [undefined] and [NaN] and returns [undefined] when nothing is
    left; [bisect_right] is the binary search of d3, proved equal to a
    linear count on sorted arrays. *)

From Equations Require Import Equations.
From Stdlib Require Import QArith Lqa List Arith Lia Sorted Permutation.
From S2P Require Import Prelude JsNum.
Import ListNotations.
Open Scope num_scope.

Section D3Array.
Context {A : Type}.

(** [d3.sum(values, valueof)]: [if (value = +valueof(v)) sum += value]. *)
Definition d3_sum (valueof : A -> num) (values : list A) : num :=
  fold_left (fun sum v => let value := valueof v in
                          if truthy value then sum + value else sum) values (nz 0).

(** [d3.max(values, valueof)], [valueof] returning a number or
    [undefined] ([None]): the first value that is not null and not NaN
    ([value >= value]), then every value [> max]. *)
Definition d3_max (valueof : A -> option num) (values : list A) : option num :=
  fold_left (fun acc v =>
               match valueof v with
               | None => acc
               | Some value =>
                   match acc with
                   | None => if leb value value then Some value else None
                   | Some m => if ltb m value then Some value else acc
                   end
               end) values None.
End D3Array.

(** [d3.range(stop)]: [0, 1, ..., stop - 1]. *)
Definition d3_range (stop : nat) : list num := map (fun i => nz (Z.of_nat i)) (seq 0 stop).

(** [lo + hi >>> 1]. *)
Definition bisect_mid (lo hi : nat) : nat := ((lo + hi) / 2)%nat.
Arguments bisect_mid : simpl never.

Lemma bisect_mid_bounds lo hi : (lo < hi -> lo <= bisect_mid lo hi < hi)%nat.
Proof.
  intros H. unfold bisect_mid.
  pose proof (Nat.div_mod (lo + hi) 2 ltac:(lia)).
  pose proof (Nat.mod_upper_bound (lo + hi) 2 ltac:(lia)). lia.
Qed.

(** [bisectRight(a, x, lo, hi)] of d3-array's [ascending] bisector:
    [mid = lo + hi >>> 1; if (ascending(a[mid], x) > 0) hi = mid; else
    lo = mid + 1].  [ascending(a[mid], x) > 0] holds exactly when
    [a[mid] > x]; an index out of range reads [undefined], compared as NaN. *)
Equations? bisect_right (a : list num) (x : num) (lo hi : nat) : nat by wf (hi - lo)%nat lt :=
  bisect_right a x lo hi with lt_dec lo hi => {
    | left _ =>
        if ltb x (nth (bisect_mid lo hi) a NaN)
        then bisect_right a x lo (bisect_mid lo hi)
        else bisect_right a x (S (bisect_mid lo hi)) hi ;
    | right _ => lo }.
Proof. all: pose proof (bisect_mid_bounds lo hi); lia. Qed.

(** The reference: [lo] plus the number of indices of [lo..hi) whose
    element is not greater than [x], reading [a[k]] as [bisect_right] does. *)
Definition bisect_right_ref (a : list num) (x : num) (lo hi : nat) : nat :=
  (lo + length (filter (fun k => negb (ltb x (nth k a NaN))) (seq lo (hi - lo))))%nat.

(** ** Properties *)

Section D3ArrayFacts.
Context {A : Type}.

Definition qsum (l : list Q) : Q := fold_right Qplus 0%Q l.

Lemma d3_sum_acc (valueof : A -> num) (l : list A) (a : Q) :
  Forall (fun v => is_infinite (valueof v) = false) l ->
  fold_left (fun sum v => let value := valueof v in
                          if truthy value then sum + value else sum) l (Fin a)
    ≈ Fin (a + qsum (map (fun v => to_Q (valueof v)) l)).
Proof.
  unfold qsum. revert a; induction l as [|v l IH]; intros a Hl; simpl; [lra|].
  inversion Hl as [|? ? Hinf Hl']; subst.
  destruct (valueof v) as [| | |q] eqn:E; simpl; try discriminate.
  - rewrite IH by exact Hl'. simpl. lra.
  - destruct (Qeq_bool q 0) eqn:Eq; simpl.
    + apply Qeq_bool_iff in Eq. rewrite IH by exact Hl'. simpl. rewrite Eq. lra.
    + rewrite IH by exact Hl'. simpl. lra.
Qed.

(** [d3.sum] of values none of which is infinite is the exact sum of the
    finite ones: NaN values are skipped, as if they were [0]. *)
Theorem d3_sum_spec (valueof : A -> num) (l : list A) :
  Forall (fun v => is_infinite (valueof v) = false) l ->
  d3_sum valueof l ≈ Fin (qsum (map (fun v => to_Q (valueof v)) l)).
Proof.
  intros Hl. unfold d3_sum, nz, inject_Z. rewrite d3_sum_acc by exact Hl. simpl. lra.
Qed.

Definition d3_max_step (valueof : A -> option num) (acc : option num) (v : A) : option num :=
  match valueof v with
  | None => acc
  | Some value =>
      match acc with
      | None => if leb value value then Some value else None
      | Some m => if ltb m value then Some value else acc
      end
  end.

(** What [d3.max] returns: [undefined] when every value is [undefined] or
    NaN, otherwise one of the values that is not NaN and not below any
    other such value. *)
Definition d3_max_result (valueof : A -> option num) (l : list A) (r : option num) : Prop :=
  match r with
  | None => forall v x, In v l -> valueof v = Some x -> isNaN x = true
  | Some m =>
      isNaN m = false /\ (exists v, In v l /\ valueof v = Some m) /\
      forall v x, In v l -> valueof v = Some x -> isNaN x = false -> leb x m = true
  end.

Theorem d3_max_spec (valueof : A -> option num) (l : list A) :
  d3_max_result valueof l (d3_max valueof l).
Proof.
  change (d3_max valueof l) with (fold_left (d3_max_step valueof) l None).
  induction l as [|v l IH] using rev_ind; simpl.
  - intros v x [].
  - rewrite fold_left_app. simpl. unfold d3_max_result in *.
    destruct (fold_left (d3_max_step valueof) l None) as [m|] eqn:E;
      unfold d3_max_step; destruct (valueof v) as [x|] eqn:Ev.
    + destruct IH as (Hm & (w & Hw & Ew) & Hle).
      destruct (ltb m x) eqn:Lt.
      * assert (isNaN x = false) as Hx by (apply (ltb_not_NaN m x Lt)).
        repeat split; auto.
        -- exists v. rewrite in_app_iff. simpl. auto.
        -- intros u y Hu Eu Hy. apply in_app_or in Hu as [Hu|[<-|[]]].
           ++ apply (leb_ltb_trans _ m); eauto.
           ++ rewrite Ev in Eu. injection Eu as <-. rewrite leb_refl_iff, Hy. reflexivity.
      * repeat split; auto.
        -- exists w. rewrite in_app_iff. auto.
        -- intros u y Hu Eu Hy. apply in_app_or in Hu as [Hu|[<-|[]]]; eauto.
           rewrite Ev in Eu. injection Eu as <-. apply ltb_false_leb; auto.
    + destruct IH as (Hm & (w & Hw & Ew) & Hle). repeat split; auto.
      * exists w. rewrite in_app_iff. auto.
      * intros u y Hu Eu Hy. apply in_app_or in Hu as [Hu|[<-|[]]]; eauto. congruence.
    + rewrite leb_refl_iff. destruct (isNaN x) eqn:Hx; simpl.
      * intros u y Hu Eu. apply in_app_or in Hu as [Hu|[<-|[]]]; eauto. congruence.
      * repeat split; auto.
        -- exists v. rewrite in_app_iff. simpl. auto.
        -- intros u y Hu Eu Hy. apply in_app_or in Hu as [Hu|[<-|[]]].
           ++ rewrite (IH u y Hu Eu) in Hy. discriminate.
           ++ rewrite Ev in Eu. injection Eu as <-. rewrite leb_refl_iff, Hx. reflexivity.
    + intros u y Hu Eu. apply in_app_or in Hu as [Hu|[<-|[]]]; eauto. congruence.
Qed.
End D3ArrayFacts.

Lemma qsum_perm (l l' : list Q) : Permutation l l' -> (qsum l == qsum l')%Q.
Proof.
  unfold qsum. induction 1; simpl; try reflexivity.
  - rewrite IHPermutation. reflexivity.
  - lra.
  - rewrite IHPermutation1. exact IHPermutation2.
Qed.

Lemma bisect_right_step a x lo hi :
  (lo < hi)%nat ->
  bisect_right a x lo hi =
    if ltb x (nth (bisect_mid lo hi) a NaN)
    then bisect_right a x lo (bisect_mid lo hi)
    else bisect_right a x (S (bisect_mid lo hi)) hi.
Proof.
  intros H. rewrite bisect_right_equation_1. destruct (lt_dec lo hi); [reflexivity|lia].
Qed.

Lemma bisect_right_stop a x lo hi : (hi <= lo)%nat -> bisect_right a x lo hi = lo.
Proof.
  intros H. rewrite bisect_right_equation_1. destruct (lt_dec lo hi); [lia|reflexivity].
Qed.

Section Bisect.
Variables (a : list num) (x : num).

Lemma bisect_ref_split lo m hi :
  (lo <= m <= hi)%nat ->
  bisect_right_ref a x lo hi =
    (lo + length (filter (fun k => negb (ltb x (nth k a NaN))) (seq lo (m - lo)))
        + length (filter (fun k => negb (ltb x (nth k a NaN))) (seq m (hi - m))))%nat.
Proof.
  intros H. unfold bisect_right_ref.
  replace (hi - lo)%nat with ((m - lo) + (hi - m))%nat by lia.
  rewrite seq_app, filter_app, length_app. replace (lo + (m - lo))%nat with m by lia. lia.
Qed.

(** On an array whose elements above [x] form a suffix of [lo..hi), the
    binary search counts the elements not above [x]. *)
Lemma bisect_right_count lo hi :
  (forall i j, (lo <= i <= j)%nat -> (j < hi)%nat ->
     ltb x (nth i a NaN) = true -> ltb x (nth j a NaN) = true) ->
  (lo <= hi)%nat -> bisect_right a x lo hi = bisect_right_ref a x lo hi.
Proof.
  remember (hi - lo)%nat as n eqn:En. revert lo hi En.
  induction n as [n IH] using lt_wf_ind. intros lo hi En Hmono Hle.
  destruct (Nat.eq_dec lo hi) as [<-|Hne].
  - rewrite bisect_right_stop by lia. unfold bisect_right_ref. rewrite Nat.sub_diag. simpl. lia.
  - rewrite bisect_right_step by lia.
    pose proof (bisect_mid_bounds lo hi ltac:(lia)) as Hm. set (m := bisect_mid lo hi) in *.
    destruct (ltb x (nth m a NaN)) eqn:Em.
    + rewrite (IH (m - lo)%nat) by (auto; lia || (intros; apply (Hmono i j); auto; lia)).
      rewrite (bisect_ref_split lo m hi) by lia.
      rewrite (filter_none _ (seq m (hi - m))); [unfold bisect_right_ref; simpl; lia|].
      intros k Hk. apply in_seq in Hk. rewrite (Hmono m k) by (auto; lia). reflexivity.
    + rewrite (IH (hi - S m)%nat) by (auto; lia || (intros; apply (Hmono i j); auto; lia)).
      rewrite (bisect_ref_split lo (S m) hi) by lia.
      rewrite (filter_all _ (seq lo (S m - lo))); [unfold bisect_right_ref; rewrite length_seq; lia|].
      intros k Hk. apply in_seq in Hk. destruct (ltb x (nth k a NaN)) eqn:Ek; [|reflexivity].
      rewrite (Hmono k m) in Em by (auto; lia). discriminate.
Qed.
End Bisect.

(** A search whose [x] is below no element of [a[lo..hi)] ends at [hi]; one
    whose [x] is below all of them ends at [lo]. *)
Lemma bisect_right_above a x lo hi :
  (lo <= hi)%nat -> (forall k, (lo <= k < hi)%nat -> ltb x (nth k a NaN) = false) ->
  bisect_right a x lo hi = hi.
Proof.
  intros Hle H. rewrite bisect_right_count; [|intros i j Hij Hj Hi; rewrite H in Hi by lia; discriminate|exact Hle].
  unfold bisect_right_ref. rewrite filter_all, length_seq; [lia|].
  intros k Hk. apply in_seq in Hk. rewrite H by lia. reflexivity.
Qed.

Lemma bisect_right_below a x lo hi :
  (lo <= hi)%nat -> (forall k, (lo <= k < hi)%nat -> ltb x (nth k a NaN) = true) ->
  bisect_right a x lo hi = lo.
Proof.
  intros Hle H. rewrite bisect_right_count; [|intros i j Hij Hj _; apply H; lia|exact Hle].
  unfold bisect_right_ref. rewrite filter_none; [cbn; lia|].
  intros k Hk. apply in_seq in Hk. rewrite H by lia. reflexivity.
Qed.

(** C33: On a sorted array, d3's binary search [bisectRight(a, x, lo, hi)] is
    [lo] plus the number of elements of [a[lo..hi)] that are not greater
    than [x]. *)
Theorem bisect_right_sorted a x lo hi :
  StronglySorted (fun u v => leb u v = true) a -> (lo <= hi <= length a)%nat ->
  bisect_right a x lo hi = bisect_right_ref a x lo hi.
Proof.
  intros HS Hle. apply bisect_right_count; [|lia].
  intros i j Hij Hj Hi. destruct (Nat.eq_dec i j) as [<-|Hne]; [exact Hi|].
  apply (ltb_leb_trans _ _ _ Hi). apply (StronglySorted_nth (fun u v => leb u v = true)); auto. lia.
Qed.

Lemma bisect_right_sorted_witness :
  bisect_right [nz 0%Z; nz 1%Z; nz 1%Z; nz 3%Z] (nz 1%Z) 1 3 = bisect_right_ref [nz 0%Z; nz 1%Z; nz 1%Z; nz 3%Z] (nz 1%Z) 1 3.
Proof. apply bisect_right_sorted; [repeat constructor|simpl; lia]. Defined.
