(* ===== verification/JsDate.v ===== *)
(** The UTC date arithmetic of ECMAScript (ECMA-262, section "Date
    Objects") that d3-time's UTC intervals and d3-time-format's UTC
    formatters run on, over time values in milliseconds ([Z]): [Day],
    [TimeWithinDay], [DayFromYear], [YearFromTime], [MonthFromTime],
    [DateFromTime], [WeekDay], [HourFromTime] ..., [MakeTime], [MakeDay],
    [MakeDate] and the [setUTC*] methods d3-time calls.

    [YearFromTime(t)] is specified as the largest [y] with
    [TimeFromYear(y) <= t]; it is computed as engines do, from the estimate
    [1970 + floor(400 d / 146097)] corrected by one year, and
    [year_from_time_spec] proves the result is that largest [y].  Time values
    are not clipped to [+-8.64e15] here (see the header). *)

From Stdlib Require Import ZArith Lia.
From S2P Require Import Prelude.
Local Open Scope Z_scope.

Module JsDate.

Definition msPerSecond : Z := 1000.
Definition msPerMinute : Z := 60000.
Definition msPerHour : Z := 3600000.
Definition msPerDay : Z := 86400000.

(** [Day(t) = floor(t / msPerDay)], [TimeWithinDay(t) = t modulo msPerDay] *)
Definition Day (t : Z) : Z := t / msPerDay.
Definition TimeWithinDay (t : Z) : Z := t mod msPerDay.

(** [DaysInYear(y)] *)
Definition DaysInYear (y : Z) : Z :=
  if negb (y mod 4 =? 0) then 365
  else if negb (y mod 100 =? 0) then 366
  else if negb (y mod 400 =? 0) then 365
  else 366.

(** [DayFromYear(y)] *)
Definition DayFromYear (y : Z) : Z :=
  365 * (y - 1970) + (y - 1969) / 4 - (y - 1901) / 100 + (y - 1601) / 400.

(** The year of day [d]: the estimate [1970 + floor(d / 365.2425)], then
    one year down or up. *)
Definition YearFromDay (d : Z) : Z :=
  let y := 1970 + (d * 400) / 146097 in
  if d <? DayFromYear y then y - 1
  else if DayFromYear (y + 1) <=? d then y + 1
  else y.

Definition YearFromTime (t : Z) : Z := YearFromDay (Day t).

(** [InLeapYear(t)] of the year [y] *)
Definition leap (y : Z) : Z := DaysInYear y - 365.

Definition DayWithinYear (t : Z) : Z := Day t - DayFromYear (YearFromTime t).

(** [MonthFromTime] from the day of the year and the leap-year flag. *)
Definition month_of (dwy l : Z) : Z :=
  if dwy <? 31 then 0
  else if dwy <? 59 + l then 1
  else if dwy <? 90 + l then 2
  else if dwy <? 120 + l then 3
  else if dwy <? 151 + l then 4
  else if dwy <? 181 + l then 5
  else if dwy <? 212 + l then 6
  else if dwy <? 243 + l then 7
  else if dwy <? 273 + l then 8
  else if dwy <? 304 + l then 9
  else if dwy <? 334 + l then 10
  else 11.

(** The day of the year of the first of month [m]: the differences of
    [DateFromTime]'s table. *)
Definition month_start (m l : Z) : Z :=
  match m with
  | 0 => 0 | 1 => 31 | 2 => 59 + l | 3 => 90 + l | 4 => 120 + l | 5 => 151 + l
  | 6 => 181 + l | 7 => 212 + l | 8 => 243 + l | 9 => 273 + l | 10 => 304 + l
  | _ => 334 + l
  end.

Definition MonthFromTime (t : Z) : Z := month_of (DayWithinYear t) (leap (YearFromTime t)).

(** [DateFromTime(t)]: [DayWithinYear(t) + 1], [- 30], [- 58 - InLeapYear(t)], ... *)
Definition DateFromTime (t : Z) : Z :=
  DayWithinYear t - month_start (MonthFromTime t) (leap (YearFromTime t)) + 1.

(** [WeekDay(t) = (Day(t) + 4) modulo 7] *)
Definition WeekDay (t : Z) : Z := (Day t + 4) mod 7.

Definition HourFromTime (t : Z) : Z := (t / msPerHour) mod 24.
Definition MinFromTime (t : Z) : Z := (t / msPerMinute) mod 60.
Definition SecFromTime (t : Z) : Z := (t / msPerSecond) mod 60.
Definition msFromTime (t : Z) : Z := t mod msPerSecond.

Definition MakeTime (h m s ms : Z) : Z := h * msPerHour + m * msPerMinute + s * msPerSecond + ms.

(** [MakeDay(year, month, date)]: the day of the first of month
    [month modulo 12] of year [year + floor(month / 12)], plus [date - 1]. *)
Definition MakeDay (year month date : Z) : Z :=
  let ym := year + month / 12 in
  let mn := month mod 12 in
  DayFromYear ym + month_start mn (leap ym) + date - 1.

Definition MakeDate (day time : Z) : Z := day * msPerDay + time.

(** The setters d3-time calls, each with all its arguments (an omitted
    argument of the source is the getter's value, as ECMAScript says). *)
Definition setUTCHours (t h m s ms : Z) : Z := MakeDate (Day t) (MakeTime h m s ms).
Definition setUTCMinutes (t m s ms : Z) : Z := MakeDate (Day t) (MakeTime (HourFromTime t) m s ms).
Definition setUTCSeconds (t s ms : Z) : Z :=
  MakeDate (Day t) (MakeTime (HourFromTime t) (MinFromTime t) s ms).
Definition setUTCDate (t dt : Z) : Z :=
  MakeDate (MakeDay (YearFromTime t) (MonthFromTime t) dt) (TimeWithinDay t).
Definition setUTCMonth (t m dt : Z) : Z :=
  MakeDate (MakeDay (YearFromTime t) m dt) (TimeWithinDay t).
Definition setUTCFullYear (t y m dt : Z) : Z := MakeDate (MakeDay y m dt) (TimeWithinDay t).

End JsDate.

Module JsDateFacts.
Import JsDate.

(** The length of month [m] ([0] to [11]) in a year with leap flag [l]. *)
Definition days_in_month (m l : Z) : Z :=
  match m with
  | 1 => 28 + l | 3 | 5 | 8 | 10 => 30 | _ => 31
  end.

Lemma leap_range y : 0 <= leap y <= 1.
Proof. unfold leap, DaysInYear. destruct (negb _); [lia|]. destruct (negb _); [lia|]. destruct (negb _); lia. Qed.

Lemma div_succ a k : 0 < k -> (a + 1) / k = a / k + (if (a + 1) mod k =? 0 then 1 else 0).
Proof. intros Hk. destruct (Z.eqb_spec ((a + 1) mod k) 0); Z.div_mod_to_equations; nia. Qed.

Lemma mod_shift a c k : 0 < k -> (a - c * k) mod k = a mod k.
Proof. intros Hk. replace (a - c * k) with (a + (- c) * k) by ring. apply Z.mod_add. lia. Qed.

(** A year has [DaysInYear] days: [DayFromYear(y + 1) - DayFromYear(y)]. *)
Lemma DayFromYear_succ y : DayFromYear (y + 1) = DayFromYear y + DaysInYear y.
Proof.
  unfold DayFromYear, DaysInYear.
  replace (y + 1 - 1969) with ((y - 1969) + 1) by ring.
  replace (y + 1 - 1901) with ((y - 1901) + 1) by ring.
  replace (y + 1 - 1601) with ((y - 1601) + 1) by ring.
  rewrite !div_succ by lia.
  replace (y - 1969 + 1) with (y - 492 * 4) by ring.
  replace (y - 1901 + 1) with (y - 19 * 100) by ring.
  replace (y - 1601 + 1) with (y - 4 * 400) by ring.
  rewrite !mod_shift by lia.
  assert (y mod 100 = 0 -> y mod 4 = 0) by (Z.div_mod_to_equations; lia).
  assert (y mod 400 = 0 -> y mod 100 = 0) by (Z.div_mod_to_equations; lia).
  zcases; cbn [negb]; lia.
Qed.

Lemma DayFromYear_lt y y' : y < y' -> DayFromYear y < DayFromYear y'.
Proof. unfold DayFromYear. Z.div_mod_to_equations. lia. Qed.

Lemma DayFromYear_le y y' : y <= y' -> DayFromYear y <= DayFromYear y'.
Proof. intros H. destruct (Z.eq_dec y y'); [subst; lia|apply Z.lt_le_incl, DayFromYear_lt; lia]. Qed.

Lemma year_from_day_bounds d : DayFromYear (YearFromDay d) <= d < DayFromYear (YearFromDay d + 1).
Proof.
  assert (L : DayFromYear (1970 + (d * 400) / 146097 - 1) <= d)
    by (unfold DayFromYear; Z.div_mod_to_equations; lia).
  assert (H : d < DayFromYear (1970 + (d * 400) / 146097 + 2))
    by (unfold DayFromYear; Z.div_mod_to_equations; lia).
  unfold YearFromDay. set (y := 1970 + d * 400 / 146097) in *.
  destruct (Z.ltb_spec d (DayFromYear y)); [replace (y - 1 + 1) with y by lia; lia|].
  destruct (Z.leb_spec (DayFromYear (y + 1)) d); [replace (y + 1 + 1) with (y + 2) by lia|]; lia.
Qed.

Lemma year_unique y d : DayFromYear y <= d < DayFromYear (y + 1) -> YearFromDay d = y.
Proof.
  intros Hy. pose proof (year_from_day_bounds d) as Hs. set (y' := YearFromDay d) in *.
  destruct (Z.lt_trichotomy y y') as [Hl|[E|Hl]]; [|symmetry; exact E|].
  - pose proof (DayFromYear_le (y + 1) y'). lia.
  - pose proof (DayFromYear_le (y' + 1) y). lia.
Qed.

Lemma month_of_spec dwy l : 0 <= l <= 1 -> 0 <= dwy < 365 + l ->
  0 <= month_of dwy l <= 11 /\
  month_start (month_of dwy l) l <= dwy < month_start (month_of dwy l) l + days_in_month (month_of dwy l) l.
Proof. intros Hl Hd. unfold month_of. zcases; cbn [month_start days_in_month]; lia. Qed.

Lemma month_cases m : 0 <= m <= 11 ->
  m = 0 \/ m = 1 \/ m = 2 \/ m = 3 \/ m = 4 \/ m = 5 \/ m = 6 \/ m = 7 \/ m = 8 \/ m = 9 \/ m = 10 \/ m = 11.
Proof. lia. Qed.

(** One goal per month, with [m] replaced by its number. *)
Ltac month_split m H :=
  let E := fresh "E" in
  pose proof (month_cases m H) as E;
  repeat match type of E with _ \/ _ => destruct E as [E|E]; [subst m|] end;
  try subst m.

Lemma month_of_start m l k : 0 <= l <= 1 -> 0 <= m <= 11 -> 0 <= k < days_in_month m l ->
  month_of (month_start m l + k) l = m.
Proof.
  intros Hl Hm Hk. unfold month_of.
  month_split m Hm;
    cbn [month_start days_in_month] in *; zcases; lia.
Qed.

Lemma month_start_days m l : 0 <= l <= 1 -> 0 <= m <= 11 ->
  month_start m l + days_in_month m l = if m =? 11 then 365 + l else month_start (m + 1) l.
Proof.
  intros Hl Hm. assert (l = 0 \/ l = 1) as [->| ->] by lia;
  month_split m Hm; reflexivity.
Qed.

Lemma Day_MakeDate d tw : 0 <= tw < msPerDay -> Day (MakeDate d tw) = d /\ TimeWithinDay (MakeDate d tw) = tw.
Proof. unfold Day, TimeWithinDay, MakeDate, msPerDay. intros H. Z.div_mod_to_equations. nia. Qed.

Lemma MakeDate_Day t : MakeDate (Day t) (TimeWithinDay t) = t.
Proof. unfold Day, TimeWithinDay, MakeDate, msPerDay. Z.div_mod_to_equations. lia. Qed.

Lemma MakeDay_month y m dt : 0 <= m <= 11 -> MakeDay y m dt = DayFromYear y + month_start m (leap y) + dt - 1.
Proof.
  intros Hm. unfold MakeDay. rewrite (Z.div_small m 12), (Z.mod_small m 12) by lia.
  rewrite Z.add_0_r. reflexivity.
Qed.

Lemma DayWithinYear_range t : 0 <= DayWithinYear t < 365 + leap (YearFromTime t).
Proof.
  unfold DayWithinYear, YearFromTime, leap. pose proof (year_from_day_bounds (Day t)) as B.
  rewrite DayFromYear_succ in B. lia.
Qed.

Lemma MonthFromTime_range t : 0 <= MonthFromTime t <= 11.
Proof. apply month_of_spec; [apply leap_range|apply DayWithinYear_range]. Qed.

Lemma DateFromTime_range t : 1 <= DateFromTime t <= days_in_month (MonthFromTime t) (leap (YearFromTime t)).
Proof.
  unfold DateFromTime, MonthFromTime.
  pose proof (month_of_spec (DayWithinYear t) (leap (YearFromTime t)) (leap_range _) (DayWithinYear_range t)).
  lia.
Qed.

(** Round trip: the year, month and date of a time value give back its day. *)
Theorem day_roundtrip t : MakeDay (YearFromTime t) (MonthFromTime t) (DateFromTime t) = Day t.
Proof.
  rewrite MakeDay_month by apply MonthFromTime_range.
  unfold DateFromTime, DayWithinYear. lia.
Qed.

Lemma month_end_le m l : 0 <= l <= 1 -> 0 <= m <= 11 -> month_start m l + days_in_month m l <= 365 + l.
Proof.
  intros Hl Hm. assert (l = 0 \/ l = 1) as [->| ->] by lia;
  month_split m Hm; cbn; lia.
Qed.

Lemma month_start_nonneg m l : 0 <= l -> 0 <= m <= 11 -> 0 <= month_start m l.
Proof.
  intros Hl Hm.
  month_split m Hm; cbn [month_start]; lia.
Qed.

(** Round trip: a valid year, month and date are read back from the
    time value [MakeDate(MakeDay(y, m, dt), tw)]. *)
Theorem civil_roundtrip y m dt tw :
  0 <= m <= 11 -> 1 <= dt <= days_in_month m (leap y) -> 0 <= tw < msPerDay ->
  let t := MakeDate (MakeDay y m dt) tw in
  YearFromTime t = y /\ MonthFromTime t = m /\ DateFromTime t = dt /\ TimeWithinDay t = tw.
Proof.
  intros Hm Hd Htw t. pose proof (leap_range y) as Hl.
  destruct (Day_MakeDate (MakeDay y m dt) tw Htw) as [HD HT]. fold t in HD, HT.
  rewrite MakeDay_month in HD by exact Hm.
  pose proof (month_end_le m (leap y) Hl Hm) as HE.
  pose proof (month_start_nonneg m (leap y) (proj1 Hl) Hm).
  assert (HY : YearFromTime t = y).
  { unfold YearFromTime. apply year_unique. rewrite DayFromYear_succ, HD. unfold leap in *. lia. }
  assert (HW : DayWithinYear t = month_start m (leap y) + (dt - 1))
    by (unfold DayWithinYear; rewrite HY, HD; lia).
  assert (HM : MonthFromTime t = m)
    by (unfold MonthFromTime; rewrite HW, HY; apply month_of_start; lia).
  repeat split; auto. unfold DateFromTime. rewrite HM, HW, HY. lia.
Qed.

Lemma month_start_le m l : 0 <= l <= 1 -> 0 <= m <= 11 -> month_start m l <= 334 + l.
Proof. intros. pose proof (month_end_le m l H H0). month_split m H0; cbn [month_start days_in_month] in *; lia. Qed.

(** The day of [MakeDay(y, m, dt)] is in year [y] for every month and a
    date up to 31 (a 29 February of a common year is 1 March). *)
Lemma year_of_MakeDay y m dt : 0 <= m <= 11 -> 1 <= dt <= 31 -> YearFromDay (MakeDay y m dt) = y.
Proof.
  intros Hm Hd. apply year_unique. rewrite MakeDay_month by exact Hm. rewrite DayFromYear_succ.
  pose proof (leap_range y). pose proof (month_start_nonneg m (leap y) ltac:(lia) Hm).
  pose proof (month_start_le m (leap y) ltac:(lia) Hm). unfold leap in *. lia.
Qed.

Lemma MakeDay_date y m dt k : MakeDay y m (dt + k) = MakeDay y m dt + k.
Proof. unfold MakeDay. lia. Qed.

Lemma MakeDay_shift y m j dt : MakeDay y (m + 12 * j) dt = MakeDay (y + j) m dt.
Proof.
  unfold MakeDay. replace (m + 12 * j) with (m + j * 12) by ring.
  rewrite Z.div_add, Z.mod_add by lia. replace (y + (m / 12 + j)) with (y + j + m / 12) by ring. reflexivity.
Qed.

Lemma MakeDay_next_month y m : 0 <= m <= 11 ->
  MakeDay y (m + 1) 1 = MakeDay y m 1 + days_in_month m (leap y).
Proof.
  intros Hm. pose proof (leap_range y) as Hl. rewrite (MakeDay_month y m) by exact Hm.
  pose proof (month_start_days m (leap y) Hl Hm) as HS.
  destruct (Z.eqb_spec m 11) as [->|Hne].
  - replace (11 + 1) with (0 + 12 * 1) by ring. rewrite MakeDay_shift, MakeDay_month by lia.
    cbv iota in HS. rewrite DayFromYear_succ. cbn [month_start days_in_month] in *. unfold leap in *. lia.
  - cbv iota in HS. rewrite MakeDay_month by lia. lia.
Qed.

Lemma setUTCDate_shift t k : setUTCDate t (DateFromTime t + k) = t + k * msPerDay.
Proof.
  unfold setUTCDate, MakeDate. rewrite MakeDay_date, day_roundtrip.
  pose proof (MakeDate_Day t) as E. unfold MakeDate in E. lia.
Qed.

Lemma TimeWithinDay_range t : 0 <= TimeWithinDay t < msPerDay.
Proof. unfold TimeWithinDay, msPerDay. apply Z.mod_pos_bound. lia. Qed.

Lemma Day_setUTCDate t dt : Day (setUTCDate t dt) = Day t - DateFromTime t + dt.
Proof.
  replace dt with (DateFromTime t + (dt - DateFromTime t)) at 1 by ring.
  rewrite setUTCDate_shift. unfold Day, msPerDay. rewrite Z.div_add by lia. fold msPerDay. unfold Day. lia.
Qed.

Lemma setUTCHours_zero t : setUTCHours t 0 0 0 0 = Day t * msPerDay.
Proof. unfold setUTCHours, MakeDate, MakeTime. lia. Qed.

Lemma setUTCMinutes_zero t : setUTCMinutes t 0 0 0 = (t / msPerHour) * msPerHour.
Proof.
  unfold setUTCMinutes, MakeDate, MakeTime, HourFromTime, Day, msPerDay, msPerHour, msPerMinute, msPerSecond.
  replace 86400000 with (3600000 * 24) by reflexivity. rewrite <- Z.div_div by lia.
  pose proof (Z.div_mod (t / 3600000) 24 ltac:(lia)). lia.
Qed.

Lemma setUTCSeconds_zero t : setUTCSeconds t 0 0 = (t / msPerMinute) * msPerMinute.
Proof.
  unfold setUTCSeconds, MakeDate, MakeTime, HourFromTime, MinFromTime, Day, msPerDay, msPerHour, msPerMinute, msPerSecond.
  replace 86400000 with (60000 * 60 * 24) by reflexivity. replace 3600000 with (60000 * 60) by reflexivity.
  rewrite <- !Z.div_div by lia.
  pose proof (Z.div_mod (t / 60000 / 60) 24 ltac:(lia)). pose proof (Z.div_mod (t / 60000) 60 ltac:(lia)). lia.
Qed.

(** The first millisecond of a day: its date values and time within the day. *)
Lemma civil_of_day y m dt : 0 <= m <= 11 -> 1 <= dt <= days_in_month m (leap y) ->
  YearFromTime (MakeDay y m dt * msPerDay) = y /\ MonthFromTime (MakeDay y m dt * msPerDay) = m /\
  DateFromTime (MakeDay y m dt * msPerDay) = dt /\ TimeWithinDay (MakeDay y m dt * msPerDay) = 0.
Proof.
  intros Hm Hd. replace (MakeDay y m dt * msPerDay) with (MakeDate (MakeDay y m dt) 0) by (unfold MakeDate; ring).
  apply civil_roundtrip; [exact Hm|exact Hd|unfold msPerDay; lia].
Qed.

Lemma days_in_month_range m l : 0 <= l <= 1 -> 28 <= days_in_month m l <= 31.
Proof.
  intros Hl. unfold days_in_month.
  repeat match goal with |- context [match ?x with _ => _ end] => destruct x end; lia.
Qed.

Lemma DayFromYear_add y j : 0 <= j -> DayFromYear y + 365 * j <= DayFromYear (y + j).
Proof.
  intros Hj. replace j with (Z.of_nat (Z.to_nat j)) by lia. induction (Z.to_nat j) as [|k IH].
  - cbn [Z.of_nat]. rewrite !Z.add_0_r. lia.
  - rewrite Nat2Z.inj_succ. replace (y + Z.succ (Z.of_nat k)) with (y + Z.of_nat k + 1) by lia.
    rewrite DayFromYear_succ. pose proof (leap_range (y + Z.of_nat k)). unfold leap in *. lia.
Qed.

Lemma Day_range t : Day t * msPerDay <= t < (Day t + 1) * msPerDay.
Proof. unfold Day, msPerDay. pose proof (Z.div_mod t 86400000 ltac:(lia)). pose proof (Z.mod_pos_bound t 86400000 ltac:(lia)). lia. Qed.

Lemma Day_mul d : Day (d * msPerDay) = d.
Proof. unfold Day, msPerDay. apply Z.div_mul. lia. Qed.

Lemma Day_MakeDate' d tw : 0 <= tw < msPerDay -> Day (MakeDate d tw) = d.
Proof. intros H. apply (Day_MakeDate d tw H). Qed.

Lemma time_ymd_add t k :
  t + k * msPerDay = MakeDate (MakeDay (YearFromTime t) (MonthFromTime t) (DateFromTime t + k)) (TimeWithinDay t).
Proof.
  rewrite MakeDay_date, day_roundtrip. pose proof (MakeDate_Day t) as E. unfold MakeDate in *. lia.
Qed.

(** The next day's date is the next number or the first of a month. *)
Lemma date_next t : DateFromTime (t + msPerDay) = DateFromTime t + 1 \/ DateFromTime (t + msPerDay) = 1.
Proof.
  set (y := YearFromTime t). set (m := MonthFromTime t). set (d := DateFromTime t).
  pose proof (MonthFromTime_range t) as Hm. pose proof (DateFromTime_range t) as Hd. fold y m d in Hm, Hd.
  pose proof (TimeWithinDay_range t) as Ht.
  pose proof (time_ymd_add t 1) as E. rewrite Z.mul_1_l in E. fold y m d in E.
  destruct (Z.leb_spec (d + 1) (days_in_month m (leap y))) as [Hle|Hgt].
  - left. rewrite E. apply civil_roundtrip; [exact Hm|lia|exact Ht].
  - right. assert (d = days_in_month m (leap y)) as Hdd by lia.
    replace (d + 1) with (1 + d) in E by ring. rewrite MakeDay_date, Hdd, <- MakeDay_next_month in E by exact Hm.
    replace (1 + days_in_month m (leap y) - days_in_month m (leap y)) with 1 in E by ring.
    destruct (Z.eqb_spec m 11) as [->|Hne].
    + replace (11 + 1) with (0 + 12 * 1) in E by ring. rewrite MakeDay_shift in E.
      rewrite E. apply civil_roundtrip; [lia| |exact Ht].
      pose proof (days_in_month_range 0 (leap (y + 1)) (leap_range _)). lia.
    + rewrite E. apply civil_roundtrip; [lia| |exact Ht].
      pose proof (days_in_month_range (m + 1) (leap y) (leap_range _)). lia.
Qed.

Lemma date_prev t : 2 <= DateFromTime t -> DateFromTime (t - msPerDay) = DateFromTime t - 1.
Proof.
  intros H2. pose proof (DateFromTime_range t). pose proof (MonthFromTime_range t).
  pose proof (time_ymd_add t (-1)) as E. replace (t + -1 * msPerDay) with (t - msPerDay) in E by ring.
  rewrite E. apply civil_roundtrip; [assumption|lia|apply TimeWithinDay_range].
Qed.

(** Round trip of the calendar: the year, month and date of a time value
    give back its day ([MakeDay]), and a valid year, month, date and time
    of day are read back from [MakeDate(MakeDay(y, m, dt), tw)]. *)
Theorem calendar_roundtrip :
  (forall t, MakeDay (YearFromTime t) (MonthFromTime t) (DateFromTime t) = Day t) /\
  (forall y m dt tw, 0 <= m <= 11 -> 1 <= dt <= days_in_month m (leap y) -> 0 <= tw < msPerDay ->
     let t := MakeDate (MakeDay y m dt) tw in
     YearFromTime t = y /\ MonthFromTime t = m /\ DateFromTime t = dt /\ TimeWithinDay t = tw).
Proof. split; [exact day_roundtrip|exact civil_roundtrip]. Qed.

(** Refinement: [YearFromTime], computed from an estimate corrected by a
    year, is ECMAScript's "largest [y] with [TimeFromYear(y) <= t]". *)
Theorem year_from_time_spec t :
  msPerDay * DayFromYear (YearFromTime t) <= t /\
  forall y, msPerDay * DayFromYear y <= t -> y <= YearFromTime t.
Proof.
  pose proof (year_from_day_bounds (Day t)) as B. fold (YearFromTime t) in B. pose proof (Day_range t).
  split; [unfold msPerDay in *; lia|]. intros y Hy. apply Z.nlt_ge. intros Hlt.
  pose proof (DayFromYear_le (YearFromTime t + 1) y ltac:(lia)). unfold msPerDay in *. lia.
Qed.
Lemma calendar_roundtrip_witness :
  let t := MakeDate (MakeDay 2020 1 29) 0 in
  YearFromTime t = 2020 /\ MonthFromTime t = 1 /\ DateFromTime t = 29 /\ TimeWithinDay t = 0.
Proof.
  apply (proj2 calendar_roundtrip);
    [lia|split; [lia|vm_compute; intro H; discriminate H]|unfold msPerDay; lia].
Defined.
End JsDateFacts.
