(* ===== verification/Ticks.v ===== *)
(** [d3.ticks(start, stop, count)] and [d3.tickIncrement] of d3-array
    1.2, which the y axis calls through [d3.axisLeft(y).ticks(4)]
    (src/main.js lines 75-84; [scale.ticks(count)] of a linear scale is
    [ticks(d[0], d[d.length - 1], count)]).

    [tickIncrement] reads the step [(stop - start) / count] as
    [error * 10^power] with [power = Math.floor(Math.log(step) / Math.LN10)]
    and rounds [error] to 1, 2, 5 or 10 at the thresholds [sqrt 2],
    [sqrt 10] and [sqrt 50]; a step below 1 is returned as the negative
    inverse [-10^-power / factor].  Here [power] is the exact
    [floor_log10] of the rational step, found by a bounded search, and
    [error >= sqrt k] is [error * error >= k]: where the floating-point
    logarithm of an exact power of ten falls just short, d3 takes the
    power below with [error = 10], factor 10, and returns the same step. *)

From Stdlib Require Import QArith Qpower Qround Qminmax Qabs Lqa ZArith List Lia.
From S2P Require Import Prelude JsNum.
Import ListNotations.
Open Scope Q_scope.

Module D3Ticks.

(** Search upward from [k] for the largest [j] with [10^j <= q], at most
    [fuel] steps. *)
Fixpoint log10_search (fuel : nat) (k : Z) (q : Q) : Z :=
  match fuel with
  | O => k
  | S f => if Qle_bool (10 ^ (k + 1)) q then log10_search f (k + 1) q else k
  end.

(** [Math.floor(Math.log(q) / Math.LN10)] for [q > 0]: the search starts
    at [-a] with [10^-a <= 1/den <= q] and runs [a + b] steps, up to
    [10^b > ceil q]. *)
Definition floor_log10 (q : Q) : Z :=
  let a := S (Z.to_nat (Z.log2 (Zpos (Qden q)))) in
  let b := S (Z.to_nat (Z.log2 (Qceiling q))) in
  log10_search (a + b) (- Z.of_nat a) q.

(** [error >= e10 ? 10 : error >= e5 ? 5 : error >= e2 ? 2 : 1] *)
Definition tick_factor (error : Q) : Q :=
  if Qle_bool 50 (error * error) then 10
  else if Qle_bool 10 (error * error) then 5
  else if Qle_bool 2 (error * error) then 2 else 1.

(** [tickIncrement(start, stop, count)] for [start < stop], [count > 0]. *)
Definition tick_increment (start stop : Q) (count : Z) : Q :=
  let step := (stop - start) / inject_Z count in
  let power := floor_log10 step in
  let error := step / 10 ^ power in
  if (0 <=? power)%Z then tick_factor error * 10 ^ power
  else - (10 ^ (- power)) / tick_factor error.

(** [tickStep(start, stop, count)] on numbers: [step0 = |stop - start| /
    max(0, count)], rounded to [1], [2], [5] or [10] times its power of
    ten; a zero [step0] gives [0] (the logarithm is [-Infinity], so
    [step1 = 0] and [error] is NaN), an infinite one [Infinity] and a NaN
    one NaN. *)
Definition tick_step (start stop count : num) : num :=
  let step0 := JsNum.div (abs (JsNum.sub stop start)) (max (nz 0) count) in
  let step1 := match step0 with
               | Fin q =>
                   if Qlt_le_dec 0 q then
                     let p := floor_log10 q in Fin (tick_factor (q / 10 ^ p) * 10 ^ p)
                   else Fin 0
               | PosInf => PosInf
               | _ => NaN
               end in
  if ltb stop start then neg step1 else step1.

(** The loop [while (++i < n) ticks[i] = ...] of both branches. *)
Definition ticks_pos (start stop step : Q) : list Q :=
  let s := Qceiling (start / step) in
  let e := Qfloor (stop / step) in
  map (fun i => (inject_Z (s + Z.of_nat i)) * step) (seq 0 (Z.to_nat (e - s + 1))).

Definition ticks_neg (start stop step : Q) : list Q :=
  let s := Qfloor (start * step) in
  let e := Qceiling (stop * step) in
  map (fun i => inject_Z (s - Z.of_nat i) / step) (seq 0 (Z.to_nat (s - e + 1))).

(** [ticks(start, stop, count)] on finite bounds: no tick for
    [count <= 0] ([tickIncrement] is infinite or NaN), one tick
    when the bounds are equal, the bounds swapped and the result reversed
    when [stop < start]. *)
Definition ticks_Q (start stop : Q) (count : Z) : list Q :=
  if (count <=? 0)%Z then []
  else if Qeq_bool start stop then [start]
  else
    let reverse := Qlt_le_dec stop start in
    let lo := if reverse then stop else start in
    let hi := if reverse then start else stop in
    let step := tick_increment lo hi count in
    let t := if Qlt_le_dec 0 step then ticks_pos lo hi step else ticks_neg lo hi step in
    if reverse then rev t else t.

(** On numbers: NaN bounds give no tick ([tickIncrement] is NaN); equal
    infinite bounds give that bound, other infinite ones no tick. *)
Definition ticks (start stop : num) (count : Z) : list num :=
  match start, stop with
  | Fin a, Fin b => map Fin (ticks_Q a b count)
  | PosInf, PosInf => [PosInf]
  | NegInf, NegInf => [NegInf]
  | _, _ => []
  end.

End D3Ticks.

Module D3TicksFacts.
Import D3Ticks.

Lemma pow10_pos k : 0 < 10 ^ k.
Proof. apply Qpower_0_lt. lra. Qed.

Lemma log10_search_spec f k q :
  10 ^ k <= q -> q < 10 ^ (k + Z.of_nat f) ->
  10 ^ log10_search f k q <= q /\ q < 10 ^ (log10_search f k q + 1).
Proof.
  revert k. induction f as [|f IH]; intros k Hk Hq; simpl.
  - rewrite Z.add_0_r in Hq. lra.
  - destruct (Qle_bool (10 ^ (k + 1)) q) eqn:E.
    + apply Qle_bool_iff in E. apply IH; [exact E|]. now replace (k + 1 + Z.of_nat f)%Z with (k + Z.of_nat (S f))%Z by lia.
    + split; [exact Hk|]. apply Qnot_le_lt. intros H. apply Qle_bool_iff in H. congruence.
Qed.

Lemma pow10_ge_pow2 n : (0 <= n)%Z -> inject_Z (2 ^ n) <= 10 ^ n.
Proof.
  intros Hn. rewrite <- (Zpower_Qpower 10 n Hn). rewrite <- Zle_Qle.
  apply Z.pow_le_mono_l. lia.
Qed.

Lemma Qceiling_pos q : 0 < q -> (1 <= Qceiling q)%Z.
Proof.
  intros H. pose proof (Qle_ceiling q). assert (0 < inject_Z (Qceiling q)) as H1 by lra.
  change 0 with (inject_Z 0) in H1. rewrite <- Zlt_Qlt in H1. lia.
Qed.

Lemma floor_log10_bounds q :
  0 < q -> 10 ^ floor_log10 q <= q /\ q < 10 ^ (floor_log10 q + 1).
Proof.
  intros Hq. unfold floor_log10. apply log10_search_spec.
  - set (a := S (Z.to_nat (Z.log2 (Z.pos (Qden q))))).
    assert (Z.pos (Qden q) < 2 ^ Z.of_nat a)%Z as Hd.
    { unfold a. rewrite Nat2Z.inj_succ, Z2Nat.id by apply Z.log2_nonneg. apply Z.log2_spec. lia. }
    pose proof (pow10_ge_pow2 (Z.of_nat a) ltac:(lia)) as H2. rewrite Zlt_Qlt in Hd.
    destruct q as [n d]. simpl Qden in *.
    assert (1 <= n)%Z as Hn by (unfold Qlt in Hq; simpl in Hq; lia).
    pose proof (pow10_pos (Z.of_nat a)) as HP. set (P := 10 ^ Z.of_nat a) in *.
    rewrite Qpower_opp. fold P.
    assert ((n # d) * inject_Z (Z.pos d) == inject_Z n) as E by (unfold Qeq; simpl; lia).
    assert (inject_Z (Z.pos d) <= P) as HdP by lra.
    assert (1 <= inject_Z n) as Hn' by (change 1 with (inject_Z 1); rewrite <- Zle_Qle; lia).
    assert (1 <= (n # d) * P) as H1.
    { apply (Qle_trans _ ((n # d) * inject_Z (Z.pos d))); [rewrite E; exact Hn'|].
      apply Qmult_le_l; [exact Hq|exact HdP]. }
    apply (Qle_trans _ (1 / P)); [apply Qle_shift_div_l; [exact HP|]; field_simplify; [lra|lra]|].
    apply Qle_shift_div_r; [exact HP|]. exact H1.
  - set (a := S (Z.to_nat (Z.log2 (Z.pos (Qden q))))).
    set (b := S (Z.to_nat (Z.log2 (Qceiling q)))).
    replace (- Z.of_nat a + Z.of_nat (a + b))%Z with (Z.of_nat b) by lia.
    pose proof (Qceiling_pos q Hq) as Hc.
    assert (Qceiling q < 2 ^ Z.of_nat b)%Z as Hb.
    { unfold b. rewrite Nat2Z.inj_succ, Z2Nat.id by apply Z.log2_nonneg. apply Z.log2_spec. lia. }
    rewrite Zlt_Qlt in Hb. pose proof (pow10_ge_pow2 (Z.of_nat b) ltac:(lia)). pose proof (Qle_ceiling q).
    lra.
Qed.

(** Termination of the search: with its fuel, [floor_log10] finds the
    power of ten of every positive rational. *)
Theorem floor_log10_spec q :
  0 < q -> 10 ^ floor_log10 q <= q /\ q < 10 ^ (floor_log10 q + 1).
Proof. apply floor_log10_bounds. Qed.

Lemma tick_factor_ge_1 e : 1 <= tick_factor e.
Proof.
  unfold tick_factor.
  destruct (Qle_bool 50 (e * e)), (Qle_bool 10 (e * e)), (Qle_bool 2 (e * e)); lra.
Qed.

Lemma tick_increment_nonzero lo hi c : ~ tick_increment lo hi c == 0.
Proof.
  unfold tick_increment. cbv zeta.
  match goal with |- context [tick_factor ?e] => pose proof (tick_factor_ge_1 e); set (f := tick_factor e) in * end.
  match goal with |- context [(0 <=? ?p)%Z] =>
    pose proof (pow10_pos p); pose proof (pow10_pos (- p)); destruct (0 <=? p)%Z end.
  - intros Hz. nra.
  - intros Hz. match type of Hz with ?x / _ == 0 =>
      assert (x / f * f == x) as E by (field; lra) end.
    rewrite Hz in E. lra.
Qed.

Lemma Z_index_bound (s e : Z) (i : nat) : (i < Z.to_nat (e - s + 1))%nat -> (s + Z.of_nat i <= e)%Z.
Proof. intros H. apply Nat2Z.inj_lt in H. rewrite Z2Nat.id in H by lia. lia. Qed.

Lemma ticks_pos_in lo hi step :
  0 < step -> Forall (fun t => lo <= t <= hi) (ticks_pos lo hi step).
Proof.
  intros Hs. unfold ticks_pos. apply Forall_forall. intros t Ht.
  apply in_map_iff in Ht as (i & <- & Hi). apply in_seq in Hi as [_ Hi]. simpl in Hi.
  apply Z_index_bound in Hi.
  pose proof (Qle_ceiling (lo / step)) as H1. pose proof (Qfloor_le (hi / step)) as H2.
  assert (inject_Z (Qceiling (lo / step)) <= inject_Z (Qceiling (lo / step) + Z.of_nat i)) as H3
    by (rewrite <- Zle_Qle; lia).
  assert (inject_Z (Qceiling (lo / step) + Z.of_nat i) <= inject_Z (Qfloor (hi / step))) as H4
    by (rewrite <- Zle_Qle; exact Hi).
  set (k := inject_Z (Qceiling (lo / step) + Z.of_nat i)) in *.
  assert (lo / step * step == lo) as E1 by (field; lra).
  assert (hi / step * step == hi) as E2 by (field; lra).
  split.
  - rewrite <- E1. apply Qmult_le_compat_r; lra.
  - rewrite <- E2. apply Qmult_le_compat_r; lra.
Qed.

Lemma ticks_neg_in lo hi step :
  step < 0 -> Forall (fun t => lo <= t <= hi) (ticks_neg lo hi step).
Proof.
  intros Hs. unfold ticks_neg. apply Forall_forall. intros t Ht.
  apply in_map_iff in Ht as (i & <- & Hi). apply in_seq in Hi as [_ Hi]. rewrite Nat.add_0_l in Hi.
  apply Nat2Z.inj_lt in Hi. rewrite Z2Nat.id in Hi by lia.
  pose proof (Qfloor_le (lo * step)) as H1. pose proof (Qle_ceiling (hi * step)) as H2.
  assert (inject_Z (Qfloor (lo * step) - Z.of_nat i) <= inject_Z (Qfloor (lo * step))) as H3
    by (rewrite <- Zle_Qle; lia).
  assert (inject_Z (Qceiling (hi * step)) <= inject_Z (Qfloor (lo * step) - Z.of_nat i)) as H4
    by (rewrite <- Zle_Qle; lia).
  set (k := inject_Z (Qfloor (lo * step) - Z.of_nat i)) in *.
  assert (k / step * step == k) as E by (field; lra).
  set (t := k / step) in *.
  assert (k <= lo * step) as K1 by lra. assert (hi * step <= k) as K2 by lra.
  split; apply Qnot_lt_le; intros Hc.
  - assert (0 < (lo - t) * - step) as P by (apply Qmult_lt_0_compat; lra). nra.
  - assert (0 < (t - hi) * - step) as P by (apply Qmult_lt_0_compat; lra). nra.
Qed.

Lemma ticks_Q_in a b count :
  Forall (fun t => Qmin a b <= t <= Qmax a b) (ticks_Q a b count).
Proof.
  unfold ticks_Q. destruct (count <=? 0)%Z; [constructor|].
  destruct (Qeq_bool a b) eqn:E.
  - apply Qeq_bool_iff in E. repeat constructor; rewrite <- E, ?Q.min_id, ?Q.max_id; lra.
  - destruct (Qlt_le_dec b a) as [Hba|Hab].
    + apply (@Forall_impl _ (fun t => b <= t <= a)); [intros t Ht; rewrite Q.min_r, Q.max_l by lra; lra|].
      apply Forall_rev. destruct (Qlt_le_dec 0 _) as [Hs|Hs]; [apply ticks_pos_in; assumption|].
      apply ticks_neg_in. pose proof (tick_increment_nonzero b a count) as Hn.
      apply Qle_lteq in Hs as [Hs|Hs]; [lra|]. exfalso. apply Hn. rewrite Hs. reflexivity.
    + apply (@Forall_impl _ (fun t => a <= t <= b)); [intros t Ht; rewrite Q.min_l, Q.max_r by lra; lra|].
      destruct (Qlt_le_dec 0 _) as [Hs|Hs]; [apply ticks_pos_in; assumption|].
      apply ticks_neg_in. pose proof (tick_increment_nonzero a b count) as Hn.
      apply Qle_lteq in Hs as [Hs|Hs]; [lra|]. exfalso. apply Hn. rewrite Hs. reflexivity.
Qed.

(** C13: Every tick lies between the two bounds, in either order of the
    bounds and for every count. *)
Theorem ticks_Q_within a b count :
  Forall (fun t => Qmin a b <= t <= Qmax a b) (ticks_Q a b count).
Proof. apply ticks_Q_in. Qed.

Lemma seq_cons_pos n : (0 < n)%nat -> exists r, seq 0 n = 0%nat :: r.
Proof. destruct n as [|n]; [lia|]. eexists. reflexivity. Qed.

(** C34: When the domain starts at 0 and ends above it, the first tick is 0:
    it is the tick the y axis removes. *)
Theorem ticks_zero_first m count :
  0 < m -> (0 < count)%Z -> exists t r, ticks_Q 0 m count = t :: r /\ t == 0.
Proof.
  intros Hm Hc. unfold ticks_Q.
  destruct (Z.leb_spec count 0) as [|_]; [lia|].
  destruct (Qeq_bool 0 m) eqn:E; [apply Qeq_bool_iff in E; lra|].
  destruct (Qlt_le_dec m 0) as [|_]; [lra|].
  pose proof (tick_increment_nonzero 0 m count) as Hn.
  set (step := tick_increment 0 m count) in *.
  destruct (Qlt_le_dec 0 step) as [Hs|Hs].
  - unfold ticks_pos.
    assert (Qceiling (0 / step) = 0%Z) as E0 by (rewrite (Qceiling_comp _ 0) by (field; lra); reflexivity).
    assert (0 <= Qfloor (m / step))%Z as E1.
    { change 0%Z with (Qfloor 0). apply Qfloor_resp_le. apply Qle_shift_div_l; lra. }
    rewrite E0. destruct (seq_cons_pos (Z.to_nat (Qfloor (m / step) - 0 + 1))) as [r Er]; [lia|].
    rewrite Er. simpl. do 2 eexists. split; [reflexivity|]. unfold inject_Z. lra.
  - assert (step < 0) as Hs' by (apply Qle_lteq in Hs as [|Hs]; [assumption|]; exfalso; apply Hn; rewrite Hs; reflexivity).
    unfold ticks_neg.
    assert (Qfloor (0 * step) = 0%Z) as E0 by (rewrite (Qfloor_comp _ 0) by lra; reflexivity).
    assert (Qceiling (m * step) <= 0)%Z as E1.
    { change 0%Z with (Qceiling 0). apply Qceiling_resp_le. nra. }
    rewrite E0. destruct (seq_cons_pos (Z.to_nat (0 - Qceiling (m * step) + 1))) as [r Er]; [lia|].
    rewrite Er. simpl. do 2 eexists. split; [reflexivity|]. unfold Qdiv, inject_Z. simpl. lra.
Qed.
(** ** The step of the ticks *)

Lemma pow10_le j k : (j <= k)%Z -> 10 ^ j <= 10 ^ k.
Proof. intros H. apply Qpower_le_compat_l; [exact H|lra]. Qed.

(** The power of ten of [q] is the only [k] with [10^k <= q < 10^(k+1)]. *)
Lemma floor_log10_unique q k : 10 ^ k <= q -> q < 10 ^ (k + 1) -> floor_log10 q = k.
Proof.
  intros H1 H2. pose proof (pow10_pos k).
  destruct (floor_log10_bounds q ltac:(lra)) as [B1 B2].
  destruct (Z.lt_trichotomy (floor_log10 q) k) as [Hlt|[Heq|Hgt]]; [|exact Heq|].
  - pose proof (pow10_le (floor_log10 q + 1) k ltac:(lia)). lra.
  - pose proof (pow10_le (k + 1) (floor_log10 q) ltac:(lia)). lra.
Qed.

Lemma floor_log10_ge q k : 10 ^ k <= q -> (k <= floor_log10 q)%Z.
Proof.
  intros H. pose proof (pow10_pos k). destruct (floor_log10_bounds q ltac:(lra)) as [_ B2].
  destruct (Z.le_gt_cases k (floor_log10 q)) as [|Hlt]; [assumption|].
  pose proof (pow10_le (floor_log10 q + 1) k ltac:(lia)). lra.
Qed.

Lemma floor_log10_Qeq q q' : 0 < q -> q == q' -> floor_log10 q' = floor_log10 q.
Proof.
  intros Hq E. destruct (floor_log10_bounds q Hq). apply floor_log10_unique; rewrite <- E; assumption.
Qed.

Lemma Qle_bool_Qeq a b b' : b == b' -> Qle_bool a b = Qle_bool a b'.
Proof.
  intros E. destruct (Qle_bool a b) eqn:E1, (Qle_bool a b') eqn:E2; auto;
    apply Qle_bool_iff in E1 || apply Qle_bool_iff in E2;
    [apply not_true_iff_false in E2 | apply not_true_iff_false in E1];
    exfalso; [apply E2 | apply E1]; apply Qle_bool_iff; [rewrite <- E | rewrite E]; assumption.
Qed.

Lemma tick_factor_Qeq e e' : e == e' -> tick_factor e = tick_factor e'.
Proof.
  intros E. unfold tick_factor. assert (EE : e * e == e' * e') by (rewrite E; reflexivity).
  rewrite !(Qle_bool_Qeq _ _ _ EE). reflexivity.
Qed.

Lemma tick_factor_cases e : tick_factor e = 1 \/ tick_factor e = 2 \/ tick_factor e = 5 \/ tick_factor e = 10.
Proof.
  unfold tick_factor. destruct (Qle_bool 50 (e * e)), (Qle_bool 10 (e * e)), (Qle_bool 2 (e * e)); auto.
Qed.

(** [tickStep] of an increasing finite domain and a positive count:
    [tick_factor(error) * 10^power], the step [tickIncrement] takes or
    inverts. *)
Lemma tick_step_Fin a b c : a < b -> (0 < c)%Z ->
  let q := Qabs (b - a) / inject_Z c in
  tick_step (Fin a) (Fin b) (nz c) = Fin (tick_factor (q / 10 ^ floor_log10 q) * 10 ^ floor_log10 q).
Proof.
  intros Hab Hc q. assert (Hq : 0 < q).
  { unfold q. apply Qlt_shift_div_l; [rewrite <- (Zlt_Qlt 0); exact Hc|]. rewrite Qabs_pos; lra. }
  unfold tick_step. rewrite ltb_Fin_false by lra. rewrite sub_Fin, max_nz, Z.max_r by lia.
  cbn [abs]. unfold nz. rewrite div_Fin by (change 0 with (inject_Z 0); rewrite inject_Z_injective; lia).
  fold q. destruct (Qlt_le_dec 0 q) as [_|]; [reflexivity|lra].
Qed.

(** Every tick is an integer multiple of [tickStep]'s step. *)
Lemma ticks_Q_multiple a b c : a < b -> (0 < c)%Z ->
  exists s, tick_step (Fin a) (Fin b) (nz c) = Fin s /\
    Forall (fun t => exists k, t == inject_Z k * s) (ticks_Q a b c).
Proof.
  intros Hab Hc. rewrite (tick_step_Fin a b c Hab Hc). eexists. split; [reflexivity|].
  set (q := Qabs (b - a) / inject_Z c).
  assert (Hq : 0 < q).
  { unfold q. apply Qlt_shift_div_l; [rewrite <- (Zlt_Qlt 0); exact Hc|]. rewrite Qabs_pos; lra. }
  assert (Eq : (b - a) / inject_Z c == q) by (unfold q; rewrite Qabs_pos by lra; reflexivity).
  unfold ticks_Q. destruct (Z.leb_spec c 0) as [|_]; [lia|].
  destruct (Qeq_bool a b) eqn:E; [apply Qeq_bool_iff in E; lra|].
  destruct (Qlt_le_dec b a) as [|_]; [lra|].
  unfold tick_increment. cbv zeta. rewrite (floor_log10_Qeq _ _ Hq (Qeq_sym _ _ Eq)).
  set (p := floor_log10 q).
  rewrite (tick_factor_Qeq ((b - a) / inject_Z c / 10 ^ p) (q / 10 ^ p)) by (rewrite Eq; reflexivity).
  pose proof (pow10_pos p). pose proof (pow10_pos (- p)). pose proof (tick_factor_ge_1 (q / 10 ^ p)).
  set (f := tick_factor (q / 10 ^ p)) in *.
  destruct (Z.leb_spec 0 p).
  - destruct (Qlt_le_dec 0 (f * 10 ^ p)) as [Hs|]; [|nra].
    unfold ticks_pos. apply Forall_forall. intros t Ht. apply in_map_iff in Ht as (i & <- & _).
    eexists. reflexivity.
  - destruct (Qlt_le_dec 0 (- 10 ^ (- p) / f)) as [Hs|_].
    { exfalso. assert (E1 : - 10 ^ (- p) / f == - (10 ^ (- p) / f)) by (field; lra).
      assert (0 < 10 ^ (- p) / f) by (apply Qlt_shift_div_l; lra). rewrite E1 in Hs. lra. }
    unfold ticks_neg. apply Forall_forall. intros t Ht. apply in_map_iff in Ht as (i & <- & _).
    match goal with |- exists k, inject_Z ?n / _ == _ => exists (- n)%Z; generalize n; intros z end.
    rewrite inject_Z_opp. setoid_replace (10 ^ (- p)) with (/ 10 ^ p) by apply Qpower_opp. field. lra.
Qed.

(** The step is [1], [2] or [5] times [10^e], [e] its power of ten. *)
Lemma tick_step_shape s : (exists f p, s == f * 10 ^ p /\ (f = 1 \/ f = 2 \/ f = 5 \/ f = 10)) ->
  exists k, s == inject_Z k * 10 ^ floor_log10 s /\ (k = 1 \/ k = 2 \/ k = 5)%Z.
Proof.
  intros (f & p & E & Hf). pose proof (pow10_pos p) as P.
  assert (Hs : exists k e, s == inject_Z k * 10 ^ e /\ (k = 1 \/ k = 2 \/ k = 5)%Z).
  { destruct Hf as [->|[->|[->| ->]]]; [exists 1%Z, p|exists 2%Z, p|exists 5%Z, p|exists 1%Z, (p + 1)%Z];
      (split; [|lia]); rewrite E; try reflexivity.
    rewrite Qpower_plus by lra. change (inject_Z 1) with 1. simpl. ring. }
  destruct Hs as (k & e & Ek & Hk). exists k. pose proof (pow10_pos e).
  rewrite (floor_log10_unique s e); [split; [exact Ek|exact Hk]| |];
    rewrite Ek, ?Qpower_plus by lra; destruct Hk as [->|[->| ->]]; simpl; unfold inject_Z; nra.
Qed.
End D3TicksFacts.

Module D3TicksExamples.
Import D3Ticks D3TicksFacts.

(** [d3.ticks(0, 10, 4)] is [0, 2, 4, 6, 8, 10] and [d3.ticks(0, 0.3, 4)]
    is [0, 0.1, 0.2, 0.3] (the negative, inverted step). *)
Example ticks_examples :
  ticks_Q 0 10 4 = [0; 2; 4; 6; 8; 10] /\
  map Qred (ticks_Q 0 (3 # 10) 4) = [0; 1 # 10; 1 # 5; 3 # 10].
Proof. split; vm_compute; reflexivity. Qed.

Lemma floor_log10_spec_witness :
  10 ^ floor_log10 (1 # 3) <= 1 # 3 /\ 1 # 3 < 10 ^ (floor_log10 (1 # 3) + 1).
Proof. apply floor_log10_spec. reflexivity. Defined.

Lemma ticks_zero_first_witness : exists t r, ticks_Q 0 10 4 = t :: r /\ t == 0.
Proof. apply ticks_zero_first; [reflexivity|lia]. Defined.
End D3TicksExamples.
