(* ===== verification/Time.v ===== *)
(** The UTC time intervals of d3-time 1.0 that [d3.scaleUtc().ticks]
    chooses from for the time axis of src/main.js (lines 65-73:
    [d3.axisBottom(x).ticks(width / 80)]).

    An interval is the pair of d3's [floori] and [offseti] (newInterval's
    arguments), on time values in milliseconds; [interval.floor],
    [interval.ceil], [interval.range], [interval.filter] and
    [interval.every] are written as in d3-time's [interval.js], their
    [while] loops as fuelled recursion.  [spacing] is not d3's: it is a
    lower bound of the distance between two consecutive boundaries, from
    which [range] computes its fuel; [filter]'s loops get the filter's step
    as fuel.  [D3TimeFacts] proves these fuels are enough.

    [utcMillisecond], [utcSecond], [utcMinute], [utcHour], [utcDay],
    [utcSunday] (d3's [utcWeek]), [utcMonth] and [utcYear] are written from
    d3-time's [utc*.js] on the ECMAScript setters of [JsDate]. *)

From Stdlib Require Import ZArith Lia List Bool Sorted Setoid Morphisms.
From S2P Require Import Prelude JsDate.
Import ListNotations.
Local Open Scope Z_scope.

Module D3Time.
Import JsDate.

Record interval : Type := {
  floori : Z -> Z;
  offseti : Z -> Z -> Z;
  spacing : Z
}.

(** [interval.ceil(date)]: [floori(date - 1); offseti(date, 1); floori(date)] *)
Definition ceil (i : interval) (t : Z) : Z := floori i (offseti i (floori i (t - 1)) 1).

(** [do range.push(previous = new Date(+start)), offseti(start, 1),
    floori(start); while (previous < start && start < stop)] *)
Fixpoint range_loop (i : interval) (fuel : nat) (start stop : Z) : list Z :=
  match fuel with
  | O => []
  | S f =>
      let next := floori i (offseti i start 1) in
      start :: (if (start <? next) && (next <? stop) then range_loop i f next stop else [])
  end.

(** [interval.range(start, stop)] with the default step 1:
    [start = interval.ceil(start); if (!(start < stop)) return []]. *)
Definition range (i : interval) (start stop : Z) : list Z :=
  let s := ceil i start in
  if s <? stop then range_loop i (S (Z.to_nat ((stop - s) / spacing i))) s stop else [].

(** [interval.filter(test)]'s [floori]:
    [while (floori(date), !test(date)) date.setTime(date - 1)] *)
Fixpoint filter_floor (i : interval) (test : Z -> bool) (fuel : nat) (t : Z) : Z :=
  let t' := floori i t in
  match fuel with
  | O => t'
  | S f => if test t' then t' else filter_floor i test f (t' - 1)
  end.

(** [while (offseti(date, s), !test(date)) {}] for [s] = [+1] or [-1] *)
Fixpoint filter_step (i : interval) (test : Z -> bool) (s : Z) (fuel : nat) (t : Z) : Z :=
  let t' := offseti i t s in
  match fuel with
  | O => t'
  | S f => if test t' then t' else filter_step i test s f t'
  end.

(** [interval.filter(test)]'s [offseti]: [|step|] filtered steps forward
    ([while (--step >= 0)]) or backward ([while (++step <= 0)]). *)
Definition filter_offset (i : interval) (test : Z -> bool) (fuel : nat) (t step : Z) : Z :=
  if step <? 0 then Nat.iter (Z.to_nat (- step)) (filter_step i test (-1) fuel) t
  else Nat.iter (Z.to_nat step) (filter_step i test 1 fuel) t.

Definition filter (i : interval) (test : Z -> bool) (fuel : nat) : interval :=
  {| floori := filter_floor i test fuel;
     offseti := filter_offset i test fuel;
     spacing := spacing i |}.

(** [interval.every(step)] of an interval with a [field] ([step] already
    [Math.floor]ed): [null] unless [step > 0], the interval itself unless
    [step > 1], else [interval.filter(d => field(d) % step === 0)]. *)
Definition every (i : interval) (field : Z -> Z) (step : Z) : option interval :=
  if negb (0 <? step) then None
  else if negb (1 <? step) then Some i
  else Some (filter i (fun d => Z.rem (field d) step =? 0) (Z.to_nat step)).

(** [utcMillisecond]: [floori] does nothing, [offseti] adds. *)
Definition utcMillisecond : interval :=
  {| floori := fun t => t; offseti := fun t s => t + s; spacing := 1 |}.

(** [millisecond.every(k)] for [k > 1]:
    [date.setTime(Math.floor(date / k) * k)], [date.setTime(+date + step * k)]. *)
Definition millisecond_every (k : Z) : interval :=
  {| floori := fun t => (t / k) * k; offseti := fun t s => t + s * k; spacing := k |}.

(** [utcSecond] (d3-time's [second]): [Math.floor(date / 1e3) * 1e3]. *)
Definition utcSecond : interval :=
  {| floori := fun t => (t / msPerSecond) * msPerSecond;
     offseti := fun t s => t + s * msPerSecond; spacing := msPerSecond |}.

(** [utcMinute]: [date.setUTCSeconds(0, 0)]. *)
Definition utcMinute : interval :=
  {| floori := fun t => setUTCSeconds t 0 0;
     offseti := fun t s => t + s * msPerMinute; spacing := msPerMinute |}.

(** [utcHour]: [date.setUTCMinutes(0, 0, 0)]. *)
Definition utcHour : interval :=
  {| floori := fun t => setUTCMinutes t 0 0 0;
     offseti := fun t s => t + s * msPerHour; spacing := msPerHour |}.

(** [utcDay]: [date.setUTCHours(0, 0, 0, 0)], [date.setUTCDate(date.getUTCDate() + step)]. *)
Definition utcDay : interval :=
  {| floori := fun t => setUTCHours t 0 0 0 0;
     offseti := fun t s => setUTCDate t (DateFromTime t + s); spacing := msPerDay |}.

(** [utcWeekday(0)] ([utcSunday], d3's [utcWeek]):
    [date.setUTCDate(date.getUTCDate() - (date.getUTCDay() + 7 - 0) % 7);
     date.setUTCHours(0, 0, 0, 0)], [date.setUTCDate(date.getUTCDate() + step * 7)]. *)
Definition utcSunday : interval :=
  {| floori := fun t => setUTCHours (setUTCDate t (DateFromTime t - Z.rem (WeekDay t + 7 - 0) 7)) 0 0 0 0;
     offseti := fun t s => setUTCDate t (DateFromTime t + s * 7); spacing := 7 * msPerDay |}.

(** [utcMonth]: [date.setUTCDate(1); date.setUTCHours(0, 0, 0, 0)],
    [date.setUTCMonth(date.getUTCMonth() + step)]. *)
Definition utcMonth : interval :=
  {| floori := fun t => setUTCHours (setUTCDate t 1) 0 0 0 0;
     offseti := fun t s => setUTCMonth t (MonthFromTime t + s) (DateFromTime t);
     spacing := 28 * msPerDay |}.

(** [utcYear]: [date.setUTCMonth(0, 1); date.setUTCHours(0, 0, 0, 0)],
    [date.setUTCFullYear(date.getUTCFullYear() + step)]. *)
Definition utcYear : interval :=
  {| floori := fun t => setUTCHours (setUTCMonth t 0 1) 0 0 0 0;
     offseti := fun t s => setUTCFullYear t (YearFromTime t + s) (MonthFromTime t) (DateFromTime t);
     spacing := 365 * msPerDay |}.

(** [utcYear.every(k)] for [k > 0]:
    [date.setUTCFullYear(Math.floor(date.getUTCFullYear() / k) * k);
     date.setUTCMonth(0, 1); date.setUTCHours(0, 0, 0, 0)],
    [date.setUTCFullYear(date.getUTCFullYear() + step * k)]. *)
Definition utcYear_every (k : Z) : interval :=
  {| floori := fun t =>
       let t1 := setUTCFullYear t ((YearFromTime t / k) * k) (MonthFromTime t) (DateFromTime t) in
       setUTCHours (setUTCMonth t1 0 1) 0 0 0 0;
     offseti := fun t s => setUTCFullYear t (YearFromTime t + s * k) (MonthFromTime t) (DateFromTime t);
     spacing := 365 * k * msPerDay |}.

(** The [field]s of [every]: [getUTCSeconds], [getUTCMinutes],
    [getUTCHours], [getUTCDate() - 1], [getUTCMonth]; [utcWeek] has none
    and tests [utcWeek.count(0, d) % step === 0]. *)
Definition week_count (d : Z) : Z :=
  (floori utcSunday d - floori utcSunday 0) / (7 * msPerDay).

End D3Time.

Module D3TimeFacts.
Import JsDate JsDateFacts D3Time.

(** What an interval promises: [floori] rounds down to the greatest
    boundary, [offseti b 1] of a boundary is the next boundary, at least
    [spacing] later, with none in between. *)
Class IntervalLaws (i : interval) : Prop := {
  spacing_pos : 0 < spacing i;
  floor_le : forall t, floori i t <= t;
  floor_mono : forall t u, t <= u -> floori i t <= floori i u;
  floor_idem : forall t, floori i (floori i t) = floori i t;
  next_boundary : forall b, floori i b = b -> floori i (offseti i b 1) = offseti i b 1;
  next_after : forall b, floori i b = b -> b + spacing i <= offseti i b 1;
  next_tight : forall b, floori i b = b -> floori i (offseti i b 1 - 1) = b
}.

Definition boundary (i : interval) (t : Z) : Prop := floori i t = t.

(** The boundary before and the boundary after a boundary. *)
Definition prev (i : interval) (c : Z) : Z := floori i (c - 1).
Definition next (i : interval) (c : Z) : Z := offseti i c 1.

Section Laws.
Context (i : interval) `{L : IntervalLaws i}.

Lemma floor_boundary t : boundary i (floori i t).
Proof. apply floor_idem. Qed.

Lemma floor_greatest c t : boundary i c -> c <= t -> c <= floori i t.
Proof. intros Hc Ht. rewrite <- Hc. apply floor_mono, Ht. Qed.

Lemma next_least b c : boundary i b -> boundary i c -> b < c -> offseti i b 1 <= c.
Proof.
  intros Hb Hc Hbc. apply Z.nlt_ge. intros Hlt.
  assert (c <= floori i (offseti i b 1 - 1)) by (apply floor_greatest; [exact Hc|lia]).
  rewrite next_tight in H by exact Hb. lia.
Qed.

Lemma ceil_spec t :
  boundary i (ceil i t) /\ t <= ceil i t /\ forall c, boundary i c -> t <= c -> ceil i t <= c.
Proof.
  unfold ceil. set (b := floori i (t - 1)).
  assert (Hb : boundary i b) by apply floor_boundary.
  assert (Hbt : b <= t - 1) by apply floor_le.
  pose proof (next_after b Hb). pose proof spacing_pos.
  pose proof (next_boundary b Hb) as Hn. set (n := offseti i b 1) in *. rewrite Hn.
  split; [exact Hn|split].
  - apply Z.nlt_ge. intros Hlt.
    assert (n <= b) by (unfold b; apply floor_greatest; [exact Hn|lia]). lia.
  - intros c Hc Htc. apply next_least; [exact Hb|exact Hc|lia].
Qed.

Lemma range_loop_spec fuel s stop :
  boundary i s -> s < stop -> stop - s <= Z.of_nat fuel * spacing i ->
  StronglySorted Z.lt (range_loop i fuel s stop) /\
  forall t, In t (range_loop i fuel s stop) <-> boundary i t /\ s <= t < stop.
Proof.
  revert s. induction fuel as [|f IH]; intros s Hs Hlt Hf; [pose proof spacing_pos; lia|].
  cbn [range_loop]. rewrite (next_boundary s Hs).
  pose proof (next_after s Hs) as Ha. pose proof spacing_pos.
  destruct (Z.ltb_spec s (offseti i s 1)) as [Hs1|Hs1]; [|lia].
  destruct (Z.ltb_spec (offseti i s 1) stop) as [Hn|Hn]; cbn [andb].
  - destruct (IH (offseti i s 1)) as [HS HI]; [apply next_boundary, Hs|lia|lia|].
    split.
    + constructor; [exact HS|]. apply Forall_forall. intros t Ht. apply HI in Ht. lia.
    + intros t. cbn [In]. rewrite HI. split.
      * intros [<-|(Hb & Hl1 & Hl2)]; [split; [exact Hs|lia]|split; [exact Hb|lia]].
      * intros (Hb & Hl1 & Hl2). destruct (Z.eq_dec s t) as [|Hne]; [left; assumption|right].
        split; [exact Hb|]. split; [apply next_least; auto; lia|lia].
  - split; [repeat constructor|]. intros t. cbn [In]. split.
    + intros [<-|[]]. split; [exact Hs|lia].
    + intros (Hb & H1 & H2). left. apply Z.le_antisymm; [exact H1|].
      apply Z.nlt_ge. intros Hst. pose proof (next_least s t Hs Hb Hst). lia.
Qed.

(** [interval.range(start, stop)] is every boundary of [[start, stop)], in
    increasing order. *)
Lemma range_spec start stop :
  StronglySorted Z.lt (range i start stop) /\
  forall t, In t (range i start stop) <-> boundary i t /\ start <= t < stop.
Proof.
  unfold range. destruct (ceil_spec start) as (Hb & Hle & Hleast).
  destruct (Z.ltb_spec (ceil i start) stop) as [Hlt|Hge].
  - pose proof spacing_pos.
    destruct (range_loop_spec (S (Z.to_nat ((stop - ceil i start) / spacing i))) (ceil i start) stop)
      as [HS HI]; [exact Hb|exact Hlt| |].
    + rewrite Nat2Z.inj_succ, Z2Nat.id by (apply Z.div_pos; lia).
      pose proof (Z.mul_div_le (stop - ceil i start) (spacing i)).
      pose proof (Z.mod_pos_bound (stop - ceil i start) (spacing i)).
      rewrite (Z.div_mod (stop - ceil i start) (spacing i)) at 1 by lia. nia.
    + split; [exact HS|]. intros t. rewrite HI. split.
      * intros (Hbt & H1 & H2). split; [exact Hbt|lia].
      * intros (Hbt & H1 & H2). split; [exact Hbt|]. split; [apply Hleast; auto|lia].
  - split; [constructor|]. intros t. split; [intros []|].
    intros (Hbt & H1 & H2). pose proof (Hleast t Hbt H1). lia.
Qed.
End Laws.

(** Two intervals are equivalent when they have the same [floori]
    everywhere and the same next boundary: [range] cannot tell them apart. *)
Definition interval_equiv (i j : interval) : Prop :=
  spacing i = spacing j /\ (forall t, floori i t = floori j t) /\
  (forall b, floori i b = b -> offseti i b 1 = offseti j b 1).

#[export] Instance interval_equiv_Equivalence : Equivalence interval_equiv.
Proof.
  split.
  - intros i. repeat split; auto.
  - intros i j (E1 & E2 & E3). repeat split; auto. intros b Hb. symmetry. apply E3. rewrite E2. exact Hb.
  - intros i j k (E1 & E2 & E3) (F1 & F2 & F3). repeat split; [congruence|congruence|].
    intros b Hb. rewrite E3 by exact Hb. apply F3. rewrite <- E2. exact Hb.
Qed.

Lemma laws_equiv i j : interval_equiv i j -> IntervalLaws j -> IntervalLaws i.
Proof.
  intros (E1 & E2 & E3) L.
  assert (Ei : forall b, floori i b = b -> floori j b = b) by (intros b Hb; rewrite <- E2; exact Hb).
  split; intros; rewrite ?E1, ?E2 in *; rewrite ?E3 by (rewrite E2; assumption).
  - apply spacing_pos.
  - apply floor_le.
  - apply floor_mono. assumption.
  - apply floor_idem.
  - apply next_boundary. assumption.
  - apply next_after. assumption.
  - apply next_tight. assumption.
Qed.

Lemma range_loop_equiv i j `{IntervalLaws j} fuel s stop :
  interval_equiv i j -> floori j s = s -> range_loop i fuel s stop = range_loop j fuel s stop.
Proof.
  intros (E1 & E2 & E3). revert s.
  induction fuel as [|f IH]; intros s Hs; [reflexivity|]. cbn [range_loop].
  rewrite E2, E3 by (rewrite E2; exact Hs).
  destruct ((s <? _) && (_ <? stop)); [|reflexivity]. rewrite IH; [reflexivity|apply floor_idem].
Qed.

(** [range] respects the equivalence of intervals. *)
Lemma range_equiv i j `{IntervalLaws j} start stop :
  interval_equiv i j -> range i start stop = range j start stop.
Proof.
  intros E. pose proof E as (E1 & E2 & E3).
  assert (Ec : ceil i start = ceil j start).
  { unfold ceil. rewrite !E2, E3; [reflexivity|]. rewrite E2. apply floor_idem. }
  unfold range. rewrite Ec, E1. destruct (_ <? stop); [|reflexivity].
  apply (range_loop_equiv i j); [exact E|]. unfold ceil. apply floor_idem.
Qed.

(** An interval given by its boundaries [B n], increasing by at least [sp],
    and the index [idx t] of the boundary at or before [t]. *)
Section Seq.
Variables (B : Z -> Z) (idx : Z -> Z) (sp : Z).
Hypothesis sp_pos : 0 < sp.
Hypothesis B_gap : forall n, B n + sp <= B (n + 1).
Hypothesis idx_spec : forall t, B (idx t) <= t < B (idx t + 1).

Definition seq_interval : interval :=
  {| floori := fun t => B (idx t); offseti := fun t s => B (idx t + s); spacing := sp |}.

Lemma B_lt n m : n < m -> B n < B m.
Proof.
  intros Hnm. replace m with (n + 1 + Z.of_nat (Z.to_nat (m - n - 1))) by lia.
  induction (Z.to_nat (m - n - 1)) as [|k IH].
  - pose proof (B_gap n). simpl. rewrite Z.add_0_r. lia.
  - rewrite Nat2Z.inj_succ. pose proof (B_gap (n + 1 + Z.of_nat k)).
    replace (n + 1 + Z.succ (Z.of_nat k)) with (n + 1 + Z.of_nat k + 1) by lia. lia.
Qed.

Lemma B_le n m : n <= m -> B n <= B m.
Proof. intros H. destruct (Z.eq_dec n m); [subst; lia|apply Z.lt_le_incl, B_lt; lia]. Qed.

Lemma idx_unique n t : B n <= t < B (n + 1) -> idx t = n.
Proof.
  intros Ht. pose proof (idx_spec t) as Hi.
  destruct (Z.lt_trichotomy (idx t) n) as [Hl|[E|Hl]]; [|exact E|].
  - pose proof (B_le (idx t + 1) n). lia.
  - pose proof (B_le (n + 1) (idx t)). lia.
Qed.

Lemma idx_B n : idx (B n) = n.
Proof. apply idx_unique. pose proof (B_lt n (n + 1)). lia. Qed.

Lemma idx_mono t u : t <= u -> idx t <= idx u.
Proof.
  intros H. apply Z.nlt_ge. intros Hl. pose proof (idx_spec t). pose proof (idx_spec u).
  pose proof (B_le (idx u + 1) (idx t)). lia.
Qed.

#[export] Instance seq_laws : IntervalLaws seq_interval.
Proof.
  split; unfold seq_interval; cbn [floori offseti spacing]; intros.
  - exact sp_pos.
  - apply idx_spec.
  - apply B_le, idx_mono. assumption.
  - rewrite idx_B. reflexivity.
  - rewrite !idx_B. reflexivity.
  - rewrite <- H, !idx_B. apply B_gap.
  - rewrite <- H, !idx_B. f_equal. apply idx_unique. pose proof (B_lt (idx b) (idx b + 1)). lia.
Qed.

(** The windows of [every]: when [test (B n)] is [n mod k = 0], a passing
    boundary is at most [k - 1] boundaries back and [k] forward. *)
Section Windows.
Variables (i : interval) (test : Z -> bool) (k : Z).
Hypothesis k_pos : 0 < k.
Hypothesis floor_seq : forall t, floori i t = B (idx t).
Hypothesis offset_seq : forall n, offseti i (B n) 1 = B (n + 1).
Hypothesis test_seq : forall n, test (B n) = (n mod k =? 0).

Lemma boundary_seq b : boundary i b -> b = B (idx b).
Proof. unfold boundary. rewrite floor_seq. intros H. symmetry. exact H. Qed.

Lemma iter_prev j n : Nat.iter j (prev i) (B n) = B (n - Z.of_nat j).
Proof.
  induction j as [|j IH]; [cbn; f_equal; lia|].
  rewrite Nat.iter_succ, IH. unfold prev. rewrite floor_seq. f_equal.
  apply idx_unique. pose proof (B_lt (n - Z.of_nat j - 1) (n - Z.of_nat j)).
  replace (n - Z.of_nat (S j) + 1) with (n - Z.of_nat j) by lia. rewrite Nat2Z.inj_succ.
  replace (n - Z.succ (Z.of_nat j)) with (n - Z.of_nat j - 1) by lia. lia.
Qed.

Lemma iter_next j n : Nat.iter j (next i) (B n) = B (n + Z.of_nat j).
Proof.
  induction j as [|j IH]; [cbn; f_equal; lia|].
  rewrite Nat.iter_succ, IH. unfold next. rewrite offset_seq. f_equal. lia.
Qed.

Lemma seq_window_floor b : boundary i b ->
  exists j, (j < Z.to_nat k)%nat /\ test (Nat.iter j (prev i) b) = true.
Proof.
  intros Hb. rewrite (boundary_seq b Hb). set (n := idx b).
  pose proof (Z.mod_pos_bound n k k_pos).
  exists (Z.to_nat (n mod k)). split; [lia|]. rewrite iter_prev, test_seq, Z2Nat.id by lia.
  apply Z.eqb_eq. replace (n - n mod k) with ((n / k) * k) by (pose proof (Z.div_mod n k); lia).
  apply Z.mod_mul. lia.
Qed.

Lemma seq_window_next b : boundary i b ->
  exists j, (1 <= j <= Z.to_nat k)%nat /\ test (Nat.iter j (next i) b) = true.
Proof.
  intros Hb. rewrite (boundary_seq b Hb). set (n := idx b).
  pose proof (Z.mod_pos_bound n k k_pos).
  exists (Z.to_nat (k - n mod k)). split; [lia|]. rewrite iter_next, test_seq, Z2Nat.id by lia.
  apply Z.eqb_eq. replace (n + (k - n mod k)) with ((n / k + 1) * k) by (pose proof (Z.div_mod n k); lia).
  apply Z.mod_mul. lia.
Qed.
End Windows.
End Seq.

(** Fixed-length intervals: boundaries [n * k + ph]. *)
Definition fixed (k ph : Z) : interval := seq_interval (fun n => n * k + ph) (fun t => (t - ph) / k) k.

#[export] Instance fixed_laws k ph : 0 < k -> IntervalLaws (fixed k ph).
Proof.
  intros Hk. apply seq_laws; [exact Hk|intros n; lia|].
  intros t. pose proof (Z.mul_div_le (t - ph) k Hk). pose proof (Z.mod_pos_bound (t - ph) k Hk).
  pose proof (Z.div_mod (t - ph) k ltac:(lia)). lia.
Qed.

Lemma fixed_boundary k ph b : 0 < k -> floori (fixed k ph) b = b -> b = (b - ph) / k * k + ph.
Proof. intros Hk Hb. exact (eq_sym Hb). Qed.

(** An interval whose floor is [(t - ph) / k * k + ph] and whose offset of
    a boundary adds [k] is [fixed k ph]. *)
Lemma fixed_equiv i k ph : 0 < k -> spacing i = k ->
  (forall t, floori i t = (t - ph) / k * k + ph) ->
  (forall b, floori i b = b -> offseti i b 1 = b + k) -> interval_equiv i (fixed k ph).
Proof.
  intros Hk Hs Hf Ho. repeat split; [exact Hs|exact Hf|]. intros b Hb. rewrite Ho by exact Hb.
  cbn [fixed seq_interval offseti]. rewrite Hf in Hb. rewrite <- Hb at 1. ring.
Qed.

Lemma div_mul_shift t k : 0 < k -> t / k * k = (t - 0) / k * k + 0.
Proof. intros. rewrite Z.sub_0_r, Z.add_0_r. reflexivity. Qed.

#[export] Instance utcMillisecond_laws : IntervalLaws utcMillisecond.
Proof.
  apply (laws_equiv _ (fixed 1 0)); [|apply fixed_laws; lia].
  apply fixed_equiv; [lia|reflexivity|intros t; cbn [utcMillisecond floori]; rewrite Z.sub_0_r, Z.div_1_r; ring|intros b _; reflexivity].
Qed.

#[export] Instance millisecond_every_laws k : 0 < k -> IntervalLaws (millisecond_every k).
Proof.
  intros Hk. apply (laws_equiv _ (fixed k 0)); [|apply fixed_laws; exact Hk].
  apply fixed_equiv; [exact Hk|reflexivity|intros t; apply div_mul_shift, Hk|intros b _; cbn [millisecond_every offseti]; ring].
Qed.

#[export] Instance utcSecond_laws : IntervalLaws utcSecond.
Proof.
  apply (laws_equiv _ (fixed msPerSecond 0)); [|apply fixed_laws; unfold msPerSecond; lia].
  apply fixed_equiv; [unfold msPerSecond; lia|reflexivity|intros t; apply div_mul_shift; unfold msPerSecond; lia|].
  intros b _. cbn [utcSecond offseti]. ring.
Qed.

#[export] Instance utcMinute_laws : IntervalLaws utcMinute.
Proof.
  apply (laws_equiv _ (fixed msPerMinute 0)); [|apply fixed_laws; unfold msPerMinute; lia].
  apply fixed_equiv; [unfold msPerMinute; lia|reflexivity| |intros b _; cbn [utcMinute offseti]; ring].
  intros t. cbn [utcMinute floori]. rewrite setUTCSeconds_zero. apply div_mul_shift. unfold msPerMinute; lia.
Qed.

#[export] Instance utcHour_laws : IntervalLaws utcHour.
Proof.
  apply (laws_equiv _ (fixed msPerHour 0)); [|apply fixed_laws; unfold msPerHour; lia].
  apply fixed_equiv; [unfold msPerHour; lia|reflexivity| |intros b _; cbn [utcHour offseti]; ring].
  intros t. cbn [utcHour floori]. rewrite setUTCMinutes_zero. apply div_mul_shift. unfold msPerHour; lia.
Qed.

#[export] Instance utcDay_laws : IntervalLaws utcDay.
Proof.
  apply (laws_equiv _ (fixed msPerDay 0)); [|apply fixed_laws; unfold msPerDay; lia].
  apply fixed_equiv; [unfold msPerDay; lia|reflexivity| |].
  - intros t. cbn [utcDay floori]. rewrite setUTCHours_zero. apply div_mul_shift. unfold msPerDay; lia.
  - intros b _. cbn [utcDay offseti]. rewrite setUTCDate_shift. ring.
Qed.

(** Sundays: [Day(t) - WeekDay(t)] is a multiple of 7 days after the Sunday
    4 days before the epoch (a Thursday). *)
#[export] Instance utcSunday_laws : IntervalLaws utcSunday.
Proof.
  apply (laws_equiv _ (fixed (7 * msPerDay) (- 4 * msPerDay))); [|apply fixed_laws; unfold msPerDay; lia].
  apply fixed_equiv; [unfold msPerDay; lia|reflexivity| |].
  - intros t. cbn [utcSunday floori]. rewrite setUTCHours_zero, Day_setUTCDate.
    unfold WeekDay, Day, msPerDay.
    replace (t - -4 * 86400000) with (t + 4 * 86400000) by ring.
    replace (7 * 86400000) with (86400000 * 7) by reflexivity. rewrite <- Z.div_div by lia.
    rewrite Z.div_add by lia.
    assert (E : Z.rem ((t / 86400000 + 4) mod 7 + 7 - 0) 7 = (t / 86400000 + 4) mod 7).
    { rewrite Z.rem_mod_nonneg by (pose proof (Z.mod_pos_bound (t / 86400000 + 4) 7); lia).
      replace ((t / 86400000 + 4) mod 7 + 7 - 0) with ((t / 86400000 + 4) mod 7 + 1 * 7) by ring.
      rewrite Z.mod_add, Z.mod_mod by lia. reflexivity. }
    rewrite E. pose proof (Z.div_mod (t / 86400000 + 4) 7 ltac:(lia)). lia.
  - intros b _. cbn [utcSunday offseti]. rewrite setUTCDate_shift. ring.
Qed.
(** Months: boundary [n] is the first of month [n] after January 1970
    ([MakeDay] normalises the month). *)
Definition month_B (n : Z) : Z := MakeDay 1970 n 1 * msPerDay.
Definition month_idx (t : Z) : Z := 12 * (YearFromTime t - 1970) + MonthFromTime t.

Lemma month_B_ym y m : month_B (12 * (y - 1970) + m) = MakeDay y m 1 * msPerDay.
Proof.
  unfold month_B. replace (12 * (y - 1970) + m) with (m + 12 * (y - 1970)) by ring.
  rewrite MakeDay_shift. f_equal. f_equal. ring.
Qed.

Lemma month_B_gap n : month_B n + 28 * msPerDay <= month_B (n + 1).
Proof.
  pose proof (Z.mod_pos_bound n 12 ltac:(lia)) as Hr.
  replace n with (12 * (1970 + n / 12 - 1970) + n mod 12) by (pose proof (Z.div_mod n 12); lia).
  rewrite <- Z.add_assoc, !month_B_ym, MakeDay_next_month by lia.
  pose proof (days_in_month_range (n mod 12) (leap (1970 + n / 12)) (leap_range _)). unfold msPerDay. lia.
Qed.

Lemma floor_month t : MakeDay (YearFromTime t) (MonthFromTime t) 1 = Day t - DateFromTime t + 1.
Proof.
  pose proof (MakeDay_date (YearFromTime t) (MonthFromTime t) 1 (DateFromTime t - 1)) as E.
  replace (1 + (DateFromTime t - 1)) with (DateFromTime t) in E by ring.
  rewrite day_roundtrip in E. lia.
Qed.

Lemma month_idx_spec t : month_B (month_idx t) <= t < month_B (month_idx t + 1).
Proof.
  unfold month_idx. rewrite <- Z.add_assoc, !month_B_ym, MakeDay_next_month by apply MonthFromTime_range.
  rewrite floor_month. pose proof (DateFromTime_range t). pose proof (Day_range t). unfold msPerDay in *. nia.
Qed.

Lemma utcMonth_floor t : floori utcMonth t = month_B (month_idx t).
Proof.
  cbn [utcMonth floori]. rewrite setUTCHours_zero, Day_setUTCDate.
  unfold month_idx. rewrite month_B_ym, floor_month. reflexivity.
Qed.

Lemma utcMonth_next b : month_B (month_idx b) = b -> offseti utcMonth b 1 = month_B (month_idx b + 1).
Proof.
  intros Hb. cbn [utcMonth offseti].
  unfold month_idx in *. rewrite month_B_ym in Hb. rewrite <- Z.add_assoc, month_B_ym.
  set (y := YearFromTime b) in *. set (m := MonthFromTime b) in *.
  destruct (civil_of_day y m 1) as (Ey & Em & Ed & Et);
    [apply MonthFromTime_range|pose proof (days_in_month_range m (leap y) (leap_range y)); lia|].
  rewrite Hb in Ey, Em, Ed, Et. unfold setUTCMonth. rewrite ?Ey, ?Ed, ?Et, ?Em.
  unfold MakeDate. ring.
Qed.

Lemma month_idx_B n : month_idx (month_B n) = n.
Proof. apply (idx_B month_B month_idx (28 * msPerDay)); [unfold msPerDay; lia|apply month_B_gap|apply month_idx_spec]. Qed.

Lemma utcMonth_offset n : offseti utcMonth (month_B n) 1 = month_B (n + 1).
Proof. rewrite utcMonth_next; rewrite month_idx_B; reflexivity. Qed.

#[export] Instance utcMonth_laws : IntervalLaws utcMonth.
Proof.
  apply (laws_equiv _ (seq_interval month_B month_idx (28 * msPerDay)));
    [|apply seq_laws; [unfold msPerDay; lia|apply month_B_gap|apply month_idx_spec]].
  repeat split; [exact utcMonth_floor|]. intros b Hb. rewrite utcMonth_floor in Hb.
  apply utcMonth_next, Hb.
Qed.

(** Years: boundary [n] is January 1 of year [n]. *)
Definition year_B (k n : Z) : Z := DayFromYear (n * k) * msPerDay.

Lemma civil_year_start y : YearFromTime (DayFromYear y * msPerDay) = y /\
  MonthFromTime (DayFromYear y * msPerDay) = 0 /\ DateFromTime (DayFromYear y * msPerDay) = 1 /\
  TimeWithinDay (DayFromYear y * msPerDay) = 0.
Proof.
  replace (DayFromYear y) with (MakeDay y 0 1) by (rewrite MakeDay_month by lia; cbn [month_start]; ring).
  apply civil_of_day; [lia|]. pose proof (days_in_month_range 0 (leap y) (leap_range y)). lia.
Qed.

Lemma setUTCHours_setUTCMonth_first t : setUTCHours (setUTCMonth t 0 1) 0 0 0 0 = DayFromYear (YearFromTime t) * msPerDay.
Proof.
  rewrite setUTCHours_zero. unfold setUTCMonth. rewrite Day_MakeDate' by apply TimeWithinDay_range.
  rewrite MakeDay_month by lia. cbn [month_start]. f_equal. ring.
Qed.

#[export] Instance utcYear_every_laws k : 0 < k -> IntervalLaws (utcYear_every k).
Proof.
  intros Hk.
  assert (Hgap : forall n, year_B k n + 365 * k * msPerDay <= year_B k (n + 1)).
  { intros n. unfold year_B. replace ((n + 1) * k) with (n * k + k) by ring.
    pose proof (DayFromYear_add (n * k) k ltac:(lia)). unfold msPerDay. nia. }
  assert (Hidx : forall t, year_B k (YearFromTime t / k) <= t < year_B k (YearFromTime t / k + 1)).
  { intros t. unfold year_B. pose proof (year_from_day_bounds (Day t)) as B. fold (YearFromTime t) in B.
    pose proof (Day_range t).
    pose proof (Z.mul_div_le (YearFromTime t) k Hk).
    pose proof (Z.mod_pos_bound (YearFromTime t) k Hk). pose proof (Z.div_mod (YearFromTime t) k ltac:(lia)).
    pose proof (DayFromYear_le (YearFromTime t / k * k) (YearFromTime t) ltac:(lia)).
    pose proof (DayFromYear_le (YearFromTime t + 1) ((YearFromTime t / k + 1) * k) ltac:(nia)).
    unfold msPerDay in *. nia. }
  apply (laws_equiv _ (seq_interval (year_B k) (fun t => YearFromTime t / k) (365 * k * msPerDay)));
    [|apply seq_laws; [unfold msPerDay; lia|exact Hgap|exact Hidx]].
  assert (Hf : forall t, floori (utcYear_every k) t = year_B k (YearFromTime t / k)).
  { intros t. cbn [utcYear_every floori]. rewrite setUTCHours_setUTCMonth_first. unfold year_B.
    unfold YearFromTime at 1, setUTCFullYear. rewrite Day_MakeDate' by apply TimeWithinDay_range.
    rewrite year_of_MakeDay; [reflexivity|apply MonthFromTime_range|].
    pose proof (DateFromTime_range t).
    pose proof (days_in_month_range (MonthFromTime t) (leap (YearFromTime t)) (leap_range _)). lia. }
  repeat split; [exact Hf|]. intros b Hb. rewrite Hf in Hb.
  cbn [utcYear_every offseti seq_interval floori]. unfold year_B in *.
  destruct (civil_year_start (YearFromTime b / k * k)) as (Ey & Em & Ed & Et).
  rewrite Hb in Ey, Em, Ed, Et. unfold setUTCFullYear. rewrite Em, Ed, Et, Ey.
  rewrite MakeDay_month by lia. cbn [month_start]. unfold MakeDate.
  rewrite Z.div_mul by lia. replace ((YearFromTime b / k + 1) * k) with (YearFromTime b / k * k + 1 * k) by ring. ring.
Qed.
(** [interval.filter(test)]: its boundaries are the boundaries of the
    base interval that pass [test], provided that [test] passes at least
    once in every window of [fuel] boundaries, backwards from a boundary
    (for [floori]) and forwards after it (for [offseti]). *)
Section Filter.
Context (i : interval) `{L : IntervalLaws i} (test : Z -> bool) (fuel : nat).

Hypothesis window_floor : forall b, boundary i b ->
  exists j, (j < fuel)%nat /\ test (Nat.iter j (prev i) b) = true.
Hypothesis window_next : forall b, boundary i b ->
  exists j, (1 <= j <= fuel)%nat /\ test (Nat.iter j (next i) b) = true.

Definition candidate (c : Z) : Prop := boundary i c /\ test c = true.

Lemma filter_floor_spec n t :
  (exists j, (j < n)%nat /\ test (Nat.iter j (prev i) (floori i t)) = true) ->
  let f := filter_floor i test n t in
  candidate f /\ f <= t /\ forall c, candidate c -> c <= t -> c <= f.
Proof.
  revert t. induction n as [|m IH]; intros t (j & Hj & Ht); [lia|]. cbn [filter_floor].
  destruct (test (floori i t)) eqn:E.
  - split; [split; [exact (floor_boundary i t)|exact E]|]. split; [exact (floor_le t)|].
    intros c [Hc _] Hct. apply (floor_greatest i); assumption.
  - destruct j as [|j]; [cbn in Ht; congruence|].
    rewrite Nat.iter_succ_r in Ht. destruct (IH (floori i t - 1)) as (Hf & Hle & Hmax).
    { exists j. split; [lia|exact Ht]. }
    pose proof (floor_le t). split; [exact Hf|]. split; [lia|].
    intros c [Hc Htc] Hct. apply Hmax; [split; assumption|].
    assert (c <= floori i t) by (apply (floor_greatest i); assumption).
    destruct (Z.eq_dec c (floori i t)) as [->|]; [congruence|lia].
Qed.

Lemma filter_step_spec n b : boundary i b ->
  (exists j, (1 <= j <= n)%nat /\ test (Nat.iter j (next i) b) = true) ->
  let f := filter_step i test 1 n b in
  candidate f /\ b < f /\ forall c, candidate c -> b < c -> f <= c.
Proof.
  revert b. induction n as [|m IH]; intros b Hb (j & Hj & Ht); [lia|]. cbn [filter_step].
  pose proof (next_boundary b Hb) as Hn. pose proof (next_after b Hb). pose proof spacing_pos.
  destruct (test (offseti i b 1)) eqn:E.
  - split; [split; [exact Hn|exact E]|]. split; [lia|].
    intros c [Hc _] Hbc. apply (next_least i); assumption.
  - destruct j as [|[|j]]; [lia|cbn in Ht; unfold next in Ht; congruence|].
    rewrite Nat.iter_succ_r in Ht. destruct (IH (offseti i b 1) Hn) as (Hf & Hlt & Hmin).
    { exists (S j). split; [lia|exact Ht]. }
    split; [exact Hf|]. split; [lia|].
    intros c [Hc Htc] Hbc. apply Hmin; [split; assumption|].
    pose proof (next_least i b c Hb Hc Hbc).
    destruct (Z.eq_dec c (offseti i b 1)) as [->|]; [congruence|lia].
Qed.

Lemma filter_floor_ok t :
  let f := filter_floor i test fuel t in
  candidate f /\ f <= t /\ forall c, candidate c -> c <= t -> c <= f.
Proof. apply filter_floor_spec, window_floor, (floor_boundary i). Qed.

Lemma filter_boundary b : floori (filter i test fuel) b = b -> candidate b.
Proof. intros Hb. cbn [filter floori] in Hb. rewrite <- Hb. apply filter_floor_ok. Qed.

Lemma filter_next_ok b : candidate b ->
  let f := offseti (filter i test fuel) b 1 in
  candidate f /\ b < f /\ forall c, candidate c -> b < c -> f <= c.
Proof.
  intros [Hb _]. cbn [filter offseti filter_offset]. apply filter_step_spec; [exact Hb|]. apply window_next, Hb.
Qed.

#[export] Instance filter_laws : IntervalLaws (filter i test fuel).
Proof.
  assert (Hf := filter_floor_ok). cbn zeta in Hf.
  split; cbn [filter floori spacing]; intros.
  - apply spacing_pos.
  - apply Hf.
  - destruct (Hf t) as (Hc & Hle & _). apply Hf; [exact Hc|lia].
  - destruct (Hf t) as (Hc & _ & _). destruct (Hf (filter_floor i test fuel t)) as (_ & Hle & Hmax).
    apply Z.le_antisymm; [exact Hle|apply Hmax; [exact Hc|lia]].
  - apply filter_boundary in H. destruct (filter_next_ok b H) as (Hc & _ & _).
    destruct (Hf (offseti (filter i test fuel) b 1)) as (_ & Hle & Hmax).
    apply Z.le_antisymm; [exact Hle|apply Hmax; [exact Hc|lia]].
  - apply filter_boundary in H. destruct (filter_next_ok b H) as ([Hn _] & Hlt & _).
    destruct H as [Hb _]. pose proof (next_least i b _ Hb Hn Hlt). pose proof (next_after b Hb). lia.
  - apply filter_boundary in H. destruct (filter_next_ok b H) as (Hc & Hlt & Hmin).
    destruct (Hf (offseti (filter i test fuel) b 1 - 1)) as (Hc' & Hle & Hmax).
    apply Z.le_antisymm.
    + apply Z.nlt_ge. intros Hgt. pose proof (Hmin _ Hc' Hgt). lia.
    + apply Hmax; [exact H|lia].
Qed.
End Filter.

(** [interval.every(k)] keeps the laws. *)
Lemma every_seq_laws i `{IntervalLaws i} B idx sp field k j :
  0 < sp -> (forall n, B n + sp <= B (n + 1)) -> (forall t, B (idx t) <= t < B (idx t + 1)) ->
  (forall t, floori i t = B (idx t)) -> (forall n, offseti i (B n) 1 = B (n + 1)) ->
  (forall n, Z.rem (field (B n)) k = n mod k) ->
  every i field k = Some j -> IntervalLaws j.
Proof.
  intros Hsp Hgap Hidx Hf Ho Hfield. unfold every.
  destruct (Z.ltb_spec 0 k) as [Hk|]; [|discriminate]. cbn [negb].
  destruct (Z.ltb_spec 1 k); cbn [negb]; intros E; injection E as <-; [|assumption].
  assert (Ht : forall n, (Z.rem (field (B n)) k =? 0) = (n mod k =? 0)) by (intros n; rewrite Hfield; reflexivity).
  apply filter_laws; [exact H| |].
  - exact (seq_window_floor B idx sp Hsp Hgap Hidx i (fun d => Z.rem (field d) k =? 0) k Hk Hf Ht).
  - exact (seq_window_next B idx i (fun d => Z.rem (field d) k =? 0) k Hk Hf Ho Ht).
Qed.

Lemma mod_mod_divide n k M : 0 < k -> 0 < M -> (k | M) -> Z.rem (n mod M) k = n mod k.
Proof.
  intros Hk HM [c ->]. rewrite Z.rem_mod_nonneg by (pose proof (Z.mod_pos_bound n (c * k) HM); lia).
  rewrite (Z.div_mod n (c * k)) at 2 by lia.
  replace (c * k * (n / (c * k)) + n mod (c * k)) with (n mod (c * k) + (c * (n / (c * k))) * k) by ring.
  rewrite Z.mod_add by lia. reflexivity.
Qed.

(** [every] on an interval of fixed length [u] whose field counts the
    boundaries modulo [M] (seconds and minutes in 60, hours in 24). *)
Lemma every_unit_laws i `{IntervalLaws i} u M field k j :
  0 < u -> 0 < M -> 0 < k -> (k | M) ->
  (forall t, floori i t = (t - 0) / u * u + 0) -> (forall n, offseti i (n * u + 0) 1 = (n + 1) * u + 0) ->
  (forall n, field (n * u + 0) = n mod M) ->
  every i field k = Some j -> IntervalLaws j.
Proof.
  intros Hu HM Hk Hd Hf Ho Hfield.
  apply (every_seq_laws i (fun n => n * u + 0) (fun t => (t - 0) / u) u field k); auto.
  - intros n. lia.
  - intros t. pose proof (Z.mul_div_le (t - 0) u Hu). pose proof (Z.mod_pos_bound (t - 0) u Hu).
    pose proof (Z.div_mod (t - 0) u ltac:(lia)). lia.
  - intros n. rewrite Hfield. apply mod_mod_divide; assumption.
Qed.

Lemma div_unit n u : 0 < u -> (n * u + 0) / u = n.
Proof. intros. rewrite Z.add_0_r. apply Z.div_mul. lia. Qed.

Lemma second_every_laws k j : 0 < k -> (k | 60) -> every utcSecond SecFromTime k = Some j -> IntervalLaws j.
Proof.
  intros Hk Hd. apply (every_unit_laws utcSecond msPerSecond 60); try (unfold msPerSecond; lia); auto.
  - intros t. apply div_mul_shift. unfold msPerSecond; lia.
  - intros n. cbn [utcSecond offseti]. ring.
  - intros n. unfold SecFromTime. rewrite div_unit by (unfold msPerSecond; lia). reflexivity.
Qed.

Lemma minute_every_laws k j : 0 < k -> (k | 60) -> every utcMinute MinFromTime k = Some j -> IntervalLaws j.
Proof.
  intros Hk Hd. apply (every_unit_laws utcMinute msPerMinute 60); try (unfold msPerMinute; lia); auto.
  - intros t. cbn [utcMinute floori]. rewrite setUTCSeconds_zero. apply div_mul_shift. unfold msPerMinute; lia.
  - intros n. cbn [utcMinute offseti]. ring.
  - intros n. unfold MinFromTime. rewrite div_unit by (unfold msPerMinute; lia). reflexivity.
Qed.

Lemma hour_every_laws k j : 0 < k -> (k | 24) -> every utcHour HourFromTime k = Some j -> IntervalLaws j.
Proof.
  intros Hk Hd. apply (every_unit_laws utcHour msPerHour 24); try (unfold msPerHour; lia); auto.
  - intros t. cbn [utcHour floori]. rewrite setUTCMinutes_zero. apply div_mul_shift. unfold msPerHour; lia.
  - intros n. cbn [utcHour offseti]. ring.
  - intros n. unfold HourFromTime. rewrite div_unit by (unfold msPerHour; lia). reflexivity.
Qed.

Lemma month_field n : MonthFromTime (month_B n) = n mod 12.
Proof.
  pose proof (Z.mod_pos_bound n 12 ltac:(lia)).
  replace n with (12 * (1970 + n / 12 - 1970) + n mod 12) at 1 by (pose proof (Z.div_mod n 12); lia).
  rewrite month_B_ym. apply civil_of_day; [lia|].
  pose proof (days_in_month_range (n mod 12) (leap (1970 + n / 12)) (leap_range _)). lia.
Qed.

Lemma month_every_laws k j : 0 < k -> (k | 12) -> every utcMonth MonthFromTime k = Some j -> IntervalLaws j.
Proof.
  intros Hk Hd. apply (every_seq_laws utcMonth month_B month_idx (28 * msPerDay) MonthFromTime k).
  - unfold msPerDay; lia.
  - apply month_B_gap.
  - apply month_idx_spec.
  - apply utcMonth_floor.
  - apply utcMonth_offset.
  - intros n. rewrite month_field. apply mod_mod_divide; [exact Hk|lia|exact Hd].
Qed.

Lemma odd_pred_even x : x mod 2 <> 0 -> (x - 1) mod 2 = 0.
Proof. intros Hx. Z.div_mod_to_equations. lia. Qed.

Lemma odd_succ_even x : x mod 2 <> 0 -> (x + 1) mod 2 = 0.
Proof. intros Hx. Z.div_mod_to_equations. lia. Qed.

(** Every other day of the month ([utcDay.every(2)]): the dates 1, 3, 5,
    ...; the 31st and the next 1st are both kept. *)
Lemma day_every2_laws j : every utcDay (fun d => DateFromTime d - 1) 2 = Some j -> IntervalLaws j.
Proof.
  intros E. change (Some (filter utcDay (fun d => Z.rem (DateFromTime d - 1) 2 =? 0) 2) = Some j) in E.
  injection E as <-.
  assert (Hf : forall t, floori utcDay t = Day t * msPerDay)
    by (intros t; cbn [utcDay floori]; apply setUTCHours_zero).
  assert (Hb : forall b, boundary utcDay b -> b = Day b * msPerDay) by (intros b Hb; rewrite <- Hf; symmetry; exact Hb).
  assert (Ht : forall d, (Z.rem (DateFromTime d - 1) 2 =? 0) = ((DateFromTime d - 1) mod 2 =? 0))
    by (intros d; rewrite Z.rem_mod_nonneg; [reflexivity| |lia]; pose proof (DateFromTime_range d); lia).
  apply filter_laws; [exact utcDay_laws| |].
  - intros b Hbd. destruct (Z.eqb_spec ((DateFromTime b - 1) mod 2) 0) as [E|E].
    + exists 0%nat. split; [lia|]. cbn [Nat.iter nat_rect]. rewrite Ht. apply Z.eqb_eq, E.
    + exists 1%nat. split; [lia|]. cbn [Nat.iter nat_rect]. unfold prev. rewrite Hf, Ht.
      pose proof (DateFromTime_range b).
      assert (2 <= DateFromTime b) by (destruct (Z.eq_dec (DateFromTime b) 1) as [E1|]; [rewrite E1 in E; cbn in E; lia|lia]).
      rewrite (Hb b Hbd) at 1. replace (Day b * msPerDay - 1) with ((Day b - 1) * msPerDay + (msPerDay - 1)) by ring.
      unfold Day at 1. rewrite Z.div_add_l, Z.div_small, Z.add_0_r by (unfold msPerDay; lia).
      replace ((Day b - 1) * msPerDay) with (b - msPerDay) by (rewrite (Hb b Hbd) at 1; ring).
      rewrite date_prev by assumption. apply Z.eqb_eq.
      apply odd_pred_even, E.
  - intros b Hbd. assert (Hn : forall c, next utcDay c = c + msPerDay)
      by (intros c; unfold next; cbn [utcDay offseti]; apply setUTCDate_shift).
    destruct (Z.eqb_spec ((DateFromTime (b + msPerDay) - 1) mod 2) 0) as [E|E].
    + exists 1%nat. split; [lia|]. cbn [Nat.iter nat_rect]. rewrite Hn, Ht. apply Z.eqb_eq, E.
    + exists 2%nat. split; [lia|]. cbn [Nat.iter nat_rect]. rewrite !Hn, Ht. apply Z.eqb_eq.
      destruct (date_next (b + msPerDay)) as [E1|E1]; rewrite E1; [|reflexivity].
      destruct (date_next b) as [E2|E2]; [|rewrite E2 in E; cbn in E; lia].
      rewrite E2 in E. rewrite E2. replace (DateFromTime b + 1 + 1 - 1) with (DateFromTime b + 1 - 1 + 1) by lia.
      apply odd_succ_even, E.
Qed.
End D3TimeFacts.
