(* ===== verification/TimeScale.v ===== *)
(** The ticks and tick labels of d3-scale 2.2's [scaleUtc], which the time
    axis of src/main.js uses (lines 65-73: [d3.axisBottom(x).ticks(width /
    80)] on [x = d3.scaleUtc()]): [tickInterval] picks an interval of
    d3-time from the table [tickIntervals] by the domain's extent divided
    by the count, [scale.ticks] takes its [range] over the domain, and the
    multi-scale [tickFormat] prints each tick with the d3-time-format 2
    [utcFormat] of the coarsest unit it is not a boundary of.

    [D3ScaleTime] holds the definitions; [D3ScaleTimeFacts] proves that
    every interval [tickInterval] returns satisfies the interval laws, so
    the ticks are the interval's boundaries in the domain, increasing. *)

From Stdlib Require Import QArith Qround Qabs Lqa ZArith String Ascii List Bool Lia Sorted.
From S2P Require Import Prelude JsNum NumParse D3Array Ticks JsDate Time.
Import ListNotations.
Local Open Scope Z_scope.

Module D3TimeFormat.
Import JsDate NumberToString.
Local Open Scope string_scope.

(** The en-US locale of d3-time-format 2. *)
Definition periods : list string := ["AM"; "PM"].
Definition days : list string := ["Sunday"; "Monday"; "Tuesday"; "Wednesday"; "Thursday"; "Friday"; "Saturday"].
Definition shortDays : list string := ["Sun"; "Mon"; "Tue"; "Wed"; "Thu"; "Fri"; "Sat"].
Definition months : list string :=
  ["January"; "February"; "March"; "April"; "May"; "June"; "July"; "August"; "September";
   "October"; "November"; "December"].
Definition shortMonths : list string :=
  ["Jan"; "Feb"; "Mar"; "Apr"; "May"; "Jun"; "Jul"; "Aug"; "Sep"; "Oct"; "Nov"; "Dec"].

Definition at_index (l : list string) (z : Z) : string := nth (Z.to_nat z) l "".

Fixpoint repeat_string (n : nat) (s : string) : string :=
  match n with O => "" | S k => s ++ repeat_string k s end.

(** [pad(value, fill, width)]: the sign, then [width - length] copies of
    [fill] before the digits of [|value|] ([new Array(width - length +
    1).join(fill)]). *)
Definition pad (value : Z) (fill : string) (width : nat) : string :=
  let sign := if Z.ltb value 0 then "-" else "" in
  let digits := Z_to_string (Z.abs value) in
  let len := String.length digits in
  sign ++ (if Nat.ltb len width then repeat_string (width - len) fill ++ digits else digits).

(** [pads = {"-": "", "_": " ", "0": "0"}] *)
Definition pad_modifier (c : ascii) : option string :=
  if Ascii.eqb c "-" then Some ""
  else if Ascii.eqb c "_" then Some " "
  else if Ascii.eqb c "0" then Some "0"
  else None.

(** [utcFormats[c](date, p)] for the directives of the time axis' formats
    and the plain ones next to them; [Some None] for a directive of d3 that
    is not modelled, [None] for a character that is no directive (d3 then
    prints the character). *)
Definition directive (c : ascii) (p : string) (t : Z) : option (option string) :=
  let h := HourFromTime t in
  if Ascii.eqb c "a" then Some (Some (at_index shortDays (WeekDay t)))
  else if Ascii.eqb c "A" then Some (Some (at_index days (WeekDay t)))
  else if Ascii.eqb c "b" then Some (Some (at_index shortMonths (MonthFromTime t)))
  else if Ascii.eqb c "B" then Some (Some (at_index months (MonthFromTime t)))
  else if Ascii.eqb c "d" then Some (Some (pad (DateFromTime t) p 2))
  else if Ascii.eqb c "e" then Some (Some (pad (DateFromTime t) p 2))
  else if Ascii.eqb c "H" then Some (Some (pad h p 2))
  else if Ascii.eqb c "I" then Some (Some (pad (if Z.eqb (Z.rem h 12) 0 then 12 else Z.rem h 12) p 2))
  else if Ascii.eqb c "L" then Some (Some (pad (msFromTime t) p 3))
  else if Ascii.eqb c "m" then Some (Some (pad (MonthFromTime t + 1) p 2))
  else if Ascii.eqb c "M" then Some (Some (pad (MinFromTime t) p 2))
  else if Ascii.eqb c "p" then Some (Some (at_index periods (if Z.leb 12 h then 1 else 0)))
  else if Ascii.eqb c "S" then Some (Some (pad (SecFromTime t) p 2))
  else if Ascii.eqb c "y" then Some (Some (pad (Z.rem (YearFromTime t) 100) p 2))
  else if Ascii.eqb c "Y" then Some (Some (pad (Z.rem (YearFromTime t) 10000) p 4))
  else if Ascii.eqb c "%" then Some (Some "%")
  else if existsb (Ascii.eqb c) (list_ascii_of_string "cfjQsuUVwWxXZ") then Some None
  else None.

(** The text of one directive: the formatter's, or the character itself. *)
Definition directive_text (c : ascii) (p : string) (t : Z) : option (list ascii) :=
  match directive c p t with
  | Some (Some s) => Some (list_ascii_of_string s)
  | Some None => None
  | None => Some [c]
  end.

Definition app_opt (a : option (list ascii)) (b : option (list ascii)) : option (list ascii) :=
  match a, b with Some x, Some y => Some (x ++ y)%list | _, _ => None end.

(** [newFormat(specifier, formats)(date)]: literal characters are copied;
    [%], an optional pad modifier and a directive character are replaced by
    the directive's text (the pad is ["0"], or [" "] for [%e]); a [%] at
    the end prints nothing. *)
Fixpoint format_chars (cs : list ascii) (t : Z) : option (list ascii) :=
  match cs with
  | [] => Some []
  | c0 :: rest =>
      if Ascii.eqb c0 "%" then
        match rest with
        | [] => Some []
        | c :: rest' =>
            match pad_modifier c with
            | Some p =>
                match rest' with
                | [] => Some []
                | c' :: rest'' => app_opt (directive_text c' p t) (format_chars rest'' t)
                end
            | None => app_opt (directive_text c (if Ascii.eqb c "e" then " " else "0") t) (format_chars rest' t)
            end
        end
      else option_map (cons c0) (format_chars rest t)
  end.

(** [d3.utcFormat(specifier)(date)] *)
Definition utc_format (specifier : string) (t : Z) : option string :=
  option_map string_of_list_ascii (format_chars (list_ascii_of_string specifier) t).

End D3TimeFormat.

Module D3ScaleTime.
Import JsDate D3Time D3Ticks NumberToString D3TimeFormat.

Definition durationSecond : Z := 1000.
Definition durationMinute : Z := durationSecond * 60.
Definition durationHour : Z := durationMinute * 60.
Definition durationDay : Z := durationHour * 24.
Definition durationWeek : Z := durationDay * 7.
Definition durationMonth : Z := durationDay * 30.
Definition durationYear : Z := durationDay * 365.

(** The units of [tickIntervals]: d3's [second], [minute], [hour], [day],
    [week], [month] and [year] of [calendar]'s arguments. *)
Inductive unit : Type := USecond | UMinute | UHour | UDay | UWeek | UMonth | UYear.

(** [tickIntervals]: [[interval, step, duration]] *)
Definition tickIntervals : list (unit * Z * Z) :=
  [(USecond, 1, durationSecond); (USecond, 5, 5 * durationSecond);
   (USecond, 15, 15 * durationSecond); (USecond, 30, 30 * durationSecond);
   (UMinute, 1, durationMinute); (UMinute, 5, 5 * durationMinute);
   (UMinute, 15, 15 * durationMinute); (UMinute, 30, 30 * durationMinute);
   (UHour, 1, durationHour); (UHour, 3, 3 * durationHour);
   (UHour, 6, 6 * durationHour); (UHour, 12, 12 * durationHour);
   (UDay, 1, durationDay); (UDay, 2, 2 * durationDay);
   (UWeek, 1, durationWeek); (UMonth, 1, durationMonth);
   (UMonth, 3, 3 * durationMonth); (UYear, 1, durationYear)].

Definition entry_unit (e : unit * Z * Z) : unit := fst (fst e).
Definition entry_step (e : unit * Z * Z) : Z := snd (fst e).
Definition entry_duration (e : unit * Z * Z) : Z := snd e.

(** [millisecond.every(k)] and [utcYear.every(k)] on a number:
    [k = Math.floor(k)]; [null] unless [k] is finite and positive. *)
Definition millisecond_every_num (k : num) : option interval :=
  match k with
  | Fin q => let z := Qfloor q in
             if z <=? 0 then None else if z <=? 1 then Some utcMillisecond else Some (millisecond_every z)
  | _ => None
  end.

Definition year_every_num (k : num) : option interval :=
  match k with
  | Fin q => let z := Qfloor q in if z <=? 0 then None else Some (utcYear_every z)
  | _ => None
  end.

(** [interval.every(step)] of the units ([utcWeek.every] tests
    [utcWeek.count(0, d) % step === 0]; [utcYear.every] is its own). *)
Definition unit_every (u : unit) (step : Z) : option interval :=
  match u with
  | USecond => every utcSecond SecFromTime step
  | UMinute => every utcMinute MinFromTime step
  | UHour => every utcHour HourFromTime step
  | UDay => every utcDay (fun d => DateFromTime d - 1) step
  | UWeek => every utcSunday week_count step
  | UMonth => every utcMonth MonthFromTime step
  | UYear => year_every_num (nz step)
  end.

(** [tickInterval(interval, start, stop)] for a tick count [interval]:
    [target = Math.abs(stop - start) / interval], [i] its position in the
    durations by [bisector(i => i[2]).right]; past the table a year step
    of [tickStep(start / durationYear, stop / durationYear, interval)],
    before it a millisecond step of [Math.max(tickStep(start, stop,
    interval), 1)], else the closer (by ratio) of the two entries around
    [target]. *)
Definition tick_interval (count start stop : num) : option interval :=
  let target := (abs (stop - start) / count)%num in
  let durations := map (fun e => nz (entry_duration e)) tickIntervals in
  let i := bisect_right durations target 0 (length tickIntervals) in
  if Nat.eqb i (length tickIntervals) then
    year_every_num (tick_step (start / nz durationYear)%num (stop / nz durationYear)%num count)
  else if Nat.eqb i 0 then
    millisecond_every_num (max (tick_step start stop count) (nz 1))
  else
    let lo := nth (i - 1) tickIntervals (USecond, 1, 1) in
    let hi := nth i tickIntervals (USecond, 1, 1) in
    let e := if ltb (target / nz (entry_duration lo))%num (nz (entry_duration hi) / target)%num then lo else hi in
    unit_every (entry_unit e) (entry_step e).

(** [scale.ticks(interval)]: the domain's ends, in increasing order, and
    [t.range(t0, t1 + 1)] of the chosen interval, reversed back for a
    decreasing domain.  The ends are TimeClip'd integers (or NaN, for
    which [tick_interval] is [null]). *)
Definition time_ticks (domain : list num) (count : num) : list Z :=
  let t0 := nth 0 domain NaN in
  let t1 := last domain NaN in
  let r := ltb t1 t0 in
  let a := if r then t1 else t0 in
  let b := if r then t0 else t1 in
  let t := match tick_interval count a b, a, b with
           | Some i, Fin qa, Fin qb => range i (Qfloor qa) (Qfloor qb + 1)
           | _, _, _ => []
           end in
  if r then rev t else t.

(** The multi-scale [tickFormat] of [calendar]: the format of the coarsest
    unit the tick is not a boundary of. *)
Definition tick_format (t : Z) : option string :=
  utc_format (if floori utcSecond t <? t then ".%L"%string
              else if floori utcMinute t <? t then ":%S"%string
              else if floori utcHour t <? t then "%I:%M"%string
              else if floori utcDay t <? t then "%I %p"%string
              else if floori utcMonth t <? t then
                (if floori utcSunday t <? t then "%a %d"%string else "%b %d"%string)
              else if floori utcYear t <? t then "%B"%string
              else "%Y"%string) t.

End D3ScaleTime.

Module D3ScaleTimeFacts.
Import JsDate JsDateFacts D3Time D3TimeFacts D3ScaleTime.

Definition every_ok (o : option interval) : Prop := forall j, o = Some j -> IntervalLaws j.

Lemma millisecond_every_num_ok k : every_ok (millisecond_every_num k).
Proof.
  intros j. destruct k as [| | |q]; try discriminate. cbn [millisecond_every_num].
  destruct (Z.leb_spec (Qfloor q) 0); [discriminate|].
  destruct (Z.leb_spec (Qfloor q) 1); intros E; injection E as <-; [exact utcMillisecond_laws|].
  apply millisecond_every_laws. lia.
Qed.

Lemma year_every_num_ok k : every_ok (year_every_num k).
Proof.
  intros j. destruct k as [| | |q]; try discriminate. cbn [year_every_num].
  destruct (Z.leb_spec (Qfloor q) 0); [discriminate|]. intros E; injection E as <-.
  apply utcYear_every_laws. lia.
Qed.

(** Every entry of [tickIntervals] gives an interval with the laws. *)
Ltac divides := apply Z.mod_divide; [lia|reflexivity].

Lemma entries_ok : Forall (fun e => every_ok (unit_every (entry_unit e) (entry_step e))) tickIntervals.
Proof.
  unfold tickIntervals.
  repeat (apply Forall_cons; [intros j; cbn [entry_unit entry_step unit_every fst snd];
    first [ apply second_every_laws; [lia|divides]
          | apply minute_every_laws; [lia|divides]
          | apply hour_every_laws; [lia|divides]
          | apply month_every_laws; [lia|divides]
          | apply day_every2_laws
          | apply year_every_num_ok
          | intros E; injection E as <-; first [exact utcDay_laws|exact utcSunday_laws] ]|]).
  apply Forall_nil.
Qed.

Lemma nth_entry_ok n : every_ok (unit_every (entry_unit (nth n tickIntervals (USecond, 1, 1)))
                                            (entry_step (nth n tickIntervals (USecond, 1, 1)))).
Proof.
  destruct (Nat.lt_ge_cases n (length tickIntervals)) as [Hn|Hn].
  - pose proof entries_ok as F. rewrite Forall_forall in F. apply F, nth_In, Hn.
  - rewrite nth_overflow by exact Hn. intros j E. injection E as <-. exact utcSecond_laws.
Qed.

Lemma tick_interval_ok count start stop : every_ok (tick_interval count start stop).
Proof.
  unfold tick_interval.
  destruct (Nat.eqb _ _); [apply year_every_num_ok|].
  destruct (Nat.eqb _ _); [apply millisecond_every_num_ok|].
  destruct (ltb _ _); apply nth_entry_ok.
Qed.

Lemma sign_of_Qabs q : sign_of (Fin (Qabs q)) = None \/ sign_of (Fin (Qabs q)) = Some true.
Proof.
  unfold sign_of. destruct (Qcompare (Qabs q) 0) eqn:E; auto.
  apply Qlt_alt in E. pose proof (Qabs_nonneg q). lra.
Qed.

(** A tick count that is not positive: [tickStep] divides by [Math.max(0,
    count) = 0], so its step is [Infinity] or NaN. *)
Lemma tick_step_no_count qa qb q :
  (q <= 0)%Q -> (qa <= qb)%Q ->
  D3Ticks.tick_step (Fin qa) (Fin qb) (Fin q) = PosInf \/ D3Ticks.tick_step (Fin qa) (Fin qb) (Fin q) = NaN.
Proof.
  intros Hq Hab. unfold D3Ticks.tick_step. rewrite ltb_Fin_false by exact Hab.
  unfold JsNum.max, nz. rewrite ltb_Fin_false by exact Hq. rewrite sub_Fin. cbn [isNaN orb abs].
  unfold div. change (Qeq_bool (inject_Z 0) 0) with true. cbv iota.
  destruct (sign_of_Qabs (qb - qa)) as [-> | ->]; [right|left]; reflexivity.
Qed.

Lemma durations_pos k : (k < length tickIntervals)%nat ->
  exists d, nth k (map (fun e => nz (entry_duration e)) tickIntervals) NaN = nz d /\ 0 < d.
Proof.
  intros Hk. do 18 (destruct k as [|k]; [eexists; split; [reflexivity|vm_compute; reflexivity]|]).
  cbn in Hk. lia.
Qed.

(** For a count that is not positive, [tickInterval] is [null]: a zero count
    makes the target infinite or NaN, past the table, where the year step is
    not finite; a negative one makes it negative, before the table, where the
    millisecond step is not. *)
Lemma tick_interval_no_count q qa qb :
  (q <= 0)%Q -> (qa <= qb)%Q -> tick_interval (Fin q) (Fin qa) (Fin qb) = None.
Proof.
  intros Hq Hab. unfold tick_interval. cbv zeta. rewrite sub_Fin. cbn [abs].
  change (length tickIntervals) with 18%nat.
  destruct (Qlt_le_dec q 0) as [Hn|Hz].
  - rewrite div_Fin by lra. rewrite bisect_right_below; [|lia|].
    + cbn [Nat.eqb]. destruct (tick_step_no_count qa qb q Hq Hab) as [-> | ->]; reflexivity.
    + intros k Hk. destruct (durations_pos k ltac:(cbn; lia)) as (d & -> & Hd). apply ltb_Fin_true.
      assert (0 <= Qabs (qb - qa) / - q)%Q by (apply Qle_shift_div_l; [lra|]; rewrite Qmult_0_l; apply Qabs_nonneg).
      setoid_replace (Qabs (qb - qa) / q)%Q with (- (Qabs (qb - qa) / - q))%Q by (field; lra).
      rewrite Zlt_Qlt in Hd. unfold inject_Z in *. lra.
  - unfold div at 1. replace (Qeq_bool q 0) with true by (symmetry; apply Qeq_bool_iff; lra).
    rewrite bisect_right_above; [|lia|].
    + cbn [Nat.eqb]. unfold nz. rewrite !div_Fin by (vm_compute; discriminate).
      assert (qa / inject_Z durationYear <= qb / inject_Z durationYear)%Q as Hy
        by (apply Qmult_le_compat_r; [exact Hab|vm_compute; discriminate]).
      destruct (tick_step_no_count _ _ q Hq Hy) as [-> | ->]; reflexivity.
    + intros k Hk. destruct (durations_pos k ltac:(cbn; lia)) as (d & -> & _).
      destruct (sign_of_Qabs (qb - qa)) as [-> | ->]; reflexivity.
Qed.

(** Hence a domain of two dates has no ticks for such a count. *)
Lemma time_ticks_no_count z0 z1 q :
  (q <= 0)%Q -> time_ticks [nz z0; nz z1] (Fin q) = [].
Proof.
  intros Hq. unfold time_ticks. cbn [nth last].
  destruct (ltb (nz z1) (nz z0)) eqn:E; cbv iota; rewrite ltb_nz in E; unfold nz.
  - rewrite tick_interval_no_count; [reflexivity|exact Hq|]. apply Z.ltb_lt in E. rewrite <- Zle_Qle. lia.
  - rewrite tick_interval_no_count; [reflexivity|exact Hq|]. apply Z.ltb_ge in E. rewrite <- Zle_Qle. lia.
Qed.

Lemma time_ticks_range domain count z0 z1 :
  nth 0 domain NaN = nz z0 -> last domain NaN = nz z1 -> z0 <= z1 ->
  time_ticks domain count =
    match tick_interval count (nz z0) (nz z1) with Some i => range i z0 (z1 + 1) | None => [] end.
Proof.
  intros H0 H1 Hle. unfold time_ticks. rewrite H0, H1.
  assert (ltb (nz z1) (nz z0) = false) as -> by (unfold ltb, num_compare, nz; cbn;
    destruct (Qcompare _ _) eqn:E; auto; apply Qlt_alt in E; rewrite <- Zlt_Qlt in E; lia).
  destruct (tick_interval _ _ _); [|reflexivity]. unfold nz. rewrite !Qfloor_Z. reflexivity.
Qed.

(** The ticks of an increasing domain are the boundaries, in the domain,
    of the interval [tickInterval] picks, in increasing order. *)
Lemma time_ticks_boundaries domain count z0 z1 :
  nth 0 domain NaN = nz z0 -> last domain NaN = nz z1 -> z0 <= z1 ->
  StronglySorted Z.lt (time_ticks domain count) /\
  forall t, In t (time_ticks domain count) <->
    z0 <= t <= z1 /\ exists i, tick_interval count (nz z0) (nz z1) = Some i /\ boundary i t.
Proof.
  intros H0 H1 Hle. rewrite (time_ticks_range _ _ _ _ H0 H1 Hle).
  destruct (tick_interval count (nz z0) (nz z1)) as [i|] eqn:E.
  - pose proof (tick_interval_ok _ _ _ i E) as L.
    destruct (range_spec i z0 (z1 + 1)) as [HS HI]. split; [exact HS|]. intros t. rewrite HI. split.
    + intros [Hb Hr]. split; [lia|]. exists i. auto.
    + intros [Hr (j & Ej & Hb)]. injection Ej as <-. split; [exact Hb|lia].
  - split; [constructor|]. intros t. split; [intros []|]. intros [_ (j & Ej & _)]. discriminate.
Qed.

Lemma utc_format_Y t : D3TimeFormat.utc_format "%Y" t =
  Some (D3TimeFormat.pad (Z.rem (YearFromTime t) 10000) "0" 4).
Proof. unfold D3TimeFormat.utc_format. cbn. rewrite app_nil_r, string_of_list_ascii_of_string. reflexivity. Qed.

Lemma utc_format_B t : D3TimeFormat.utc_format "%B" t =
  Some (D3TimeFormat.at_index D3TimeFormat.months (MonthFromTime t)).
Proof. unfold D3TimeFormat.utc_format. cbn. rewrite app_nil_r, string_of_list_ascii_of_string. reflexivity. Qed.

Lemma day_floors d : let t := d * msPerDay in
  floori utcSecond t = t /\ floori utcMinute t = t /\ floori utcHour t = t /\ floori utcDay t = t.
Proof.
  cbn [utcSecond utcMinute utcHour utcDay floori].
  rewrite setUTCSeconds_zero, setUTCMinutes_zero, setUTCHours_zero, Day_mul.
  unfold msPerDay, msPerSecond, msPerMinute, msPerHour.
  replace (d * 86400000) with ((d * 86400) * 1000) by ring. rewrite Z.div_mul by lia.
  replace (d * 86400 * 1000) with ((d * 1440) * 60000) by ring. rewrite Z.div_mul by lia.
  replace (d * 1440 * 60000) with ((d * 24) * 3600000) by ring. rewrite Z.div_mul by lia.
  repeat split; ring.
Qed.

Lemma month_start_pos m l : 0 <= l -> 1 <= m <= 11 -> 31 <= month_start m l.
Proof.
  intros Hl Hm. assert (Hm' : 0 <= m <= 11) by lia. month_split m Hm';
    cbn [month_start]; lia.
Qed.

(** C31: A tick on the first of a month is labelled with the month's name,
    or with the year (as [%Y], modulo 10000) on January 1. *)
Theorem month_tick_label y m : 0 <= m <= 11 ->
  tick_format (MakeDay y m 1 * msPerDay) =
    Some (if m =? 0 then D3TimeFormat.pad (Z.rem y 10000) "0" 4 else D3TimeFormat.at_index D3TimeFormat.months m).
Proof.
  intros Hm. set (t := MakeDay y m 1 * msPerDay).
  destruct (day_floors (MakeDay y m 1)) as (F1 & F2 & F3 & F4). fold t in F1, F2, F3, F4.
  destruct (civil_of_day y m 1 Hm) as (Ey & Em & _ & _);
    [pose proof (days_in_month_range m (leap y) (leap_range y)); lia|]. fold t in Ey, Em.
  assert (F5 : floori utcMonth t = t)
    by (rewrite utcMonth_floor; unfold month_idx; rewrite Ey, Em, month_B_ym; reflexivity).
  assert (F6 : floori utcYear t = DayFromYear y * msPerDay)
    by (cbn [utcYear floori]; rewrite setUTCHours_setUTCMonth_first, Ey; reflexivity).
  assert (Et : t = (DayFromYear y + month_start m (leap y)) * msPerDay)
    by (unfold t; rewrite MakeDay_month by exact Hm; ring).
  unfold tick_format. rewrite F1, F2, F3, F4, F5, !Z.ltb_irrefl, F6.
  destruct (Z.eqb_spec m 0) as [->|Hne].
  - assert (E0 : (DayFromYear y * msPerDay <? t) = false)
      by (apply Z.ltb_ge; rewrite Et; cbn [month_start]; lia).
    rewrite E0, utc_format_Y, Ey. reflexivity.
  - assert (E0 : (DayFromYear y * msPerDay <? t) = true).
    { apply Z.ltb_lt. rewrite Et. pose proof (month_start_pos m (leap y) (proj1 (leap_range y)) ltac:(lia)).
      unfold msPerDay. lia. }
    rewrite E0, utc_format_B, Em. reflexivity.
Qed.

(** C23: Every interval [tickInterval] can choose, the filtered ones of
    [every] included, satisfies the interval laws: its [floori] rounds
    down to a boundary and its [offseti] steps to the next one, with
    enough fuel for [filter]'s loops. *)
Theorem tick_interval_laws count start stop i :
  tick_interval count start stop = Some i -> IntervalLaws i.
Proof. apply tick_interval_ok. Qed.

(** C14: Refinement: the ticks of [x.ticks(count)] on a domain [[z0, z1]]
    are exactly the boundaries, within the domain, of the interval
    [tickInterval] chooses, in increasing order. *)
Theorem time_ticks_spec domain count z0 z1 :
  nth 0 domain NaN = nz z0 -> last domain NaN = nz z1 -> z0 <= z1 ->
  StronglySorted Z.lt (time_ticks domain count) /\
  forall t, In t (time_ticks domain count) <->
    z0 <= t <= z1 /\ exists i, tick_interval count (nz z0) (nz z1) = Some i /\ boundary i t.
Proof. apply time_ticks_boundaries. Qed.
End D3ScaleTimeFacts.

Module D3ScaleTimeExamples.
Import JsDate D3Time D3TimeFacts D3ScaleTime D3ScaleTimeFacts.

(** 2019-01-01T00:00Z and 2019-12-29T00:00Z, a year of weekly dates. *)
Definition jan2019 : Z := 1546300800000.
Definition dec2019 : Z := 1577577600000.

(** [x.ticks(672 / 80)] and their labels: a domain of one second (the
    specification's example) gets a tick every 100 ms; a year of weekly
    data gets the first of every month, January 1 as the year; a month
    gets every other date, Sundays (January
    13 and 27) by month and day. *)
Example time_ticks_examples :
  map tick_format (time_ticks [nz 0; nz 1000] (Fin (672 # 80))) =
    map Some ["1970"; ".100"; ".200"; ".300"; ".400"; ".500"; ".600"; ".700"; ".800"; ".900"; ":01"]%string /\
  map tick_format (time_ticks [nz jan2019; nz dec2019] (Fin (672 # 80))) =
    map Some ["2019"; "February"; "March"; "April"; "May"; "June"; "July"; "August"; "September";
              "October"; "November"; "December"]%string /\
  map tick_format (time_ticks [nz jan2019; nz (jan2019 + 30 * msPerDay)] (Fin (672 # 80))) =
    map Some ["2019"; "Thu 03"; "Sat 05"; "Mon 07"; "Wed 09"; "Fri 11"; "Jan 13"; "Tue 15"; "Thu 17";
              "Sat 19"; "Mon 21"; "Wed 23"; "Fri 25"; "Jan 27"; "Tue 29"; "Thu 31"]%string.
Proof. vm_compute. repeat split; reflexivity. Qed.

Lemma time_ticks_spec_witness :
  StronglySorted Z.lt (time_ticks [nz jan2019; nz dec2019] (Fin (672 # 80))) /\
  forall t, In t (time_ticks [nz jan2019; nz dec2019] (Fin (672 # 80))) <->
    jan2019 <= t <= dec2019 /\
    exists i, tick_interval (Fin (672 # 80)) (nz jan2019) (nz dec2019) = Some i /\ boundary i t.
Proof. apply time_ticks_spec; [reflexivity|reflexivity|unfold jan2019, dec2019; lia]. Defined.

Lemma month_tick_label_witness :
  tick_format (MakeDay 2019 1 1 * msPerDay) =
    Some (if 1 =? 0 then D3TimeFormat.pad (Z.rem 2019 10000) "0" 4 else D3TimeFormat.at_index D3TimeFormat.months 1).
Proof. apply month_tick_label. lia. Defined.

Lemma tick_interval_laws_witness : IntervalLaws (millisecond_every 100).
Proof. apply (tick_interval_laws (Fin (672 # 80)) (nz 0) (nz 1000)). vm_compute. reflexivity. Defined.
End D3ScaleTimeExamples.
