(* ===== verification/Nest.v ===== *)
(** [d3.nest().key(d => d.name).sortValues(cmp).entries(array)]
    (src/main.js lines 11-15), after d3-collection 1.0: the records are
    pushed one by one into the arrays of a [d3.map] keyed by
    [key(d) + ""], which iterates its keys in insertion order; each array
    is then sorted with [sortValues] and the map becomes the list of
    entries [{key, values}].  [nest_entries_spec] shows that this is the
    declarative grouping: one entry per distinct key in order of first
    appearance, holding the stably sorted records of that key. *)

From Stdlib Require Import String List Permutation Sorted.
From S2P Require Import Prelude JsNum ArraySort.
Import ListNotations.

Section Nest.
Context {A : Type}.

Record entry : Type := { key : string; values : list A }.

(** [valuesByKey.get(k)] then [values.push(v)], or [valuesByKey.set(k, [v])]. *)
Fixpoint push_value (k : string) (v : A) (m : list (string * list A)) : list (string * list A) :=
  match m with
  | [] => [(k, [v])]
  | (k', vs) :: r => if String.eqb k k' then (k', vs ++ [v]) :: r
                     else (k', vs) :: push_value k v r
  end.

(** The loop of [apply] at depth 0. *)
Definition group_by (keyf : A -> string) (l : list A) : list (string * list A) :=
  fold_left (fun m v => push_value (keyf v) v m) l [].

(** [apply] at the leaf ([array.sort(sortValues)]) and [entries]. *)
Definition nest_entries (keyf : A -> string) (sortValues : A -> A -> num) (l : list A)
  : list entry :=
  map (fun '(k, vs) => {| key := k; values := array_sort sortValues vs |}) (group_by keyf l).

(** ** The declarative grouping *)

Definition first_occurrences (ks : list string) : list string :=
  fold_left (fun u k => if existsb (String.eqb k) u then u else u ++ [k]) ks [].

Definition group_of (keyf : A -> string) (l : list A) (k : string) : list A :=
  filter (fun v => String.eqb (keyf v) k) l.

Definition group_spec (keyf : A -> string) (l : list A) : list (string * list A) :=
  map (fun k => (k, group_of keyf l k)) (first_occurrences (map keyf l)).
End Nest.

Arguments entry : clear implicits.

Section NestFacts.
Context {A : Type}.
Variable keyf : A -> string.

Lemma first_occurrences_snoc ks k :
  first_occurrences (ks ++ [k]) =
  (let u := first_occurrences ks in if existsb (String.eqb k) u then u else u ++ [k]).
Proof. unfold first_occurrences. rewrite fold_left_app. reflexivity. Qed.

Lemma existsb_eqb_In k u : existsb (String.eqb k) u = true <-> In k u.
Proof.
  rewrite existsb_exists. split.
  - intros (k' & Hk' & E). apply String.eqb_eq in E. subst. exact Hk'.
  - intros Hk. exists k. split; [exact Hk|apply String.eqb_refl].
Qed.

Lemma first_occurrences_In ks : forall k, In k (first_occurrences ks) <-> In k ks.
Proof.
  induction ks as [|k0 ks IH] using rev_ind; intros k; [reflexivity|].
  rewrite first_occurrences_snoc. simpl.
  destruct (existsb (String.eqb k0) (first_occurrences ks)) eqn:E.
  - apply existsb_eqb_In in E. rewrite IH in E |- *. rewrite in_app_iff. simpl.
    intuition congruence.
  - rewrite !in_app_iff, IH. reflexivity.
Qed.

Lemma first_occurrences_NoDup ks : NoDup (first_occurrences ks).
Proof.
  induction ks as [|k0 ks IH] using rev_ind; [constructor|].
  rewrite first_occurrences_snoc. simpl.
  destruct (existsb (String.eqb k0) (first_occurrences ks)) eqn:E; [exact IH|].
  apply NoDup_app; auto using NoDup_cons, NoDup_nil.
  intros x Hx [Ex|[]]. subst x.
  assert (existsb (String.eqb k0) (first_occurrences ks) = true)
    by (apply existsb_eqb_In; exact Hx). congruence.
Qed.

Lemma push_value_map (F : string -> list A) (k : string) (v : A) (u : list string) :
  NoDup u ->
  push_value k v (map (fun k' => (k', F k')) u) =
  if existsb (String.eqb k) u
  then map (fun k' => (k', F k' ++ (if String.eqb k k' then [v] else []))) u
  else map (fun k' => (k', F k')) u ++ [(k, [v])].
Proof.
  induction u as [|k0 u IH]; intros Hu; simpl; [reflexivity|].
  inversion Hu as [|? ? Hk0 Hu']; subst.
  destruct (String.eqb k k0) eqn:E; simpl.
  - apply String.eqb_eq in E; subst. f_equal. apply map_ext_in. intros k' Hk'.
    destruct (String.eqb k0 k') eqn:E'; [apply String.eqb_eq in E'; congruence|].
    rewrite app_nil_r. reflexivity.
  - rewrite IH by exact Hu'. destruct (existsb (String.eqb k) u); simpl;
      rewrite ?app_nil_r; reflexivity.
Qed.

Lemma group_of_snoc l v k :
  group_of keyf (l ++ [v]) k = group_of keyf l k ++ (if String.eqb (keyf v) k then [v] else []).
Proof. unfold group_of. rewrite filter_app. reflexivity. Qed.

Lemma group_by_eq l : group_by keyf l = group_spec keyf l.
Proof.
  unfold group_by, group_spec. induction l as [|v l IH] using rev_ind; [reflexivity|].
  rewrite fold_left_app. simpl. rewrite IH, push_value_map by apply first_occurrences_NoDup.
  rewrite map_app. simpl. rewrite first_occurrences_snoc. simpl.
  destruct (existsb (String.eqb (keyf v)) (first_occurrences (map keyf l))) eqn:E.
  - apply map_ext. intros k. rewrite group_of_snoc. reflexivity.
  - rewrite map_app. simpl. f_equal.
    + apply map_ext_in. intros k Hk. rewrite group_of_snoc.
      destruct (String.eqb (keyf v) k) eqn:Ek; [|rewrite app_nil_r; reflexivity].
      apply String.eqb_eq in Ek. subst. apply existsb_eqb_In in Hk. congruence.
    + rewrite group_of_snoc, String.eqb_refl. f_equal. f_equal.
      unfold group_of. rewrite filter_none; [reflexivity|].
      intros x Hx. destruct (String.eqb (keyf x) (keyf v)) eqn:Ex; [|reflexivity].
      apply String.eqb_eq in Ex. exfalso.
      assert (In (keyf v) (first_occurrences (map keyf l))) as Hin.
      { apply first_occurrences_In. rewrite <- Ex. apply in_map, Hx. }
      apply existsb_eqb_In in Hin. congruence.
Qed.

(** Refinement: [nest().key(keyf).entries(l)] before sorting, the
    [d3.map] of arrays the script's [nest] fills in one pass, is the
    declarative grouping: one entry per distinct key, in the order of the
    keys' first occurrences, holding the elements of that key in input
    order. *)
Theorem group_by_spec l : group_by keyf l = group_spec keyf l.
Proof. apply group_by_eq. Qed.
End NestFacts.

Section NestEntries.
Context {A : Type}.
Variable keyf : A -> string.
Variable sortValues : A -> A -> num.

Theorem nest_entries_spec l :
  nest_entries keyf sortValues l =
  map (fun k => {| key := k; values := array_sort sortValues (group_of keyf l k) |})
      (first_occurrences (map keyf l)).
Proof.
  unfold nest_entries. rewrite group_by_eq. unfold group_spec. rewrite map_map. reflexivity.
Qed.

Lemma nest_keys l : map key (nest_entries keyf sortValues l) = first_occurrences (map keyf l).
Proof. rewrite nest_entries_spec, map_map. simpl. apply map_id. Qed.

Lemma nest_entry_inv l e :
  In e (nest_entries keyf sortValues l) ->
  In (key e) (map keyf l) /\ values e = array_sort sortValues (group_of keyf l (key e)).
Proof.
  rewrite nest_entries_spec, in_map_iff. intros (k & <- & Hk). simpl.
  split; [apply first_occurrences_In; exact Hk | reflexivity].
Qed.

Lemma In_group_of l k v : In v (group_of keyf l k) <-> In v l /\ keyf v = k.
Proof. unfold group_of. rewrite filter_In, String.eqb_eq. reflexivity. Qed.

Lemma nest_values_key l e v :
  In e (nest_entries keyf sortValues l) -> In v (values e) -> In v l /\ keyf v = key e.
Proof.
  intros He Hv. destruct (nest_entry_inv l e He) as [_ Hval]. rewrite Hval in Hv.
  apply (Permutation_in v (array_sort_perm _ _)), In_group_of in Hv. exact Hv.
Qed.

Lemma nest_values_nonempty l e :
  In e (nest_entries keyf sortValues l) -> values e <> [].
Proof.
  intros He Hnil. destruct (nest_entry_inv l e He) as [Hk Hval].
  apply in_map_iff in Hk as (v & Ev & Hv).
  assert (In v (values e)) as Hin.
  { rewrite Hval. apply (Permutation_in v (Permutation_sym (array_sort_perm _ _))).
    apply In_group_of. auto. }
  rewrite Hnil in Hin. destruct Hin.
Qed.

Lemma Permutation_concat_map {B C} (f g : B -> list C) (u : list B) :
  (forall x, In x u -> Permutation (f x) (g x)) ->
  Permutation (concat (map f u)) (concat (map g u)).
Proof.
  induction u as [|x u IH]; intros H; simpl; [constructor|].
  apply Permutation_app; [apply H; left; reflexivity|]. apply IH. intros; apply H; right; auto.
Qed.

(** Every record lands in exactly one entry: the entries' values,
    concatenated, are a permutation of the input. *)
Theorem nest_partition l :
  Permutation (concat (map values (nest_entries keyf sortValues l))) l.
Proof.
  rewrite nest_entries_spec, map_map. simpl.
  eapply Permutation_trans.
  - apply Permutation_concat_map. intros k _. apply array_sort_perm.
  - symmetry. apply (Permutation_concat_filter keyf String.eqb String.eqb_eq).
    + apply first_occurrences_NoDup.
    + intros x Hx. apply first_occurrences_In, in_map, Hx.
Qed.
End NestEntries.
