(* ===== verification/Process.v ===== *)
(** The "Process Data" block of src/main.js (lines 5-17): every CSV row
    becomes [{name, date: d.date * 1000, value: +d.total_1 + +d.total_2}]
    ([csvTransformed]); [d3.nest] groups the records by [d.name] and sorts
    each group by [a.date - b.date]; each entry gets its [d3.sum] of values
    as [sum]; the entries are sorted by [b.sum - a.sum] ([data]).

    A row is the object [d3.csv] builds: its columns by name, each a
    string; a column the file does not have reads [undefined] ([None]).
    The theorems are the testable properties of the data transform: the
    value of a row, the partition of the records into series, the date
    order inside a series, the sums, the decreasing order of the series
    and the order of series with equal sums. *)

From Stdlib Require Import QArith String List Permutation Sorted.
From S2P Require Import Prelude JsNum NumParse ArraySort D3Array Nest.
Import ListNotations.
Open Scope num_scope.

Module Process.
Import StringToNumber.

(** A row object of [d3.csv]: its (distinct) column names with their cells. *)
Definition Row : Type := list (string * string).

(** [d.column]: the cell, or [undefined]. *)
Definition prop (d : Row) (column : string) : option string :=
  match find (fun '(k, _) => String.eqb k column) d with
  | Some (_, v) => Some v
  | None => None
  end.

(** [ToNumber] of a string or of [undefined]. *)
Definition js_to_number (v : option string) : num :=
  match v with Some s => to_number s | None => NaN end.

(** [String(v)] of a string or of [undefined]. *)
Definition js_to_string (v : option string) : string :=
  match v with Some s => s | None => "undefined"%string end.

Record Datum : Type := { name : option string; date : num; value : num }.

(** [d => ({name: d.name, date: d.date * 1000, value: +d.total_1 + +d.total_2})] *)
Definition transform (d : Row) : Datum :=
  {| name := prop d "name";
     date := js_to_number (prop d "date") * nz 1000;
     value := js_to_number (prop d "total_1") + js_to_number (prop d "total_2") |}.

Definition csvTransformed (csv : list Row) : list Datum := map transform csv.

(** [.key(d => d.name)], coerced by [+ ""] in d3-collection. *)
Definition name_key (d : Datum) : string := js_to_string (name d).

(** [.sortValues((a, b) => a.date - b.date)] *)
Definition by_date (a b : Datum) : num := date a - date b.

(** An entry of the nest with the [sum] field the script adds. *)
Record Series : Type := { key : string; values : list Datum; sum : num }.

(** [d => ((d.sum = d3.sum(d.values, d => d.value)), d)] *)
Definition add_sum (e : entry Datum) : Series :=
  {| key := Nest.key e; values := Nest.values e; sum := d3_sum value (Nest.values e) |}.

(** [.sort((a, b) => b.sum - a.sum)] *)
Definition by_sum_desc (a b : Series) : num := sum b - sum a.

Definition nested (csv : list Row) : list Series :=
  map add_sum (nest_entries name_key by_date (csvTransformed csv)).

Definition data (csv : list Row) : list Series := array_sort by_sum_desc (nested csv).

End Process.

Module ProcessFacts.
Import Process StringToNumber NumberToString.

Lemma In_data csv s : In s (data csv) <-> In s (nested csv).
Proof.
  split; intros H.
  - apply (Permutation_in _ (array_sort_perm by_sum_desc _)). exact H.
  - apply (Permutation_in _ (Permutation_sym (array_sort_perm by_sum_desc _))). exact H.
Qed.

Lemma In_nested csv s :
  In s (nested csv) ->
  exists e, In e (nest_entries name_key by_date (csvTransformed csv)) /\ s = add_sum e.
Proof. unfold nested. rewrite in_map_iff. intros (e & <- & He). eauto. Qed.

Lemma nested_keys csv :
  map key (nested csv) = first_occurrences (map name_key (csvTransformed csv)).
Proof. unfold nested. rewrite map_map. apply nest_keys. Qed.

Lemma no_inf_Forall (l : list Datum) :
  forallb (fun d => negb (is_infinite (value d))) l = true ->
  Forall (fun d => is_infinite (value d) = false) l.
Proof.
  intros H. apply Forall_forall. intros d Hd. rewrite forallb_forall in H.
  specialize (H d Hd). destruct (is_infinite (value d)); [discriminate|reflexivity].
Qed.

Lemma nested_values csv s :
  In s (nested csv) -> values s = array_sort by_date (group_of name_key (csvTransformed csv) (key s)).
Proof. intros Hs. apply In_nested in Hs as (e & He & ->). apply (nest_entry_inv _ _ _ e He). Qed.

Lemma nested_sum_eq csv s : In s (nested csv) -> sum s = d3_sum value (values s).
Proof. intros Hs. apply In_nested in Hs as (e & He & ->). reflexivity. Qed.

Lemma nested_sum csv s :
  forallb (fun d => negb (is_infinite (value d))) (csvTransformed csv) = true ->
  In s (nested csv) ->
  sum s ≈ Fin (qsum (map (fun d => to_Q (value d)) (group_of name_key (csvTransformed csv) (key s)))).
Proof.
  intros Hinf Hs.
  pose proof (nested_values csv s Hs) as Hv. rewrite (nested_sum_eq csv s Hs), d3_sum_spec.
  - simpl. rewrite Hv. apply qsum_perm, Permutation_map, array_sort_perm.
  - rewrite Hv. apply no_inf_Forall in Hinf. apply Forall_forall. intros d Hd.
    apply (Permutation_in _ (array_sort_perm _ _)), In_group_of in Hd as [Hd _].
    rewrite Forall_forall in Hinf. auto.
Qed.

(** C3: The sum of a series is the exact sum of the finite values of the
    records of its name, in input order; NaN values count as [0]. *)
Theorem data_sum csv s :
  forallb (fun d => negb (is_infinite (value d))) (csvTransformed csv) = true ->
  In s (data csv) ->
  sum s ≈ Fin (qsum (map (fun d => to_Q (value d)) (group_of name_key (csvTransformed csv) (key s)))).
Proof. intros Hinf Hs. apply nested_sum; [exact Hinf|apply In_data, Hs]. Qed.

Lemma nested_sum_not_NaN csv s :
  forallb (fun d => negb (is_infinite (value d))) (csvTransformed csv) = true ->
  In s (nested csv) -> isNaN (sum s) = false.
Proof. intros Hinf Hs. rewrite (nested_sum csv s Hinf Hs). reflexivity. Qed.

(** C1: The series come out by decreasing sum (spec: "Groups are ordered by
    sum descending"), when no value is infinite. *)
Theorem data_sorted_desc csv :
  forallb (fun d => negb (is_infinite (value d))) (csvTransformed csv) = true ->
  StronglySorted (fun a b => leb (sum b) (sum a) = true) (data csv).
Proof.
  intros Hinf. set (S := fun s => In s (nested csv)).
  assert (HS : forall s, S s -> isNaN (sum s) = false)
    by (intros s Hs; apply (nested_sum_not_NaN csv s Hinf Hs)).
  destruct (array_sort_stable by_sum_desc S (by_key_desc_consistent S sum HS) (nested csv))
    as (_ & HSo & _); [apply Forall_forall; auto|].
  eapply StronglySorted_impl_In; [|exact HSo].
  intros x y Hx Hy. apply (le_by_key_desc S sum HS); auto; apply In_data; auto.
Qed.

(** C2: Inside every series the records are in increasing date order (spec:
    "Within each group, records are sorted by date ascending"), when no
    date is NaN. *)
Theorem data_values_sorted csv :
  forallb (fun d => negb (isNaN (date d))) (csvTransformed csv) = true ->
  forall s, In s (data csv) -> StronglySorted (fun a b => leb (date a) (date b) = true) (values s).
Proof.
  intros H s Hs. apply In_data in Hs.
  set (S := fun d => In d (csvTransformed csv)).
  assert (HS : forall d, S d -> isNaN (date d) = false).
  { intros d Hd. rewrite forallb_forall in H. specialize (H d Hd).
    destruct (isNaN (date d)); [discriminate|reflexivity]. }
  rewrite (nested_values csv s Hs).
  assert (Forall S (group_of name_key (csvTransformed csv) (key s))) as HF.
  { apply Forall_forall. intros x Hx. apply In_group_of in Hx. apply Hx. }
  destruct (array_sort_stable by_date S (by_key_consistent S date HS) _ HF) as (HP & HSo & _).
  eapply StronglySorted_impl_In; [|exact HSo].
  intros x y Hx Hy. apply (le_by_key S date HS).
  - rewrite Forall_forall in HF. apply HF. apply (Permutation_in _ (Permutation_sym HP)). exact Hx.
  - rewrite Forall_forall in HF. apply HF. apply (Permutation_in _ (Permutation_sym HP)). exact Hy.
Qed.

(** C20: Every record lands in exactly one series (spec: "Grouping preserves
    every input record exactly once across all groups"). *)
Theorem data_partition csv :
  Permutation (concat (map values (data csv))) (csvTransformed csv).
Proof.
  rewrite <- flat_map_concat_map. eapply Permutation_trans.
  - apply Permutation_flat_map, array_sort_perm.
  - rewrite flat_map_concat_map. unfold nested. rewrite map_map. apply nest_partition.
Qed.

(** C16: One series per distinct name: the keys are distinct and are exactly
    the [String(d.name)] of the rows. *)
Theorem data_keys csv :
  NoDup (map key (data csv)) /\
  forall k, In k (map key (data csv)) <-> exists d, In d csv /\ js_to_string (prop d "name") = k.
Proof.
  assert (Permutation (map key (data csv)) (first_occurrences (map name_key (csvTransformed csv))))
    as HP by (rewrite <- nested_keys; apply Permutation_map, array_sort_perm).
  split.
  - eapply Permutation_NoDup; [symmetry; exact HP|apply first_occurrences_NoDup].
  - intros k. split; intros Hk.
    + apply (Permutation_in _ HP), first_occurrences_In, in_map_iff in Hk as (x & Ex & Hx).
      unfold csvTransformed in Hx. apply in_map_iff in Hx as (d & <- & Hd). eauto.
    + apply (Permutation_in _ (Permutation_sym HP)), first_occurrences_In.
      destruct Hk as (d & Hd & <-). unfold csvTransformed. rewrite map_map.
      apply (in_map (fun x => name_key (transform x))), Hd.
Qed.

Lemma equiv_b_by_sum_desc csv s0 s :
  forallb (fun d => negb (is_infinite (value d))) (csvTransformed csv) = true ->
  In s0 (nested csv) -> In s (nested csv) ->
  equiv_b by_sum_desc s0 s = eqb (sum s) (sum s0).
Proof.
  intros Hinf H0 H. unfold equiv_b, eqb.
  pose proof (sort_cmp_by_key_desc (fun s => In s (nested csv)) sum
                (fun s Hs => nested_sum_not_NaN csv s Hinf Hs) s0 s H0 H) as E.
  change (sort_cmp (by_key_desc sum) s0 s) with (sort_cmp by_sum_desc s0 s) in E.
  rewrite <- E. destruct (sort_cmp by_sum_desc s0 s); reflexivity.
Qed.

(** C17: Series with equal sums keep the order of [nested], which is the order
    in which their names first appear in the file (spec: "order between
    equal sums should be stable/deterministic"). *)
Theorem data_ties csv s0 :
  forallb (fun d => negb (is_infinite (value d))) (csvTransformed csv) = true ->
  In s0 (data csv) ->
  filter (fun s => eqb (sum s) (sum s0)) (data csv) =
  filter (fun s => eqb (sum s) (sum s0)) (nested csv).
Proof.
  intros Hinf H0. apply In_data in H0. set (S := fun s => In s (nested csv)).
  assert (HS : forall s, S s -> isNaN (sum s) = false)
    by (intros s Hs; apply (nested_sum_not_NaN csv s Hinf Hs)).
  destruct (array_sort_stable by_sum_desc S (by_key_desc_consistent S sum HS) (nested csv))
    as (_ & _ & HF); [apply Forall_forall; auto|].
  specialize (HF s0 H0).
  rewrite (filter_ext_In _ (equiv_b by_sum_desc s0) (data csv)),
          (filter_ext_In _ (equiv_b by_sum_desc s0) (nested csv)); [exact HF| |];
    intros s Hs; rewrite (equiv_b_by_sum_desc csv); auto; apply In_data; auto.
Qed.

(** Every series has at least one record, so [d.values[0]] is defined. *)
Lemma data_values_nonempty csv s : In s (data csv) -> values s <> [].
Proof.
  intros Hs. apply In_data, In_nested in Hs as (e & He & ->). simpl.
  apply (nest_values_nonempty _ _ _ _ He).
Qed.

Lemma data_length csv : length (data csv) = length (first_occurrences (map name_key (csvTransformed csv))).
Proof.
  rewrite <- nested_keys, length_map. apply Permutation_length, array_sort_perm.
Qed.

Lemma data_nil csv : data csv = [] <-> csv = [].
Proof.
  split; intros H.
  - destruct csv as [|r csv]; [reflexivity|exfalso].
    apply length_zero_iff_nil in H. rewrite data_length in H.
    apply length_zero_iff_nil in H.
    assert (In (name_key (transform r)) (first_occurrences (map name_key (csvTransformed (r :: csv)))))
      as Hin by (apply first_occurrences_In; left; reflexivity).
    rewrite H in Hin. destruct Hin.
  - subst. reflexivity.
Qed.

(** A row whose cells are printed integers gives the record
    [{date: t * 1000, value: a + b}] (spec: "transformed value =
    total_1 + total_2"). *)
Theorem transform_printed_integers d t a b :
  prop d "date" = Some (Z_to_string t) ->
  prop d "total_1" = Some (Z_to_string a) -> prop d "total_2" = Some (Z_to_string b) ->
  date (transform d) ≈ nz (t * 1000) /\ value (transform d) ≈ nz (a + b).
Proof.
  intros Hd H1 H2. unfold transform. cbn [date value]. unfold js_to_number.
  rewrite Hd, H1, H2, !NumParseFacts.Z_to_string_parses.
  unfold nz. simpl. rewrite inject_Z_mult, inject_Z_plus. split; reflexivity.
Qed.
End ProcessFacts.

Module ProcessExamples.
Import Process ProcessFacts NumberToString.
Open Scope string_scope.

(** The rows of the example of the specification, section 8. *)
Definition spec_rows : list Row :=
  [ [("name", "A"); ("date", "0"); ("total_1", "1"); ("total_2", "2")];
    [("name", "A"); ("date", "1"); ("total_1", "3"); ("total_2", "4")];
    [("name", "B"); ("date", "0"); ("total_1", "10"); ("total_2", "0")] ].

Definition no_series : Series := {| key := ""; values := []; sum := NaN |}.

(** The example of the specification: A and B both sum to 10, A (whose
    name comes first) comes first, A's records are in date order. *)
Example spec_example_tie :
  map (fun s => (key s, sum s, map date (values s))) (data spec_rows) =
  [("A", Fin 10, [Fin 0; Fin 1000]); ("B", Fin 10, [Fin 0])].
Proof. vm_compute. reflexivity. Qed.

Lemma data_sorted_desc_witness :
  StronglySorted (fun a b => leb (sum b) (sum a) = true) (data spec_rows).
Proof. apply data_sorted_desc. vm_compute. reflexivity. Defined.

Lemma data_values_sorted_witness :
  StronglySorted (fun a b => leb (date a) (date b) = true) (values (hd no_series (data spec_rows))).
Proof. apply (data_values_sorted spec_rows); vm_compute; [reflexivity|left; reflexivity]. Defined.

Lemma data_sum_witness :
  sum (nth 0 (data spec_rows) no_series) ≈
  Fin (qsum (map (fun d => to_Q (value d))
                 (group_of name_key (csvTransformed spec_rows) (key (nth 0 (data spec_rows) no_series))))).
Proof. apply data_sum; vm_compute; [reflexivity|left; reflexivity]. Defined.

Lemma data_ties_witness :
  filter (fun s => eqb (sum s) (sum (nth 1 (data spec_rows) no_series))) (data spec_rows) =
  filter (fun s => eqb (sum s) (sum (nth 1 (data spec_rows) no_series))) (nested spec_rows).
Proof. apply data_ties; vm_compute; [reflexivity|right; left; reflexivity]. Defined.

Definition printed_row : Row :=
  [("name", "C"); ("date", Z_to_string 1600000000); ("total_1", Z_to_string 12);
   ("total_2", Z_to_string (-2))].

Lemma transform_printed_integers_witness :
  date (transform printed_row) ≈ nz (1600000000 * 1000) /\ value (transform printed_row) ≈ nz (12 + -2).
Proof. apply transform_printed_integers; vm_compute; reflexivity. Defined.
End ProcessExamples.
