(* ===== verification/Csv.v ===== *)
(** The parsing half of [d3.csv] (src/main.js line 1): d3-fetch's [csv]
    fetches the file as text and hands it to d3-dsv's [csvParse], whose
    result the script receives as [csv]. [csvParse] is [parseRows] (a
    tokenizer over the character codes of the text, with the two flags
    [eof] and [eol] and the cursor [I]) followed by the row callback of
    [parse]: the first row gives the columns, every later row goes through
    [objectConverter] (an object literal [{c0: d[0], c1: d[1], ...}] with
    the column names as keys).

    Module [D3Dsv] models the tokenizer state as the record [lexer], the
    three kinds of token as [tok], each [while] loop of [token] and
    [parseRows] as a recursive function with fuel, and the object literal
    as successive property assignments on a [Process.Row]. Module
    [D3DsvFacts] proves that the fuel is enough (every token consumes text
    or sets a flag), that [parseRows] inverts d3-dsv's own formatting of
    rows ([formatRows], quoting included), and what [csvParse] gives the
    transform of [Process]. *)

From Stdlib Require Import Ascii String List Arith ZArith Lia Bool.
From S2P Require Import Prelude Process.
Import ListNotations.

Module D3Dsv.
Import Process.

Definition DELIMITER : ascii := ascii_of_nat 44.
Definition QUOTE : ascii := ascii_of_nat 34.
Definition NEWLINE : ascii := ascii_of_nat 10.
Definition RETURN : ascii := ascii_of_nat 13.

(** The two sentinel objects [EOF] and [EOL] of [parseRows], and a field. *)
Inductive tok := EOF | EOL | Field (s : string).

(** The variables [I], [eof] and [eol] that [token] closes over. *)
Record lexer := mk_lexer { I : nat; eof : bool; eol : bool }.

Section Tokenizer.
(** The text and its length [N] after the trailing newline is dropped;
    [text.charCodeAt(k)] still reads the dropped characters. *)
Variable text : list ascii.
Variable N : nat.

(** [text.charCodeAt(k) === c] ([NaN] past the end equals nothing). *)
Definition char_is (k : nat) (c : ascii) : bool :=
  match nth_error text k with Some c' => Ascii.eqb c' c | None => false end.

(** [text.slice(a, b)]. *)
Definition slice (a b : nat) : list ascii := firstn (b - a) (skipn a text).

Definition field (l : list ascii) : tok := Field (string_of_list_ascii l).

(** The [replace] of every pair of quote characters by one quote (the
    regular expression [/QQ/g] for the quote Q): left to right, pairs do
    not overlap. *)
Fixpoint unescape (l : list ascii) : list ascii :=
  match l with
  | q1 :: ((q2 :: rest) as tl) =>
      if Ascii.eqb q1 QUOTE && Ascii.eqb q2 QUOTE then QUOTE :: unescape rest
      else q1 :: unescape tl
  | _ => l
  end.

(** [while (I++ < N && text.charCodeAt(I) !== QUOTE
           || text.charCodeAt(++I) === QUOTE);] from cursor [I]; the
    result is [I] after the loop. *)
Fixpoint skip_quoted (fuel I : nat) : nat :=
  match fuel with
  | O => I
  | S f =>
      if (I <? N) && negb (char_is (S I) QUOTE) then skip_quoted f (S I)
      else if char_is (S (S I)) QUOTE then skip_quoted f (S (S I))
      else S (S I)
  end.

(** The unquoted branch of [token]: [while (I < N) { ... }] from the
    cursor [I] for the field that starts at [j], then the last token
    before [EOF]. *)
Fixpoint scan (fuel j I : nat) : tok * lexer :=
  match fuel with
  | O => (field (slice j N), mk_lexer I true false)
  | S f =>
      if I <? N then
        if char_is I NEWLINE then (field (slice j I), mk_lexer (S I) false true)
        else if char_is I RETURN then
          (field (slice j I),
           mk_lexer (if char_is (S I) NEWLINE then S (S I) else S I) false true)
        else if negb (char_is I DELIMITER) then scan f j (S I)
        else (field (slice j I), mk_lexer (S I) false false)
      else (field (slice j N), mk_lexer I true false)
  end.

(** [function token()] of [parseRows], with the fuel [qfuel] of the quoted
    loop and [sfuel] of the unquoted one. *)
Definition token_with (qfuel sfuel : nat) (s : lexer) : tok * lexer :=
  if eof s then (EOF, s)
  else if eol s then (EOL, mk_lexer (I s) false false)
  else
    let j := I s in
    if char_is j QUOTE then
      let i := skip_quoted qfuel j in
      let t := field (unescape (slice (S j) (i - 1))) in
      if N <=? i then (t, mk_lexer i true false)
      else if char_is i NEWLINE then (t, mk_lexer (S i) false true)
      else if char_is i RETURN then
        (t, mk_lexer (if char_is (S i) NEWLINE then S (S i) else S i) false true)
      else (t, mk_lexer (S i) false false)
    else scan sfuel j j.

(** [token()]: both inner loops get one round per character of the text
    and one more, enough from any cursor ([D3DsvFacts.token_enough]). *)
Definition token (s : lexer) : tok * lexer :=
  token_with (S (length text)) (S (length text)) s.

(** [while (t !== EOL && t !== EOF) row.push(t), t = token();]: the row
    and the lexer after the token that ended it. *)
Fixpoint read_row (fuel : nat) (t : tok) (s : lexer) : list string * lexer :=
  match fuel with
  | O => ([], s)
  | S f =>
      match t with
      | Field v =>
          let '(t', s') := token s in
          let '(row, s'') := read_row f t' s' in (v :: row, s'')
      | _ => ([], s)
      end
  end.

(** [while ((t = token()) !== EOF) { var row = []; ...; rows.push(row); }]. *)
Fixpoint read_rows (row_fuel fuel : nat) (s : lexer) : list (list string) :=
  match fuel with
  | O => []
  | S f =>
      match token s with
      | (EOF, _) => []
      | (t, s1) =>
          let '(row, s2) := read_row row_fuel t s1 in row :: read_rows row_fuel f s2
      end
  end.

End Tokenizer.

(** [text.charCodeAt(N - 1) === c] ([charCodeAt(-1)] is [NaN]). *)
Definition ends_with (text : list ascii) (N : nat) (c : ascii) : bool :=
  match N with O => false | S n => char_is text n c end.

(** The length [N] of [parseRows] after
    [if (text.charCodeAt(N - 1) === NEWLINE) --N;
     if (text.charCodeAt(N - 1) === RETURN) --N;]. *)
Definition stripped_length (text : list ascii) : nat :=
  let N0 := length text in
  let N1 := if ends_with text N0 NEWLINE then pred N0 else N0 in
  if ends_with text N1 RETURN then pred N1 else N1.

(** Fuel of the two loops of [parseRows]: every token either moves the
    cursor inside the text or sets or clears a flag, so [2 * length + 5]
    rounds are more than the loops take ([D3DsvFacts.read_rows_enough]). *)
Definition fuel (text : list ascii) : nat := 2 * length text + 5.

(** [csvParseRows(text)] (no row function); [eof] starts as [N <= 0] for
    the length before the trailing newline is dropped. *)
Definition parse_rows (s : string) : list (list string) :=
  let text := list_ascii_of_string s in
  read_rows text (stripped_length text) (fuel text) (fuel text)
    (mk_lexer 0 (length text =? 0) false).

(** A property assignment of the object literal: a later key replaces an
    earlier one; an [undefined] cell ([d[i]] past the row) reads as
    [undefined], which [Process.prop] gives as [None]. *)
Definition assign (obj : Row) (k : string) (v : option string) : Row :=
  let rest := filter (fun '(k', _) => negb (String.eqb k' k)) obj in
  match v with Some s => (k, s) :: rest | None => rest end.

(** The literal [{JSON.stringify(c_i): d[i], ...}] evaluated left to right. *)
Fixpoint object_fields (i : nat) (columns row : list string) (obj : Row) : Row :=
  match columns with
  | [] => obj
  | c :: cs => object_fields (S i) cs row (assign obj c (nth_error row i))
  end.

(** [objectConverter(columns)] applied to a row. *)
Definition object_converter (columns row : list string) : Row :=
  object_fields 0 columns row [].

(** [csvParse(text)]: the callback of [parse] takes the first row as the
    columns (returning [undefined], so that row is skipped) and converts
    every later one. *)
Definition csv_parse (s : string) : list Row :=
  match parse_rows s with
  | [] => []
  | columns :: rows => map (object_converter columns) rows
  end.

(** The script from its input text: [d3.csv(...).then(csv => ...)] gives
    [csv_parse] of the file to the "Process Data" block. *)
Definition load (s : string) : list Series := data (csv_parse s).

End D3Dsv.

Module D3DsvFacts.
Import Process D3Dsv.

(** ** The loops of [parseRows] end within their fuel *)

Section Progress.
Variable text : list ascii.
Variable N : nat.
Hypothesis N_le : N <= length text.

Lemma char_is_lt k c : char_is text k c = true -> k < length text.
Proof.
  unfold char_is; destruct (nth_error text k) eqn:E; [|discriminate].
  intros _; apply nth_error_Some; congruence.
Qed.

(** The quoted loop runs at most once per character left. *)
Lemma skip_quoted_enough f a :
  length text - a < f -> forall k, skip_quoted text N (f + k) a = skip_quoted text N f a.
Proof.
  revert a; induction f as [|f IH]; intros a Hf k; [lia|]; cbn [Nat.add skip_quoted].
  destruct ((a <? N) && negb (char_is text (S a) QUOTE)) eqn:E1.
  - apply andb_true_iff in E1 as [E1 _]; apply Nat.ltb_lt in E1; apply IH; lia.
  - destruct (char_is text (S (S a)) QUOTE) eqn:E2; [|reflexivity].
    apply char_is_lt in E2; apply IH; lia.
Qed.

(** The unquoted loop runs at most once per character before [N]. *)
Lemma scan_enough f j k :
  N - k < f -> forall m, scan text N (f + m) j k = scan text N f j k.
Proof.
  revert k; induction f as [|f IH]; intros k Hf m; [lia|]; cbn [Nat.add scan].
  destruct (k <? N) eqn:E; [apply Nat.ltb_lt in E|reflexivity].
  destruct (char_is text k NEWLINE); [reflexivity|].
  destruct (char_is text k RETURN); [reflexivity|].
  destruct (negb _); [apply IH; lia|reflexivity].
Qed.

Lemma skip_quoted_ge f a : a <= skip_quoted text N f a.
Proof.
  revert a; induction f as [|f IH]; intros a; cbn; [lia|].
  destruct (_ && _); [specialize (IH (S a)); lia|].
  destruct (char_is _ _ _); [specialize (IH (S (S a))); lia|lia].
Qed.

(** The inner loops of [token] end within their fuel: more fuel for
    either one gives the same token, from any lexer. *)
Lemma token_enough st k1 k2 :
  token_with text N (S (length text) + k1) (S (length text) + k2) st = token text N st.
Proof.
  unfold token, token_with; destruct (eof st), (eol st); try reflexivity.
  destruct (char_is text (I st) QUOTE).
  - rewrite (skip_quoted_enough (S (length text))) by lia; reflexivity.
  - rewrite (scan_enough (S (length text))) by lia; reflexivity.
Qed.

(** A lexer whose cursor is inside the text, or that has hit the end. *)
Definition inside (s : lexer) : Prop := eof s = true \/ I s <= length text.

(** What is left to read: the characters after the cursor, twice, and
    one more for a pending [EOL]. *)
Definition measure (s : lexer) : nat :=
  if eof s then 0 else 2 * (length text + 1 - I s) + (if eol s then 2 else 1).

Lemma scan_progress f j k :
  j <= k ->
  let '(t, s') := scan text N f j k in
  (exists v, t = Field v) /\ (eof s' = true \/ j < I s' <= length text).
Proof.
  revert k; induction f as [|f IH]; intros k Hk; cbn [scan].
  { split; [eexists; reflexivity|left; reflexivity]. }
  destruct (k <? N) eqn:E; [apply Nat.ltb_lt in E|split; [eexists; reflexivity|left; reflexivity]].
  destruct (char_is text k NEWLINE); [split; [eexists; reflexivity|right; cbn; lia]|].
  destruct (char_is text k RETURN).
  - destruct (char_is text (S k) NEWLINE) eqn:E2; [apply char_is_lt in E2|];
      split; [eexists; reflexivity|right; cbn; lia|eexists; reflexivity|right; cbn; lia].
  - destruct (negb _); [apply IH; lia|split; [eexists; reflexivity|right; cbn; lia]].
Qed.

Lemma token_eof s : eof s = true -> token text N s = (EOF, s).
Proof. unfold token, token_with; intros ->; reflexivity. Qed.

(** Every token of a lexer that has not hit the end is a field or [EOL]
    and leaves less to read. *)
Lemma token_step s :
  inside s -> eof s = false ->
  let '(t, s') := token text N s in t <> EOF /\ inside s' /\ measure s' < measure s.
Proof.
  destruct s as [j [] el]; unfold inside, measure; cbn [eof eol I];
    intros [H|H] Hf; try discriminate; unfold token, token_with; cbn [eof eol I].
  destruct el; [repeat split; [discriminate|right|]; cbn; lia|].
  destruct (char_is text j QUOTE).
  - pose proof (skip_quoted_ge (S (length text)) j).
    set (i := skip_quoted _ _ _ _) in *; clearbody i.
    destruct (N <=? i) eqn:E1; [repeat split; [discriminate|left|]; cbn; auto; lia|].
    apply Nat.leb_gt in E1.
    destruct (char_is text i NEWLINE); [repeat split; [discriminate|right|]; cbn; lia|].
    destruct (char_is text i RETURN); [|repeat split; [discriminate|right|]; cbn; lia].
    destruct (char_is text (S i) NEWLINE) eqn:E2; [apply char_is_lt in E2|];
      repeat split; [discriminate|right| |discriminate|right|]; cbn; lia.
  - pose proof (scan_progress (S (length text)) j j (le_n _)) as P.
    destruct (scan _ _ _ _ _) as [t s']; destruct P as [[v ->] P].
    repeat split; [discriminate| |]; destruct P as [P|P];
      [left; auto|right; lia|rewrite P; cbn; lia|destruct (eof s'), (eol s'); cbn; lia].
Qed.

Lemma read_row_stop f t s : (forall v, t <> Field v) -> read_row text N f t s = ([], s).
Proof. destruct f, t; intros H; try reflexivity; exfalso; eapply H; reflexivity. Qed.

(** A row ends inside the text, with no more left to read than before. *)
Lemma read_row_mono f t s :
  inside s -> let '(row, s2) := read_row text N f t s in inside s2 /\ measure s2 <= measure s.
Proof.
  revert t s; induction f as [|f IH]; intros t s Hs; cbn; [split; auto|].
  destruct t as [| |v]; [split; auto..|].
  destruct (eof s) eqn:Ef.
  - rewrite token_eof by auto; rewrite read_row_stop by discriminate; split; auto.
  - pose proof (token_step s Hs Ef) as T; destruct (token text N s) as [t' s'].
    destruct T as [_ [Hs' Hm]]; specialize (IH t' s' Hs').
    destruct (read_row text N f t' s'); destruct IH; split; auto; lia.
Qed.

Lemma read_row_enough f t s :
  inside s -> measure s < f -> forall k, read_row text N (f + k) t s = read_row text N f t s.
Proof.
  revert t s; induction f as [|f IH]; intros t s Hs Hf k; [lia|]; cbn [Nat.add read_row].
  destruct t as [| |v]; [reflexivity..|].
  destruct (eof s) eqn:Ef.
  - rewrite token_eof by auto; rewrite !read_row_stop by discriminate; reflexivity.
  - pose proof (token_step s Hs Ef) as T; destruct (token text N s) as [t' s'].
    destruct T as [_ [Hs' Hm]]; rewrite IH by (auto; lia); reflexivity.
Qed.

Lemma read_rows_enough f rf s :
  inside s -> measure s < f -> measure s < rf ->
  forall k m, read_rows text N (rf + m) (f + k) s = read_rows text N rf f s.
Proof.
  revert s; induction f as [|f IH]; intros s Hs Hf Hr k m; [lia|]; cbn [Nat.add read_rows].
  destruct (eof s) eqn:Ef; [rewrite token_eof by auto; reflexivity|].
  pose proof (token_step s Hs Ef) as T; destruct (token text N s) as [t s1].
  destruct T as [Ht [Hs1 Hm]].
  rewrite read_row_enough by (auto; lia).
  pose proof (read_row_mono rf t s1 Hs1) as R; destruct (read_row text N rf t s1) as [row s2].
  destruct R as [Hs2 Hm2]; rewrite IH by (auto; lia); destruct t; [congruence|reflexivity..].
Qed.

End Progress.

Lemma stripped_length_le text : stripped_length text <= length text.
Proof. unfold stripped_length; destruct (ends_with _ _ _), (ends_with _ _ _); lia. Qed.

(** C6: Termination of [csvParseRows]: every loop of the tokenizer and of
    [parseRows] ends before its fuel runs out, for every text: giving the
    quoted and unquoted loops of [token] more fuel gives the same token
    from any lexer, and giving the two loops over tokens more fuel gives
    the same rows. *)
Theorem parse_rows_total s :
  let text := list_ascii_of_string s in
  let N := stripped_length text in
  (forall st k1 k2,
     token_with text N (S (length text) + k1) (S (length text) + k2) st = token text N st) /\
  (forall k, read_rows text N (fuel text + k) (fuel text + k)
               (mk_lexer 0 (length text =? 0) false) = parse_rows s).
Proof.
  cbv zeta; split; [intros; apply token_enough, stripped_length_le|intros k].
  unfold parse_rows; apply read_rows_enough;
    [apply stripped_length_le|right; cbn; lia|..];
    unfold measure, fuel; cbn; destruct (_ =? 0); lia.
Qed.

(** ** [parseRows] inverts d3-dsv's [formatRows] *)

(** The characters for which d3-dsv's [formatValue] quotes a field (its
    [reFormat]: the quote, the delimiter, line feed and carriage return). *)
Definition special (c : ascii) : bool :=
  Ascii.eqb c QUOTE || Ascii.eqb c DELIMITER || Ascii.eqb c NEWLINE || Ascii.eqb c RETURN.

(** [value.replace(/Q/g, QQ)] for the quote Q. *)
Fixpoint escape (l : list ascii) : list ascii :=
  match l with
  | [] => []
  | c :: l' => if Ascii.eqb c QUOTE then QUOTE :: QUOTE :: escape l' else c :: escape l'
  end.

(** [formatValue] on a string: quoted, with its quotes doubled, when it
    holds a special character. *)
Definition format_value (v : string) : list ascii :=
  let l := list_ascii_of_string v in
  if existsb special l then QUOTE :: escape l ++ [QUOTE] else l.

(** The fields after the first one of a row, each after its delimiter. *)
Fixpoint format_fields (vs : list string) : list ascii :=
  match vs with [] => [] | v :: vs' => DELIMITER :: format_value v ++ format_fields vs' end.

(** [formatRow]: [row.map(formatValue).join(delimiter)]. *)
Definition format_row (r : list string) : list ascii :=
  match r with [] => [] | v :: vs => format_value v ++ format_fields vs end.

(** [formatRows]: [rows.map(formatRow).join("\n")]. *)
Fixpoint format_rows (rows : list (list string)) : list ascii :=
  match rows with
  | [] => []
  | [r] => format_row r
  | r :: rs => format_row r ++ NEWLINE :: format_rows rs
  end.

(** Equations between texts that differ in how their appends associate. *)
Ltac text_eq := cbn [app]; rewrite <- ?app_assoc; cbn [app]; reflexivity.

Lemma nth_mid (P R : list ascii) x : nth_error (P ++ x :: R) (length P) = Some x.
Proof. induction P; cbn; auto. Qed.

Lemma char_is_mid P x R c : char_is (P ++ x :: R) (length P) c = Ascii.eqb x c.
Proof. unfold char_is; rewrite nth_mid; reflexivity. Qed.

Lemma length_snoc {A} (P : list A) x : length (P ++ [x]) = S (length P).
Proof. rewrite length_app; cbn; lia. Qed.

Lemma slice_mid P l R : slice (P ++ l ++ R) (length P) (length P + length l) = l.
Proof.
  unfold slice; replace (length P + length l - length P) with (length l) by lia.
  rewrite skipn_app, skipn_all, Nat.sub_diag; cbn.
  rewrite firstn_app, firstn_all, Nat.sub_diag, app_nil_r; reflexivity.
Qed.

Lemma unescape_cons x m : x <> QUOTE -> unescape (x :: m) = x :: unescape m.
Proof.
  intros Hx; destruct m as [|y m]; [reflexivity|]; cbn [unescape].
  destruct (Ascii.eqb_spec x QUOTE); [congruence|reflexivity].
Qed.

Lemma unescape_escape l : unescape (escape l) = l.
Proof.
  induction l as [|x l IH]; [reflexivity|]; cbn [escape].
  destruct (Ascii.eqb_spec x QUOTE) as [->|Hx]; [cbn; rewrite IH; reflexivity|].
  rewrite unescape_cons, IH; auto.
Qed.

Lemma char_is_next P x y R c : char_is (P ++ x :: y :: R) (S (length P)) c = Ascii.eqb y c.
Proof.
  replace (P ++ x :: y :: R) with ((P ++ [x]) ++ y :: R) by (rewrite <- app_assoc; reflexivity).
  rewrite <- (length_snoc P x); apply char_is_mid.
Qed.

(** The quoted loop stops right after the closing quote of an escaped field. *)
Lemma skip_escaped text N l P a f c R :
  text = P ++ escape l ++ QUOTE :: c :: R -> S a = length P ->
  length P + length (escape l) < N -> c <> QUOTE -> length l < f ->
  skip_quoted text N f a = S (length P + length (escape l)).
Proof.
  revert P a f; induction l as [|x l IH]; intros P a f -> Ha HN Hc Hf;
    (destruct f as [|f]; [cbn in Hf; lia|]); cbn [skip_quoted escape app length] in *.
  - rewrite Ha, char_is_mid, Ascii.eqb_refl, andb_false_r, char_is_next.
    destruct (Ascii.eqb_spec c QUOTE); [congruence|lia].
  - destruct (Ascii.eqb_spec x QUOTE) as [->|Hx]; cbn [app length] in *.
    + rewrite Ha, char_is_mid, Ascii.eqb_refl, andb_false_r, char_is_next, Ascii.eqb_refl.
      rewrite (IH (P ++ [QUOTE; QUOTE]));
        [rewrite length_app; cbn; lia|rewrite <- app_assoc; reflexivity
        |rewrite length_app; cbn; lia|rewrite length_app; cbn; lia|auto|lia].
    + rewrite Ha, char_is_mid; destruct (Ascii.eqb_spec x QUOTE); [congruence|].
      replace (a <? N) with true by (symmetry; apply Nat.ltb_lt; lia); cbn [andb negb].
      rewrite (IH (P ++ [x]));
        [rewrite length_app; cbn; lia|rewrite <- app_assoc; reflexivity
        |rewrite length_app; cbn; lia|rewrite length_app; cbn; lia|auto|lia].
Qed.

(** The state after a field that ends at [q], followed by [c]. *)
Definition after (N q : nat) (c : ascii) : lexer :=
  if q <? N then mk_lexer (S q) false (Ascii.eqb c NEWLINE) else mk_lexer q true false.

Lemma sep_cases c : c = DELIMITER \/ c = NEWLINE ->
  Ascii.eqb c QUOTE = false /\ Ascii.eqb c RETURN = false /\
  negb (Ascii.eqb c DELIMITER) = Ascii.eqb c NEWLINE.
Proof. intros [-> | ->]; repeat split; reflexivity. Qed.

(** The unquoted loop stops at the separator after a plain field. *)
Lemma scan_plain text N l P j f c R :
  text = P ++ l ++ c :: R -> j <= length P -> forallb (fun x => negb (special x)) l = true ->
  (c = DELIMITER \/ c = NEWLINE) -> length P + length l <= N -> length l < f ->
  scan text N f j (length P) = (field (slice text j (length P + length l)), after N (length P + length l) c).
Proof.
  revert P f; induction l as [|x l IH]; intros P f -> Hj Hl Hc HN Hf;
    (destruct f as [|f]; [cbn in Hf; lia|]); cbn [scan app length] in *; unfold after.
  - rewrite Nat.add_0_r; destruct (length P <? N) eqn:E; [|replace N with (length P) by
      (apply Nat.ltb_ge in E; lia); reflexivity].
    rewrite !char_is_mid; destruct (sep_cases c Hc) as [_ [-> E3]].
    destruct c as [b0 b1 b2 b3 b4 b5 b6 b7] eqn:Ec; destruct Hc as [Hc|Hc]; rewrite Hc in *;
      reflexivity.
  - apply andb_true_iff in Hl as [Hx Hl].
    replace (length P <? N) with true by (symmetry; apply Nat.ltb_lt; lia).
    rewrite !char_is_mid; unfold special in Hx.
    destruct (Ascii.eqb x NEWLINE), (Ascii.eqb x RETURN), (Ascii.eqb x DELIMITER);
      rewrite ?orb_true_r in Hx; try discriminate Hx; cbn [negb].
    rewrite <- (length_snoc P x), (IH (P ++ [x])), length_snoc;
      [now rewrite Nat.add_succ_r|rewrite <- app_assoc; reflexivity|rewrite length_snoc; lia
      |auto|auto|rewrite length_snoc; lia|lia].
Qed.


Lemma char_is_nth text k x c : nth_error text k = Some x -> char_is text k c = Ascii.eqb x c.
Proof. unfold char_is; intros ->; reflexivity. Qed.

Lemma length_escape l : length l <= length (escape l).
Proof. induction l as [|x l IH]; cbn [escape length]; [lia|destruct (Ascii.eqb x QUOTE); cbn; lia]. Qed.

(** The end of the quoted branch of [token], at the separator [c]. *)
Lemma token_quoted_end text N q c (t : tok) :
  nth_error text q = Some c -> (c = DELIMITER \/ c = NEWLINE) -> q <= N ->
  (if N <=? q then (t, mk_lexer q true false)
   else if char_is text q NEWLINE then (t, mk_lexer (S q) false true)
   else if char_is text q RETURN then
     (t, mk_lexer (if char_is text (S q) NEWLINE then S (S q) else S q) false true)
   else (t, mk_lexer (S q) false false)) = (t, after N q c).
Proof.
  intros Hq Hc HN; unfold after; rewrite !(char_is_nth _ _ _ _ Hq).
  destruct (N <=? q) eqn:E.
  - apply Nat.leb_le in E; replace (q <? N) with false by (symmetry; apply Nat.ltb_ge; lia);
      reflexivity.
  - apply Nat.leb_gt in E; replace (q <? N) with true by (symmetry; apply Nat.ltb_lt; lia).
    destruct Hc as [-> | ->]; reflexivity.
Qed.

(** The token of a field written by [formatValue] and followed by a
    delimiter or a line feed: that field, with the cursor after [c]. *)
Lemma token_field text N P v c R :
  text = P ++ format_value v ++ c :: R -> (c = DELIMITER \/ c = NEWLINE) ->
  length P + length (format_value v) <= N ->
  token text N (mk_lexer (length P) false false)
  = (Field v, after N (length P + length (format_value v)) c).
Proof.
  intros Ht Hc HN; pose proof (sep_cases c Hc) as [Cq _].
  assert (Hq : nth_error text (length P + length (format_value v)) = Some c)
    by (rewrite Ht, app_assoc, <- length_app; apply nth_mid).
  unfold token, token_with; cbn [eof eol I]; unfold format_value in *.
  set (l := list_ascii_of_string v) in *.
  destruct (existsb special l) eqn:Sp.
  - assert (Ht' : text = (P ++ [QUOTE]) ++ escape l ++ QUOTE :: c :: R)
      by (rewrite Ht; cbn [app]; rewrite <- !app_assoc; reflexivity).
    assert (Hlen : length P + length (QUOTE :: escape l ++ [QUOTE])
                   = S (length (P ++ [QUOTE]) + length (escape l)))
      by (rewrite length_snoc; cbn; rewrite length_app; cbn; lia).
    rewrite Hlen in *.
    replace (char_is text (length P) QUOTE) with true
      by (rewrite Ht; cbn [app]; rewrite char_is_mid; reflexivity).
    rewrite (skip_escaped text N l (P ++ [QUOTE]) (length P) _ c R Ht');
      [|rewrite length_snoc; reflexivity|lia|destruct (Ascii.eqb_spec c QUOTE); congruence|].
    2:{ pose proof (length_escape l); rewrite Ht, !length_app; cbn; rewrite length_app; cbn; lia. }
    cbv zeta; rewrite (token_quoted_end text N _ c) by (auto; lia).
    replace (S (length (P ++ [QUOTE]) + length (escape l)) - 1)
      with (length (P ++ [QUOTE]) + length (escape l)) by lia.
    rewrite <- (length_snoc P QUOTE), Ht', slice_mid, unescape_escape.
    unfold field, l; rewrite string_of_list_ascii_of_string; reflexivity.
  - rewrite Ht at 1.
    assert (Hp : char_is (P ++ l ++ c :: R) (length P) QUOTE = false).
    { destruct l as [|x l']; cbn [app]; rewrite char_is_mid; [exact Cq|].
      cbn in Sp; unfold special in Sp; destruct (Ascii.eqb x QUOTE); [discriminate|reflexivity]. }
    rewrite Hp, (scan_plain text N l P (length P) _ c R); auto.
    + rewrite Ht, slice_mid; unfold field, l; rewrite string_of_list_ascii_of_string;
        reflexivity.
    + rewrite forallb_forall; intros x Hx; apply negb_true_iff.
      destruct (special x) eqn:Ex; [|reflexivity].
      assert (existsb special l = true) by (apply existsb_exists; eauto); congruence.
    + rewrite Ht, !length_app; cbn; lia.
Qed.


(** The separator after the field before [vs]. *)
Definition sep (vs : list string) : ascii :=
  match vs with [] => NEWLINE | _ => DELIMITER end.

(** The state after the [EOL] or [EOF] that ends a row whose line feed is at [q]. *)
Definition after_row (N q : nat) : lexer :=
  if q <? N then mk_lexer (S q) false false else mk_lexer q true false.

Lemma fields_sep vs R : exists R', format_fields vs ++ NEWLINE :: R = sep vs :: R'.
Proof. destruct vs; cbn; eauto. Qed.

(** A row's remaining fields are read one by one, up to its line feed. *)
Lemma read_row_rest text N vs P v R f :
  text = P ++ format_fields vs ++ NEWLINE :: R ->
  length P + length (format_fields vs) <= N -> length vs < f ->
  read_row text N f (Field v) (after N (length P) (sep vs))
  = (v :: vs, after_row N (length P + length (format_fields vs))).
Proof.
  revert P v f; induction vs as [|w ws IH]; intros P v f Ht HN Hf;
    (destruct f as [|f]; [cbn in Hf; lia|]); cbn [read_row].
  - cbn [format_fields length] in *; rewrite Nat.add_0_r; unfold after, after_row.
    destruct (length P <? N); unfold token, token_with; cbn; destruct f; reflexivity.
  - cbn [format_fields length] in *.
    replace (after N (length P) (sep (w :: ws))) with (mk_lexer (length (P ++ [DELIMITER])) false false)
      by (unfold after; rewrite length_snoc;
          replace (length P <? N) with true by (symmetry; apply Nat.ltb_lt; lia); reflexivity).
    destruct (fields_sep ws R) as [R' HR].
    rewrite (token_field text N (P ++ [DELIMITER]) w (sep ws) R');
      [|rewrite Ht, <- HR; text_eq|destruct ws; auto|
        rewrite length_snoc, length_app in *; lia].
    rewrite <- (length_app (P ++ [DELIMITER]) (format_value w)).
    rewrite (IH ((P ++ [DELIMITER]) ++ format_value w) w f);
      [|rewrite Ht; text_eq|rewrite !length_app in *; cbn in *; lia|lia].
    rewrite !length_app; cbn [length]; do 2 f_equal; lia.
Qed.


Lemma read_rows_eof text N rf f s : eof s = true -> read_rows text N rf f s = [].
Proof. intros H; destruct f; cbn [read_rows]; [|rewrite token_eof]; auto. Qed.

Lemma format_rows_cons r rs :
  rs <> [] -> format_rows (r :: rs) = format_row r ++ NEWLINE :: format_rows rs.
Proof. destruct rs; [congruence|reflexivity]. Qed.

(** The first token of a row and the rest of the row: the row, and the
    state after its line feed. *)
Lemma read_line text N v vs P R rf :
  text = P ++ format_row (v :: vs) ++ NEWLINE :: R ->
  length P + length (format_row (v :: vs)) <= N -> length (v :: vs) <= rf ->
  let '(t, s1) := token text N (mk_lexer (length P) false false) in
  t = Field v /\
  read_row text N rf t s1 = (v :: vs, after_row N (length P + length (format_row (v :: vs)))).
Proof.
  intros Ht HN Hr; cbn [format_row length] in *; destruct (fields_sep vs R) as [R' HR].
  rewrite (token_field text N P v (sep vs) R');
    [|rewrite Ht, <- HR; text_eq|destruct vs; auto|rewrite length_app in HN; lia].
  split; [reflexivity|].
  rewrite <- (length_app P (format_value v)), (read_row_rest text N vs (P ++ format_value v) v R);
    [|rewrite Ht; text_eq|rewrite length_app in *; lia|lia].
  rewrite !length_app; do 2 f_equal; lia.
Qed.

(** Every line of a formatted text is read as a row, up to the last one,
    whose line feed is the one [parseRows] drops. *)
Lemma read_rows_format text N rows P rf f :
  rows <> [] -> Forall (fun r => r <> []) rows ->
  text = P ++ format_rows rows ++ [NEWLINE] -> N = length P + length (format_rows rows) ->
  length rows <= f -> Forall (fun r => length r <= rf) rows ->
  read_rows text N rf f (mk_lexer (length P) false false) = rows.
Proof.
  revert P f; induction rows as [|[|v vs] rs IH]; intros P f Hne Hr Ht HN Hf Hrf;
    [congruence|inversion Hr; congruence|].
  destruct f as [|f]; [cbn in Hf; lia|]; cbn [read_rows].
  apply Forall_cons_iff in Hrf as [Hr1 Hrf']; apply Forall_cons_iff in Hr as [_ Hr'].
  destruct rs as [|r' rs].
  - cbn [format_rows] in Ht, HN.
    pose proof (read_line text N v vs P [] rf Ht ltac:(lia) Hr1) as L.
    destruct (token _ _ _) as [t s1]; destruct L as [-> L]; cbv beta iota; rewrite L.
    rewrite read_rows_eof; [reflexivity|unfold after_row;
      replace (_ <? _) with false by (symmetry; apply Nat.ltb_ge; lia); reflexivity].
  - rewrite format_rows_cons in * by discriminate.
    rewrite length_app in HN; cbn [length] in HN.
    assert (Ht1 : text = P ++ format_row (v :: vs) ++ NEWLINE :: (format_rows (r' :: rs) ++ [NEWLINE]))
      by (rewrite Ht; text_eq).
    pose proof (read_line text N v vs P _ rf Ht1 ltac:(lia) Hr1) as L.
    destruct (token _ _ _) as [t s1]; destruct L as [-> L]; cbv beta iota; rewrite L.
    unfold after_row; replace (_ <? _) with true by (symmetry; apply Nat.ltb_lt; lia).
    f_equal; replace (S (length P + length (format_row (v :: vs))))
      with (length (P ++ format_row (v :: vs) ++ [NEWLINE])) by (rewrite !length_app; cbn; lia).
    apply IH; [discriminate|auto|rewrite Ht; text_eq|rewrite !length_app; cbn [length]; lia
      |cbn [length] in *; lia|auto].
Qed.


Lemma last_cons {A} (a : A) l d : last (a :: l) d = last l a.
Proof.
  revert a d; induction l as [|b l IH]; intros a d; [reflexivity|].
  change (last (b :: l) d = last (b :: l) a); rewrite !IH; reflexivity.
Qed.

Lemma last_app {A} (l1 l2 : list A) d : last (l1 ++ l2) d = last l2 (last l1 d).
Proof.
  revert d; induction l1 as [|a l1 IH]; intros d; [reflexivity|].
  rewrite <- app_comm_cons, !last_cons; apply IH.
Qed.

Lemma last_in {A} (l : list A) d : last l d = d \/ In (last l d) l.
Proof.
  revert d; induction l as [|a l IH]; intros d; [auto|]; rewrite last_cons.
  destruct (IH a) as [->|H]; right; cbn; auto.
Qed.

(** A formatted field never ends with a carriage return. *)
Lemma format_value_last v d : d <> RETURN -> last (format_value v) d <> RETURN.
Proof.
  unfold format_value; destruct (existsb special _) eqn:Sp.
  - rewrite last_cons, last_app; intros _; discriminate.
  - intros Hd; destruct (last_in (list_ascii_of_string v) d) as [->|Hin]; auto.
    intros E; rewrite E in Hin.
    assert (existsb special (list_ascii_of_string v) = true)
      by (apply existsb_exists; exists RETURN; split; [exact Hin|reflexivity]); congruence.
Qed.

Lemma format_fields_last vs d : d <> RETURN -> last (format_fields vs) d <> RETURN.
Proof.
  revert d; induction vs as [|w ws IH]; intros d Hd; [exact Hd|]; cbn [format_fields].
  rewrite last_cons, last_app; apply IH, format_value_last; discriminate.
Qed.

Lemma format_rows_last rows : last (format_rows rows) NEWLINE <> RETURN.
Proof.
  induction rows as [|r rs IH]; [discriminate|].
  destruct rs as [|r' rs].
  - destruct r as [|v vs]; [discriminate|]; cbn [format_rows format_row].
    rewrite last_app; apply format_fields_last, format_value_last; discriminate.
  - rewrite format_rows_cons, last_app, last_cons by discriminate; exact IH.
Qed.

Lemma stripped_length_format rows :
  stripped_length (format_rows rows ++ [NEWLINE]) = length (format_rows rows).
Proof.
  unfold stripped_length, ends_with; rewrite length_snoc.
  replace (char_is _ (length (format_rows rows)) NEWLINE) with true
    by (rewrite char_is_mid; reflexivity).
  cbn [pred]; destruct (format_rows rows) as [|x F] eqn:E; [reflexivity|].
  destruct (exists_last (l := x :: F) ltac:(discriminate)) as [F' [a Ha]].
  pose proof (format_rows_last rows) as L; rewrite E, Ha, last_last in L.
  rewrite Ha, length_snoc, <- app_assoc; cbv beta iota; cbn [app]; rewrite char_is_mid.
  destruct (Ascii.eqb_spec a RETURN); [congruence|reflexivity].
Qed.

Lemma length_format_fields vs : length vs <= length (format_fields vs).
Proof. induction vs; cbn [format_fields length]; rewrite ?length_app; lia. Qed.

Lemma length_format_rows rows : length rows <= S (length (format_rows rows)).
Proof.
  induction rows as [|r [|r' rs] IH]; cbn [length]; [lia|lia|].
  rewrite format_rows_cons, length_app by discriminate; cbn [length] in *; lia.
Qed.

Lemma length_format_row_in rows r :
  In r rows -> length r <= S (length (format_rows rows)).
Proof.
  induction rows as [|r0 [|r' rs] IH]; intros Hin; [destruct Hin|..].
  - destruct Hin as [->|[]]; destruct r as [|v vs]; cbn [format_rows format_row length];
      [lia|rewrite length_app; pose proof (length_format_fields vs); lia].
  - rewrite format_rows_cons, length_app by discriminate; cbn [length].
    destruct Hin as [->|Hin]; [|specialize (IH Hin); cbn [length] in IH; lia].
    destruct r as [|v vs]; cbn [format_row length];
      [lia|rewrite length_app; pose proof (length_format_fields vs); lia].
Qed.

(** C5: Round trip of the CSV reader: a file written by d3-dsv's
    [formatRows] (fields with a quote, a comma or a line break quoted,
    their quotes doubled), ending with a line feed as files do, is read
    back by [parseRows] as exactly the rows it was written from; the rows
    are non-empty, and there is at least one. *)
Theorem parse_rows_format rows :
  rows <> [] -> Forall (fun r => r <> []) rows ->
  parse_rows (string_of_list_ascii (format_rows rows ++ [NEWLINE])) = rows.
Proof.
  intros Hne Hr; unfold parse_rows; rewrite list_ascii_of_string_of_list_ascii.
  rewrite stripped_length_format, length_snoc; cbn [Nat.eqb].
  apply (read_rows_format _ _ rows []); auto; unfold fuel; rewrite ?length_snoc.
  - pose proof (length_format_rows rows); lia.
  - apply Forall_forall; intros r Hin; pose proof (length_format_row_in rows r Hin); lia.
Qed.


(** ** What [csvParse] gives the script *)

Lemma prop_filter obj k c :
  prop (filter (fun '(k', _) => negb (String.eqb k' k)) obj) c
  = if String.eqb c k then None else prop obj c.
Proof.
  unfold prop; induction obj as [|[k' v'] obj IH]; cbn;
    [destruct (String.eqb c k); reflexivity|].
  destruct (String.eqb_spec k' k) as [->|Hk]; cbn.
  - rewrite IH; destruct (String.eqb_spec k c), (String.eqb_spec c k); congruence.
  - destruct (String.eqb_spec k' c) as [->|Hc]; [|exact IH].
    destruct (String.eqb_spec c k); [congruence|reflexivity].
Qed.

(** A property read back after an assignment of the object literal. *)
Lemma prop_assign obj k v c :
  prop (assign obj k v) c = if String.eqb c k then v else prop obj c.
Proof.
  unfold assign; destruct v as [s|]; [|apply prop_filter].
  unfold prop at 1; cbn; rewrite String.eqb_sym.
  destruct (String.eqb c k) eqn:E; [reflexivity|].
  pose proof (prop_filter obj k c) as P; rewrite E in P; exact P.
Qed.

Lemma object_fields_notin k cs row obj c :
  ~ In c cs -> prop (object_fields k cs row obj) c = prop obj c.
Proof.
  revert k obj; induction cs as [|c0 cs IH]; intros k obj Hc; [reflexivity|]; cbn.
  rewrite IH by (intros H; apply Hc; right; exact H).
  rewrite prop_assign; destruct (String.eqb_spec c c0); [|reflexivity].
  exfalso; apply Hc; left; auto.
Qed.

(** The cell under column [c]: [d[i]] for the position [i] of [c]. *)
Lemma object_fields_at k cs row obj i c :
  NoDup cs -> nth_error cs i = Some c -> prop (object_fields k cs row obj) c = nth_error row (k + i).
Proof.
  revert k obj i; induction cs as [|c0 cs IH]; intros k obj [|i] Hd Hi;
    try discriminate; apply NoDup_cons_iff in Hd as [Hc0 Hd]; cbn.
  - injection Hi as ->; rewrite object_fields_notin, prop_assign, String.eqb_refl by auto.
    f_equal; lia.
  - rewrite (IH (S k) _ i) by auto; f_equal; lia.
Qed.

Lemma prop_object_converter cols row i c :
  NoDup cols -> nth_error cols i = Some c -> prop (object_converter cols row) c = nth_error row i.
Proof. intros; unfold object_converter; rewrite (object_fields_at 0 cols row [] i c); auto. Qed.

(** The text of a CSV file: its header and rows as [formatRows] writes
    them, with a final line feed. *)
Definition csv_file (cols : list string) (rows : list (list string)) : string :=
  string_of_list_ascii (format_rows (cols :: rows) ++ [NEWLINE]).

Lemma csv_parse_file cols rows :
  cols <> [] -> Forall (fun r => r <> []) rows ->
  csv_parse (csv_file cols rows) = map (object_converter cols) rows.
Proof.
  intros Hc Hr; unfold csv_parse, csv_file; rewrite parse_rows_format; auto; discriminate.
Qed.

(** C4: What the script receives from [d3.csv]: for a file with a header
    of distinct column names, every row of the file becomes one object of
    [csv], in file order, whose property [c] is the row's cell under
    column [c] ([undefined] when the row is shorter than the header). *)
Theorem csv_parse_format cols rows :
  cols <> [] -> NoDup cols -> Forall (fun r => r <> []) rows ->
  Forall2 (fun r d => forall i c, nth_error cols i = Some c -> prop d c = nth_error r i)
    rows (csv_parse (csv_file cols rows)).
Proof.
  intros Hc Hd Hr; rewrite csv_parse_file by auto; clear Hr.
  induction rows as [|r rows IH]; constructor; auto.
  intros i c Hi; apply prop_object_converter; auto.
Qed.

Lemma format_rows_blank l :
  l <> [] -> format_rows (l ++ [[""%string]]) = format_rows l ++ [NEWLINE].
Proof.
  induction l as [|r [|r' rs] IH]; intros Hl; [congruence|reflexivity|].
  rewrite <- app_comm_cons, !format_rows_cons, IH, <- app_assoc by
    (try discriminate; destruct rs; discriminate); reflexivity.
Qed.

(** C19: A blank line at the end of the file (the file ends with two line
    feeds) is one more row of [csv], the object of the row [[""]]: its
    first column is the empty string and every other one is [undefined]. *)
Theorem csv_blank_line cols rows :
  cols <> [] -> Forall (fun r => r <> []) rows ->
  csv_parse (string_of_list_ascii (format_rows (cols :: rows) ++ [NEWLINE; NEWLINE]))
  = csv_parse (csv_file cols rows) ++ [object_converter cols [""%string]].
Proof.
  intros Hc Hr; rewrite csv_parse_file by auto.
  replace (format_rows (cols :: rows) ++ [NEWLINE; NEWLINE])
    with (format_rows (cols :: rows ++ [[""%string]]) ++ [NEWLINE]).
  - change (csv_parse (csv_file cols (rows ++ [[""%string]])) = map (object_converter cols) rows
            ++ map (object_converter cols) [[""%string]]).
    rewrite csv_parse_file, map_app; auto.
    apply Forall_app; split; auto; repeat constructor; discriminate.
  - rewrite app_comm_cons, format_rows_blank, <- app_assoc by discriminate; reflexivity.
Qed.

End D3DsvFacts.

Module D3DsvExamples.
Import Process ProcessExamples D3Dsv D3DsvFacts.
Open Scope string_scope.

Definition nl : string := String NEWLINE EmptyString.
Definition q : string := String QUOTE EmptyString.

Definition spec_columns : list string := ["name"; "date"; "total_1"; "total_2"].
Definition spec_cells : list (list string) :=
  [["A"; "0"; "1"; "2"]; ["A"; "1"; "3"; "4"]; ["B"; "0"; "10"; "0"]].

(** The file of the example of the specification, as [formatRows] writes it. *)
Example spec_file_text :
  csv_file spec_columns spec_cells
  = "name,date,total_1,total_2" ++ nl ++ "A,0,1,2" ++ nl ++ "A,1,3,4" ++ nl ++ "B,0,10,0" ++ nl.
Proof. reflexivity. Qed.

(** The script on the text of that file gives the series of the rows of
    [Process]'s example. *)
Example load_spec : load (csv_file spec_columns spec_cells) = data spec_rows.
Proof. vm_compute; reflexivity. Qed.

(** Quoted fields: a doubled quote is one quote, a comma and a line break
    inside quotes are text, a carriage return before a line feed ends the
    line with it, and the character after a closing quote is skipped
    whatever it is: [q d q e] before the last line feed is the field [d]
    followed by an empty field. *)
Example parse_rows_quoted :
  parse_rows (q ++ "x" ++ q ++ q ++ "y" ++ q ++ ",z" ++ String RETURN nl ++ q ++ "a,b" ++ nl
              ++ "c" ++ q ++ "," ++ q ++ "d" ++ q ++ "e" ++ nl)
  = [["x" ++ q ++ "y"; "z"]; ["a,b" ++ nl ++ "c"; "d"; ""]].
Proof. vm_compute; reflexivity. Qed.

Definition quoted_cells : list (list string) :=
  [["name"; "note"]; ["A"; "x,y"]; ["B"; q ++ "hi" ++ q]; [""; "two" ++ nl ++ "lines"]].

Lemma parse_rows_format_witness :
  parse_rows (string_of_list_ascii (format_rows quoted_cells ++ [NEWLINE])%list) = quoted_cells.
Proof. apply parse_rows_format; [discriminate|repeat constructor; discriminate]. Defined.

Lemma spec_columns_nodup : NoDup spec_columns.
Proof. repeat constructor; cbn; intuition discriminate. Qed.

Lemma csv_parse_format_witness :
  Forall2 (fun r d => forall i c, nth_error spec_columns i = Some c -> prop d c = nth_error r i)
    spec_cells (csv_parse (csv_file spec_columns spec_cells)).
Proof.
  apply csv_parse_format; [discriminate|apply spec_columns_nodup|repeat constructor; discriminate].
Defined.

Lemma csv_blank_line_witness :
  csv_parse (string_of_list_ascii (format_rows (spec_columns :: spec_cells) ++ [NEWLINE; NEWLINE])%list)
  = (csv_parse (csv_file spec_columns spec_cells) ++ [object_converter spec_columns [""]])%list.
Proof. apply csv_blank_line; [discriminate|repeat constructor; discriminate]. Defined.

(** The blank line reaches the chart: a third series, named by the empty
    string, whose one record has no date and no value, and sum 0. *)
Example load_blank_line :
  load (csv_file spec_columns spec_cells ++ nl)
  = (data spec_rows ++
     [{| key := ""; values := [{| name := Some ""; date := JsNum.NaN; value := JsNum.NaN |}]; sum := JsNum.nz 0%Z |}])%list.
Proof. vm_compute; reflexivity. Qed.

End D3DsvExamples.
