(* ===== verification/Scale.v ===== *)
(** The continuous scales of d3-scale 2.2 that the script builds:
    [d3.scaleUtc()] for x (src/main.js lines 38-44), [d3.scaleLinear()] for
    y (lines 46-49) and for the colour (lines 59-62, see [Color]).

    A continuous scale maps [x] to [unknown] ([undefined], here [None]) when
    [+x] is NaN; otherwise it uses [bimap] for a two-stop domain and
    [polymap] for more, with [normalize(a, b)] taking the domain segment to
    [0, 1] (a degenerate segment gives the constant [0.5], or NaN when its
    width is NaN) and the range interpolator taking [0, 1] back.  No clamping.
    The time scale converts its domain with [+new Date(+t)], that is
    ECMAScript's TimeClip. *)

From Stdlib Require Import QArith Qround Qabs Qfield Qminmax Lqa List Lia.
From S2P Require Import Prelude JsNum D3Array.
Import ListNotations.
Open Scope num_scope.

Module Continuous.

(** [normalize(a, b)]: [(b -= (a = +a)) ? x => (x - a) / b
    : constant(isNaN(b) ? NaN : 0.5)]. *)
Definition normalize (a b : num) (x : num) : num :=
  let w := b - a in
  if truthy w then (x - a) / w
  else if isNaN w then NaN else Fin (1 # 2).

(** [d3.interpolateNumber(a, b)(t)]: [a * (1 - t) + b * t]. *)
Definition interpolate_number (a b t : num) : num := a * (nz 1 - t) + b * t.

Section Piecewise.
Context {R O : Type}.
(** [interpolate(r0, r1)(t)]: the range interpolator, from range values
    [R] to outputs [O]. *)
Variable interpolate : R -> R -> num -> O.
(** What reading past the end of the range array gives. *)
Variable rdef : R.

(** [bimap(domain, range, interpolate)]: a descending domain is read
    from its smaller end. *)
Definition bimap (domain : list num) (range : list R) (x : num) : O :=
  let d0 := nth 0 domain NaN in let d1 := nth 1 domain NaN in
  let r0 := nth 0 range rdef in let r1 := nth 1 range rdef in
  if ltb d1 d0 then interpolate r1 r0 (normalize d1 d0 x)
  else interpolate r0 r1 (normalize d0 d1 x).

(** [polymap(domain, range, interpolate)]: reverse a descending domain
    (and the range), find the segment with [bisectRight(domain, x, 1, j) - 1],
    interpolate inside it. *)
Definition polymap (domain : list num) (range : list R) (x : num) : O :=
  let j := (Nat.min (length domain) (length range) - 1)%nat in
  let '(dom, ran) := if ltb (nth j domain NaN) (nth 0 domain NaN)
                     then (rev domain, rev range) else (domain, range) in
  let i := (bisect_right dom x 1 j - 1)%nat in
  interpolate (nth i ran rdef) (nth (S i) ran rdef)
              (normalize (nth i dom NaN) (nth (S i) dom NaN) x).

(** [piecewise = Math.min(domain.length, range.length) > 2 ? polymap : bimap]. *)
Definition piecewise (domain : list num) (range : list R) : num -> O :=
  if Nat.ltb 2 (Nat.min (length domain) (length range)) then polymap domain range
  else bimap domain range.

(** [scale(x) = isNaN(x = +x) ? unknown : output(x)]. *)
Definition apply (domain : list num) (range : list R) (x : num) : option O :=
  if isNaN x then None else Some (piecewise domain range x).
End Piecewise.

(** [d3.scaleLinear().domain(d).range(r)] on numbers ([+x] of a number is
    itself). *)
Definition scale_linear (domain range : list num) : num -> option num :=
  apply interpolate_number NaN domain range.

(** TimeClip: NaN when not finite or beyond [8.64e15] ms, else the value
    truncated toward zero. *)
Definition time_clip (t : num) : num :=
  match t with
  | Fin q =>
      if Qlt_le_dec (8640000000000000 # 1) (Qabs q) then NaN
      else if Qle_bool 0 q then Fin (inject_Z (Qfloor q)) else Fin (inject_Z (- Qfloor (- q)))
  | _ => NaN
  end.

(** [d3.scaleUtc().domain(d).range(r)]: the domain through [+new Date(+t)]. *)
Definition scale_utc (domain range : list num) : num -> option num :=
  apply interpolate_number NaN (map time_clip domain) range.

End Continuous.

Module ContinuousFacts.
Import Continuous.

Lemma Fin_inj p q : Fin p ≈ Fin q <-> (p == q)%Q.
Proof. reflexivity. Qed.

Lemma normalize_fin a b x :
  ~ (a == b)%Q -> normalize (Fin a) (Fin b) (Fin x) = Fin ((x - a) / (b - a)).
Proof.
  intros Hab. unfold normalize, sub, truthy, add, neg, div.
  destruct (Qeq_bool (b + - a) 0) eqn:E.
  - apply Qeq_bool_iff in E. exfalso. apply Hab. lra.
  - reflexivity.
Qed.

Lemma interpolate_number_fin r0 r1 t :
  interpolate_number (Fin r0) (Fin r1) (Fin t) = Fin (r0 * (1 - t) + r1 * t).
Proof. reflexivity. Qed.

Lemma scale_linear_two_stop a b r0 r1 x :
  ~ (a == b)%Q ->
  exists y, scale_linear [Fin a; Fin b] [Fin r0; Fin r1] (Fin x) = Some (Fin y) /\
            (y == r0 + (x - a) * (r1 - r0) / (b - a))%Q.
Proof.
  intros Hab. unfold scale_linear, apply, piecewise, bimap. simpl.
  assert (~ (b - a == 0)%Q) as Hba by (intros H; apply Hab; lra).
  assert (~ (a - b == 0)%Q) as Hab' by (intros H; apply Hab; lra).
  destruct (ltb (Fin b) (Fin a)).
  - rewrite normalize_fin by (intros H; apply Hab; rewrite H; reflexivity).
    eexists; split; [reflexivity|]. field. split; auto.
  - rewrite normalize_fin by exact Hab. eexists; split; [reflexivity|]. field. exact Hba.
Qed.

(** A two-stop linear scale on finite numbers is the affine map through
    [(a, r0)] and [(b, r1)], whichever way the domain runs. *)
Theorem scale_linear_affine a b r0 r1 x :
  ~ (a == b)%Q ->
  exists y, scale_linear [Fin a; Fin b] [Fin r0; Fin r1] (Fin x) = Some (Fin y) /\
            (y == r0 + (x - a) * (r1 - r0) / (b - a))%Q.
Proof. apply scale_linear_two_stop. Qed.

(** A degenerate domain maps every number to the middle of the range. *)
Theorem scale_linear_degenerate a r0 r1 x :
  scale_linear [Fin a; Fin a] [Fin r0; Fin r1] (Fin x) = Some (Fin (r0 * (1 - (1 # 2)) + r1 * (1 # 2))).
Proof.
  unfold scale_linear, apply, piecewise, bimap. simpl.
  unfold ltb; simpl. destruct (Qcompare_spec a a) as [_|H|H]; try (exfalso; lra).
  unfold normalize, sub, add, neg, truthy.
  destruct (Qeq_bool (a + - a) 0) eqn:E; [reflexivity|].
  apply Qeq_bool_neq in E. exfalso. apply E. lra.
Qed.

(** NaN is mapped to [unknown]: the attribute it feeds is removed. *)
Theorem scale_linear_unknown domain range : scale_linear domain range NaN = None.
Proof. reflexivity. Qed.

Lemma normalize_eq a c x : (a == c)%Q -> normalize (Fin a) (Fin c) (Fin x) = Fin (1 # 2).
Proof.
  intros H. unfold normalize, sub, truthy, add, neg.
  destruct (Qeq_bool (c + - a) 0) eqn:E; [reflexivity|].
  apply Qeq_bool_neq in E. exfalso. apply E. lra.
Qed.

(** Inside its domain a linear scale stays inside its range, a degenerate
    domain included. *)
Theorem scale_linear_within a b r0 r1 x :
  (a <= b)%Q -> (a <= x <= b)%Q ->
  exists y, scale_linear [Fin a; Fin b] [Fin r0; Fin r1] (Fin x) = Some (Fin y) /\
            (Qmin r0 r1 <= y <= Qmax r0 r1)%Q.
Proof.
  intros Hab Hx. destruct (Qeq_dec a b) as [E|NE].
  - unfold scale_linear, apply, piecewise, bimap. simpl.
    rewrite ltb_Fin_false by lra. rewrite normalize_eq by exact E.
    eexists; split; [reflexivity|]. cbn [interpolate_number mul add sub neg nz].
    unfold inject_Z. destruct (Qlt_le_dec r0 r1).
    + rewrite Q.min_l, Q.max_r by lra. split; lra.
    + rewrite Q.min_r, Q.max_l by lra. split; lra.
  - destruct (scale_linear_two_stop a b r0 r1 x) as (y & Hy & Ey); [exact NE|].
    exists y. split; [exact Hy|]. rewrite Ey.
    assert (a < b)%Q as Hlt by (destruct (Qle_lt_or_eq _ _ Hab); [assumption|contradiction]).
    assert (0 <= (x - a) / (b - a) <= 1)%Q as [T0 T1].
    { split.
      - apply Qle_shift_div_l; lra.
      - apply Qle_shift_div_r; lra. }
    assert ((r0 + (x - a) * (r1 - r0) / (b - a) == r0 + (r1 - r0) * ((x - a) / (b - a)))%Q) as E
      by (field; lra).
    rewrite E. set (t := ((x - a) / (b - a))%Q) in *.
    destruct (Qlt_le_dec r0 r1).
    + rewrite Q.min_l, Q.max_r by lra. split; nra.
    + rewrite Q.min_r, Q.max_l by lra. split; nra.
Qed.

Lemma scale_linear_affine_witness :
  exists y, scale_linear [Fin 2; Fin 0] [Fin 0; Fin 10] (Fin (1 # 2)) = Some (Fin y) /\
            (y == 0 + ((1 # 2) - 2) * (10 - 0) / (0 - 2))%Q.
Proof. apply scale_linear_affine. intros H. lra. Defined.
End ContinuousFacts.
