(* ===== verification/Color.v ===== *)
(** Colours as the colour scale of the script produces them (src/main.js
    lines 51-62): the range ["#FA6", "#D65", "#936", "#525"] is
    interpolated by [d3.interpolate], which for a colour string is
    [d3.interpolateRgb]: both ends parsed by [d3.color], each channel
    interpolated linearly ([nogamma]), and the result printed by
    [Rgb.toString] as ["rgb(r, g, b)"] with every channel rounded and
    clamped to [0, 255].

    [d3.color] is modelled on its hexadecimal branch ([#rgb], [#rgba],
    [#rrggbb], [#rrggbbaa], after [trim] and [toLowerCase]), with the shifts
    and masks of d3-color; the [rgb(...)], [hsl(...)] and named-colour
    branches are not modelled (they give [None] here), which the script never
    reaches: its four colours are hexadecimal.  [Rgb.toString] is modelled on
    its opaque branch; a translucent colour, which prints its opacity as a
    decimal fraction, gives [None]: interpolating two opaque colours never
    produces one ([interpolate_rgb_opaque]). *)

From Stdlib Require Import QArith Qround Qminmax Lqa ZArith String Ascii List Lia EquivDec Morphisms.
From S2P Require Import Prelude JsNum NumParse.
Import ListNotations.
Open Scope num_scope.

Module D3Color.
Import StringToNumber NumberToString.

Record rgb : Type := Rgb { r : num; g : num; b : num; opacity : num }.

(** [String.prototype.toLowerCase] on 8-bit characters. *)
Definition to_lower (c : ascii) : ascii :=
  let n := N_of_ascii c in
  if ((65 <=? n) && (n <=? 90))%N then ascii_of_N (n + 32) else c.

(** [rgba(r, g, b, a)]: a colour with [a <= 0] has NaN channels. *)
Definition rgba (rr gg bb : Z) (a : num) : rgb :=
  if leb a (nz 0) then Rgb NaN NaN NaN a else Rgb (nz rr) (nz gg) (nz bb) a.

(** [rgbn(n)]: [new Rgb(n >> 16 & 0xff, n >> 8 & 0xff, n & 0xff, 1)]. *)
Definition rgbn (m : Z) : rgb :=
  Rgb (nz (Z.land (Z.shiftr m 16) 255)) (nz (Z.land (Z.shiftr m 8) 255))
      (nz (Z.land m 255)) (nz 1).

(** The branches of [color] on [m = parseInt(hex, 16)] by the hex length [l]. *)
Definition from_hex (l : nat) (m : Z) : option rgb :=
  match l with
  | 6%nat => Some (rgbn m)
  | 3%nat => Some (Rgb (nz (Z.lor (Z.land (Z.shiftr m 8) 15) (Z.land (Z.shiftr m 4) 240)))
                   (nz (Z.lor (Z.land (Z.shiftr m 4) 15) (Z.land m 240)))
                   (nz (Z.lor (Z.shiftl (Z.land m 15) 4) (Z.land m 15)))
                   (nz 1))
  | 8%nat => Some (rgba (Z.land (Z.shiftr m 24) 255) (Z.land (Z.shiftr m 16) 255)
                    (Z.land (Z.shiftr m 8) 255) (nz (Z.land m 255) / nz 255))
  | 4%nat => Some (rgba (Z.lor (Z.land (Z.shiftr m 12) 15) (Z.land (Z.shiftr m 8) 240))
                    (Z.lor (Z.land (Z.shiftr m 8) 15) (Z.land (Z.shiftr m 4) 240))
                    (Z.lor (Z.land (Z.shiftr m 4) 15) (Z.land m 240))
                    (nz (Z.lor (Z.shiftl (Z.land m 15) 4) (Z.land m 15)) / nz 255))
  | _ => None
  end.

(** [color(format)] on the hexadecimal branch: [reHex = /^#([0-9a-f]{3,8})$/]
    on the trimmed, lower-cased string. *)
Definition color (format : string) : option rgb :=
  match map to_lower (trim (list_ascii_of_string format)) with
  | c :: hex =>
      if Ascii.eqb c "#"%char then
        match take_digits 16 hex with
        | (ds, []) =>
            if (Nat.leb 3 (length ds) && Nat.leb (length ds) 8)%bool
            then from_hex (length ds) (digits_value 16 ds) else None
        | _ => None
        end
      else None
  | [] => None
  end.

(** [rgb(o)] of d3-color on a string: the parsed colour, or [new Rgb] with
    undefined (NaN) channels. *)
Definition color_rgb (s : string) : rgb :=
  match color s with Some c => c | None => Rgb NaN NaN NaN NaN end.

(** [nogamma(a, b)]: [d = b - a; d ? linear(a, d) : constant(isNaN(a) ? b : a)]. *)
Definition nogamma (a bb : num) (t : num) : num :=
  let d := bb - a in
  if truthy d then a + t * d else if isNaN a then bb else a.

(** The channel of [Rgb.toString]: [Math.max(0, Math.min(255, Math.round(v) || 0))]. *)
Definition channel (v : num) : num :=
  let rv := round v in
  max (nz 0) (min (nz 255) (if truthy rv then rv else nz 0)).

Definition channel_string (v : num) : string := Z_to_string (Qfloor (to_Q (channel v))).

(** [Rgb.toString] ([rgb_formatRgb]) when the opacity is 1 (or NaN). *)
Definition format_rgb (c : rgb) : option string :=
  let a := if isNaN (opacity c) then nz 1 else max (nz 0) (min (nz 1) (opacity c)) in
  if eqb a (nz 1) then
    Some ("rgb(" ++ channel_string (r c) ++ ", " ++ channel_string (g c) ++ ", "
          ++ channel_string (b c) ++ ")")%string
  else None.

(** [d3.interpolateRgb(start, end)(t)]. *)
Definition interpolate_rgb (start end_ : string) (t : num) : option string :=
  let s := color_rgb start in
  let e := color_rgb end_ in
  format_rgb (Rgb (nogamma (r s) (r e) t) (nogamma (g s) (g e) t)
                  (nogamma (b s) (b e) t) (nogamma (opacity s) (opacity e) t)).

(** [d3.interpolate(a, b)] for the string [b]: [interpolateRgb] when [b]
    is a colour; a string that is not a colour and holds no number
    interpolates to the constant [b] ([interpolateString]). *)
Definition interpolate_value (a bb : string) (t : num) : option string :=
  match color bb with
  | Some _ => interpolate_rgb a bb t
  | None => Some bb
  end.

End D3Color.

Module D3ColorFacts.
Import D3Color StringToNumber NumberToString.

Definition num_eq_dec (x y : num) : {x = y} + {x <> y}.
Proof.
  decide equality. destruct q, q0. decide equality; [apply Pos.eq_dec|apply Z.eq_dec].
Defined.

#[export] Instance num_EqDec : EqDec num eq := num_eq_dec.

Definition rgb_eq_dec (x y : rgb) : {x = y} + {x <> y}.
Proof. decide equality; apply num_eq_dec. Defined.

#[export] Instance rgb_EqDec : EqDec rgb eq := rgb_eq_dec.

(** The colour a three-digit [#rgb] denotes: every digit doubled. *)
Definition hex3_expected (m : Z) : option rgb :=
  Some (Rgb (nz (17 * (m / 256))) (nz (17 * (m / 16 mod 16))) (nz (17 * (m mod 16))) (nz 1)).

Definition option_rgb_eq_dec (x y : option rgb) : {x = y} + {x <> y}.
Proof. decide equality. apply rgb_eq_dec. Defined.

Definition hex3_check (m : Z) : bool :=
  if option_rgb_eq_dec (from_hex 3 m) (hex3_expected m) then true else false.

Lemma hex3_check_all : forallb (fun n => hex3_check (Z.of_nat n)) (seq 0 4096) = true.
Proof. vm_compute. reflexivity. Qed.

(** [#rgb] is [#rrggbb]: the shifts and masks of d3-color double every
    hexadecimal digit ([0xf] becomes [0xff]). *)
Theorem from_hex3_doubles m :
  (0 <= m < 4096)%Z -> from_hex 3 m = hex3_expected m.
Proof.
  intros Hm. pose proof hex3_check_all as H. rewrite forallb_forall in H.
  specialize (H (Z.to_nat m)). rewrite Z2Nat.id in H by lia.
  unfold hex3_check in H. destruct (option_rgb_eq_dec _ _) as [E|]; [exact E|].
  discriminate H. apply in_seq. lia.
Qed.

Lemma channel_fin q :
  channel (Fin q) = nz (Z.max 0 (Z.min 255 (let k := Qfloor (q + (1 # 2)) in if (k =? 0)%Z then 0 else k))).
Proof.
  unfold channel. change (round (Fin q)) with (nz (Qfloor (q + (1 # 2)))).
  rewrite truthy_nz. destruct (Z.eqb_spec (Qfloor (q + (1 # 2))) 0) as [E|E]; simpl;
    rewrite min_nz, max_nz; reflexivity.
Qed.

(** Every channel [Rgb.toString] prints is an integer of [0, 255], NaN and
    the infinities included. *)
Theorem channel_bounds v : exists z, (0 <= z <= 255)%Z /\ channel v = nz z.
Proof.
  destruct v as [| | |q].
  - exists 0%Z. split; [lia|reflexivity].
  - exists 255%Z. split; [lia|reflexivity].
  - exists 0%Z. split; [lia|reflexivity].
  - rewrite channel_fin. eexists. split; [|reflexivity]. lia.
Qed.

Lemma channel_string_nz v z : channel v = nz z -> channel_string v = Z_to_string z.
Proof.
  intros H. unfold channel_string. rewrite H. change (to_Q (nz z)) with (inject_Z z).
  rewrite Qfloor_Z. reflexivity.
Qed.

Lemma channel_eq v v' : v ≈ v' -> channel v = channel v'.
Proof. intros H. unfold channel. rewrite (round_eq v v' H). reflexivity. Qed.

(** The opacity test of [Rgb.toString]: [Math.max(0, Math.min(1, a)) === 1]. *)
Lemma opacity_one q : eqb (max (nz 0) (min (nz 1) (Fin q))) (nz 1) = Qle_bool 1 q.
Proof.
  change (nz 0) with (Fin 0). change (nz 1) with (Fin 1).
  rewrite (min_Fin 1 q), (max_Fin 0 (Qmin 1 q)), eqb_Fin.
  destruct (Qlt_le_dec q 1) as [H|H].
  - assert (Qmax 0 (Qmin 1 q) < 1)%Q as E.
    { rewrite (Q.min_r 1 q) by lra. destruct (Qlt_le_dec q 0).
      - rewrite Q.max_l by lra. lra.
      - rewrite Q.max_r by lra. lra. }
    destruct (Qeq_bool _ 1) eqn:E1, (Qle_bool 1 q) eqn:E2; auto.
    + apply Qeq_bool_iff in E1. lra.
    + apply Qle_bool_iff in E2. lra.
  - assert (Qmax 0 (Qmin 1 q) == 1)%Q as E.
    { rewrite (Q.min_l 1 q) by lra. rewrite Q.max_r by lra. reflexivity. }
    destruct (Qeq_bool _ 1) eqn:E1, (Qle_bool 1 q) eqn:E2; auto.
    + exfalso. apply (proj2 (Bool.not_true_iff_false _) E2), Qle_bool_iff. exact H.
    + apply Qeq_bool_neq in E1. contradiction.
Qed.

Lemma format_opacity co :
  eqb (if isNaN co then nz 1 else max (nz 0) (min (nz 1) co)) (nz 1) =
  match co with NaN | PosInf => true | NegInf => false | Fin q => Qle_bool 1 q end.
Proof. destruct co; try reflexivity. apply opacity_one. Qed.

(** The string of an opaque colour: ["rgb(" r ", " g ", " b ")"] with the
    three channels in [0, 255]; a translucent one is not printed this way. *)
Theorem format_rgb_spec c :
  (isNaN (opacity c) = true \/ leb (nz 1) (opacity c) = true ->
   exists rr gg bb, (0 <= rr <= 255)%Z /\ (0 <= gg <= 255)%Z /\ (0 <= bb <= 255)%Z /\
     format_rgb c = Some ("rgb(" ++ Z_to_string rr ++ ", " ++ Z_to_string gg ++ ", "
                          ++ Z_to_string bb ++ ")")%string) /\
  (ltb (opacity c) (nz 1) = true -> format_rgb c = None).
Proof.
  destruct c as [cr cg cb co]. unfold format_rgb. cbn [opacity r g b].
  destruct (channel_bounds cr) as (rr & Hr & Er), (channel_bounds cg) as (gg & Hg & Eg),
           (channel_bounds cb) as (bb & Hb & Eb).
  rewrite (channel_string_nz _ _ Er), (channel_string_nz _ _ Eg), (channel_string_nz _ _ Eb).
  rewrite format_opacity. split.
  - intros Ho. exists rr, gg, bb. repeat split; try lia.
    destruct co as [| | |q]; try reflexivity.
    + destruct Ho as [Ho|Ho]; discriminate.
    + destruct Ho as [Ho|Ho]; [discriminate|].
      change (nz 1) with (Fin 1) in Ho. rewrite leb_Fin in Ho. rewrite Ho. reflexivity.
  - intros Ho. destruct co as [| | |q]; try discriminate; try reflexivity.
    change (nz 1) with (Fin 1) in Ho. rewrite ltb_Fin in Ho.
    destruct (Qle_bool 1 q); [discriminate|reflexivity].
Qed.
Definition finite_rgb (c : rgb) : bool :=
  is_finite (r c) && is_finite (g c) && is_finite (b c) && is_finite (opacity c).

Lemma nogamma_0 a bb : nogamma (Fin a) (Fin bb) (nz 0) ≈ Fin a.
Proof. unfold nogamma, nz. destruct (truthy _); simpl; unfold inject_Z; [lra|reflexivity]. Qed.

Lemma nogamma_1 a bb : nogamma (Fin a) (Fin bb) (nz 1) ≈ Fin bb.
Proof.
  unfold nogamma, nz. destruct (truthy (Fin bb - Fin a)) eqn:E; simpl; unfold inject_Z; [lra|].
  apply truthy_Fin in E. lra.
Qed.

Lemma opacity_test_eq x y :
  x ≈ y ->
  eqb (if isNaN x then nz 1 else max (nz 0) (min (nz 1) x)) (nz 1) =
  eqb (if isNaN y then nz 1 else max (nz 0) (min (nz 1) y)) (nz 1).
Proof.
  intros H. rewrite !format_opacity.
  destruct x, y; simpl in H; try contradiction; auto.
  destruct (Qle_bool 1 q) eqn:E1, (Qle_bool 1 q0) eqn:E2; auto; exfalso.
  - apply Qle_bool_iff in E1. apply (proj2 (Bool.not_true_iff_false _) E2), Qle_bool_iff. lra.
  - apply Qle_bool_iff in E2. apply (proj2 (Bool.not_true_iff_false _) E1), Qle_bool_iff. lra.
Qed.

(** [Rgb.toString] only sees its channels up to numeric equality. *)
Lemma format_rgb_eq x1 x2 x3 x4 y1 y2 y3 y4 :
  x1 ≈ y1 -> x2 ≈ y2 -> x3 ≈ y3 -> x4 ≈ y4 ->
  format_rgb (Rgb x1 x2 x3 x4) = format_rgb (Rgb y1 y2 y3 y4).
Proof.
  intros H1 H2 H3 H4. unfold format_rgb, channel_string. cbn [r g b opacity].
  rewrite (channel_eq _ _ H1), (channel_eq _ _ H2), (channel_eq _ _ H3), (opacity_test_eq _ _ H4).
  reflexivity.
Qed.

#[export] Instance nogamma_proper : Proper (num_eq ==> num_eq ==> num_eq ==> num_eq) nogamma.
Proof.
  intros a a' Ha c c' Hc t t' Ht. unfold nogamma.
  assert (truthy (c - a) = truthy (c' - a')) as E1 by (rewrite Ha, Hc; reflexivity).
  assert (isNaN a = isNaN a') as E2 by (rewrite Ha; reflexivity).
  rewrite E1, E2. clear E1 E2. destruct (truthy (c' - a')), (isNaN a'); auto;
  apply add_proper; auto; apply mul_proper; auto; apply sub_proper; auto.
Qed.

#[export] Instance interpolate_rgb_proper : Proper (eq ==> eq ==> num_eq ==> eq) interpolate_rgb.
Proof.
  intros s ? <- e ? <- t t' Ht. unfold interpolate_rgb.
  apply format_rgb_eq; apply nogamma_proper; auto; reflexivity.
Qed.

(** [d3.interpolateRgb(start, end)] prints [start] at [t = 0] and [end] at
    [t = 1] when both are colours with finite channels. *)
Theorem interpolate_rgb_endpoints s e :
  finite_rgb (color_rgb s) = true -> finite_rgb (color_rgb e) = true ->
  interpolate_rgb s e (nz 0) = format_rgb (color_rgb s) /\
  interpolate_rgb s e (nz 1) = format_rgb (color_rgb e).
Proof.
  unfold interpolate_rgb, finite_rgb.
  destruct (color_rgb s) as [[| | |r1] [| | |g1] [| | |b1] [| | |o1]]; try discriminate;
  destruct (color_rgb e) as [[| | |r2] [| | |g2] [| | |b2] [| | |o2]]; try discriminate.
  intros _ _. cbn [r g b opacity].
  split; apply format_rgb_eq; auto using nogamma_0, nogamma_1.
Qed.

(** Two opaque colours interpolate to opaque colours: the result is always
    printed as ["rgb(...)"]. *)
Theorem interpolate_rgb_opaque s e t :
  opacity (color_rgb s) = nz 1 -> opacity (color_rgb e) = nz 1 ->
  exists str, interpolate_rgb s e t = Some str.
Proof.
  intros Hs He. unfold interpolate_rgb. cbv zeta.
  assert (nogamma (opacity (color_rgb s)) (opacity (color_rgb e)) t = nz 1) as Ho
    by (rewrite Hs, He; reflexivity).
  destruct (format_rgb_spec (Rgb (nogamma (r (color_rgb s)) (r (color_rgb e)) t)
                                 (nogamma (g (color_rgb s)) (g (color_rgb e)) t)
                                 (nogamma (b (color_rgb s)) (b (color_rgb e)) t)
                                 (nogamma (opacity (color_rgb s)) (opacity (color_rgb e)) t)))
    as [H _].
  destruct H as (rr & gg & bb & _ & _ & _ & E).
  - right. cbn [opacity]. rewrite Ho. reflexivity.
  - eexists. exact E.
Qed.

Lemma from_hex3_doubles_witness : from_hex 3 2358 = hex3_expected 2358.
Proof. apply from_hex3_doubles. lia. Defined.

Lemma interpolate_rgb_endpoints_witness :
  interpolate_rgb "#FA6" "#525" (nz 0) = format_rgb (color_rgb "#FA6") /\
  interpolate_rgb "#FA6" "#525" (nz 1) = format_rgb (color_rgb "#525").
Proof. apply interpolate_rgb_endpoints; reflexivity. Defined.
End D3ColorFacts.
