(* ===== verification/Shape.v ===== *)
(** The path generators of src/main.js (lines 86-95, drawn at lines
    137-148): [d3.area().curve(d3.curveBasis).defined(d => !isNaN(d.value))
    .x(d => x(d.date)).y0(0).y1(d => y(d.value))] and its [area.lineY1()],
    after d3-shape 1.3 and d3-path 1.0 (the releases of d3 v5).

    - [D3Path]: the path context, as the list of commands it has appended
      ([M], [L], [C], [Z]) and whether it has a current point and a
      subpath start ([_x1 !== null], [_x0 !== null]); [closePath] appends
      [Z] only when there is a current point.  The string a path prints
      (its numbers through Number::toString) is not modelled: the commands
      and their arguments are.
    - [CurveBasis]: the state object of [d3.curveBasis]: [_line] (which is
      [undefined] until an [areaStart], here [None]), [_point], the last two
      points [_x0, _y0, _x1, _y1] and the context; [areaStart], [areaEnd],
      [lineStart], [lineEnd] and [point] as functions of that state.
    - [D3Shape]: the [line] and [area] generators' loops over the data,
      which call the curve's methods as the [defined] accessor switches,
      and the attribute value they give ([buffer + "" || null]: [None] for
      an empty path, which removes the attribute). *)

From Stdlib Require Import QArith Lqa List Bool Arith Lia.
From S2P Require Import Prelude JsNum.
Import ListNotations.
Open Scope num_scope.

Module D3Path.

Inductive cmd : Type :=
| MoveTo (x y : num)
| LineTo (x y : num)
| BezierCurveTo (x1 y1 x2 y2 x y : num)
| ClosePath.

(** [this._] as its commands; [current] is [this._x1 !== null] and
    [start] is [this._x0 !== null]. *)
Record path : Type := { cmds : list cmd; current : bool; start : bool }.

(** [d3.path()] *)
Definition empty : path := {| cmds := []; current := false; start := false |}.

(** [moveTo(x, y)]: [this._ += "M" + (this._x0 = this._x1 = +x) + "," + ...] *)
Definition moveTo (p : path) (x y : num) : path :=
  {| cmds := cmds p ++ [MoveTo x y]; current := true; start := true |}.

(** [lineTo(x, y)]: [this._ += "L" + (this._x1 = +x) + "," + ...] *)
Definition lineTo (p : path) (x y : num) : path :=
  {| cmds := cmds p ++ [LineTo x y]; current := true; start := start p |}.

(** [bezierCurveTo(x1, y1, x2, y2, x, y)] *)
Definition bezierCurveTo (p : path) (x1 y1 x2 y2 x y : num) : path :=
  {| cmds := cmds p ++ [BezierCurveTo x1 y1 x2 y2 x y]; current := true; start := start p |}.

(** [closePath()]: [if (this._x1 !== null) { this._x1 = this._x0, ...;
    this._ += "Z"; }] *)
Definition closePath (p : path) : path :=
  if current p then {| cmds := cmds p ++ [ClosePath]; current := start p; start := start p |}
  else p.

End D3Path.

Module CurveBasis.
Import D3Path.

Record basis : Type := {
  line : option num;        (* this._line, undefined before areaStart *)
  point_state : nat;        (* this._point *)
  x0 : num; y0 : num;       (* the point before the last *)
  x1 : num; y1 : num;       (* the last point *)
  context : path
}.

(** [this._line ? ...], [this._line !== 0] and [1 - this._line] on a
    number or [undefined]. *)
Definition line_truthy (l : option num) : bool := match l with Some v => truthy v | None => false end.
Definition line_not_zero (l : option num) : bool :=
  match l with Some v => negb (eqb v (nz 0)) | None => true end.
Definition one_minus (l : option num) : option num :=
  match l with Some v => Some (nz 1 - v) | None => Some NaN end.

(** [curveBasis(context)]: a fresh state object. *)
Definition init (ctx : path) : basis :=
  {| line := None; point_state := 0%nat; x0 := NaN; y0 := NaN; x1 := NaN; y1 := NaN; context := ctx |}.

Definition with_line (c : basis) (l : option num) : basis :=
  {| line := l; point_state := point_state c; x0 := x0 c; y0 := y0 c; x1 := x1 c; y1 := y1 c;
     context := context c |}.

(** The module function [point(that, x, y)]: one cubic segment of the
    B-spline through the last two points and [(x, y)]. *)
Definition bezier (c : basis) (ctx : path) (x y : num) : path :=
  bezierCurveTo ctx
    ((nz 2 * x0 c + x1 c) / nz 3) ((nz 2 * y0 c + y1 c) / nz 3)
    ((x0 c + nz 2 * x1 c) / nz 3) ((y0 c + nz 2 * y1 c) / nz 3)
    ((x0 c + nz 4 * x1 c + x) / nz 6) ((y0 c + nz 4 * y1 c + y) / nz 6).

(** [areaStart: this._line = 0] *)
Definition areaStart (c : basis) : basis := with_line c (Some (nz 0)).

(** [areaEnd: this._line = NaN] *)
Definition areaEnd (c : basis) : basis := with_line c (Some NaN).

(** [lineStart: this._x0 = this._x1 = this._y0 = this._y1 = NaN; this._point = 0] *)
Definition lineStart (c : basis) : basis :=
  {| line := line c; point_state := 0%nat; x0 := NaN; y0 := NaN; x1 := NaN; y1 := NaN;
     context := context c |}.

(** [lineEnd]: finish the spline ([case 3] falls through to [case 2]),
    close the path when [this._line || (this._line !== 0 && this._point === 1)],
    then [this._line = 1 - this._line]. *)
Definition lineEnd (c : basis) : basis :=
  let ctx1 := match point_state c with
              | 3%nat => lineTo (bezier c (context c) (x1 c) (y1 c)) (x1 c) (y1 c)
              | 2%nat => lineTo (context c) (x1 c) (y1 c)
              | _ => context c
              end in
  let ctx2 := if line_truthy (line c) || (line_not_zero (line c) && Nat.eqb (point_state c) 1%nat)
              then closePath ctx1 else ctx1 in
  {| line := one_minus (line c); point_state := point_state c; x0 := x0 c; y0 := y0 c;
     x1 := x1 c; y1 := y1 c; context := ctx2 |}.

(** [point(x, y)]: the first point moves (or, inside an area's second line,
    draws) to it, the second is only remembered, the third draws a line to
    [(5 x0 + x1) / 6] and the first segment, every later one a segment;
    then the last two points shift. *)
Definition point (c : basis) (x y : num) : basis :=
  let '(ps, ctx) :=
    match point_state c with
    | 0%nat => (1%nat, if line_truthy (line c) then lineTo (context c) x y else moveTo (context c) x y)
    | 1%nat => (2%nat, context c)
    | 2%nat => (3%nat, bezier c (lineTo (context c) ((nz 5 * x0 c + x1 c) / nz 6) ((nz 5 * y0 c + y1 c) / nz 6)) x y)
    | _ => (point_state c, bezier c (context c) x y)
    end in
  {| line := line c; point_state := ps; x0 := x1 c; y0 := y1 c; x1 := x; y1 := y; context := ctx |}.

End CurveBasis.

Module D3Shape.
Import D3Path CurveBasis.

Section Generators.
Context {A : Type}.
(** The accessors: [defined], [x] (= [x0]), [y0] and [y1]; each result
    goes through [+]. *)
Variables (defined : A -> bool) (fx fy0 fy1 : A -> num).

(** The loop [for (i = 0; i <= n; ++i)] of [line(data)]: when
    [i < n && defined(d)] differs from [defined0] the curve starts or ends
    a line; every defined datum is a point.  [i = n] is the empty list. *)
Fixpoint line_loop (defined0 : bool) (l : list A) (c : basis) : basis :=
  match l with
  | [] => if defined0 then lineEnd c else c
  | d :: r =>
      let c1 := if Bool.eqb (defined d) defined0 then c
                else if defined d then lineStart c else lineEnd c in
      let c2 := if defined d then CurveBasis.point c1 (fx d) (fy1 d) else c1 in
      line_loop (defined d) r c2
  end.

(** The end of a defined run of [area(data)]: [lineEnd; lineStart], the
    baseline points [x0z[k], y0z[k]] from [k = i - 1] down to [j], then
    [lineEnd; areaEnd].  [run] holds the run's baseline points, last first. *)
Definition close_run (run : list (num * num)) (c : basis) : basis :=
  areaEnd (lineEnd (fold_left (fun c p => CurveBasis.point c (fst p) (snd p)) run (lineStart (lineEnd c)))).

(** The loop of [area(data)]; at the start of a run [areaStart; lineStart]. *)
Fixpoint area_loop (defined0 : bool) (run : list (num * num)) (l : list A) (c : basis) : basis :=
  match l with
  | [] => if defined0 then close_run run c else c
  | d :: r =>
      let '(run1, c1) :=
        if Bool.eqb (defined d) defined0 then (run, c)
        else if defined d then ([], lineStart (areaStart c)) else (run, close_run run c) in
      if defined d
      then area_loop true ((fx d, fy0 d) :: run1) r (CurveBasis.point c1 (fx d) (fy1 d))
      else area_loop false run1 r c1
  end.

(** [buffer + "" || null]: the attribute's value, [None] for an empty path. *)
Definition path_value (c : basis) : option (list cmd) :=
  match cmds (context c) with [] => None | cs => Some cs end.

(** [line(data)] and [area(data)] with a fresh [d3.path()] buffer. *)
Definition line_path (l : list A) : option (list cmd) := path_value (line_loop false l (init empty)).
Definition area_path (l : list A) : option (list cmd) := path_value (area_loop false [] l (init empty)).
End Generators.

End D3Shape.

Module ShapeFacts.
Import D3Path CurveBasis D3Shape.

(** Commands with numerically equal arguments (NaN equal to nothing). *)
Definition cmd_beq (k k' : cmd) : bool :=
  match k, k' with
  | MoveTo x y, MoveTo x' y' | LineTo x y, LineTo x' y' => eqb x x' && eqb y y'
  | BezierCurveTo a b c d x y, BezierCurveTo a' b' c' d' x' y' =>
      eqb a a' && eqb b b' && eqb c c' && eqb d d' && eqb x x' && eqb y y'
  | ClosePath, ClosePath => true
  | _, _ => false
  end.

Fixpoint cmds_beq (cs cs' : list cmd) : bool :=
  match cs, cs' with
  | [], [] => true
  | k :: r, k' :: r' => cmd_beq k k' && cmds_beq r r'
  | _, _ => false
  end.

(** ** What each operation appends to the path *)

Definition bez_cmd (c : basis) (x y : num) : cmd :=
  BezierCurveTo ((nz 2 * x0 c + x1 c) / nz 3) ((nz 2 * y0 c + y1 c) / nz 3)
                ((x0 c + nz 2 * x1 c) / nz 3) ((y0 c + nz 2 * y1 c) / nz 3)
                ((x0 c + nz 4 * x1 c + x) / nz 6) ((y0 c + nz 4 * y1 c + y) / nz 6).

Definition point_suffix (c : basis) (x y : num) : list cmd :=
  match point_state c with
  | 0%nat => [if line_truthy (line c) then LineTo x y else MoveTo x y]
  | 1%nat => []
  | 2%nat => [LineTo ((nz 5 * x0 c + x1 c) / nz 6) ((nz 5 * y0 c + y1 c) / nz 6); bez_cmd c x y]
  | _ => [bez_cmd c x y]
  end.

Definition close_cond (c : basis) : bool :=
  line_truthy (line c) || (line_not_zero (line c) && Nat.eqb (point_state c) 1%nat).

Definition lineEnd_suffix (c : basis) : list cmd :=
  let s := match point_state c with
           | 3%nat => [bez_cmd c (x1 c) (y1 c); LineTo (x1 c) (y1 c)]
           | 2%nat => [LineTo (x1 c) (y1 c)]
           | _ => []
           end in
  s ++ (if close_cond c && (current (context c) || Nat.eqb (point_state c) 2 || Nat.eqb (point_state c) 3)
        then [ClosePath] else []).

Lemma point_cmds c x y :
  cmds (context (CurveBasis.point c x y)) = cmds (context c) ++ point_suffix c x y.
Proof.
  unfold CurveBasis.point, point_suffix.
  destruct (point_state c) as [|[|[|k]]]; simpl; rewrite ?app_nil_r, <- ?app_assoc; auto.
  destruct (line_truthy (line c)); reflexivity.
Qed.

Lemma lineEnd_cmds c : cmds (context (lineEnd c)) = cmds (context c) ++ lineEnd_suffix c.
Proof.
  unfold lineEnd, lineEnd_suffix, close_cond. cbn [context].
  destruct (point_state c) as [|[|[|[|k]]]]; cbn [Nat.eqb orb];
  destruct (line_truthy (line c) || _); unfold closePath; simpl;
  rewrite ?orb_false_r, ?app_nil_r, <- ?app_assoc; try reflexivity;
  destruct (current (context c)); simpl; rewrite ?app_nil_r; reflexivity.
Qed.

Definition is_move (k : cmd) : bool := match k with MoveTo _ _ => true | _ => false end.
Definition is_close (k : cmd) : bool := match k with ClosePath => true | _ => false end.
Definition count (f : cmd -> bool) (cs : list cmd) : nat := length (filter f cs).

Lemma count_app f cs1 cs2 : count f (cs1 ++ cs2) = (count f cs1 + count f cs2)%nat.
Proof. unfold count. rewrite filter_app, length_app. reflexivity. Qed.

Lemma moves_point_suffix c x y :
  count is_move (point_suffix c x y) =
    if Nat.eqb (point_state c) 0 && negb (line_truthy (line c)) then 1%nat else 0%nat.
Proof.
  unfold point_suffix. destruct (point_state c) as [|[|[|k]]]; try reflexivity.
  destruct (line_truthy (line c)); reflexivity.
Qed.

Lemma moves_lineEnd_suffix c : count is_move (lineEnd_suffix c) = 0%nat.
Proof.
  unfold lineEnd_suffix. rewrite count_app.
  destruct (point_state c) as [|[|[|[|k]]]]; destruct (close_cond c && _); reflexivity.
Qed.

Lemma point_state_point c x y : (1 <= point_state (CurveBasis.point c x y))%nat.
Proof. unfold CurveBasis.point. destruct (point_state c) as [|[|[|k]]]; simpl; lia. Qed.

Lemma line_point c x y : line (CurveBasis.point c x y) = line c.
Proof. unfold CurveBasis.point. destruct (point_state c) as [|[|[|k]]]; reflexivity. Qed.

(** [_line] in a line generator: never set by [areaStart], so [undefined]
    and then [1 - undefined], NaN. *)
Definition line_off (l : option num) : Prop := l = None \/ l = Some NaN.

Lemma line_off_one_minus l : line_off l -> line_off (one_minus l).
Proof. intros [-> | ->]; right; reflexivity. Qed.

Lemma line_off_truthy l : line_off l -> line_truthy l = false.
Proof. intros [-> | ->]; reflexivity. Qed.

#[export] Hint Resolve line_off_one_minus point_state_point : ridge.

Lemma closes_point_suffix c x y : count is_close (point_suffix c x y) = 0%nat.
Proof.
  unfold point_suffix. destruct (point_state c) as [|[|[|k]]]; try reflexivity.
  destruct (line_truthy (line c)); reflexivity.
Qed.

Lemma closes_lineEnd_suffix c :
  count is_close (lineEnd_suffix c) =
    if close_cond c && (current (context c) || Nat.eqb (point_state c) 2 || Nat.eqb (point_state c) 3)
    then 1%nat else 0%nat.
Proof.
  unfold lineEnd_suffix. rewrite count_app.
  destruct (point_state c) as [|[|[|[|k]]]]; destruct (close_cond c && _); reflexivity.
Qed.

Lemma start_point c x y : start (context c) = true -> start (context (CurveBasis.point c x y)) = true.
Proof.
  unfold CurveBasis.point. destruct (point_state c) as [|[|[|k]]]; simpl; auto.
  destruct (line_truthy (line c)); simpl; auto.
Qed.

Lemma current_point c x y : current (context c) = true -> current (context (CurveBasis.point c x y)) = true.
Proof.
  unfold CurveBasis.point. destruct (point_state c) as [|[|[|k]]]; simpl; auto.
  destruct (line_truthy (line c)); simpl; auto.
Qed.

Lemma start_lineEnd c : start (context c) = true -> start (context (lineEnd c)) = true.
Proof.
  unfold lineEnd. cbn [context]. intros H.
  destruct (point_state c) as [|[|[|[|k]]]]; destruct (_ || _); unfold closePath; simpl;
    rewrite ?H; try destruct (current (context c)); auto.
Qed.

Lemma current_lineEnd c :
  start (context c) = true -> current (context c) = true -> current (context (lineEnd c)) = true.
Proof.
  unfold lineEnd. cbn [context]. intros H1 H2.
  destruct (point_state c) as [|[|[|[|k]]]]; destruct (_ || _); unfold closePath; simpl;
    rewrite ?H1, ?H2; auto.
Qed.

#[export] Hint Resolve start_point current_point start_lineEnd current_lineEnd : ridge.

Definition fold_points (run : list (num * num)) (c : basis) : basis :=
  fold_left (fun c p => CurveBasis.point c (fst p) (snd p)) run c.

(** The baseline of an area, drawn while [_line] is 1: no [M], no [Z]. *)
Lemma fold_points_truthy run c :
  line_truthy (line c) = true ->
  line (fold_points run c) = line c /\
  count is_move (cmds (context (fold_points run c))) = count is_move (cmds (context c)) /\
  count is_close (cmds (context (fold_points run c))) = count is_close (cmds (context c)) /\
  (start (context c) = true -> start (context (fold_points run c)) = true) /\
  (current (context c) = true -> current (context (fold_points run c)) = true).
Proof.
  unfold fold_points. revert c. induction run as [|[x y] run IH]; intros c Ht; simpl; [auto|].
  destruct (IH (CurveBasis.point c x y)) as (E1 & E2 & E3 & E4 & E5); [rewrite line_point; exact Ht|].
  rewrite E1, E2, E3, line_point, point_cmds, !count_app, moves_point_suffix, closes_point_suffix, Ht.
  repeat split; [cbn [negb]; rewrite andb_false_r; lia|lia| |].
  - intros H. apply E4, start_point, H.
  - intros H. apply E5, current_point, H.
Qed.

(** Closing a run of an area: the baseline back, one [Z], no [M]. *)
Lemma close_run_counts run c :
  line c = Some (nz 0) -> start (context c) = true -> current (context c) = true ->
  line (close_run run c) = Some NaN /\
  count is_move (cmds (context (close_run run c))) = count is_move (cmds (context c)) /\
  count is_close (cmds (context (close_run run c))) = S (count is_close (cmds (context c))) /\
  start (context (close_run run c)) = true.
Proof.
  intros Hl Hs Hc. unfold close_run. fold (fold_points run (lineStart (lineEnd c))).
  set (c1 := lineStart (lineEnd c)).
  assert (line c1 = Some (nz 1 - nz 0)) as Hl1 by (cbn; rewrite Hl; reflexivity).
  destruct (fold_points_truthy run c1) as (E1 & E2 & E3 & E4 & E5); [rewrite Hl1; reflexivity|].
  set (c2 := fold_points run c1) in *.
  assert (start (context c1) = true) as Hs1 by (apply start_lineEnd, Hs).
  assert (current (context c1) = true) as Hc1 by (apply current_lineEnd; assumption).
  assert (close_cond c2 = true) as A1
    by (unfold close_cond; rewrite E1, Hl1; reflexivity).
  assert (close_cond c = false) as A0 by (unfold close_cond; rewrite Hl; reflexivity).
  assert (cmds (context c1) = cmds (context c) ++ lineEnd_suffix c) as B
    by (apply lineEnd_cmds).
  unfold areaEnd, with_line. cbn [line context]. split; [reflexivity|].
  rewrite lineEnd_cmds, !count_app, moves_lineEnd_suffix, closes_lineEnd_suffix, E2, E3, A1, E5
    by exact Hc1.
  rewrite B, !count_app, moves_lineEnd_suffix, closes_lineEnd_suffix, A0. cbn [andb orb].
  repeat split; [lia|lia|]. apply start_lineEnd, E4, Hs1.
Qed.

(** ** The y coordinates of a path *)

Section Bounds.
Variables lo hi : Q.

(** A finite number in [[lo, hi]]. *)
Definition inR (v : num) : Prop := exists q, v = Fin q /\ (lo <= q <= hi)%Q.

Definition cmd_ys (k : cmd) : list num :=
  match k with
  | MoveTo _ y | LineTo _ y => [y]
  | BezierCurveTo _ y1 _ y2 _ y => [y1; y2; y]
  | ClosePath => []
  end.

Definition ys_in (cs : list cmd) : Prop := Forall inR (flat_map cmd_ys cs).

Ltac comb_tac :=
  repeat match goal with H : inR _ |- _ => destruct H as (? & -> & ?) end;
  eexists; split; [reflexivity|]; unfold Qdiv, inject_Z;
  try change (Qinv (3 # 1)) with (1 # 3)%Q; try change (Qinv (6 # 1)) with (1 # 6)%Q; split; lra.

Lemma inR_2_1 a b : inR a -> inR b -> inR ((nz 2 * a + b) / nz 3).
Proof. intros. comb_tac. Qed.

Lemma inR_1_2 a b : inR a -> inR b -> inR ((a + nz 2 * b) / nz 3).
Proof. intros. comb_tac. Qed.

Lemma inR_1_4_1 a b c : inR a -> inR b -> inR c -> inR ((a + nz 4 * b + c) / nz 6).
Proof. intros. comb_tac. Qed.

Lemma inR_5_1 a b : inR a -> inR b -> inR ((nz 5 * a + b) / nz 6).
Proof. intros. comb_tac. Qed.

Definition y_inv (c : basis) : Prop :=
  ys_in (cmds (context c)) /\ ((1 <= point_state c)%nat -> inR (y1 c)) /\
  ((2 <= point_state c)%nat -> inR (y0 c)).

Lemma ys_in_app cs1 cs2 : ys_in (cs1 ++ cs2) <-> ys_in cs1 /\ ys_in cs2.
Proof. unfold ys_in. rewrite flat_map_app. apply Forall_app. Qed.

Lemma ys_in_bez c y : inR (y0 c) -> inR (y1 c) -> inR y -> ys_in [bez_cmd c (x1 c) y].
Proof.
  intros H0 H1 H. repeat constructor; auto using inR_2_1, inR_1_2, inR_1_4_1.
Qed.

Lemma y_inv_point c x y : y_inv c -> inR y -> y_inv (CurveBasis.point c x y).
Proof.
  intros (Hc & H1 & H0) Hy. split; [rewrite point_cmds, ys_in_app; split; [exact Hc|]|].
  - unfold point_suffix. destruct (point_state c) as [|[|[|k]]] eqn:E.
    + destruct (line_truthy (line c)); repeat constructor; exact Hy.
    + constructor.
    + specialize (H1 ltac:(lia)). specialize (H0 ltac:(lia)).
      repeat constructor; auto using inR_2_1, inR_1_2, inR_1_4_1, inR_5_1.
    + specialize (H1 ltac:(lia)). specialize (H0 ltac:(lia)).
      repeat constructor; auto using inR_2_1, inR_1_2, inR_1_4_1.
  - unfold CurveBasis.point. destruct (point_state c) as [|[|[|k]]] eqn:E; cbn;
      split; intros; auto; try lia; apply H1; lia.
Qed.

Lemma y_inv_lineEnd c : y_inv c -> y_inv (lineEnd c).
Proof.
  intros (Hc & H1 & H0). split; [rewrite lineEnd_cmds, ys_in_app; split; [exact Hc|]|].
  - unfold lineEnd_suffix. apply ys_in_app. split; [|destruct (_ && _); repeat constructor].
    destruct (point_state c) as [|[|[|[|k]]]] eqn:E; [constructor|constructor| | |constructor].
    + specialize (H1 ltac:(lia)). repeat constructor; exact H1.
    + specialize (H1 ltac:(lia)). specialize (H0 ltac:(lia)).
      repeat constructor; auto using inR_2_1, inR_1_2, inR_1_4_1.
  - exact (conj H1 H0).
Qed.

Lemma y_inv_lineStart c : y_inv c -> y_inv (lineStart c).
Proof. intros (Hc & _ & _). split; [exact Hc|]. cbn. split; intros; lia. Qed.

Lemma y_inv_with_line c l : y_inv c -> y_inv (with_line c l).
Proof. intros H. exact H. Qed.
End Bounds.

Section Runs.
Context {A : Type}.
Variables (defined : A -> bool) (fx fy0 fy1 : A -> num).

(** The number of maximal runs of defined data after a datum whose
    [defined] was [prev]. *)
Fixpoint runs (prev : bool) (l : list A) : nat :=
  match l with
  | [] => 0
  | d :: r => ((if defined d && negb prev then 1 else 0) + runs (defined d) r)%nat
  end.

Lemma line_loop_moves defined0 l c :
  line_off (line c) -> (defined0 = true -> (1 <= point_state c)%nat) ->
  count is_move (cmds (context (line_loop defined fx fy1 defined0 l c))) =
    (count is_move (cmds (context c)) + runs defined0 l)%nat.
Proof.
  revert defined0 c. induction l as [|d r IH]; intros defined0 c Hl Hp; simpl.
  - destruct defined0; [|lia]. rewrite lineEnd_cmds, count_app, moves_lineEnd_suffix. lia.
  - destruct (defined d) eqn:Ed, defined0; simpl.
    + rewrite IH by (rewrite ?line_point; auto with ridge).
      rewrite point_cmds, count_app, moves_point_suffix.
      destruct (Nat.eqb_spec (point_state c) 0); [specialize (Hp eq_refl); lia|]. simpl. lia.
    + rewrite IH by (rewrite ?line_point; auto with ridge).
      rewrite point_cmds, count_app, moves_point_suffix.
      simpl. rewrite (line_off_truthy _ Hl). simpl. lia.
    + rewrite IH by (simpl; auto with ridge; discriminate).
      rewrite lineEnd_cmds, count_app, moves_lineEnd_suffix. lia.
    + rewrite IH by (auto; discriminate). lia.
Qed.

(** The state of the area's curve between data: inside a run, [_line] is
    0 (the top line is being drawn) and there is a current point; outside
    one, [_line] is [undefined] or NaN. *)
Definition area_inv (defined0 : bool) (c : basis) : Prop :=
  if defined0
  then line c = Some (nz 0) /\ (1 <= point_state c)%nat /\ start (context c) = true /\
       current (context c) = true
  else line_off (line c).

Lemma area_loop_counts defined0 run l c :
  area_inv defined0 c ->
  count is_move (cmds (context (area_loop defined fx fy0 fy1 defined0 run l c))) =
    (count is_move (cmds (context c)) + runs defined0 l)%nat /\
  count is_close (cmds (context (area_loop defined fx fy0 fy1 defined0 run l c))) =
    (count is_close (cmds (context c)) + runs defined0 l + if defined0 then 1 else 0)%nat.
Proof.
  revert defined0 run c. induction l as [|d r IH]; intros defined0 run c Hi; simpl.
  - destruct defined0; [|lia]. destruct Hi as (Hl & _ & Hs & Hc).
    destruct (close_run_counts run c Hl Hs Hc) as (_ & E1 & E2 & _). lia.
  - destruct (defined d) eqn:Ed, defined0; simpl.
    + destruct Hi as (Hl & Hp & Hs & Hc).
      destruct (IH true ((fx d, fy0 d) :: run) (CurveBasis.point c (fx d) (fy1 d))) as [E1 E2].
      { unfold area_inv. rewrite line_point. repeat split; auto with ridge. }
      rewrite E1, E2, point_cmds, !count_app, moves_point_suffix, closes_point_suffix.
      destruct (Nat.eqb_spec (point_state c) 0); [lia|]. simpl. lia.
    + set (c1 := lineStart (areaStart c)).
      destruct (IH true [(fx d, fy0 d)] (CurveBasis.point c1 (fx d) (fy1 d))) as [E1 E2].
      { unfold area_inv. rewrite line_point. repeat split; auto with ridge; unfold CurveBasis.point; reflexivity. }
      rewrite E1, E2, point_cmds, !count_app, moves_point_suffix, closes_point_suffix. simpl. lia.
    + destruct Hi as (Hl & _ & Hs & Hc).
      destruct (close_run_counts run c Hl Hs Hc) as (L & E1 & E2 & _).
      destruct (IH false run (close_run run c)) as [E3 E4]; [right; exact L|]. lia.
    + destruct (IH false run c) as [E3 E4]; [exact Hi|]. lia.
Qed.

Definition path_cmds (o : option (list cmd)) : list cmd := match o with Some cs => cs | None => [] end.

Lemma path_value_cmds c : path_cmds (path_value c) = cmds (context c).
Proof. unfold path_value. destruct (cmds (context c)); reflexivity. Qed.

(** C27: NaN values break the ridge line: the line path has one [moveTo] per
    maximal run of defined values, so every gap starts a new subpath. *)
Theorem line_path_runs l : count is_move (path_cmds (line_path defined fx fy1 l)) = runs false l.
Proof.
  unfold line_path. rewrite path_value_cmds, line_loop_moves; [reflexivity|left; reflexivity|discriminate].
Qed.

(** C9: Every maximal run of defined values is drawn as one closed area: the
    area path has exactly one [moveTo] and one [closePath] per run. *)
Theorem area_path_runs l :
  count is_move (path_cmds (area_path defined fx fy0 fy1 l)) = runs false l /\
  count is_close (path_cmds (area_path defined fx fy0 fy1 l)) = runs false l.
Proof.
  unfold area_path. rewrite path_value_cmds.
  destruct (area_loop_counts false [] l (init empty)) as [E1 E2]; [left; reflexivity|].
  rewrite E1, E2. simpl. lia.
Qed.
End Runs.

Section PathBounds.
Context {A : Type}.
Variables (defined : A -> bool) (fx fy0 fy1 : A -> num) (lo hi : Q).

Lemma fold_points_y_inv run c :
  y_inv lo hi c -> Forall (fun p => inR lo hi (snd p)) run -> y_inv lo hi (fold_points run c).
Proof.
  unfold fold_points. revert c. induction run as [|p run IH]; intros c Hc Hr; simpl; [exact Hc|].
  inversion Hr; subst. apply IH; auto. apply y_inv_point; assumption.
Qed.

Lemma close_run_y_inv run c :
  y_inv lo hi c -> Forall (fun p => inR lo hi (snd p)) run -> y_inv lo hi (close_run run c).
Proof.
  intros Hc Hr. unfold close_run. apply y_inv_with_line, y_inv_lineEnd.
  apply fold_points_y_inv; [|exact Hr]. apply y_inv_lineStart, y_inv_lineEnd, Hc.
Qed.

Lemma line_loop_y_inv defined0 l c :
  y_inv lo hi c -> (forall d, In d l -> defined d = true -> inR lo hi (fy1 d)) ->
  y_inv lo hi (line_loop defined fx fy1 defined0 l c).
Proof.
  revert defined0 c. induction l as [|d r IH]; intros defined0 c Hc Hl; simpl.
  - destruct defined0; [apply y_inv_lineEnd|]; exact Hc.
  - apply IH; [|intros; apply Hl; auto with datatypes].
    destruct (defined d) eqn:Ed; [apply y_inv_point; [|apply Hl; auto with datatypes]|];
      destruct (Bool.eqb _ defined0); auto using y_inv_lineStart, y_inv_lineEnd.
Qed.

Lemma area_loop_y_inv defined0 run l c :
  y_inv lo hi c -> Forall (fun p => inR lo hi (snd p)) run ->
  (forall d, In d l -> defined d = true -> inR lo hi (fy0 d) /\ inR lo hi (fy1 d)) ->
  y_inv lo hi (area_loop defined fx fy0 fy1 defined0 run l c).
Proof.
  revert defined0 run c. induction l as [|d r IH]; intros defined0 run c Hc Hr Hl; simpl.
  - destruct defined0; [apply close_run_y_inv|]; assumption.
  - assert (forall d', In d' r -> defined d' = true -> inR lo hi (fy0 d') /\ inR lo hi (fy1 d'))
      as Hl' by (intros; apply Hl; auto with datatypes).
    destruct (defined d) eqn:Ed, defined0; simpl;
      [| |apply IH; auto using close_run_y_inv|apply IH; auto];
      destruct (Hl d (or_introl eq_refl) Ed) as [H0 H1]; apply IH; auto;
      apply y_inv_point; auto using y_inv_lineStart, y_inv_with_line.
Qed.

(** When every defined datum's [y1] lies in [[lo, hi]], so does every y
    coordinate of the line path, control points included: a B-spline
    segment is a convex combination of its points. *)
Lemma line_path_y_inv l :
  (forall d, In d l -> defined d = true -> inR lo hi (fy1 d)) ->
  ys_in lo hi (path_cmds (line_path defined fx fy1 l)).
Proof.
  intros Hl. unfold line_path. rewrite path_value_cmds.
  apply (line_loop_y_inv false l (init empty)); [|exact Hl].
  split; [constructor|]. cbn. split; intros; lia.
Qed.

Lemma area_path_y_inv l :
  (forall d, In d l -> defined d = true -> inR lo hi (fy0 d) /\ inR lo hi (fy1 d)) ->
  ys_in lo hi (path_cmds (area_path defined fx fy0 fy1 l)).
Proof.
  intros Hl. unfold area_path. rewrite path_value_cmds.
  apply (area_loop_y_inv false [] l (init empty)); [|constructor|exact Hl].
  split; [constructor|]. cbn. split; intros; lia.
Qed.
End PathBounds.

(** ** The commands a path begins with *)

Definition extends (c c' : basis) : Prop := exists suf, cmds (context c') = cmds (context c) ++ suf.

Lemma extends_refl c : extends c c.
Proof. exists []. rewrite app_nil_r. reflexivity. Qed.

Lemma extends_trans c1 c2 c3 : extends c1 c2 -> extends c2 c3 -> extends c1 c3.
Proof. intros [s1 E1] [s2 E2]. exists (s1 ++ s2). rewrite E2, E1, app_assoc. reflexivity. Qed.

Lemma extends_point c x y : extends c (CurveBasis.point c x y).
Proof. eexists. apply point_cmds. Qed.

Lemma extends_lineEnd c : extends c (lineEnd c).
Proof. eexists. apply lineEnd_cmds. Qed.

Lemma extends_same c c' : context c' = context c -> extends c c'.
Proof. intros E. exists []. rewrite E, app_nil_r. reflexivity. Qed.

#[export] Hint Resolve extends_refl extends_point extends_lineEnd : ridge.

Lemma extends_fold_points run c : extends c (fold_points run c).
Proof.
  unfold fold_points. revert c. induction run as [|p run IH]; intros c; simpl; [auto with ridge|].
  eapply extends_trans; [apply extends_point|apply IH].
Qed.

Lemma extends_close_run run c : extends c (close_run run c).
Proof.
  set (c1 := fold_points run (lineStart (lineEnd c))).
  apply (extends_trans _ (lineEnd c)); [apply extends_lineEnd|].
  apply (extends_trans _ (lineStart (lineEnd c))); [apply extends_same; reflexivity|].
  apply (extends_trans _ c1); [apply extends_fold_points|].
  apply (extends_trans _ (lineEnd c1)); [apply extends_lineEnd|].
  apply extends_same. reflexivity.
Qed.

Section Starts.
Context {A : Type}.
Variables (defined : A -> bool) (fx fy0 fy1 : A -> num).

Lemma extends_line_loop defined0 l c : extends c (line_loop defined fx fy1 defined0 l c).
Proof.
  revert defined0 c. induction l as [|d r IH]; intros defined0 c; simpl.
  - destruct defined0; auto with ridge.
  - eapply extends_trans; [|apply IH].
    destruct (defined d), (Bool.eqb _ defined0);
      try (eapply extends_trans; [|apply extends_point]); auto with ridge;
      apply extends_same; reflexivity.
Qed.

Lemma extends_area_loop defined0 run l c : extends c (area_loop defined fx fy0 fy1 defined0 run l c).
Proof.
  revert defined0 run c. induction l as [|d r IH]; intros defined0 run c; simpl.
  - destruct defined0; [apply extends_close_run|apply extends_refl].
  - destruct (defined d), (Bool.eqb _ defined0); simpl; (eapply extends_trans; [|apply IH]);
      try (eapply extends_trans; [|apply extends_point]);
      auto using extends_close_run, extends_refl; apply extends_same; reflexivity.
Qed.

(** Until the first defined datum the generators do nothing; at it, they
    [moveTo] its point. *)
Lemma generators_first l :
  (find defined l = None ->
     cmds (context (line_loop defined fx fy1 false l (init empty))) = [] /\
     cmds (context (area_loop defined fx fy0 fy1 false [] l (init empty))) = []) /\
  (forall d, find defined l = Some d ->
     (exists r, cmds (context (line_loop defined fx fy1 false l (init empty))) = MoveTo (fx d) (fy1 d) :: r) /\
     (exists r, cmds (context (area_loop defined fx fy0 fy1 false [] l (init empty))) =
                  MoveTo (fx d) (fy1 d) :: r)).
Proof.
  induction l as [|d0 r IH]; simpl; [split; [auto|discriminate]|].
  destruct (defined d0) eqn:Ed; simpl.
  - split; [discriminate|]. intros d E. injection E as <-. split.
    + destruct (extends_line_loop true r (CurveBasis.point (lineStart (init empty)) (fx d0) (fy1 d0)))
        as [suf ->]. eexists. reflexivity.
    + destruct (extends_area_loop true [(fx d0, fy0 d0)] r
                  (CurveBasis.point (lineStart (areaStart (init empty))) (fx d0) (fy1 d0))) as [suf ->].
      eexists. reflexivity.
  - exact IH.
Qed.

(** C28: The [d] attributes are well-formed SVG path data: with no defined
    datum both generators return [null] (the attribute is removed);
    otherwise both paths begin with a [moveTo] to the first defined
    datum's point [(x, y1)]. *)
Theorem paths_start_with_move l :
  (find defined l = None -> line_path defined fx fy1 l = None /\ area_path defined fx fy0 fy1 l = None) /\
  (forall d, find defined l = Some d ->
     exists r1 r2, line_path defined fx fy1 l = Some (MoveTo (fx d) (fy1 d) :: r1) /\
                   area_path defined fx fy0 fy1 l = Some (MoveTo (fx d) (fy1 d) :: r2)).
Proof.
  destruct (generators_first l) as [H1 H2]. unfold line_path, area_path, path_value. split.
  - intros E. destruct (H1 E) as [-> ->]. auto.
  - intros d E. destruct (H2 d E) as [[r1 ->] [r2 ->]]. eauto.
Qed.
(** C38: A run of one defined record is drawn as a closed point: the line
    is [M x,y Z] (curveBasis' [lineEnd] closes a one-point line, whose
    [_line] is NaN outside an area), and the area is the zero-width
    [M x,y1 L x,y0 Z], contrary to the open line the specification
    describes. *)
Theorem single_point_paths d :
  defined d = true ->
  line_path defined fx fy1 [d] = Some [MoveTo (fx d) (fy1 d); ClosePath] /\
  area_path defined fx fy0 fy1 [d] = Some [MoveTo (fx d) (fy1 d); LineTo (fx d) (fy0 d); ClosePath].
Proof. intros H; unfold line_path, area_path; cbn; rewrite H; split; reflexivity. Qed.

End Starts.

Lemma single_point_paths_witness :
  line_path (fun v : num => negb (isNaN v)) (fun v => v) (fun v => v) [nz 3]
    = Some [MoveTo (nz 3) (nz 3); ClosePath] /\
  area_path (fun v : num => negb (isNaN v)) (fun v => v) (fun _ => nz 0) (fun v => v) [nz 3]
    = Some [MoveTo (nz 3) (nz 3); LineTo (nz 3) (nz 0); ClosePath].
Proof.
  apply (single_point_paths (fun v : num => negb (isNaN v)) (fun v => v) (fun _ => nz 0) (fun v => v) (nz 3)).
  reflexivity.
Defined.
End ShapeFacts.

Module ShapeExamples.
Import D3Path CurveBasis D3Shape ShapeFacts.

(** Points [(x, y)], the y of the third one NaN (a gap). *)
Definition gap_points : list (num * num) :=
  [(nz 0, nz 1); (nz 1, nz 2); (nz 2, NaN); (nz 3, nz 3); (nz 4, nz 5); (nz 5, nz 6)].

Definition has_y (p : num * num) : bool := negb (isNaN (snd p)).

(** The line breaks at the gap: a two-point run drawn as a segment, then
    a three-point B-spline that starts with a line to [(5 p0 + p1) / 6],
    runs through two cubic segments and ends with a line to its last
    point, as d3's [curveBasis] draws them. *)
Example basis_line_gap :
  cmds_beq (path_cmds (line_path has_y fst snd gap_points))
    [MoveTo (nz 0) (nz 1); LineTo (nz 1) (nz 2);
     MoveTo (nz 3) (nz 3); LineTo (Fin (19 # 6)) (Fin (10 # 3));
     BezierCurveTo (Fin (10 # 3)) (Fin (11 # 3)) (Fin (11 # 3)) (Fin (13 # 3)) (nz 4) (Fin (29 # 6));
     BezierCurveTo (Fin (13 # 3)) (Fin (16 # 3)) (Fin (14 # 3)) (Fin (17 # 3)) (Fin (29 # 6)) (Fin (35 # 6));
     LineTo (nz 5) (nz 6)] = true.
Proof. vm_compute. reflexivity. Qed.

Lemma paths_start_with_move_witness :
  exists r1 r2, line_path has_y fst snd gap_points = Some (MoveTo (nz 0) (nz 1) :: r1) /\
                area_path has_y fst (fun _ => nz 0) snd gap_points = Some (MoveTo (nz 0) (nz 1) :: r2).
Proof. apply (proj2 (paths_start_with_move has_y fst (fun _ => nz 0) snd gap_points) (nz 0, nz 1)). reflexivity. Defined.
End ShapeExamples.
