(* ===== verification/Chart.v ===== *)
(** The "Setup" and "Render" blocks of src/main.js (lines 22-164): the
    geometry constants, the chart's size from the number of series, the x
    scale (UTC, over the first and last date of the first series), the y
    scale (linear, from [0, max value] to [0, -yRangeMax]), the colour
    domain spread evenly between the smallest and the largest sum, the
    colour scale, and the attributes of the containers and of every series'
    group: its [translate], label, fill and the two edge lines.

    [setup] fails with a [TypeError] when there is no series: the script
    reads [data[0].values] (line 41).  The width of the SVG element
    ([svg.node().clientWidth], line 32) is an input of the model.  The
    axes' tick marks (d3-axis) and the paths of the area and line
    generators (d3-shape) are not modelled here. *)

From Stdlib Require Import QArith Qround Qminmax Lqa ZArith String List Lia.
From S2P Require Import Prelude JsNum NumParse ArraySort D3Array Nest Process Scale Color Shape.
Import ListNotations.
Open Scope num_scope.

Module Chart.
Import Process Continuous D3Color NumberToString D3Path D3Shape.

Inductive js_error : Type := TypeError (message : string).

(** [String(v)] of the numbers the script prints: integers, NaN and the
    infinities ([None] for the other finite numbers, not modelled). *)
Definition number_to_string (v : num) : option string :=
  match v with
  | NaN => Some "NaN"%string
  | PosInf => Some "Infinity"%string
  | NegInf => Some "-Infinity"%string
  | Fin q => if Qeq_bool q (inject_Z (Qfloor q)) then Some (Z_to_string (Qfloor q)) else None
  end.

(** [`translate(${a},${b})`] *)
Definition translate (a b : num) : option string :=
  match number_to_string a, number_to_string b with
  | Some sa, Some sb => Some ("translate(" ++ sa ++ "," ++ sb ++ ")")%string
  | _, _ => None
  end.

(** [const step = 15; const yRangeMax = 75;] *)
Definition step : num := nz 15.
Definition yRangeMax : num := nz 75.

Record Margin : Type := { top : num; right : num; bottom : num; left : num }.

(** [const margin = {top: 0, right: 16, bottom: 32, left: 112}] *)
Definition margin : Margin := {| top := nz 0; right := nz 16; bottom := nz 32; left := nz 112 |}.

(** [const colorRange = ["#FA6", "#D65", "#936", "#525"]] *)
Definition colorRange : list string := ["#FA6"; "#D65"; "#936"; "#525"]%string.

Record Setup : Type := {
  svgWidth : num;
  width : num;
  height : num;
  svgHeight : num;
  x_domain : list num;
  x_range : list num;
  y_domain : list num;
  y_range : list num;
  colorDomain : list num
}.

(** [d3.max(data, d => d3.max(d.values, d => d.value))] *)
Definition max_value (data : list Series) : option num :=
  d3_max (fun d => d3_max (fun v => Some (value v)) (values d)) data.

(** [+v] of a number or [undefined]. *)
Definition number_of (v : option num) : num := match v with Some n => n | None => NaN end.

(** Lines 32-62: what the setup computes from [data] and the element's
    width; [data[0].values[0]] of an empty [data] throws. *)
Definition setup (data : list Series) (clientWidth : num) : js_error + Setup :=
  match data with
  | [] => inl (TypeError "Cannot read property 'values' of undefined")
  | d0 :: _ =>
      match values d0 with
      | [] => inl (TypeError "Cannot read property 'date' of undefined")
      | v0 :: _ =>
          let width := clientWidth - left margin - right margin in
          let height := (nz (Z.of_nat (length data)) - nz 1) * step + yRangeMax in
          let dlast := last data d0 in
          inr {| svgWidth := clientWidth;
                 width := width;
                 height := height;
                 svgHeight := height + top margin + bottom margin;
                 x_domain := [date v0; date (last (values d0) v0)];
                 x_range := [nz 0; width];
                 y_domain := [nz 0; number_of (max_value data)];
                 y_range := [nz 0; neg yRangeMax];
                 colorDomain :=
                   map (fun d => sum dlast -
                                 ((sum dlast - sum d0) / (nz (Z.of_nat (length colorRange)) - nz 1)) * d)
                       (d3_range (length colorRange)) |}
      end
  end.

(** [x], [y] and [color] of a setup. *)
Definition x (st : Setup) : num -> option num := scale_utc (x_domain st) (x_range st).
Definition y (st : Setup) : num -> option num := scale_linear (y_domain st) (y_range st).
Definition color (st : Setup) : num -> option (option string) :=
  apply interpolate_value ""%string (colorDomain st) colorRange.

(** The path generators (lines 86-95): [area] with [.defined(d =>
    !isNaN(d.value))], [.x(d => x(d.date))], [.y0(0)], [.y1(d => y(d.value))]
    and [curveBasis]; [line = area.lineY1()], which keeps [defined], the
    curve, [x] and [y1].  [+x(...)] of [undefined] is NaN. *)
Definition defined (d : Datum) : bool := negb (isNaN (value d)).
Definition area (st : Setup) (vs : list Datum) : option (list cmd) :=
  area_path defined (fun d => number_of (x st (date d))) (fun _ => nz 0)
            (fun d => number_of (y st (value d))) vs.
Definition line (st : Setup) (vs : list Datum) : option (list cmd) :=
  line_path defined (fun d => number_of (x st (date d))) (fun d => number_of (y st (value d))) vs.

(** The attributes of one series' group (lines 121-164). *)
Record GroupView : Type := {
  transform : option string;         (* translate(0, i * step + yRangeMax) *)
  label : string;                    (* text(d => d.key) *)
  fill : option (option string);     (* color(d.sum) *)
  area_d : option (list cmd);        (* attr("d", d => area(d.values)) *)
  line_d : option (list cmd);        (* attr("d", d => line(d.values)) *)
  left_edge : num * num * num * option num;    (* x1, y1, x2, y2 *)
  right_edge : num * num * num * option num
}.

Definition render_group (st : Setup) (i : nat) (d : Series) : js_error + GroupView :=
  match values d with
  | [] => inl (TypeError "Cannot read property 'value' of undefined")
  | v0 :: _ =>
      inr {| transform := translate (nz 0) (nz (Z.of_nat i) * step + yRangeMax);
             label := key d;
             fill := color st (sum d);
             area_d := area st (values d);
             line_d := line st (values d);
             left_edge := (nth 0 (x_range st) NaN, nth 0 (y_range st) NaN,
                           nth 0 (x_range st) NaN, y st (value v0));
             right_edge := (nth 1 (x_range st) NaN, nth 0 (y_range st) NaN,
                            nth 1 (x_range st) NaN, y st (value (last (values d) v0))) |}
  end.

Record View : Type := {
  viewBox : option string;            (* `0 0 ${svgWidth} ${svgHeight}` *)
  g_transform : option string;        (* translate(margin.left, margin.top) *)
  axis_transform : option string;     (* translate(0, height) *)
  y_axis_opacity : num;               (* style("opacity", 0) *)
  groups : list GroupView
}.

Fixpoint render_groups (st : Setup) (i : nat) (data : list Series) : js_error + list GroupView :=
  match data with
  | [] => inr []
  | d :: rest =>
      match render_group st i d, render_groups st (i + 1)%nat rest with
      | inr gv, inr gvs => inr (gv :: gvs)
      | inl e, _ | _, inl e => inl e
      end
  end.

Definition render (data : list Series) (clientWidth : num) : js_error + View :=
  match setup data clientWidth with
  | inl e => inl e
  | inr st =>
      match render_groups st 0 data with
      | inl e => inl e
      | inr gvs =>
          inr {| viewBox := match number_to_string (svgWidth st), number_to_string (svgHeight st) with
                            | Some a, Some b => Some ("0 0 " ++ a ++ " " ++ b)%string
                            | _, _ => None
                            end;
                 g_transform := translate (left margin) (top margin);
                 axis_transform := translate (nz 0) (height st);
                 y_axis_opacity := nz 0;
                 groups := gvs |}
      end
  end.

End Chart.

Module ChartFacts.
Import Process ProcessFacts Continuous ContinuousFacts D3Color D3ColorFacts NumberToString Chart
  D3Path D3Shape ShapeFacts.

Lemma number_to_string_int q z : (q == inject_Z z)%Q -> number_to_string (Fin q) = Some (Z_to_string z).
Proof.
  intros H. unfold number_to_string.
  assert (Qfloor q = z) as E by (rewrite (Qfloor_comp _ _ H); apply Qfloor_Z).
  rewrite E. destruct (Qeq_bool q (inject_Z z)) eqn:B; [reflexivity|].
  apply Qeq_bool_neq in B. contradiction.
Qed.

Lemma translate_int a b za zb :
  a ≈ nz za -> b ≈ nz zb ->
  translate a b = Some ("translate(" ++ Z_to_string za ++ "," ++ Z_to_string zb ++ ")")%string.
Proof.
  intros Ha Hb. destruct a as [| | |qa]; try contradiction. destruct b as [| | |qb]; try contradiction.
  unfold translate. rewrite (number_to_string_int qa za Ha), (number_to_string_int qb zb Hb).
  reflexivity.
Qed.

Lemma baseline_int (k : Z) : nz k * step + yRangeMax ≈ nz (15 * k + 75).
Proof. unfold step, yRangeMax. rewrite mul_nz, add_nz, (Z.mul_comm k 15). reflexivity. Qed.

Lemma render_groups_spec st i data gvs :
  render_groups st i data = inr gvs ->
  length gvs = length data /\
  forall k gv, nth_error gvs k = Some gv ->
    transform gv = translate (nz 0) (nz (Z.of_nat (i + k)) * step + yRangeMax).
Proof.
  revert i gvs. induction data as [|d rest IH]; intros i gvs H; simpl in H.
  - injection H as <-. split; [reflexivity|]. intros [|k] gv Hk; discriminate.
  - destruct (render_group st i d) as [e|gv] eqn:Eg; [discriminate|].
    destruct (render_groups st (i + 1)%nat rest) as [e|gvs'] eqn:Er; [discriminate|].
    injection H as <-. destruct (IH _ _ Er) as [HL HT]. split; [simpl; lia|].
    intros [|k] gv' Hk; simpl in Hk.
    + injection Hk as <-. unfold render_group in Eg.
      destruct (values d); [discriminate|]. injection Eg as <-. simpl. rewrite Nat.add_0_r. reflexivity.
    + rewrite (HT k gv' Hk). replace (i + S k)%nat with (i + 1 + k)%nat by lia. reflexivity.
Qed.

Lemma setup_height data w st :
  setup data w = inr st -> height st ≈ nz (15 * (Z.of_nat (length data) - 1) + 75).
Proof.
  unfold setup. destruct data as [|d0 rest]; [discriminate|].
  destruct (values d0); [discriminate|]. intros H. injection H as <-. cbn [height].
  set (n := Z.of_nat (length (d0 :: rest))).
  rewrite <- (baseline_int (n - 1)), <- (sub_nz n 1). reflexivity.
Qed.

(** C7: The render's geometry: group [k] is translated to [k * step + yRangeMax]
    and the x axis to [height], the baseline of the last group. *)
Theorem render_geometry data w v :
  render data w = inr v ->
  length (groups v) = length data /\
  (forall k gv, nth_error (groups v) k = Some gv ->
     transform gv = Some ("translate(0," ++ Z_to_string (15 * Z.of_nat k + 75) ++ ")")%string) /\
  axis_transform v =
    Some ("translate(0," ++ Z_to_string (15 * (Z.of_nat (length data) - 1) + 75) ++ ")")%string.
Proof.
  unfold render. destruct (setup data w) as [e|st] eqn:Es; [discriminate|].
  destruct (render_groups st 0 data) as [e|gvs] eqn:Eg; [discriminate|].
  intros H. injection H as <-. cbn [groups axis_transform].
  destruct (render_groups_spec _ _ _ _ Eg) as [HL HT]. repeat split; [exact HL| |].
  - intros k gv Hk. rewrite (HT k gv Hk). apply (translate_int _ _ 0); [reflexivity|]. apply baseline_int.
  - apply (translate_int _ _ 0); [reflexivity|]. apply (setup_height _ _ _ Es).
Qed.

(** The colour domain: four stops from the last series' sum to the first's. *)
Lemma colorDomain_setup d0 rest w st s0 sl :
  setup (d0 :: rest) w = inr st -> sum d0 = Fin s0 -> sum (last (d0 :: rest) d0) = Fin sl ->
  exists e0 e1 e2 e3, colorDomain st = [Fin e0; Fin e1; Fin e2; Fin e3] /\
    (e0 == sl)%Q /\ (e1 == (2 # 3) * sl + (1 # 3) * s0)%Q /\ (e2 == (1 # 3) * sl + (2 # 3) * s0)%Q /\
    (e3 == s0)%Q.
Proof.
  unfold setup. destruct (values d0); [discriminate|]. intros H E0 El. injection H as <-.
  cbn [colorDomain]. cbn [last] in El. rewrite E0, El. do 4 eexists. split; [reflexivity|].
  unfold inject_Z. repeat split; field.
Qed.

Lemma color_segment e0 e1 e2 e3 x :
  (e0 < e1 < e2)%Q -> (e2 <= e3)%Q ->
  apply interpolate_value ""%string [Fin e0; Fin e1; Fin e2; Fin e3] colorRange (Fin x) =
    Some (if Qlt_le_dec x e2 then
            if Qlt_le_dec x e1 then interpolate_rgb "#FA6" "#D65" (normalize (Fin e0) (Fin e1) (Fin x))
            else interpolate_rgb "#D65" "#936" (normalize (Fin e1) (Fin e2) (Fin x))
          else interpolate_rgb "#936" "#525" (normalize (Fin e2) (Fin e3) (Fin x)))%string.
Proof.
  intros H12 H23. unfold apply, piecewise, polymap, colorRange.
  cbn -[bisect_right ltb interpolate_rgb normalize bisect_mid].
  rewrite ltb_Fin_false by lra. rewrite bisect_right_step by lia.
  change (bisect_mid 1 3) with 2%nat. cbn [nth].
  destruct (Qlt_le_dec x e2) as [Hx2|Hx2].
  - rewrite ltb_Fin_true by exact Hx2. rewrite bisect_right_step by lia.
    change (bisect_mid 1 2) with 1%nat. cbn [nth].
    destruct (Qlt_le_dec x e1) as [Hx1|Hx1].
    + rewrite ltb_Fin_true by exact Hx1. rewrite bisect_right_stop by lia. reflexivity.
    + rewrite ltb_Fin_false by exact Hx1. rewrite bisect_right_stop by lia. reflexivity.
  - rewrite ltb_Fin_false by exact Hx2. rewrite bisect_right_stop by lia. reflexivity.
Qed.

Lemma normalize_at_end a c x : (a < c)%Q -> (x == c)%Q -> normalize (Fin a) (Fin c) (Fin x) ≈ nz 1.
Proof.
  intros H E. rewrite normalize_fin by (intros F; lra). simpl. rewrite E. unfold inject_Z. field. lra.
Qed.

Lemma normalize_at_start a c x : (a < c)%Q -> (x == a)%Q -> normalize (Fin a) (Fin c) (Fin x) ≈ nz 0.
Proof.
  intros H E. rewrite normalize_fin by (intros F; lra). simpl. rewrite E. unfold inject_Z. field. lra.
Qed.

Lemma color_last_segment e0 e1 e2 e3 x :
  (e0 <= e3)%Q -> (e2 <= x)%Q ->
  apply interpolate_value ""%string [Fin e0; Fin e1; Fin e2; Fin e3] colorRange (Fin x) =
    Some (interpolate_rgb "#936" "#525" (normalize (Fin e2) (Fin e3) (Fin x))).
Proof.
  intros H03 Hx. unfold apply, piecewise, polymap, colorRange.
  cbn -[bisect_right ltb interpolate_rgb normalize bisect_mid].
  rewrite ltb_Fin_false by lra. rewrite bisect_right_step by lia.
  change (bisect_mid 1 3) with 2%nat. cbn [nth].
  rewrite ltb_Fin_false by exact Hx. rewrite bisect_right_stop by lia. reflexivity.
Qed.

(** C25: When the first and the last series' sums differ, the series with the
    largest sum (the first) is filled with the last colour of the range,
    ["#525"], and the one with the smallest sum with the first, ["#FA6"]. *)
Theorem color_extremes d0 rest w st s0 sl :
  setup (d0 :: rest) w = inr st -> sum d0 = Fin s0 -> sum (last (d0 :: rest) d0) = Fin sl ->
  (sl < s0)%Q ->
  color st (sum d0) = Some (Some "rgb(85, 34, 85)"%string) /\
  color st (sum (last (d0 :: rest) d0)) = Some (Some "rgb(255, 170, 102)"%string).
Proof.
  intros Hs E0 El Hlt.
  destruct (colorDomain_setup _ _ _ _ _ _ Hs E0 El) as (e0 & e1 & e2 & e3 & Ed & H0 & H1 & H2 & H3).
  unfold color. rewrite Ed, E0, El. split.
  - rewrite color_last_segment by lra. rewrite (normalize_at_end e2 e3 s0) by lra.
    vm_compute. reflexivity.
  - rewrite color_segment by lra.
    destruct (Qlt_le_dec sl e2) as [_|]; [|lra]. destruct (Qlt_le_dec sl e1) as [_|]; [|lra].
    rewrite (normalize_at_start e0 e1 sl) by lra. vm_compute. reflexivity.
Qed.

(** C35: When the first and the last series have the same sum, every series of
    that sum gets the same fill, the middle of ["#936"] and ["#525"]: the
    palette's ends are never used (src/main.js lines 52-62). *)
Theorem color_ties d0 rest w st s x :
  setup (d0 :: rest) w = inr st -> sum d0 = Fin s -> sum (last (d0 :: rest) d0) = Fin s ->
  (x == s)%Q -> color st (Fin x) = Some (Some "rgb(119, 43, 94)"%string).
Proof.
  intros Hs E0 El Hx.
  destruct (colorDomain_setup _ _ _ _ _ _ Hs E0 El) as (e0 & e1 & e2 & e3 & Ed & H0 & H1 & H2 & H3).
  unfold color. rewrite Ed. rewrite color_last_segment by lra.
  rewrite normalize_eq by lra. vm_compute. reflexivity.
Qed.

(** The values the y scale is drawn for: finite and not negative. *)
Definition plottable (data : list Series) : bool :=
  forallb (fun d => forallb (fun v => leb (nz 0) (value v) && negb (is_infinite (value v))) (values d)) data.

Lemma plottable_value data d v :
  plottable data = true -> In d data -> In v (values d) ->
  exists q, value v = Fin q /\ (0 <= q)%Q.
Proof.
  unfold plottable. rewrite forallb_forall. intros H Hd Hv.
  specialize (H d Hd). rewrite forallb_forall in H. specialize (H v Hv).
  apply andb_true_iff in H as [H1 H2]. destruct (value v) as [| | |q]; try discriminate.
  exists q. split; [reflexivity|]. change (nz 0) with (Fin 0) in H1. rewrite leb_Fin in H1.
  apply Qle_bool_iff in H1. exact H1.
Qed.

Lemma max_value_bound data d v q :
  plottable data = true -> In d data -> In v (values d) -> value v = Fin q ->
  exists m, max_value data = Some (Fin m) /\ (q <= m)%Q /\ (0 <= m)%Q.
Proof.
  intros Hp Hd Hv Eq. unfold max_value.
  set (inner := fun d => d3_max (fun v => Some (value v)) (values d)).
  pose proof (d3_max_spec (fun v => Some (value v)) (values d)) as Hin.
  destruct (d3_max (fun v => Some (value v)) (values d)) as [ms|] eqn:Ems;
    [|specialize (Hin v (value v) Hv eq_refl); rewrite Eq in Hin; discriminate].
  destruct Hin as (Hms & _ & Hle). specialize (Hle v (value v) Hv eq_refl). rewrite Eq in Hle.
  pose proof (d3_max_spec inner data) as Hout. fold inner.
  destruct (d3_max inner data) as [M|] eqn:EM;
    [|specialize (Hout d ms Hd Ems); rewrite Hms in Hout; discriminate].
  destruct Hout as (_ & (d' & Hd' & Ed') & HleM). specialize (HleM d ms Hd Ems Hms).
  pose proof (d3_max_spec (fun v => Some (value v)) (values d')) as Hin'. unfold inner in Ed'.
  rewrite Ed' in Hin'. destruct Hin' as (_ & (v' & Hv' & Ev') & _). injection Ev' as Ev'.
  destruct (plottable_value data d' v' Hp Hd' Hv') as (m & Em & Hm). rewrite Em in Ev'. subst M.
  exists m. repeat split; [|exact Hm].
  pose proof (leb_trans _ _ _ (Hle eq_refl) HleM) as L. rewrite leb_Fin in L.
  apply Qle_bool_iff in L. exact L.
Qed.

Lemma setup_y data w st :
  setup data w = inr st ->
  y st = scale_linear [nz 0; number_of (max_value data)] [nz 0; neg yRangeMax].
Proof.
  unfold setup, y. destruct data as [|d0 rest]; [discriminate|].
  destruct (values d0); [discriminate|]. intros H. injection H as <-. reflexivity.
Qed.

Lemma y_in_band data w st d v :
  setup data w = inr st -> plottable data = true -> In d data -> In v (values d) ->
  exists q, y st (value v) = Some (Fin q) /\ (-75 <= q <= 0)%Q.
Proof.
  intros Hs Hp Hd Hv. rewrite (setup_y _ _ _ Hs).
  destruct (plottable_value data d v Hp Hd Hv) as (qv & Ev & Hqv). rewrite Ev.
  destruct (max_value_bound data d v qv Hp Hd Hv Ev) as (m & Em & Hle & Hm). rewrite Em.
  destruct (scale_linear_within 0 m 0 (- 75) qv) as (q & Eq & Hq); [exact Hm|split; assumption|].
  exists q. split; [exact Eq|]. rewrite Q.min_r, Q.max_l in Hq by lra. exact Hq.
Qed.

(** C12: Every value of a chart whose values are finite and not negative is
    drawn between its series' baseline and [yRangeMax] above it: the y
    scale maps it into [[-75, 0]]. *)
Theorem y_bounds data w st d v :
  setup data w = inr st -> plottable data = true -> In d data -> In v (values d) ->
  exists q, y st (value v) = Some (Fin q) /\ (-75 <= q <= 0)%Q.
Proof. apply y_in_band. Qed.

(** C37: A chart whose largest value is 0 (every value 0, an empty cell
    counting as 0) has the degenerate y domain [[0, 0]]; d3-scale 2.2
    maps every number to the middle of the range, so every point is drawn
    at [y = -37.5], half-way up the band, not on the baseline. *)
Theorem y_all_zero data w st m t :
  setup data w = inr st -> max_value data = Some (Fin m) -> (m == 0)%Q ->
  exists q, y st (Fin t) = Some (Fin q) /\ (q == -75 # 2)%Q.
Proof.
  intros Hs Hm Hz; rewrite (setup_y _ _ _ Hs), Hm; cbn [number_of].
  unfold scale_linear, apply, piecewise, bimap; cbn [isNaN nth length Nat.min Nat.ltb].
  unfold ltb, nz; cbn [num_compare].
  replace (m ?= inject_Z 0)%Q with Eq by (symmetry; apply Qeq_alt; rewrite Hz; reflexivity).
  cbv beta iota; cbn [Nat.ltb Nat.leb]; rewrite normalize_eq by (rewrite Hz; reflexivity).
  eexists; split; [reflexivity|]; vm_compute; reflexivity.
Qed.

(** C8: The ridge stays in its band: for a chart whose values are finite and
    not negative, every y coordinate of a series' area and line paths,
    the B-spline control points and the baseline included, lies in
    [[-yRangeMax, 0]], so no ridge rises more than [yRangeMax] above its
    baseline or falls below it. *)
Theorem ridge_in_band data w st d :
  setup data w = inr st -> plottable data = true -> In d data ->
  ys_in (-75) 0 (path_cmds (area st (values d))) /\ ys_in (-75) 0 (path_cmds (line st (values d))).
Proof.
  intros Hs Hp Hd.
  assert (forall v, In v (values d) -> inR (-75) 0 (number_of (y st (value v)))) as Hy.
  { intros v Hv. destruct (y_in_band data w st d v Hs Hp Hd Hv) as (q & -> & Hq). exists q. auto. }
  split.
  - apply area_path_y_inv. intros v Hv _. split; [exists 0%Q; split; [reflexivity|lra]|auto].
  - apply line_path_y_inv. intros v Hv _. auto.
Qed.

Lemma render_groups_ok st i l :
  (forall d, In d l -> values d <> []) -> exists gvs, render_groups st i l = inr gvs.
Proof.
  revert i. induction l as [|d l IH]; intros i H; simpl; [eauto|].
  destruct (IH (i + 1)%nat) as [gvs Eg]; [intros; apply H; right; assumption|]. rewrite Eg.
  unfold render_group. destruct (values d) eqn:Ev; [exfalso; apply (H d); [left|]; auto|].
  eexists; reflexivity.
Qed.

Lemma setup_ok d0 rest w : values d0 <> [] -> exists st, setup (d0 :: rest) w = inr st.
Proof. intros H. unfold setup. destruct (values d0); [contradiction|]. eauto. Qed.

(** C18: The script fails exactly on an empty CSV file: [data[0]] is then
    [undefined] and reading its [values] throws a [TypeError]; every
    non-empty file is rendered. *)
Theorem render_data_error csv w :
  (exists e, render (data csv) w = inl e) <-> csv = [].
Proof.
  split.
  - intros [e He]. destruct csv as [|r csv]; [reflexivity|exfalso].
    destruct (data (r :: csv)) as [|d0 rest] eqn:Ed; [apply data_nil in Ed; discriminate|].
    assert (forall d, In d (d0 :: rest) -> values d <> []) as Hne
      by (rewrite <- Ed; apply data_values_nonempty).
    destruct (setup_ok d0 rest w) as [st Hs]; [apply Hne; left; reflexivity|].
    destruct (render_groups_ok st 0 (d0 :: rest) Hne) as [gvs Hg].
    unfold render in He. rewrite Hs, Hg in He. discriminate.
  - intros ->. eexists. reflexivity.
Qed.
End ChartFacts.

Module ChartExamples.
Import Process ProcessFacts ProcessExamples Chart ChartFacts D3Path D3Shape ShapeFacts.
Open Scope string_scope.

Definition empty_setup : Setup :=
  {| svgWidth := NaN; width := NaN; height := NaN; svgHeight := NaN; x_domain := [];
     x_range := []; y_domain := []; y_range := []; colorDomain := [] |}.

Definition setup_or_empty (data : list Series) (w : num) : Setup :=
  match setup data w with inr st => st | inl _ => empty_setup end.

Definition empty_view : View :=
  {| viewBox := None; g_transform := None; axis_transform := None; y_axis_opacity := NaN; groups := [] |}.

Definition view_or_empty (r : js_error + View) : View :=
  match r with inr v => v | inl _ => empty_view end.

(** Series B (dates 1 and 2, sum 20) and series A (date 0, sum 1). *)
Definition late_rows : list Row :=
  [ [("name", "B"); ("date", "1"); ("total_1", "10"); ("total_2", "0")];
    [("name", "A"); ("date", "0"); ("total_1", "1"); ("total_2", "0")];
    [("name", "B"); ("date", "2"); ("total_1", "10"); ("total_2", "0")] ].

(** One series whose values are all zero. *)
Definition zero_rows : list Row :=
  [ [("name", "A"); ("date", "0"); ("total_1", "0"); ("total_2", "0")];
    [("name", "A"); ("date", "1"); ("total_1", ""); ("total_2", "0")] ].

(** The example of the specification on an 800-pixel-wide element. *)
Example spec_render :
  match render (data spec_rows) (nz 800) with
  | inr v => Some (viewBox v, g_transform v, axis_transform v, map transform (groups v), map fill (groups v))
  | inl _ => None
  end =
  Some (Some "0 0 800 122", Some "translate(112,0)", Some "translate(0,90)",
        [Some "translate(0,75)"; Some "translate(0,90)"],
        [Some (Some "rgb(119, 43, 94)"); Some (Some "rgb(119, 43, 94)")]).
Proof. vm_compute. reflexivity. Qed.

Lemma render_geometry_witness :
  render (data spec_rows) (nz 800) = inr (view_or_empty (render (data spec_rows) (nz 800))) /\
  (length (groups (view_or_empty (render (data spec_rows) (nz 800)))) = length (data spec_rows) /\
  (forall k gv, nth_error (groups (view_or_empty (render (data spec_rows) (nz 800)))) k = Some gv ->
     transform gv = Some ("translate(0," ++ NumberToString.Z_to_string (15 * Z.of_nat k + 75) ++ ")")) /\
  axis_transform (view_or_empty (render (data spec_rows) (nz 800))) =
    Some ("translate(0," ++ NumberToString.Z_to_string (15 * (Z.of_nat (length (data spec_rows)) - 1) + 75) ++ ")")).
Proof.
  assert (render (data spec_rows) (nz 800) = inr (view_or_empty (render (data spec_rows) (nz 800)))) as E
    by (vm_compute; reflexivity).
  split; [exact E|]. apply (render_geometry _ _ _ E).
Defined.

Lemma color_extremes_witness :
  color (setup_or_empty (hd no_series (data late_rows) :: tl (data late_rows)) (nz 800))
        (sum (hd no_series (data late_rows))) = Some (Some "rgb(85, 34, 85)") /\
  color (setup_or_empty (hd no_series (data late_rows) :: tl (data late_rows)) (nz 800))
        (sum (last (hd no_series (data late_rows) :: tl (data late_rows)) (hd no_series (data late_rows)))) =
    Some (Some "rgb(255, 170, 102)").
Proof.
  apply (color_extremes (hd no_series (data late_rows)) (tl (data late_rows)) (nz 800)
    (setup_or_empty (hd no_series (data late_rows) :: tl (data late_rows)) (nz 800)) 20 1); [vm_compute; reflexivity..|lra].
Defined.

Lemma color_ties_witness :
  color (setup_or_empty (hd no_series (data spec_rows) :: tl (data spec_rows)) (nz 800)) (Fin 10) =
    Some (Some "rgb(119, 43, 94)").
Proof.
  apply (color_ties (hd no_series (data spec_rows)) (tl (data spec_rows)) (nz 800)
    (setup_or_empty (hd no_series (data spec_rows) :: tl (data spec_rows)) (nz 800)) 10); [vm_compute; reflexivity..|reflexivity].
Defined.

Lemma y_bounds_witness :
  exists q, y (setup_or_empty (data spec_rows) (nz 800))
              (value (hd (Build_Datum None NaN NaN) (values (hd no_series (data spec_rows))))) = Some (Fin q) /\
            (-75 <= q <= 0)%Q.
Proof.
  apply (y_bounds (data spec_rows) (nz 800) (setup_or_empty (data spec_rows) (nz 800))
    (hd no_series (data spec_rows))); vm_compute; [reflexivity|reflexivity|left; reflexivity..].
Defined.

(** The paths of the specification's example: A's two records give a
    quadrilateral from its line down to the baseline; B, a single record,
    gives a zero-width area and a line that is one closed point. *)
Example spec_paths :
  match data spec_rows with
  | [a; b] =>
      let st := setup_or_empty (data spec_rows) (nz 800) in
      cmds_beq (path_cmds (area st (values a)))
        [MoveTo (nz 0) (Fin (-45 # 2)); LineTo (nz 672) (Fin (-105 # 2)); LineTo (nz 672) (nz 0);
         LineTo (nz 0) (nz 0); ClosePath] &&
      cmds_beq (path_cmds (line st (values a))) [MoveTo (nz 0) (Fin (-45 # 2)); LineTo (nz 672) (Fin (-105 # 2))] &&
      cmds_beq (path_cmds (area st (values b))) [MoveTo (nz 0) (nz (-75)); LineTo (nz 0) (nz 0); ClosePath] &&
      cmds_beq (path_cmds (line st (values b))) [MoveTo (nz 0) (nz (-75)); ClosePath]
  | _ => false
  end = true.
Proof. vm_compute. reflexivity. Qed.

Lemma ridge_in_band_witness :
  ys_in (-75) 0 (path_cmds (area (setup_or_empty (data spec_rows) (nz 800)) (values (hd no_series (data spec_rows))))) /\
  ys_in (-75) 0 (path_cmds (line (setup_or_empty (data spec_rows) (nz 800)) (values (hd no_series (data spec_rows))))).
Proof.
  apply (ridge_in_band (data spec_rows) (nz 800)); vm_compute; [reflexivity|reflexivity|left; reflexivity].
Defined.
Lemma y_all_zero_witness :
  exists q, y (setup_or_empty (data zero_rows) (nz 800)) (Fin 5) = Some (Fin q) /\ (q == -75 # 2)%Q.
Proof. apply (y_all_zero (data zero_rows) (nz 800) _ 0); [vm_compute; reflexivity..|reflexivity]. Defined.

End ChartExamples.
