(* ===== verification/Axis.v ===== *)
(** The value axis of src/main.js (lines 75-84, 113-118):
    [d3.axisLeft(y).ticks(4).tickSizeOuter(0)], then the axis' domain path
    and its first tick removed ([g.select(".tick").remove()]), after
    d3-axis 1.0 and d3-format 1.4 (the releases of d3 v5).

    - the tick values are [y.ticks(4)], d3's [ticks] over the y domain
      ([D3Ticks]); the first one, [0] when the largest value is positive,
      is removed;
    - each tick is placed by [translate(0, y(d) + 0.5)] (d3-axis 1.0 adds
      half a pixel);
    - each label is [y.tickFormat(4)(d)]: the specifier [",f"] with the
      precision [precisionFixed(tickStep(...))] (0 for a step of at least
      1, one decimal for a step of 0.5 or 0.1, ...): [toFixed]'s digits
      with a comma every three digits before the point.  The labels of
      negative ticks (whose minus sign depends on the d3-format release)
      and of ticks from [10^21] on (which [toFixed] prints in exponent
      form) are not modelled ([None]).

    The time axis of lines 65-73 and 111-114,
    [d3.axisBottom(x).ticks(width / 80).tickSizeOuter(0)] with its domain
    path removed, is module [XAxis]: its ticks are [x.ticks(width / 80)]
    of [scaleUtc] ([D3ScaleTime.time_ticks]), each placed by
    [translate(x(t) + 0.5, 0)] and labelled by the scale's multi-scale
    [tickFormat]. *)

From Stdlib Require Import QArith Qround Qminmax Qabs Qpower Lqa ZArith String Ascii List Lia.
From S2P Require Import Prelude JsNum NumParse D3Array Ticks JsDate Time TimeScale Process Scale Chart.
Import ListNotations.
Open Scope num_scope.

Module YAxis.
Import Process Chart D3Ticks NumberToString.

(** [.ticks(4)] *)
Definition tick_count : Z := 4.

(** [y.ticks(4)]: [ticks(domain[0], domain[1], 4)]. *)
Definition y_ticks (st : Setup) : list num :=
  ticks (nth 0 (y_domain st) NaN) (nth 1 (y_domain st) NaN) tick_count.

(** formatGroup with [grouping = [3]] and [thousands = ","] on the digits
    read from the right: a comma before every fourth digit. *)
Fixpoint commas (k : nat) (rds : list ascii) : list ascii :=
  match rds with
  | [] => []
  | c :: r => if Nat.eqb k 3 then ","%char :: c :: commas 1 r else c :: commas (S k) r
  end.

(** [precisionFixed(step)]: [Math.max(0, -exponent(Math.abs(step)))],
    [exponent] the decimal exponent [toExponential] prints ([0] for [0]); a
    step that is not finite has a NaN exponent and leaves the precision at
    its default 6; [format] clamps the precision of ["f"] to [[0, 20]]. *)
Definition label_precision (step : num) : nat :=
  Z.to_nat (Z.min 20 (match step with
                      | Fin q => if Qeq_bool q 0 then 0 else Z.max 0 (- floor_log10 (Qabs q))
                      | _ => 6
                      end)).

Definition is_digit (c : ascii) : bool :=
  Nat.leb 48 (nat_of_ascii c) && Nat.leb (nat_of_ascii c) 57.

(** d3-format's [maybeSuffix] split: the characters before the first one
    that is not a digit, and the rest (whose ["."] is printed as
    [locale.decimal], ["."] in en-US). *)
Fixpoint split_digits (l : list ascii) : list ascii * list ascii :=
  match l with
  | c :: r => if is_digit c then let '(a, b) := split_digits r in (c :: a, b) else ([], l)
  | [] => ([], [])
  end.

(** [format(",." + p + "f")] of [0 <= x < 10^21]: [x.toFixed(p)], with the
    digits before the point grouped by three ([group(value, Infinity)]). *)
Definition format_fixed (p : nat) (x : Q) : string :=
  let '(ip, rest) := split_digits (list_ascii_of_string (to_fixed p x)) in
  string_of_list_ascii (rev (commas 0 (rev ip)) ++ rest).

(** [y.tickFormat(4)]: d3-scale's [tickFormat(d[0], d[1], 4)], the
    specifier [",f"] with the precision [precisionFixed(tickStep(d[0],
    d[1], 4))], on a tick [0 <= t < 10^21].  A negative tick (printed with
    the locale's minus sign) and a larger one ([toFixed] prints it in
    exponent form) are not modelled. *)
Definition tick_label (st : Setup) (t : num) : option string :=
  let step := tick_step (nth 0 (y_domain st) NaN) (nth 1 (y_domain st) NaN) (nz tick_count) in
  match t with
  | Fin q => if Qle_bool 0 q && negb (Qle_bool (inject_Z (10 ^ 21)) q)
             then Some (format_fixed (label_precision step) q) else None
  | _ => None
  end.

(** One tick of the axis: its value, the offset of its [translate] and
    its label. *)
Record Tick : Type := { tick_value : num; tick_offset : num; tick_text : option string }.

(** The ticks left after [g.select(".tick").remove()], which removes the
    first one. *)
Definition y_axis (st : Setup) : list Tick :=
  map (fun t => {| tick_value := t; tick_offset := number_of (y st t) + Fin (1 # 2);
                   tick_text := tick_label st t |})
      (tl (y_ticks st)).

End YAxis.


(** The time axis of lines 65-73: [d3.axisBottom(x).ticks(width /
    80).tickSizeOuter(0)] and its domain path removed.  d3-axis calls
    [x.ticks(width / 80)] and [x.tickFormat(width / 80)] (the multi-scale
    format), and places each tick by [translate(x(d) + 0.5, 0)]. *)
Module XAxis.
Import Chart Continuous D3ScaleTime YAxis.

(** [width / 80] *)
Definition x_tick_count (st : Setup) : num := width st / nz 80.

(** [x.ticks(width / 80)] on the TimeClip'd domain the scale keeps. *)
Definition x_ticks (st : Setup) : list Z := time_ticks (map time_clip (x_domain st)) (x_tick_count st).

Definition x_axis (st : Setup) : list Tick :=
  map (fun t => {| tick_value := nz t; tick_offset := number_of (x st (nz t)) + Fin (1 # 2);
                   tick_text := tick_format t |})
      (x_ticks st).

End XAxis.

Module YAxisFacts.
Import Process Chart ChartFacts D3Ticks D3TicksFacts Continuous ContinuousFacts StringToNumber NumberToString
  NumParseFacts YAxis.

(** The label without its group separators. *)
Definition strip_commas (s : string) : string :=
  string_of_list_ascii (filter (fun c => negb (Ascii.eqb c ","%char)) (list_ascii_of_string s)).

Lemma commas_filter k l :
  filter (fun c => negb (Ascii.eqb c ","%char)) (commas k l) = filter (fun c => negb (Ascii.eqb c ","%char)) l.
Proof.
  revert k. induction l as [|c l IH]; intros k; simpl; [reflexivity|].
  destruct (Nat.eqb k 3); simpl; rewrite IH; reflexivity.
Qed.

Lemma digit_char_is_digit d : (0 <= d <= 9)%Z ->
  is_digit (digit_char d) = true /\ Ascii.eqb (digit_char d) ","%char = false.
Proof.
  intros H. apply digit_char_In in H. cbn in H.
  repeat destruct H as [<- | H]; try (split; reflexivity). destruct H.
Qed.

Lemma digit_chars ds : Forall (fun d => 0 <= d <= 9)%Z ds ->
  Forall (fun c => is_digit c = true /\ Ascii.eqb c ","%char = false) (map digit_char ds).
Proof. intros H. apply Forall_map. eapply Forall_impl; [|exact H]. apply digit_char_is_digit. Qed.

Lemma nat_chars_digits n : (0 <= n)%Z ->
  Forall (fun c => is_digit c = true /\ Ascii.eqb c ","%char = false) (nat_chars n).
Proof.
  intros Hn. apply digit_chars. apply (Z_digits_spec (digits_fuel n) n).
  split; [exact Hn|apply digits_fuel_enough, Hn].
Qed.

Lemma split_digits_app l tail :
  Forall (fun c => is_digit c = true) l -> (tail = [] \/ exists r, tail = "."%char :: r) ->
  split_digits (l ++ tail) = (l, tail).
Proof.
  intros Hl Ht. induction Hl as [|c l Hc _ IH]; cbn.
  - destruct Ht as [-> | [r ->]]; reflexivity.
  - rewrite Hc, IH. reflexivity.
Qed.

(** [toFixed] prints digits, then nothing or a point and digits. *)
Lemma to_fixed_chars p x : (0 <= x)%Q ->
  exists a tail, list_ascii_of_string (to_fixed p x) = nat_chars a ++ tail /\ (0 <= a)%Z /\
    (tail = [] \/ exists r, tail = "."%char :: r) /\ Forall (fun c => Ascii.eqb c ","%char = false) tail.
Proof.
  intros Hx. pose proof (to_fixed_round_nonneg p x Hx) as Hn. unfold to_fixed.
  set (n := Qfloor _) in *. rewrite list_ascii_of_string_of_list_ascii. destruct p as [|g].
  - exists n, []. rewrite app_nil_r. auto.
  - exists (n / 10 ^ Z.of_nat (S g))%Z, ("."%char :: map digit_char (low_digits (S g) n)).
    split; [reflexivity|]. split; [apply Z.div_pos; [exact Hn|apply Z.pow_pos_nonneg; lia]|].
    split; [right; eexists; reflexivity|]. constructor; [reflexivity|].
    destruct (low_digits_spec (S g) n Hn) as (HF & _ & _).
    eapply Forall_impl; [|apply digit_chars, HF]. intros c [_ Hc]. exact Hc.
Qed.

(** Removing the separators of a label gives back [toFixed]'s string. *)
Lemma strip_format_fixed p x : (0 <= x)%Q -> strip_commas (format_fixed p x) = to_fixed p x.
Proof.
  intros Hx. destruct (to_fixed_chars p x Hx) as (a & tail & E & Ha & Ht & Hc).
  pose proof (nat_chars_digits a Ha) as Hd.
  assert (Hl : Forall (fun c => is_digit c = true) (nat_chars a))
    by (eapply Forall_impl; [|exact Hd]; intros c [H _]; exact H).
  unfold format_fixed, strip_commas. rewrite E, (split_digits_app _ _ Hl Ht).
  rewrite list_ascii_of_string_of_list_ascii, filter_app, filter_rev, commas_filter, filter_rev, rev_involutive.
  rewrite Forall_forall in Hc, Hd.
  rewrite !filter_all by (intros c Hin; first [rewrite (Hc c Hin) | destruct (Hd c Hin) as [_ ->]]; reflexivity).
  rewrite <- E, string_of_list_ascii_of_string. reflexivity.
Qed.

(** A label of a number with at most [p] decimals reads back as it. *)
Lemma format_fixed_readback p x m : (0 <= x)%Q -> (x * inject_Z (10 ^ Z.of_nat p) == inject_Z m)%Q ->
  to_number (strip_commas (format_fixed p x)) ≈ Fin x.
Proof.
  intros Hx Hm. rewrite strip_format_fixed, to_fixed_parses by exact Hx.
  rewrite (Qfloor_comp _ (inject_Z m + (1 # 2))) by (rewrite Hm; reflexivity).
  rewrite Qfloor_half. cbn [num_eq]. rewrite scale10_spec, <- Hm.
  assert (E : (inject_Z (10 ^ Z.of_nat p) * 10 ^ (- Z.of_nat p) == 1)%Q).
  { rewrite Zpower_Qpower, Qpower_opp by lia. change (inject_Z 10) with 10. field.
    apply Qpower_not_0. discriminate. }
  rewrite <- Qmult_assoc, E. ring.
Qed.

Lemma setup_y_domain data w st :
  setup data w = inr st -> y_domain st = [nz 0; number_of (max_value data)].
Proof.
  unfold setup. destruct data as [|d0 rest]; [discriminate|].
  destruct (values d0); [discriminate|]. intros H. injection H as <-. reflexivity.
Qed.

Lemma setup_max data w st :
  setup data w = inr st -> plottable data = true -> exists m, max_value data = Some (Fin m) /\ (0 <= m)%Q.
Proof.
  intros Hs Hp. destruct data as [|d0 rest]; [discriminate|].
  destruct (values d0) as [|v0 vs] eqn:Ev; [unfold setup in Hs; rewrite Ev in Hs; discriminate|].
  assert (In v0 (values d0)) as Hv by (rewrite Ev; left; reflexivity).
  destruct (plottable_value _ d0 v0 Hp (or_introl eq_refl) Hv) as (q & Eq & Hq).
  destruct (max_value_bound _ d0 v0 q Hp (or_introl eq_refl) Hv Eq) as (m & Em & _ & Hm). eauto.
Qed.

Lemma Forall_tl {A} (P : A -> Prop) l : Forall P l -> Forall P (tl l).
Proof. destruct 1; simpl; auto. Qed.

(** C21: The value axis stays in the band of the hovered series: for a chart
    whose values are finite and not negative, every tick left on the axis
    is a value of the y domain, mapped by [y] into [[-75, 0]]. *)
Theorem y_axis_in_band data w st :
  setup data w = inr st -> plottable data = true ->
  Forall (fun tk => exists q, y st (tick_value tk) = Some (Fin q) /\ (-75 <= q <= 0)%Q) (y_axis st).
Proof.
  intros Hs Hp. destruct (setup_max _ _ _ Hs Hp) as (m & Em & Hm).
  unfold y_axis, y_ticks. rewrite (setup_y_domain _ _ _ Hs), Em. cbn [nth number_of nz ticks].
  apply Forall_map, Forall_tl, Forall_map.
  apply (@Forall_impl _ (fun t => Qmin (inject_Z 0) m <= t <= Qmax (inject_Z 0) m)); [|apply ticks_Q_in].
  intros t Ht. cbn [tick_value].
  rewrite Q.min_l, Q.max_r in Ht by (unfold inject_Z; lra).
  rewrite (setup_y _ _ _ Hs), Em. cbn [number_of].
  destruct (scale_linear_within (inject_Z 0) m (inject_Z 0) (- inject_Z 75) t) as (q & Eq & Hq);
    [unfold inject_Z in *; lra|exact Ht|].
  exists q. split; [exact Eq|]. rewrite Q.min_r, Q.max_l in Hq by (unfold inject_Z; lra).
  unfold inject_Z in Hq. lra.
Qed.
(** The precision of a step [k * 10^e] ([k] = 1, 2 or 5, [e >= -20]) is
    [max(0, -e)]. *)
Lemma label_precision_step s k e :
  (s == inject_Z k * 10 ^ e)%Q -> (k = 1 \/ k = 2 \/ k = 5)%Z -> floor_log10 s = e -> (-20 <= e)%Z ->
  Z.of_nat (label_precision (Fin s)) = Z.max 0 (- e).
Proof.
  intros Es Hk He H20. pose proof (pow10_pos e).
  assert (Hs : (0 < s)%Q) by (rewrite Es; destruct Hk as [-> | [-> | ->]]; unfold inject_Z; lra).
  unfold label_precision.
  replace (Qeq_bool s 0) with false by (symmetry; apply not_true_iff_false; intros E%Qeq_bool_eq; lra).
  rewrite (floor_log10_Qeq s (Qabs s) Hs (Qeq_sym _ _ (Qabs_pos s ltac:(lra)))), He.
  rewrite Z2Nat.id; lia.
Qed.

(** A multiple of such a step, times [10^p] for [p >= -e], is an integer. *)
Lemma step_multiple_integral s k e n p :
  (s == inject_Z k * 10 ^ e)%Q -> (- e <= Z.of_nat p)%Z ->
  (inject_Z n * s * inject_Z (10 ^ Z.of_nat p) == inject_Z (n * k * 10 ^ (e + Z.of_nat p)))%Q.
Proof.
  intros Es Hp. rewrite Es, !inject_Z_mult, !Zpower_Qpower by lia. change (inject_Z 10) with 10.
  rewrite Qpower_plus by lra. ring.
Qed.

(** C22: Round trip of the value axis' labels: for a chart whose largest
    value [m] lies in [[4e-20, 1e21)], every tick left on the axis has a
    label, and the label, read back by [+] once its thousands separators
    are removed, is the tick's value; a fractional step is printed with
    [precisionFixed(step)] decimals, enough for every tick. *)
Theorem y_labels_roundtrip data w st m :
  setup data w = inr st -> max_value data = Some (Fin m) ->
  (4 * 10 ^ (-20) <= m)%Q -> (m < inject_Z (10 ^ 21))%Q ->
  Forall (fun tk => exists s, tick_text tk = Some s /\ to_number (strip_commas s) ≈ tick_value tk) (y_axis st).
Proof.
  intros Hs Hm Hlo Hhi. pose proof (pow10_pos (-20)) as P20.
  assert (Hpos : (inject_Z 0 < m)%Q) by (unfold inject_Z; lra).
  unfold y_axis, y_ticks, tick_label, tick_count. rewrite (setup_y_domain _ _ _ Hs), Hm.
  cbn [nth number_of]. change (nz 0) with (Fin (inject_Z 0)). cbn [ticks].
  destruct (ticks_Q_multiple (inject_Z 0) m 4 Hpos ltac:(lia)) as (s & Es & Hmul). rewrite Es.
  pose proof (tick_step_Fin (inject_Z 0) m 4 Hpos ltac:(lia)) as E2. cbv zeta in E2.
  set (q := (Qabs (m - inject_Z 0) / inject_Z 4)%Q) in E2. rewrite Es in E2. injection E2 as E2.
  destruct (tick_step_shape s) as (k & Ek & Hk).
  { eexists _, _. split; [rewrite E2; reflexivity|apply tick_factor_cases]. }
  assert (He : (-20 <= floor_log10 s)%Z).
  { assert (Hq : (10 ^ (-20) <= q)%Q).
    { unfold q. rewrite Qabs_pos by (unfold inject_Z in *; lra).
      apply Qle_shift_div_l; [reflexivity|]. unfold inject_Z in *. lra. }
    pose proof (floor_log10_ge q (-20) Hq).
    pose proof (tick_factor_ge_1 (q / 10 ^ floor_log10 q)). pose proof (pow10_pos (floor_log10 q)).
    assert (10 ^ floor_log10 q <= s)%Q by (rewrite E2; nra).
    pose proof (floor_log10_ge s (floor_log10 q) H2). lia. }
  pose proof (label_precision_step s k (floor_log10 s) Ek Hk eq_refl He) as Hp.
  apply Forall_map, Forall_tl, Forall_map, Forall_forall. intros t Ht.
  pose proof (ticks_Q_in (inject_Z 0) m 4) as Hin. rewrite Forall_forall in Hin, Hmul.
  destruct (Hin t Ht) as [H1 H2]. rewrite Q.min_l in H1 by lra. rewrite Q.max_r in H2 by lra.
  destruct (Hmul t Ht) as (n & En). cbn [tick_text tick_value].
  replace (Qle_bool 0 t && negb (Qle_bool (inject_Z (10 ^ 21)) t)) with true.
  2:{ symmetry. apply andb_true_iff. split; [apply Qle_bool_iff; unfold inject_Z in H1; lra|].
      apply negb_true_iff, not_true_iff_false. intros Hc%Qle_bool_iff. lra. }
  eexists. split; [reflexivity|].
  apply (format_fixed_readback _ _ (n * k * 10 ^ (floor_log10 s + Z.of_nat (label_precision (Fin s)))));
    [unfold inject_Z in H1; lra|].
  rewrite En. apply step_multiple_integral; [exact Ek|lia].
Qed.
End YAxisFacts.


Module XAxisFacts.
Import Process Chart Continuous ContinuousFacts D3ScaleTime D3ScaleTimeFacts YAxis XAxis.

Lemma setup_x_range data w st : setup data w = inr st -> x_range st = [nz 0; width st].
Proof.
  unfold setup. destruct data as [|d0 rest]; [discriminate|].
  destruct (values d0); [discriminate|]. intros H. injection H as <-. reflexivity.
Qed.

(** C15: The time axis stays on the chart: for a domain of valid dates in
    increasing order and a non-negative width, every tick of the time axis
    is translated to [x(t) + 0.5] with [x(t)] in [[0, width]]. *)
Theorem x_axis_in_range data w st z0 z1 wq :
  setup data w = inr st -> map time_clip (x_domain st) = [nz z0; nz z1] -> (z0 <= z1)%Z ->
  width st = Fin wq -> (0 <= wq)%Q ->
  Forall (fun tk => exists q, tick_offset tk = Fin q /\ ((1 # 2) <= q <= wq + (1 # 2))%Q) (x_axis st).
Proof.
  intros Hs Hd Hle Hw Hwq. unfold x_axis, x_ticks. rewrite Hd. apply Forall_map, Forall_forall.
  intros t Ht. destruct (time_ticks_boundaries [nz z0; nz z1] (x_tick_count st) z0 z1 eq_refl eq_refl Hle)
    as [_ HI].
  apply HI in Ht as [Hr _]. cbn [tick_offset]. unfold x, scale_utc. rewrite Hd, (setup_x_range _ _ _ Hs), Hw.
  change (apply interpolate_number NaN [nz z0; nz z1] [nz 0; Fin wq] (nz t))
    with (scale_linear [Fin (inject_Z z0); Fin (inject_Z z1)] [Fin 0; Fin wq] (Fin (inject_Z t))).
  destruct (scale_linear_within (inject_Z z0) (inject_Z z1) 0 wq (inject_Z t)) as (q & Eq & Hq).
  - rewrite <- Zle_Qle. exact Hle.
  - rewrite <- !Zle_Qle. lia.
  - rewrite Eq. exists (q + (1 # 2))%Q. split; [reflexivity|].
    rewrite Q.min_l, Q.max_r in Hq by exact Hwq. lra.
Qed.
Lemma setup_width data w st : setup data w = inr st -> width st = w - left margin - right margin.
Proof.
  unfold setup. destruct data as [|d0 rest]; [discriminate|].
  destruct (values d0); [discriminate|]. intros H. injection H as <-. reflexivity.
Qed.

(** C24: An element no wider than the margins (112 + 16 pixels) leaves the
    chart a width that is not positive, so [x.ticks(width / 80)] asks for a
    count that is not positive: [tickInterval] is [null] and the time axis
    has no ticks at all. *)
Theorem x_axis_narrow data cw st z0 z1 :
  setup data (Fin cw) = inr st -> (cw <= 128)%Q -> map time_clip (x_domain st) = [nz z0; nz z1] ->
  x_axis st = [].
Proof.
  intros Hs Hw Hd. unfold x_axis, x_ticks, x_tick_count. rewrite Hd, (setup_width _ _ _ Hs).
  assert (E : ((Fin cw - left margin - right margin) / nz 80)%num = Fin ((cw - 112 - 16) / 80)).
  { cbn [margin left right]. unfold nz. rewrite !sub_Fin, div_Fin by (vm_compute; discriminate).
    reflexivity. }
  rewrite E, time_ticks_no_count; [reflexivity|].
  apply Qle_shift_div_r; [reflexivity|]. lra.
Qed.

Lemma setup_x_domain d0 rest w st v0 vs :
  setup (d0 :: rest) w = inr st -> values d0 = v0 :: vs ->
  x_domain st = [date v0; date (last (v0 :: vs) v0)].
Proof. unfold setup; intros H E; rewrite E in H; injection H as <-; reflexivity. Qed.

(** C36: The x domain is the first and last date of [data[0]] only (lines
    40-43): a date of any series before the first or after the last date
    of the first series is drawn outside the chart area [[0, width]]. *)
Theorem x_outside_range d0 rest w st v0 vs z0 z1 wq t :
  setup (d0 :: rest) w = inr st -> values d0 = v0 :: vs ->
  time_clip (date v0) = nz z0 -> time_clip (date (last (v0 :: vs) v0)) = nz z1 -> (z0 < z1)%Z ->
  width st = Fin wq -> (0 < wq)%Q -> (t < z0 \/ z1 < t)%Z ->
  exists q, x st (nz t) = Some (Fin q) /\ (q < 0 \/ wq < q)%Q.
Proof.
  intros Hs Hv H0 H1 Hlt Hw Hwq Ht; unfold x, scale_utc.
  rewrite (setup_x_domain _ _ _ _ _ _ Hs Hv); cbn [map]; rewrite H0, H1, (setup_x_range _ _ _ Hs), Hw.
  change (apply interpolate_number NaN [nz z0; nz z1] [nz 0; Fin wq] (nz t))
    with (scale_linear [Fin (inject_Z z0); Fin (inject_Z z1)] [Fin 0; Fin wq] (Fin (inject_Z t))).
  assert (NE : ~ (inject_Z z0 == inject_Z z1)) by (rewrite inject_Z_injective; lia).
  destruct (scale_linear_affine (inject_Z z0) (inject_Z z1) 0 wq (inject_Z t) NE) as (q & Eq & Hq).
  exists q; split; [exact Eq|].
  assert (Z01 : inject_Z z0 < inject_Z z1) by (rewrite <- Zlt_Qlt; exact Hlt).
  destruct Ht as [Ht|Ht]; rewrite Zlt_Qlt in Ht;
    set (a := inject_Z z0) in *; set (b := inject_Z z1) in *; set (c := inject_Z t) in *;
    assert (Hq' : q * (b - a) == (c - a) * wq) by (rewrite Hq; field; intros E; lra).
  - left; rewrite <- (Qmult_lt_r q 0 (b - a)) by lra; rewrite Hq'; nra.
  - right; rewrite <- (Qmult_lt_r wq q (b - a)) by lra; rewrite Hq'; nra.
Qed.

End XAxisFacts.

Module YAxisExamples.
Import Process ProcessExamples Chart ChartExamples StringToNumber YAxis YAxisFacts.

(** A setup whose y domain is [[0, 5000]]. *)
Definition thousands_setup : Setup :=
  {| svgWidth := NaN; width := NaN; height := NaN; svgHeight := NaN; x_domain := []; x_range := [];
     y_domain := [nz 0; nz 5000]; y_range := [nz 0; nz (-75)]; colorDomain := [] |}.

(** The value axis of the specification's example: ticks 2 to 10 (0 is
    removed); and of a domain up to 5000: labels with a thousands
    separator. *)
Example y_axis_examples :
  map tick_text (y_axis (setup_or_empty (data spec_rows) (nz 800))) =
    [Some "2"; Some "4"; Some "6"; Some "8"; Some "10"]%string /\
  map tick_text (y_axis thousands_setup) =
    [Some "1,000"; Some "2,000"; Some "3,000"; Some "4,000"; Some "5,000"]%string.
Proof. split; vm_compute; reflexivity. Qed.


(** A setup whose y domain is [[0, m]]. *)
Definition domain_setup (m : num) : Setup :=
  {| svgWidth := NaN; width := NaN; height := NaN; svgHeight := NaN; x_domain := []; x_range := [];
     y_domain := [nz 0; m]; y_range := [nz 0; nz (-75)]; colorDomain := [] |}.

(** Fractional steps: [[0, 2]] steps by 0.5, printed with one decimal
    ([",.1f"]), and [[0, 0.3]] by 0.1. *)
Example y_axis_fractional :
  map tick_text (y_axis (domain_setup (nz 2))) = [Some "0.5"; Some "1.0"; Some "1.5"; Some "2.0"]%string /\
  map tick_text (y_axis (domain_setup (Fin (3 # 10)))) = [Some "0.1"; Some "0.2"; Some "0.3"]%string.
Proof. split; vm_compute; reflexivity. Qed.

Lemma y_labels_roundtrip_witness :
  Forall (fun tk => exists s, tick_text tk = Some s /\ to_number (strip_commas s) ≈ tick_value tk)
         (y_axis (setup_or_empty (data spec_rows) (nz 800))).
Proof.
  apply (y_labels_roundtrip (data spec_rows) (nz 800) _ 10);
    [vm_compute; reflexivity|vm_compute; reflexivity|apply Qle_bool_imp_le; vm_compute; reflexivity|
     apply Qlt_alt; vm_compute; reflexivity].
Defined.

Lemma y_axis_in_band_witness :
  Forall (fun tk => exists q, y (setup_or_empty (data spec_rows) (nz 800)) (tick_value tk) = Some (Fin q) /\
                              (-75 <= q <= 0)%Q)
         (y_axis (setup_or_empty (data spec_rows) (nz 800))).
Proof. apply (y_axis_in_band (data spec_rows) (nz 800)); vm_compute; reflexivity. Defined.
End YAxisExamples.

Module XAxisExamples.
Import Process ProcessExamples Chart ChartExamples YAxis XAxis XAxisFacts.

(** The time axis of the specification's example on an 800-pixel-wide
    element: the domain is the first series' dates, 0 and 1000 ms, the
    width 672, so [x.ticks(8.4)] steps by 100 ms; 1970-01-01T00:00Z is
    labelled by its year, the next ticks by their milliseconds and the
    last one by its second. *)
Example x_axis_spec :
  map tick_text (x_axis (setup_or_empty (data spec_rows) (nz 800))) =
    map Some ["1970"; ".100"; ".200"; ".300"; ".400"; ".500"; ".600"; ".700"; ".800"; ".900"; ":01"]%string /\
  Forall2 num_eq (map tick_offset (x_axis (setup_or_empty (data spec_rows) (nz 800))))
    (map (fun k => Fin (Qmake (672 * k + 5) 10)) [0; 1; 2; 3; 4; 5; 6; 7; 8; 9; 10]%Z).
Proof. split; [vm_compute; reflexivity|]. vm_compute. repeat constructor. Qed.

Lemma x_axis_in_range_witness :
  Forall (fun tk => exists q, tick_offset tk = Fin q /\ ((1 # 2) <= q <= 672 + (1 # 2))%Q)
         (x_axis (setup_or_empty (data spec_rows) (nz 800))).
Proof.
  apply (x_axis_in_range (data spec_rows) (nz 800) _ 0 1000); [vm_compute; reflexivity|vm_compute; reflexivity|lia|
    vm_compute; reflexivity|vm_compute; discriminate].
Defined.
Lemma x_axis_narrow_witness : x_axis (setup_or_empty (data spec_rows) (nz 100)) = [].
Proof.
  apply (x_axis_narrow (data spec_rows) (inject_Z 100) _ 0 1000);
    [vm_compute; reflexivity|unfold inject_Z; lra|vm_compute; reflexivity].
Defined.
Lemma x_outside_range_witness :
  exists q, x (setup_or_empty (data late_rows) (nz 800)) (nz 0) = Some (Fin q) /\ (q < 0 \/ 672 < q)%Q.
Proof.
  apply (x_outside_range (hd no_series (data late_rows)) (tl (data late_rows)) (nz 800)
           (setup_or_empty (data late_rows) (nz 800))
           (hd (Build_Datum None NaN NaN) (values (hd no_series (data late_rows))))
           (tl (values (hd no_series (data late_rows)))) 1000 2000 672 0);
    first [vm_compute; reflexivity | lia | lra].
Defined.

End XAxisExamples.
