(* ===== verification/Hover.v ===== *)
(** The interaction of src/main.js (lines 169-187): [mouseenter(d, i)]
    on a series' group fades every other group to opacity 0.1, shows the
    y axis and moves the axis container to the hovered group's baseline;
    [mouseleave] restores every group, hides the y axis and moves the axis
    back to [height].

    The state is what the handlers write: the [opacity] style of each
    group ([None] while no handler has set it, which renders as 1), the
    axis container's [transform] and the y axis' [opacity].  Both handlers
    start a 500 ms transition; the state here is the transitions' target,
    which a later event's transition replaces (d3 interrupts the running
    transition of the same name); the frames on the way are the subject of
    [Transition].  The test [e === d] compares the group's datum with the
    hovered one by reference: the groups are bound to the distinct objects
    of [data], so it holds exactly for the group of index [i].

    [hover_step] is the handlers as a step relation, [reachable] its closure from
    the rendered state; [mode] is the abstract state (nothing hovered, or
    group [i] hovered) and [focus_spec] what each mode shows. *)

From Stdlib Require Import QArith ZArith String List Lia Arith.
From S2P Require Import Prelude JsNum Process Chart.
Import ListNotations.
Open Scope num_scope.
Local Open Scope ridge_scope.

Module Hover.
Import Chart.

Record State : Type := {
  opacities : list (option num);   (* style("opacity") of each group *)
  axis : option string;            (* gAxis.attr("transform") *)
  y_axis_opacity : num             (* gAxis.select(".y").style("opacity") *)
}.

Inductive event : Type :=
| MouseEnter (i : nat)
| MouseLeave.

Section Handlers.
(** The chart's setup and its number of groups. *)
Variable st : Setup.
Variable n : nat.

(** The state the render leaves (lines 107-119). *)
Definition initial : State :=
  {| opacities := repeat None n;
     axis := translate (nz 0) (height st);
     y_axis_opacity := nz 0 |}.

(** [mouseenter(d, i)]: [group.style("opacity", e => e === d ? 1 : 0.1)],
    the axis to [translate(0, i * step + yRangeMax)], the y axis shown. *)
Definition mouseenter (i : nat) (s : State) : State :=
  {| opacities := map (fun j => Some (if Nat.eqb j i then nz 1 else Fin (1 # 10))) (seq 0 n);
     axis := translate (nz 0) (nz (Z.of_nat i) * step + yRangeMax);
     y_axis_opacity := nz 1 |}.

(** [mouseleave()]: every group to opacity 1, the axis back to
    [translate(0, height)], the y axis hidden. *)
Definition mouseleave (s : State) : State :=
  {| opacities := repeat (Some (nz 1)) n;
     axis := translate (nz 0) (height st);
     y_axis_opacity := nz 0 |}.

Definition handle (s : State) (e : event) : State :=
  match e with
  | MouseEnter i => mouseenter i s
  | MouseLeave => mouseleave s
  end.

(** The events a sequence of pointer moves delivers, in order. *)
Definition run (evs : list event) : State := fold_left handle evs initial.

(** The events of the existing groups. *)
Definition valid_event (e : event) : bool :=
  match e with MouseEnter i => Nat.ltb i n | MouseLeave => true end.

Inductive hover_step : State -> State -> Prop :=
| step_enter s i : (i < n)%nat -> hover_step s (mouseenter i s)
| step_leave s : hover_step s (mouseleave s).

Inductive reachable : State -> Prop :=
| reach_init : reachable initial
| reach_step s s' : reachable s -> hover_step s s' -> reachable s'.

(** The abstract state: nothing hovered, or the group of index [i]. *)
Inductive mode : Type :=
| Idle
| Focused (i : nat).

Definition amode (m : mode) (e : event) : mode :=
  match e with MouseEnter i => Focused i | MouseLeave => Idle end.

(** The opacity a group renders with. *)
Definition effective (o : option num) : num := match o with None => nz 1 | Some v => v end.

(** What a mode shows. *)
Definition focus_spec (m : mode) (s : State) : Prop :=
  length (opacities s) = n /\
  match m with
  | Idle =>
      (forall j o, (opacities s).[j] = Some o -> effective o ≈ nz 1) /\
      axis s = translate (nz 0) (height st) /\ y_axis_opacity s ≈ nz 0
  | Focused i =>
      (i < n)%nat /\
      (forall j o, (opacities s).[j] = Some o ->
         effective o ≈ (if Nat.eqb j i then nz 1 else Fin (1 # 10))) /\
      axis s = translate (nz 0) (nz (Z.of_nat i) * step + yRangeMax) /\ y_axis_opacity s ≈ nz 1
  end.
(** The number of groups rendered at full opacity. *)
Definition full_groups (s : State) : nat :=
  length (filter (fun o => eqb (effective o) (nz 1)) (opacities s)).

End Handlers.

End Hover.

Module HoverFacts.
Import Chart ChartFacts Hover.

Section Facts.
Variable st : Setup.
Variable n : nat.

Lemma focus_initial : focus_spec st n Idle (initial st n).
Proof.
  split; [apply repeat_length|]. split; [|split; reflexivity].
  intros j o Hj. rewrite (nth_error_repeat_Some _ _ _ _ Hj). reflexivity.
Qed.

Lemma focus_leave s : focus_spec st n Idle (mouseleave st n s).
Proof.
  split; [apply repeat_length|]. split; [|split; reflexivity].
  intros j o Hj. rewrite (nth_error_repeat_Some _ _ _ _ Hj). reflexivity.
Qed.

Lemma focus_enter i s : (i < n)%nat -> focus_spec st n (Focused i) (mouseenter n i s).
Proof.
  intros Hi. unfold mouseenter. split; [cbn [opacities]; rewrite length_map, length_seq; reflexivity|].
  split; [exact Hi|]. split; [|split; reflexivity].
  intros j o Hj. cbn [opacities] in Hj. rewrite nth_error_map in Hj.
  destruct (nth_error (seq 0 n) j) as [k|] eqn:Ek; [|discriminate]. injection Hj as <-.
  apply nth_error_seq_Some in Ek. subst k. reflexivity.
Qed.

Lemma focus_handle m s e :
  valid_event n e = true -> focus_spec st n (amode m e) (handle st n s e).
Proof.
  destruct e as [i|]; simpl; intros H.
  - apply focus_enter. apply Nat.ltb_lt, H.
  - apply focus_leave.
Qed.

Lemma focus_run_from evs m s :
  forallb (valid_event n) evs = true -> focus_spec st n m s ->
  focus_spec st n (fold_left amode evs m) (fold_left (handle st n) evs s).
Proof.
  revert m s. induction evs as [|e evs IH]; intros m s Hv Hs; simpl in *; [exact Hs|].
  apply andb_true_iff in Hv as [He Hv]. apply IH; [exact Hv|]. apply focus_handle, He.
Qed.
End Facts.

(** C10: Refinement: after any sequence of hover events on existing groups the
    chart shows what the abstract mode reached by the same events
    prescribes: after [mouseenter] on group [i], group [i] at opacity 1,
    the others at 0.1, the axis at group [i]'s baseline and the y axis
    shown; after [mouseleave] (or before any event), every group at
    opacity 1, the axis at [height] and the y axis hidden. *)
Theorem hover_refines st n evs :
  forallb (valid_event n) evs = true ->
  focus_spec st n (fold_left amode evs Idle) (run st n evs).
Proof. intros Hv. apply focus_run_from; [exact Hv|apply focus_initial]. Qed.

(** Every state the handlers can reach shows one of the modes. *)
Theorem reachable_focus st n s : reachable st n s -> exists m, focus_spec st n m s.
Proof.
  induction 1 as [|s s' _ _ Hstep].
  - exists Idle. apply focus_initial.
  - inv Hstep.
    + exists (Focused i). apply focus_enter. assumption.
    + exists Idle. apply focus_leave.
Qed.

Lemma render_setup_groups data w v :
  render data w = inr v -> exists st, setup data w = inr st /\ render_groups st 0 data = inr (groups v).
Proof.
  unfold render. destruct (setup data w) as [e|st]; [discriminate|].
  destruct (render_groups st 0 data) as [e|gvs] eqn:Eg; [discriminate|].
  intros H. injection H as <-. exists st. split; [reflexivity|exact Eg].
Qed.

(** C26: In every state the hover handlers reach, the x axis lies on the
    baseline of one of the drawn groups: the hovered one, or the last one
    when nothing is hovered ([height] is the last group's baseline). *)
Theorem hover_axis_on_group data w v s :
  render data w = inr v ->
  (forall st, setup data w = inr st -> reachable st (length data) s) ->
  exists gv, In gv (groups v) /\ axis s = transform gv.
Proof.
  intros Hr Hreach. destruct (render_setup_groups _ _ _ Hr) as (st & Hs & Hg).
  destruct (render_groups_spec _ _ _ _ Hg) as [HL HT].
  destruct (reachable_focus _ _ _ (Hreach st Hs)) as [[|i] (_ & Hm)].
  - destruct Hm as (_ & Hax & _). destruct data as [|d0 rest]; [discriminate|].
    destruct (nth_error (groups v) (length rest)) as [gv|] eqn:Egv;
      [|apply nth_error_None in Egv; simpl in HL; lia].
    exists gv. split; [eauto with ridge|]. rewrite Hax, (HT _ _ Egv).
    rewrite (translate_int _ _ 0 (15 * (Z.of_nat (length (d0 :: rest)) - 1) + 75))
      by (reflexivity || apply (setup_height _ _ _ Hs)).
    symmetry. apply translate_int; [reflexivity|]. rewrite baseline_int.
    enough (15 * Z.of_nat (0 + length rest) + 75 = 15 * (Z.of_nat (length (d0 :: rest)) - 1) + 75)%Z
      as -> by reflexivity.
    simpl length. lia.
  - destruct Hm as (Hi & _ & Hax & _).
    destruct (nth_error (groups v) i) as [gv|] eqn:Egv; [|apply nth_error_None in Egv; lia].
    exists gv. split; [eauto with ridge|]. rewrite Hax, (HT _ _ Egv). reflexivity.
Qed.

Lemma length_filter_map {A B} (f : B -> bool) (g : A -> B) l :
  length (filter f (map g l)) = length (filter (fun a => f (g a)) l).
Proof. induction l as [|a l IH]; simpl; [reflexivity|]. destruct (f (g a)); simpl; auto. Qed.

Lemma filter_seq_eqb i n : (i < n)%nat -> length (filter (fun j => Nat.eqb j i) (seq 0 n)) = 1%nat.
Proof.
  intros H. replace n with (i + S (n - S i))%nat by lia.
  rewrite seq_app, filter_app, length_app. simpl. rewrite Nat.eqb_refl.
  rewrite filter_none, filter_none; [simpl; lia| |];
    intros j Hj; apply in_seq in Hj; apply Nat.eqb_neq; lia.
Qed.

Lemma full_mouseenter n i s : (i < n)%nat -> full_groups (mouseenter n i s) = 1%nat.
Proof.
  intros H. unfold full_groups, mouseenter. cbn [opacities]. rewrite length_filter_map.
  rewrite <- (filter_seq_eqb i n H). f_equal. apply filter_ext. intros j.
  destruct (Nat.eqb j i); reflexivity.
Qed.

Lemma full_repeat n o : eqb (effective o) (nz 1) = true -> length (filter (fun o => eqb (effective o) (nz 1)) (repeat o n)) = n.
Proof. intros H. induction n as [|n IH]; simpl; [reflexivity|]. rewrite H. simpl. lia. Qed.

(** C11: Safety: the value axis is shown exactly while one series is
    emphasised.  In every reachable state either the y axis is at opacity 1
    and exactly one group is at full opacity, or the y axis is at opacity 0
    and every group is. *)
Theorem hover_safety st n s :
  reachable st n s ->
  (y_axis_opacity s = nz 1 /\ full_groups s = 1%nat) \/ (y_axis_opacity s = nz 0 /\ full_groups s = n).
Proof.
  induction 1 as [|s s' _ _ Hstep].
  - right. split; [reflexivity|]. apply full_repeat. reflexivity.
  - inv Hstep.
    + left. split; [reflexivity|]. apply full_mouseenter; assumption.
    + right. split; [reflexivity|]. apply full_repeat. reflexivity.
Qed.

End HoverFacts.

Module HoverExamples.
Import Process ProcessExamples Chart ChartExamples Hover HoverFacts.

(** Hover group 1, leave, hover group 0, on a chart of two groups. *)
Definition hover_trace : list event := [MouseEnter 1; MouseLeave; MouseEnter 0].

Lemma hover_refines_witness :
  focus_spec (setup_or_empty (data spec_rows) (nz 800)) 2 (fold_left amode hover_trace Idle)
    (run (setup_or_empty (data spec_rows) (nz 800)) 2 hover_trace).
Proof. apply hover_refines. reflexivity. Defined.

Lemma hover_axis_on_group_witness :
  exists gv, In gv (groups (view_or_empty (render (data spec_rows) (nz 800)))) /\
             axis (mouseenter 2 1 (initial empty_setup 2)) = transform gv.
Proof.
  apply (hover_axis_on_group (data spec_rows) (nz 800)); [vm_compute; reflexivity|].
  intros st _. change (length (data spec_rows)) with 2%nat.
  apply (reach_step st 2 (initial st 2)); [apply reach_init|].
  change (mouseenter 2 1 (initial empty_setup 2)) with (mouseenter 2 1 (initial st 2)).
  apply step_enter. lia.
Defined.

Lemma hover_safety_witness :
  (y_axis_opacity (mouseenter 2 1 (initial empty_setup 2)) = nz 1 /\
   full_groups (mouseenter 2 1 (initial empty_setup 2)) = 1%nat) \/
  (y_axis_opacity (mouseenter 2 1 (initial empty_setup 2)) = nz 0 /\
   full_groups (mouseenter 2 1 (initial empty_setup 2)) = 2%nat).
Proof.
  apply (hover_safety empty_setup 2).
  apply (reach_step _ _ (initial empty_setup 2)); [apply reach_init|apply step_enter; lia].
Defined.

End HoverExamples.
