(* ===== verification/Transition.v ===== *)
(** The 500 ms transitions of the hover handlers of src/main.js (lines
    169-187): [d3.transition().duration(500)], then
    [group.transition(t).style("opacity", ...)],
    [gAxis.transition(t).attr("transform", ...)] and
    [.select(".y").style("opacity", ...)], after d3-transition 1.3,
    d3-ease 1.0 and d3-interpolate 1.4 (the releases of d3 v5).

    Each animated value is a [tween]: the value it started from, its
    target and the time the transition was created.  A timer tick
    [elapsed] ms later passes [easeCubicInOut(elapsed / 500)] (1 once
    [elapsed >= 500]) to [interpolateNumber(from, target)].  A new
    transition on an element interrupts the running one, and its tween
    starts from the value the element shows ([styleValue] for a style, the
    attribute for the transform, whose translation d3's
    [interpolateTransformSvg] interpolates as a number).  Time is
    continuous here: the frame at [now] is the one a tick at [now] draws,
    and a transition starts when it is created (d3 starts it on the next
    tick, which is where the values meet).

    [play] runs a timeline of pointer events (with their times) from the
    rendered page; [shown] is the page at a time, as a [Hover.State]. *)

From Stdlib Require Import QArith Qround Lqa ZArith String List Lia Arith.
From S2P Require Import Prelude JsNum Process Scale Chart Hover.
Import ListNotations.
Open Scope num_scope.
Local Open Scope ridge_scope.

Module D3Transition.
Import Continuous.

(** d3-ease's [easeCubicInOut], the default easing of a transition:
    [((t *= 2) <= 1 ? t * t * t : (t -= 2) * t * t + 2) / 2]. *)
Definition cubic_in_out (t : Q) : Q :=
  let t2 := (2 * t)%Q in
  ((if Qle_bool t2 1 then t2 * t2 * t2 else (t2 - 2) * (t2 - 2) * (t2 - 2) + 2) / 2)%Q.

(** [transition.duration(500)] *)
Definition duration : Q := 500.

(** What a tick [elapsed] ms after the transition's creation passes to
    its tweens: [elapsed < duration ? ease(elapsed / duration) : 1]. *)
Definition progress (elapsed : Q) : Q :=
  if Qlt_le_dec elapsed duration then cubic_in_out (elapsed / duration) else 1%Q.

(** An animated style or attribute: the transition's creation time, the
    value its tween starts from and its target. *)
Record tween : Type := { started : Q; from : num; target : num }.

(** The value the tick at [now] sets:
    [interpolateNumber(from, target)(progress)]. *)
Definition value_at (tw : tween) (now : Q) : num :=
  interpolate_number (from tw) (target tw) (Fin (progress (now - started tw))).

(** A transition created at [now] towards [value]: it interrupts the
    running one, and its tween starts from the value shown at [now]. *)
Definition retarget (now : Q) (tw : tween) (value : num) : tween :=
  {| started := now; from := value_at tw now; target := value |}.

(** A value no transition has touched. *)
Definition still (v : num) : tween := {| started := 0; from := v; target := v |}.

End D3Transition.

Module HoverTransition.
Import Chart Hover D3Transition.

(** The animated values of the page: each group's opacity, the axis
    container's vertical translation and the y axis' opacity. *)
Record Display : Type := {
  group_tweens : list tween;
  axis_tween : tween;
  y_axis_tween : tween
}.

Section Timeline.
Variable st : Setup.
Variable n : nat.

(** The page the render leaves: every group at opacity 1 (no style), the
    axis at [height], the y axis at opacity 0 (lines 107-119). *)
Definition initial_display : Display :=
  {| group_tweens := repeat (still (nz 1)) n;
     axis_tween := still (height st);
     y_axis_tween := still (nz 0) |}.

(** The group transitions of a handler: group [j] towards [opacity j]. *)
Definition retarget_groups (now : Q) (d : Display) (opacity : nat -> num) : list tween :=
  map (fun j => retarget now (nth j (group_tweens d) (still (nz 1))) (opacity j)) (seq 0 n).

(** [mouseenter(d, i)] at [now]: the groups towards [e === d ? 1 : 0.1],
    the axis towards [i * step + yRangeMax], the y axis towards 1. *)
Definition enter_at (now : Q) (i : nat) (d : Display) : Display :=
  {| group_tweens := retarget_groups now d (fun j => if Nat.eqb j i then nz 1 else Fin (1 # 10));
     axis_tween := retarget now (axis_tween d) (nz (Z.of_nat i) * step + yRangeMax);
     y_axis_tween := retarget now (y_axis_tween d) (nz 1) |}.

(** [mouseleave()] at [now]: the groups towards 1, the axis towards
    [height], the y axis towards 0. *)
Definition leave_at (now : Q) (d : Display) : Display :=
  {| group_tweens := retarget_groups now d (fun _ => nz 1);
     axis_tween := retarget now (axis_tween d) (height st);
     y_axis_tween := retarget now (y_axis_tween d) (nz 0) |}.

Definition on_event (d : Display) (te : Q * event) : Display :=
  let '(now, e) := te in
  match e with
  | MouseEnter i => enter_at now i d
  | MouseLeave => leave_at now d
  end.

(** A timeline of events, in the order (and at the times) they come. *)
Definition play (evs : list (Q * event)) : Display := fold_left on_event evs initial_display.

(** The page at [now], as the state the handlers write. *)
Definition shown (d : Display) (now : Q) : State :=
  {| opacities := map (fun tw => Some (value_at tw now)) (group_tweens d);
     axis := translate (nz 0) (value_at (axis_tween d) now);
     y_axis_opacity := value_at (y_axis_tween d) now |}.

End Timeline.
End HoverTransition.

Module D3TransitionFacts.
Import Continuous D3Transition.

Lemma cubic_in_out_range t : (0 <= t <= 1)%Q -> (0 <= cubic_in_out t <= 1)%Q.
Proof.
  intros [H0 H1]. unfold cubic_in_out. set (u := (2 * t)%Q).
  destruct (Qle_bool u 1) eqn:E.
  - apply Qle_bool_iff in E. assert (0 <= u)%Q by (unfold u; lra).
    assert (0 <= u * u <= 1)%Q by nra. assert (0 <= u * u * u <= 1)%Q by nra.
    split; [apply Qle_shift_div_l|apply Qle_shift_div_r]; lra.
  - assert (1 < u)%Q by (apply Qnot_le_lt; intros Hu%Qle_bool_iff; congruence).
    assert (u <= 2)%Q by (unfold u; lra). set (v := (u - 2)%Q).
    assert (-1 <= v <= 0)%Q by (unfold v; lra). assert (0 <= v * v <= 1)%Q by nra.
    assert (-1 <= v * v * v <= 0)%Q by nra.
    split; [apply Qle_shift_div_l|apply Qle_shift_div_r]; lra.
Qed.

Lemma progress_range e : (0 <= e)%Q -> (0 <= progress e <= 1)%Q.
Proof.
  intros He. unfold progress, duration. destruct (Qlt_le_dec e 500) as [Hl|]; [|lra].
  apply cubic_in_out_range. split; [apply Qle_shift_div_l; lra|apply Qle_shift_div_r; lra].
Qed.

Lemma progress_end e : (duration <= e)%Q -> progress e = 1%Q.
Proof. intros He. unfold progress. destruct (Qlt_le_dec e duration); [lra|reflexivity]. Qed.

Lemma progress_zero e : (e == 0)%Q -> (progress e == 0)%Q.
Proof.
  intros He. unfold progress, duration, cubic_in_out. destruct (Qlt_le_dec e 500) as [_|]; [|lra].
  assert (E2 : (2 * (e / 500) == 0)%Q) by (rewrite He; reflexivity).
  replace (Qle_bool (2 * (e / 500)) 1) with true by (symmetry; apply Qle_bool_iff; rewrite E2; discriminate).
  rewrite E2. reflexivity.
Qed.

Lemma interpolate_Fin a b t : interpolate_number (Fin a) (Fin b) (Fin t) = Fin (a * (1 - t) + b * t).
Proof. unfold interpolate_number, nz. rewrite sub_Fin, !mul_Fin, add_Fin. reflexivity. Qed.

(** A finite number in [[lo, hi]]. *)
Definition within (lo hi : Q) (v : num) : Prop := exists q, v = Fin q /\ (lo <= q <= hi)%Q.

(** Every frame of a tween lies between its start and its target. *)
Lemma value_at_within lo hi tw now :
  within lo hi (from tw) -> within lo hi (target tw) -> (started tw <= now)%Q ->
  within lo hi (value_at tw now).
Proof.
  intros (a & Ea & Ha) (b & Eb & Hb) Hn. unfold value_at. rewrite Ea, Eb, interpolate_Fin.
  destruct (progress_range (now - started tw)) as [P0 P1]; [lra|].
  eexists; split; [reflexivity|]. set (t := progress _) in *. split; nra.
Qed.

(** From [duration] ms after its creation on, a tween shows its target. *)
Lemma value_at_end tw now a b :
  from tw = Fin a -> target tw = Fin b -> (started tw + duration <= now)%Q -> value_at tw now ≈ Fin b.
Proof.
  intros Ea Eb H. unfold value_at. rewrite Ea, Eb, progress_end by lra. rewrite interpolate_Fin.
  cbn [num_eq]. ring.
Qed.

(** An interrupting transition starts where the interrupted one was. *)
Lemma retarget_start now tw v a b :
  value_at tw now = Fin a -> v = Fin b -> value_at (retarget now tw v) now ≈ Fin a.
Proof.
  intros Ea ->. unfold value_at at 1. cbn [retarget from target started]. rewrite Ea, interpolate_Fin.
  cbn [num_eq]. rewrite (progress_zero (now - now)) by ring. ring.
Qed.
End D3TransitionFacts.

Module HoverTransitionFacts.
Import Process Continuous Chart Hover HoverFacts D3Transition D3TransitionFacts HoverTransition.

(** The times of a timeline: not before [c], in order. *)
Fixpoint timeline_ok (n : nat) (c : Q) (evs : list (Q * event)) : Prop :=
  match evs with
  | [] => True
  | (t, e) :: r => (c <= t)%Q /\ valid_event n e = true /\ timeline_ok n t r
  end.

Fixpoint last_time (c : Q) (evs : list (Q * event)) : Q :=
  match evs with [] => c | (t, _) :: r => last_time t r end.

Lemma last_time_ge n c evs : timeline_ok n c evs -> (c <= last_time c evs)%Q.
Proof.
  revert c. induction evs as [|[t e] r IH]; intros c H; cbn [last_time]; [lra|].
  destruct H as (Ht & _ & Hr). specialize (IH t Hr). lra.
Qed.

Lemma number_to_string_num_eq a b : a ≈ b -> number_to_string a = number_to_string b.
Proof.
  destruct a as [| | |p], b as [| | |q]; cbn [num_eq]; intros E; try contradiction; try reflexivity.
  unfold number_to_string. rewrite (Qfloor_comp p q E).
  destruct (Qeq_bool p (inject_Z (Qfloor q))) eqn:E1, (Qeq_bool q (inject_Z (Qfloor q))) eqn:E2;
    try reflexivity; exfalso.
  - apply Qeq_bool_iff in E1. apply Qeq_bool_neq in E2. apply E2. transitivity p; [symmetry; exact E|exact E1].
  - apply Qeq_bool_iff in E2. apply Qeq_bool_neq in E1. apply E1. transitivity q; [exact E|exact E2].
Qed.

Lemma translate_num_eq a b b' : b ≈ b' -> translate a b = translate a b'.
Proof. intros E. unfold translate. rewrite (number_to_string_num_eq b b' E). reflexivity. Qed.

(** A tween from and towards [[lo, hi]], created by time [c]. *)
Definition tween_ok (lo hi c : Q) (tw : tween) : Prop :=
  within lo hi (from tw) /\ within lo hi (target tw) /\ (started tw <= c)%Q.

Lemma retarget_ok lo hi c now tw v :
  tween_ok lo hi c tw -> (c <= now)%Q -> within lo hi v -> tween_ok lo hi now (retarget now tw v).
Proof.
  intros (Hf & Ht & Hs) Hc Hv. split; [|split; [exact Hv|cbn; lra]].
  apply value_at_within; [exact Hf|exact Ht|lra].
Qed.

Lemma still_ok lo hi c v : (0 <= c)%Q -> within lo hi v -> tween_ok lo hi c (still v).
Proof. intros Hc Hv. split; [exact Hv|split; [exact Hv|cbn; lra]]. Qed.

Lemma within_nz lo hi z : (lo <= inject_Z z <= hi)%Q -> within lo hi (nz z).
Proof. intros H. exists (inject_Z z). split; [reflexivity|exact H]. Qed.

Section Bounds.
Variables (st : Setup) (n : nat) (h : Q).
Hypothesis height_h : height st = Fin h.
Hypothesis height_low : (75 <= h)%Q.
Hypothesis axis_range : forall i, (i < n)%nat -> (inject_Z (Z.of_nat i) * 15 + 75 <= h)%Q.

(** Each group's opacity stays in [[0.1, 1]], the axis between the first
    baseline and [height], the y axis' opacity in [[0, 1]]. *)
Definition display_ok (c : Q) (d : Display) : Prop :=
  length (group_tweens d) = n /\ Forall (tween_ok (1 # 10) 1 c) (group_tweens d) /\
  tween_ok 75 h c (axis_tween d) /\ tween_ok 0 1 c (y_axis_tween d).

Lemma initial_ok : display_ok 0 (initial_display st n).
Proof.
  split; [apply repeat_length|]. split; [apply Forall_forall; intros tw Hin; apply repeat_spec in Hin as ->|].
  - apply still_ok; [lra|]. apply within_nz. unfold inject_Z. lra.
  - split; apply still_ok; try lra; [rewrite height_h; exists h; split; [reflexivity|lra]|].
    apply within_nz. unfold inject_Z. lra.
Qed.

Lemma retarget_groups_ok c now d opacity :
  display_ok c d -> (c <= now)%Q -> (forall j, within (1 # 10) 1 (opacity j)) ->
  length (retarget_groups n now d opacity) = n /\
  Forall (tween_ok (1 # 10) 1 now) (retarget_groups n now d opacity).
Proof.
  intros (Hl & Hg & _) Hc Ho. unfold retarget_groups. rewrite length_map, length_seq. split; [reflexivity|].
  apply Forall_map, Forall_forall. intros j Hj. apply in_seq in Hj.
  apply (retarget_ok _ _ c); [|exact Hc|apply Ho]. rewrite Forall_forall in Hg. apply Hg, nth_In. lia.
Qed.

Lemma on_event_ok c d t e :
  display_ok c d -> (c <= t)%Q -> valid_event n e = true -> display_ok t (on_event st n d (t, e)).
Proof.
  intros Hd Hc Hv. pose proof Hd as (_ & _ & Ha & Hy). destruct e as [i|]; cbn [on_event].
  - apply Nat.ltb_lt in Hv. destruct (retarget_groups_ok c t d (fun j => if Nat.eqb j i then nz 1 else Fin (1 # 10)))
      as [Hl Hg]; [exact Hd|exact Hc|intros j; destruct (Nat.eqb j i); [apply within_nz; unfold inject_Z; lra|eexists; split; [reflexivity|lra]]|].
    split; [exact Hl|split; [exact Hg|split]]; apply (retarget_ok _ _ c); auto.
    + exists (inject_Z (Z.of_nat i) * 15 + 75)%Q. split; [reflexivity|]. split; [|apply axis_range, Hv].
      assert (0 <= inject_Z (Z.of_nat i))%Q by (change 0%Q with (inject_Z 0); rewrite <- Zle_Qle; lia). lra.
    + apply within_nz. unfold inject_Z. lra.
  - destruct (retarget_groups_ok c t d (fun _ => nz 1)) as [Hl Hg]; [exact Hd|exact Hc|intros; apply within_nz; unfold inject_Z; lra|].
    split; [exact Hl|split; [exact Hg|split]]; apply (retarget_ok _ _ c); auto.
    + rewrite height_h. exists h. split; [reflexivity|lra].
    + apply within_nz. unfold inject_Z. lra.
Qed.

Lemma play_from_ok c d evs :
  timeline_ok n c evs -> display_ok c d -> display_ok (last_time c evs) (fold_left (on_event st n) evs d).
Proof.
  revert c d. induction evs as [|[t e] r IH]; intros c d Ht Hd; [exact Hd|].
  destruct Ht as (Hc & Hv & Hr). apply IH; [exact Hr|]. apply (on_event_ok c); assumption.
Qed.
(** What mode [m] shows, as the targets of the tweens. *)
Definition mode_opacity (m : mode) (j : nat) : num :=
  match m with Idle => nz 1 | Focused i => if Nat.eqb j i then nz 1 else Fin (1 # 10) end.
Definition mode_axis (m : mode) : num :=
  match m with Idle => height st | Focused i => nz (Z.of_nat i) * step + yRangeMax end.
Definition mode_y (m : mode) : num := match m with Idle => nz 0 | Focused _ => nz 1 end.
Definition mode_valid (m : mode) : Prop := match m with Idle => True | Focused i => (i < n)%nat end.

(** The running tweens aim at what mode [m] shows. *)
Definition aimed (m : mode) (d : Display) : Prop :=
  (forall j tw, (group_tweens d).[j] = Some tw -> target tw = mode_opacity m j) /\
  target (axis_tween d) = mode_axis m /\ target (y_axis_tween d) = mode_y m.

Lemma retarget_groups_nth now d opacity j tw :
  (retarget_groups n now d opacity).[j] = Some tw ->
  tw = retarget now (nth j (group_tweens d) (still (nz 1))) (opacity j).
Proof.
  unfold retarget_groups. intros H. rewrite nth_error_map in H.
  destruct (nth_error (seq 0 n) j) as [k|] eqn:E; [|discriminate].
  apply nth_error_seq_Some in E. subst k. injection H as <-. reflexivity.
Qed.

Lemma aimed_step m d t e : aimed m d -> aimed (amode m e) (on_event st n d (t, e)).
Proof.
  intros _. destruct e as [i|]; (split; [intros j tw Hj; rewrite (retarget_groups_nth _ _ _ _ _ Hj); reflexivity|]);
    split; reflexivity.
Qed.

Lemma play_aimed evs m d :
  aimed m d -> aimed (fold_left amode (map snd evs) m) (fold_left (on_event st n) evs d).
Proof.
  revert m d. induction evs as [|[t e] r IH]; intros m d H; [exact H|]. apply IH, aimed_step, H.
Qed.

Lemma play_mode_valid evs m c :
  timeline_ok n c evs -> mode_valid m -> mode_valid (fold_left amode (map snd evs) m).
Proof.
  revert m c. induction evs as [|[t e] r IH]; intros m c Ht Hm; [exact Hm|].
  destruct Ht as (_ & Hv & Hr). apply (IH _ t Hr). destruct e; [apply Nat.ltb_lt, Hv|exact I].
Qed.

Lemma tween_settled lo hi c tw now :
  tween_ok lo hi c tw -> (c + duration <= now)%Q -> value_at tw now ≈ target tw.
Proof.
  intros ((a & Ea & _) & (b & Eb & _) & Hs) Hn. rewrite Eb. apply (value_at_end tw now a b Ea Eb). lra.
Qed.

Lemma aimed_initial : aimed Idle (initial_display st n).
Proof.
  split; [intros j tw Hj; apply nth_error_repeat_Some in Hj as ->; reflexivity|split; reflexivity].
Qed.

(** Once every transition has run its 500 ms, the page shows its mode. *)
Lemma display_settled m c d now :
  display_ok c d -> aimed m d -> mode_valid m -> (c + duration <= now)%Q -> focus_spec st n m (shown d now).
Proof.
  intros (Hl & Hg & Ha & Hy) (Tg & Ta & Ty) Hm Hnow.
  assert (G : forall j o, (opacities (shown d now)).[j] = Some o -> effective o ≈ mode_opacity m j).
  { intros j o Hj. cbn [shown opacities] in Hj. rewrite nth_error_map in Hj.
    destruct (nth_error (group_tweens d) j) as [tw|] eqn:E; [|discriminate]. injection Hj as <-.
    cbn [effective]. rewrite <- (Tg j tw E). apply (tween_settled (1 # 10) 1 c); [|exact Hnow].
    rewrite Forall_forall in Hg. apply Hg. eapply nth_error_In. exact E. }
  assert (A : axis (shown d now) = translate (nz 0) (mode_axis m)).
  { cbn [shown axis]. apply translate_num_eq. rewrite <- Ta. apply (tween_settled 75 h c); assumption. }
  assert (Y : y_axis_opacity (shown d now) ≈ mode_y m).
  { cbn [shown y_axis_opacity]. rewrite <- Ty. apply (tween_settled 0 1 c); assumption. }
  split; [cbn [shown opacities]; rewrite length_map; exact Hl|].
  destruct m as [|i]; cbn [mode_y mode_axis mode_opacity mode_valid] in *; auto.
Qed.
End Bounds.

Lemma timeline_app n c evs t e :
  timeline_ok n c (evs ++ [(t, e)]) ->
  timeline_ok n c evs /\ (last_time c evs <= t)%Q /\ valid_event n e = true.
Proof.
  revert c. induction evs as [|[t' e'] r IH]; intros c H; cbn in H |- *.
  - destruct H as (Hc & Hv & _). auto.
  - destruct H as (Hc & Hv & Hr). destruct (IH t' Hr) as (H1 & H2 & H3). auto.
Qed.

(** The height of a chart: [(data.length - 1) * step + yRangeMax], at or
    below which every group's baseline lies. *)
Lemma setup_height_bounds data w st :
  setup data w = inr st -> exists h, height st = Fin h /\ (75 <= h)%Q /\
    forall i, (i < length data)%nat -> (inject_Z (Z.of_nat i) * 15 + 75 <= h)%Q.
Proof.
  unfold setup. destruct data as [|d0 rest]; [discriminate|]. destruct (values d0); [discriminate|].
  intros H. injection H as <-. cbn [height]. eexists. split; [reflexivity|].
  change (Z.pos (Pos.of_succ_nat (length rest))) with (Z.of_nat (length (d0 :: rest))).
  assert (L : (1 <= inject_Z (Z.of_nat (length (d0 :: rest))))%Q)
    by (change 1%Q with (inject_Z 1); rewrite <- Zle_Qle; cbn [length]; lia).
  change (inject_Z 1) with 1%Q. change (inject_Z 15) with 15%Q. change (inject_Z 75) with 75%Q.
  split; [lra|].
  intros i Hi. assert (inject_Z (Z.of_nat i) <= inject_Z (Z.of_nat (length (d0 :: rest))) - 1)%Q.
  { assert (inject_Z (Z.of_nat i + 1) <= inject_Z (Z.of_nat (length (d0 :: rest))))%Q
      by (rewrite <- Zle_Qle; lia).
    rewrite inject_Z_plus in H. change (inject_Z 1) with 1%Q in H. lra. }
  lra.
Qed.
(** C30: Safety of the animation: for a chart and a timeline of pointer
    events on its groups, at every time from the last event on, every
    group's opacity lies in [[0.1, 1]], the y axis' opacity in [[0, 1]]
    and the axis container between the first group's baseline (75) and
    [height]: no frame of a transition, interrupted or not, leaves them. *)
Theorem transition_bounds data w st h evs now :
  setup data w = inr st -> height st = Fin h -> timeline_ok (length data) 0 evs -> (last_time 0 evs <= now)%Q ->
  Forall (fun tw => within (1 # 10) 1 (value_at tw now)) (group_tweens (play st (length data) evs)) /\
  within 75 h (value_at (axis_tween (play st (length data) evs)) now) /\
  within 0 1 (value_at (y_axis_tween (play st (length data) evs)) now).
Proof.
  intros Hs Hh Ht Hn. destruct (setup_height_bounds data w st Hs) as (h' & Hh' & Hlo & Hax).
  rewrite Hh in Hh'. injection Hh' as <-.
  assert (D : display_ok (length data) h (last_time 0 evs) (play st (length data) evs))
    by (unfold play; eapply play_from_ok; eauto using initial_ok).
  destruct D as (_ & Hg & (Af & At & As) & (Yf & Yt & Ys)).
  split; [|split; apply value_at_within; auto; lra].
  eapply Forall_impl; [|exact Hg]. intros tw (Gf & Gt & Gs). apply value_at_within; auto. lra.
Qed.

(** C29: Refinement of the animation by the handlers' targets: from 500 ms
    after the last event of a timeline on, the page shows what the mode
    the events lead to prescribes ([focus_spec]), the state
    [hover_refines] proves the handlers write. *)
Theorem transition_settles data w st evs now :
  setup data w = inr st -> timeline_ok (length data) 0 evs -> (last_time 0 evs + duration <= now)%Q ->
  focus_spec st (length data) (fold_left amode (map snd evs) Idle) (shown (play st (length data) evs) now).
Proof.
  intros Hs Ht Hn. destruct (setup_height_bounds data w st Hs) as (h & Hh & Hlo & Hax).
  eapply display_settled; eauto.
  - unfold play. eapply play_from_ok; eauto using initial_ok.
  - apply play_aimed, aimed_initial.
  - eapply play_mode_valid; [exact Ht|exact I].
Qed.

End HoverTransitionFacts.

Module HoverTransitionExamples.
Import Process ProcessExamples Chart ChartExamples Hover D3Transition D3TransitionFacts HoverTransition
  HoverTransitionFacts.

(** The specification's chart (two groups, height 90), group 1 hovered at
    0 ms and left at 250 ms. *)
Definition spec_setup : Setup := setup_or_empty (data spec_rows) (nz 800).
Definition hover_then_leave : list (Q * event) := [(0%Q, MouseEnter 1); (250%Q, MouseLeave)].

(** Half-way through the first transition group 0 is at opacity 0.55 and
    the axis, which moves back to [height] from 250 ms on, stays put
    (both groups' baselines are at 90 here); at 750 ms every transition
    is over. *)
Example transition_frames :
  value_at (nth 0 (group_tweens (play spec_setup 2 [(0%Q, MouseEnter 1)])) (still (nz 1))) 250 ≈ Fin (11 # 20) /\
  value_at (axis_tween (play spec_setup 2 hover_then_leave)) 750 ≈ nz 90.
Proof. split; vm_compute; reflexivity. Qed.

Lemma timeline_spec : timeline_ok (length (data spec_rows)) 0 hover_then_leave.
Proof. vm_compute. repeat split; discriminate. Qed.

Lemma transition_bounds_witness :
  Forall (fun tw => within (1 # 10) 1 (value_at tw 300)) (group_tweens (play spec_setup 2 hover_then_leave)) /\
  within 75 90 (value_at (axis_tween (play spec_setup 2 hover_then_leave)) 300) /\
  within 0 1 (value_at (y_axis_tween (play spec_setup 2 hover_then_leave)) 300).
Proof.
  apply (transition_bounds (data spec_rows) (nz 800)); [vm_compute; reflexivity|vm_compute; reflexivity|
    exact timeline_spec|vm_compute; discriminate].
Defined.

Lemma transition_settles_witness :
  focus_spec spec_setup 2 (fold_left amode (map snd hover_then_leave) Idle)
    (shown (play spec_setup 2 hover_then_leave) 750).
Proof.
  apply (transition_settles (data spec_rows) (nz 800)); [vm_compute; reflexivity|exact timeline_spec|
    vm_compute; discriminate].
Defined.

End HoverTransitionExamples.
